(* ===== verification/_CoqProject ===== *)
-Q . S2P
Prelude.v
Str.v
Float.v
Ids.v
Model.v
Auth.v
Database.v
Store.v
Repository.v
WebRole.v
Envelope.v
Commands.v
Outbox.v
Interleaving.v
Jetstream.v
Tcp.v
Timing.v
Api.v
Concurrent.v
Linearizable.v
Noninterference.v
Isolation.v
Broadcast.v
Wire.v
Http.v
Transports.v
Flags.v
Telemetry.v
Server.v
Program.v
Contract.v
Conformance.v
