(* ===== verification/Prelude.v ===== *)
(** * Embedded Alerts API server: a verification library

    The server ([src/], Rust) keeps alert rules per product tenant and owner and offers them
    over four transports: HTTP and WebSocket, mTLS/TCP, JetStream commands with an
    inbox/outbox, and a direct SQL contract.  This library models all of its modules as
    executable functions and proves what makes them correct.

    ** Files and what they model

    - [Prelude]: this file; the [Result] type with its monad, [Option] helpers, the tactics
      [inv_ok], [inv_err], [run_ok], and the generic lemmas.
    - [Str], [Float], [Ids]: the parts of the Rust standard library the code uses: strings as
      code points with their UTF-8 bytes, [f32]/[f64] as binary floats with their conversions,
      UUIDs, JSON values and times (nanoseconds since the epoch).
    - [Model]: [src/model.rs]; validation and normalisation of alert rules.
    - [Auth]: [src/auth.rs]; the configuration of the boundary, bearer extraction, and the
      policy check of an introspection answer.
    - [Database]: [migrations/0001_four_mode_transport.sql] and the SQL constants of
      [src/store.rs] and [src/transport.rs]: tables as maps from primary keys to rows, CHECK
      and UNIQUE constraints, one function per statement.
    - [Store]: [src/store.rs]; [AlertStore] over the database or the in-memory map, and its
      abstract specification (what each actor owns).
    - [Repository]: the interface [AlertRepo] with its laws, and [AlertStore] as instance.
    - [WebRole]: the grants and the row level security policy of the migration, and the direct
      query as the web server's role runs it.
    - [Envelope]: [src/transport.rs]; operation envelopes, the signature of commands, the
      acceptance test, and the NATS URL check.
    - [Commands]: [process_command] and [enqueue_reply]; one transaction per command.
    - [Outbox]: [publish_pending] and [PendingOutbox].
    - [Interleaving]: the same transactions statement by statement, many at once on one
      database.
    - [Jetstream]: [spawn_jetstream_from_env], [run_jetstream], and the whole system of
      consumer, publisher and HTTP writers as a step relation.
    - [Tcp]: [MtlsServerConfig], [execute_tcp_operation], the connection loop and the
      connection limit of [run_mtls].
    - [Timing]: the same connections with their timeouts and the time their waits take.
    - [Api]: [src/lib.rs]; the router and handlers over any [AlertRepo], and the WebSocket loop.
    - [Concurrent]: the same handlers as tasks that wait, interleave and may be dropped, under an
      authority that changes what it grants.
    - [Linearizable]: the order in which such requests take effect.
    - [Noninterference]: what the requests of one owner reveal of the others'; the interface
      [AlertRepoViews] with [AlertStore] as instance.
    - [Isolation]: the same for requests that interleave.
    - [Broadcast]: router, broadcast channel and WebSocket loops as one system.
    - [Wire]: the serde derives of the wire types, field by field, on trees of JSON values; they
      instantiate the JSON interfaces of the transports.
    - [Http]: the bodies of requests and responses as bytes.
    - [Transports]: HTTP, TCP, JetStream and direct SQL together: what they say of one database,
      the bytes of a published reply, and listings that are too large.
    - [Flags]: [src/flags.rs] and [src/main.rs]; configuration, redaction and help.
    - [Telemetry]: [src/telemetry.rs]; the lifecycle records and what is forwarded of them.
    - [Server]: [run] and [connect_database] of [src/lib.rs] up to the bound listener, and
      [src/web_api_plane.rs].
    - [Program]: [src/main.rs] and [run] from the arguments to the exit, with the trace of what
      the process does to the outside.
    - [Contract]: [.cli-flags.toml], the configuration contract [src/flags.rs] embeds, and what
      the process reads of its environment.
    - [Conformance]: the unit tests of [src/] and the tests of [tests/four_mode_contract.rs] as
      functions, with the theorems that they pass.

    ** How state and failure are modelled

    State is passed explicitly: [AlertStore] holds the database's tables or the map behind its
    lock, [AppState] the events sent to the broadcast channel, [Bus] the database and the log
    of messages the broker stored, [System] all of it.  In [Jetstream.step] a transaction, a
    statement and the publication of one reply are atomic; their interleaving is the order of
    the steps, where any number of publishing passes overlap with each other, with the consumer
    and with HTTP writers.  [Interleaving] justifies the atomic transaction: its steps are
    single awaits of any number of commands under READ COMMITTED, where an insertion waits for
    the open transactions that hold its keys, and each of them changes the committed database
    as one of the atomic steps does.  [Broadcast.live_step] interleaves requests, upgrades, the
    peers' messages and the receivers of the broadcast channel.  [Api.router] serves a request at
    once, by an authority that does not change; [Concurrent] and [Linearizable] justify it: there a
    handler stops at each await, grants come and go, and every interleaving answers and stores as
    the router does on the requests in some order, each with an authority in force meanwhile.
    A turn of a TCP connection ([Tcp.serve]) finds the store and the authority of its moment.

    Every await that can fail takes its outcome from an argument: a [Link] is up, down, or
    loses the answer of a statement that took effect; a transaction is alive, aborted (the
    server ignores its other statements and rolls back) or broken; a query under a timeout may
    still end at the server.  The clock, [now()] and [Uuid::new_v4()] are arguments too.  The
    theorems quantify over all of them, so they hold for every placement of failures.

    ** Library code

    The NATS server is a part of the statements: [Jetstream.spaced] (it waits [ack_wait] after a
    delivery), [Jetstream.handled_after] (its clock is the handler's), [Jetstream.redeliver] (it
    delivers until an acknowledgement reaches it, to a consumer that runs).  What lies outside
    the repository otherwise is a class whose fields are the calls the code makes:
    [UuidText], [Crypto] (HMAC-SHA256 and hex), [SharedAuth], [Http], [Axum], [Postgres] (the
    conversions of bound parameters and the precision of stored times), [Serde], [ReplyJson],
    [CommandJson], [TcpJson], [EventJson], [NatsCodec], [HashMapIter], [Rustls], [Flags2Env],
    [Toml], [DataPlane], [BroadcastChannel] (tokio's channel), [JsonText] and [JsonScalars]
    (JSON texts, floats and times in them), [UuidCast] (SQL's [text::uuid]), [NextLoggers],
    [AxumLaws] (the extractors on JSON bodies) and [TomlLaws] (how the contract's text parses).
    What a theorem needs of them is a separate class of laws with their documented behaviour
    ([UuidTextLaws], [CryptoLaws], [StorageLaws], [BroadcastLaws], [JsonTextLaws],
    [JsonScalarsLaws], [UuidCastLaws], [NextLoggersLaws]) or a field ([hash_iter_perm],
    [json_extract_f32]).  [ReplyJson], [CommandJson] and [TcpJson] are definitions in
    [Wire], where what goes
    through [serde_json::to_value] has sorted objects and [f64] numbers.  The [Sample...] modules instantiate them all, and the [..._witness] lemmas apply the
    theorems to concrete inputs there.

    ** What the theorems show

    - Isolation: [authorize_introspection_strict], [verify_authorization_iff] (who is let in);
      [list_returns_owned], [api_discloses_owned_only], [tcp_operation_outcomes],
      [published_reply_reads_back], [web_role_reads_own_rows], [clients_see_own_creations] (only
      the owner sees an alert, on every transport; for the last one also
      [broadcast_events_are_owned] and [websocket_delivers_own_events]);
      [only_creations_change_state], [create_refines] (and nobody else changes it);
      [others_do_not_interfere], [foreign_alerts_look_missing] (nor does anybody
      learn of it); [revoked_requests_leave_no_trace] (nor does a
      revoked request change a thing), [concurrent_others_do_not_interfere] (and all of it holds
      of interleaved requests);
      [telemetry_is_bounded] (what the log says).
    - Agreement: [transports_agree] (four transports, one answer); [wire_roundtrip],
      [requests_are_strict] (what JSON says and what is taken from it); [http_create_then_read],
      [http_errors_are_explained] (the same in the bytes of HTTP bodies: what is created is read,
      and every failure has its one cause).
    - Concurrency: [requests_are_linearizable], [requests_can_finish],
      [concurrent_events_are_owned] (interleaved requests are requests in a row);
      [interleaved_steps_atomic] (interleaved transactions are atomic ones),
      [transactions_end] (no deadlock, no endless command); [statements_compose] checks that
      [Commands] and [Interleaving] translate [process_command] alike.
    - Commands: [operation_envelope_iff], [signature_covers_command], [sign_then_verify]
      (what is accepted); [process_command_atomic], [redelivery_idempotent],
      [conversion_decides_commands], [failed_query_has_no_reply] (what one command does);
      [acknowledged_means_answered], [published_replies_authentic] (invariants of every
      reachable state of the system); [consume_refines_steps], [publisher_refines_steps] (the
      executable loops are the consumer and a publisher of the system);
      [redeliveries_never_run] (a command that was handled promptly does not run again).
    - Delivery: [publish_pending_fifo], [publisher_drains_outbox] (order and progress).
    - Storage: [create_refines], [create_then_read] (refinement of the abstract store by both
      backends, round trips through JSON and floats), [validate_accepts_iff],
      [into_rule_normal_form].
    - Time: [connection_time_is_bounded], [permits_return_in_time] (a connection ends and returns
      its permit), [timed_connection_is_connection].
    - Configuration: [run_reads_the_contract], [help_is_the_contract], [from_env_iff],
      [spawn_jetstream_iff], [mtls_all_or_nothing], [run_starts_safely],
      [program_starts_in_order], [resolve_from_precedence],
      [bad_command_line_is_redacted], [option_name_redacts]; limits: [tcp_connection_limit],
      [tcp_connection_answers].
    - Tests: [unit_tests_pass], [contract_tests_pass].
    - Behaviour that falls short of its intent: [get_misses_past_limit],
      [create_database_iff] (long tenants), [redeliveries_never_run] (so a failed one is lost),
      [conversion_decides_commands], [no_conversion_no_answer], [unsendable_head_blocks], [large_listings_are_lost].

    ** Bounds

    The sizes are those of the source: 32 KiB JSON bodies, 64 KiB frames, 256 KiB messages, 15 s
    deadlines, 30 s acknowledgement wait, 8 deliveries, 128 connections, 512 unread events,
    queries of 100 alerts and 50 replies; on a TCP connection 5 s for the handshake and for a
    query, 10 s for a frame and for a send.  Loops are structural recursions over the list of
    their inputs; only the example codec [Wire.Tagged] has fuel, the length of its input, which
    [parse_code] shows to be enough.  A command in progress has at most five awaits
    ([Interleaving.remaining]).  Byte
    lengths, times in milliseconds and seconds are unbounded naturals, saturated to 64 bits
    where the source converts ([unix_ms]).

    ** What is not modelled

    The text of axum's own rejections ([BodyRejection]: their status and their causes are); TLS,
    HTTP parsing, the frame codec, HMAC and JSON texts (library code); the answer of
    [axum::serve] and the signal that ends it (arguments of [Program]); the tracing subscriber's
    output; the web server that sets the session of the direct query (another repository);
    PostgreSQL's indexes and its deadlock detector (no deadlock arises, [transactions_end]);
    the time an introspection takes (its limits are the Shared Auth client's; an argument of
    [Timing]); the test of the data-plane capabilities, which exercises another package only;
    scripts and container files. *)

From stdpp Require Export prelude gmap list sorting strings.
From Stdlib Require Export NArith ZArith Lia.

(** ** The [Result] type of the source *)

Inductive result (E A : Type) : Type :=
| Ok (a : A)
| Err (e : E).
Arguments Ok {E A} a.
Arguments Err {E A} e.

#[global] Instance result_eq_dec `{EqDecision E, EqDecision A} :
  EqDecision (result E A).
Proof. solve_decision. Defined.

#[global] Instance Ok_inj {E A} : Inj (=) (=) (@Ok E A).
Proof. by intros a b [= ->]. Qed.

(** [?] on a [Result]: the first error is the result. *)
#[global] Instance result_ret E : MRet (result E) := λ A a, Ok a.
#[global] Instance result_bind E : MBind (result E) := λ A B f r,
  match r with Ok a => f a | Err e => Err e end.
#[global] Instance result_fmap E : FMap (result E) := λ A B f r,
  match r with Ok a => Ok (f a) | Err e => Err e end.

Definition map_err {E F A} (f : E → F) (r : result E A) : result F A :=
  match r with Ok a => Ok a | Err e => Err (f e) end.
Definition ok {E A} (r : result E A) : option A :=
  match r with Ok a => Some a | Err _ => None end.
Definition ok_or {E A} (o : option A) (e : E) : result E A :=
  match o with Some a => Ok a | None => Err e end.
Definition is_ok {E A} (r : result E A) : bool :=
  match r with Ok _ => true | Err _ => false end.
Definition is_err {E A} (r : result E A) : bool := negb (is_ok r).
Definition is_some {A} (o : option A) : bool :=
  match o with Some _ => true | None => false end.
Definition is_none {A} (o : option A) : bool := negb (is_some o).
(** [Option::filter] with a boolean predicate. *)
Definition opt_filter {A} (p : A → bool) (o : option A) : option A :=
  match o with Some a => if p a then Some a else None | None => None end.
(** [Option::is_none_or]. *)
Definition is_none_or {A} (p : A → bool) (o : option A) : bool :=
  match o with Some a => p a | None => true end.
(** [Option::is_some_and]. *)
Definition is_some_and {A} (p : A → bool) (o : option A) : bool :=
  match o with Some a => p a | None => false end.
(** [iter().collect::<Result<Vec<_>, _>>()]: the first error, in order. *)
Fixpoint collect_results {E A} (l : list (result E A)) : result E (list A) :=
  match l with
  | [] => Ok []
  | r :: l => a ← r; k ← collect_results l; Ok (a :: k)
  end.

Section results.
Context {E A B : Type}.
Implicit Types (r : result E A) (f : A → result E B).

Lemma bind_Ok_iff r f b : r ≫= f = Ok b ↔ ∃ a, r = Ok a ∧ f a = Ok b.
Proof. destruct r as [a|e]; cbn; naive_solver. Qed.
Lemma bind_Err_iff r f e :
  r ≫= f = Err e ↔ r = Err e ∨ ∃ a, r = Ok a ∧ f a = Err e.
Proof. destruct r as [a|e']; cbn; naive_solver. Qed.
Lemma fmap_Ok_iff (g : A → B) r b : g <$> r = Ok b ↔ ∃ a, r = Ok a ∧ b = g a.
Proof. destruct r as [a|e]; cbn; naive_solver. Qed.
Lemma map_err_Ok_iff {F} (g : E → F) r a : map_err g r = Ok a ↔ r = Ok a.
Proof. destruct r; cbn; naive_solver. Qed.
Lemma map_err_Err_iff {F} (g : E → F) r x :
  map_err g r = Err x ↔ ∃ e, r = Err e ∧ x = g e.
Proof. destruct r; cbn; naive_solver. Qed.
Lemma ok_or_Ok_iff (o : option A) (e : E) a : ok_or o e = Ok a ↔ o = Some a.
Proof. destruct o; cbn; naive_solver. Qed.
Lemma ok_or_Err_iff (o : option A) (e e' : E) :
  ok_or o e = Err e' ↔ o = None ∧ e' = e.
Proof. destruct o; cbn; naive_solver. Qed.
Lemma ok_Some_iff r a : ok r = Some a ↔ r = Ok a.
Proof. destruct r; cbn; naive_solver. Qed.
Lemma opt_filter_Some_iff (p : A → bool) o a :
  opt_filter p o = Some a ↔ o = Some a ∧ p a = true.
Proof.
  destruct o as [x|]; cbn; [destruct (p x) eqn:Hp|];
    (split; [intros [=]|intros [[=] ?]]); simplify_eq; congruence || done.
Qed.
Lemma is_some_true_iff (o : option A) : is_some o = true ↔ is_Some o.
Proof. destruct o; cbn; (split; [|intros [y Hy]]); done || by eexists. Qed.
Lemma is_none_true_iff (o : option A) : is_none o = true ↔ o = None.
Proof. destruct o; cbn; naive_solver. Qed.
Lemma is_some_and_true_iff (p : A → bool) o :
  is_some_and p o = true ↔ ∃ a, o = Some a ∧ p a = true.
Proof. destruct o; cbn; (split; [eauto|intros (x & [=] & ?)]); congruence. Qed.
Lemma is_none_or_false_iff (p : A → bool) o :
  is_none_or p o = false ↔ ∃ a, o = Some a ∧ p a = false.
Proof. destruct o; cbn; (split; [eauto|intros (x & [=] & ?)]); congruence. Qed.
Lemma is_err_false_iff r : is_err r = false ↔ ∃ a, r = Ok a.
Proof. destruct r; cbn; naive_solver. Qed.

Lemma collect_results_Ok_iff (l : list (result E A)) k :
  collect_results l = Ok k ↔ l = Ok <$> k.
Proof.
  split.
  - revert k. induction l as [|[x|e] l IH]; intros k; cbn; [by intros [= <-]| |done].
    destruct (collect_results l) as [k'|e]; cbn; [|done].
    intros [= <-]. cbn. by rewrite (IH k').
  - intros ->. induction k as [|a k IH]; cbn in *; [done|]. by rewrite IH.
Qed.
Lemma collect_results_Err (l : list (result E A)) e : collect_results l = Err e → Err e ∈ l.
Proof.
  induction l as [|[x|d] l IH]; cbn; [done| |].
  - destruct (collect_results l) as [k|d]; cbn; [done|]. intros [= ->]. right. by apply IH.
  - intros [= ->]. left.
Qed.
End results.

Section guards.
Context {E A : Type}.
(** An early return with an error: [if b { return Err(e) }; k]. *)
Lemma guard_Ok_iff (b : bool) (e : E) (k : result E A) a :
  (if b then Err e else k) = Ok a ↔ b = false ∧ k = Ok a.
Proof. destruct b; naive_solver. Qed.
Lemma guard_Err_iff (b : bool) (e e' : E) (k : result E A) :
  (if b then Err e else k) = Err e' ↔ b = true ∧ e' = e ∨ b = false ∧ k = Err e'.
Proof. destruct b; naive_solver. Qed.
Lemma seq_Ok_iff (r k : result E unit) : (r;; k) = Ok tt ↔ r = Ok tt ∧ k = Ok tt.
Proof. destruct r as [[]|]; cbn; naive_solver. Qed.
End guards.

(** Decompose a successful run into its steps. *)
Ltac inv_ok :=
  repeat match goal with
  | H : (_ ≫= _) = Ok _ |- _ => apply bind_Ok_iff in H; destruct H as (? & ? & H)
  | H : (if _ then Err _ else _) = Ok _ |- _ => apply guard_Ok_iff in H; destruct H as [? H]
  | H : map_err _ _ = Ok _ |- _ => apply map_err_Ok_iff in H
  | H : ok_or _ _ = Ok _ |- _ => apply ok_or_Ok_iff in H
  | H : Ok _ = Ok _ |- _ => injection H as H
  | H : Err _ = Ok _ |- _ => discriminate H
  end.
(** The possible causes of a failing run, one goal each. *)
Ltac inv_err :=
  repeat match goal with
  | H : (_ ≫= _) = Err _ |- _ =>
      apply bind_Err_iff in H; destruct H as [H|(? & ? & H)]
  | H : (if _ then Err _ else _) = Err _ |- _ =>
      apply guard_Err_iff in H; destruct H as [[? H]|[? H]]
  | H : map_err _ _ = Err _ |- _ => apply map_err_Err_iff in H; destruct H as (? & ? & H)
  | H : ok_or _ _ = Err _ |- _ => apply ok_or_Err_iff in H; destruct H as [? H]
  | H : Ok _ = Err _ |- _ => discriminate H
  end.
(** Run a result computation whose steps are known. *)
Ltac run_ok :=
  repeat match goal with
  | H : ?r = Ok _ |- context [?r] => rewrite H; cbn [mbind result_bind]
  end.

Create HintDb eal.
Create Rewrite HintDb eal_rw.
#[export] Hint Rewrite @bind_Ok_iff @bind_Err_iff @fmap_Ok_iff @map_err_Ok_iff
  @map_err_Err_iff @ok_or_Ok_iff @ok_or_Err_iff @ok_Some_iff @opt_filter_Some_iff
  @is_some_true_iff @is_none_true_iff @is_some_and_true_iff
  @is_none_or_false_iff @is_err_false_iff @collect_results_Ok_iff : eal_rw.
