(* ===== verification/Str.v ===== *)
(** * Rust strings

    A [str] is a sequence of Unicode scalar values ([list N]); its UTF-8 bytes,
    byte length, and the functions of [core::str] and [core::char] the server
    calls are definitions of this file.  Byte-level predicates of the source
    ([value.bytes().all(..)]) read [as_bytes], character-level ones
    ([value.chars().any(..)]) read the list itself. *)

From S2P Require Import Prelude.
From Stdlib Require Ascii String.
From Stdlib Require Import DecimalN DecimalFacts.
Open Scope N_scope.

Abbreviation char := N (only parsing).
Abbreviation str := (list N) (only parsing).

(** An ASCII string literal of the source. *)
Definition lit (s : String.string) : str := Ascii.N_of_ascii <$> String.list_ascii_of_string s.

(** A Unicode scalar value. *)
Definition char_valid (c : char) : bool :=
  (c <? 0xD800) || ((0xDFFF <? c) && (c <? 0x110000)).

(** ** UTF-8 *)

Definition utf8 (c : char) : list N :=
  if c <? 0x80 then [c]
  else if c <? 0x800 then [0xC0 + c / 64; 0x80 + c mod 64]
  else if c <? 0x10000 then
    [0xE0 + c / 4096; 0x80 + c / 64 mod 64; 0x80 + c mod 64]
  else
    [0xF0 + c / 262144; 0x80 + c / 4096 mod 64; 0x80 + c / 64 mod 64; 0x80 + c mod 64].
Definition as_bytes (s : str) : list N := s ≫= utf8.
(** [str::len]: bytes, not characters. *)
Definition len (s : str) : N := N.of_nat (length (as_bytes s)).
(** Strings compare by their bytes. *)
Fixpoint bytes_le (a b : list N) : bool :=
  match a, b with
  | [], _ => true
  | _, [] => false
  | x :: a, y :: b => (x <? y) || ((x =? y) && bytes_le a b)
  end.
Definition str_le (a b : str) : Prop := bytes_le (as_bytes a) (as_bytes b) = true.
#[global] Instance str_le_dec a b : Decision (str_le a b).
Proof. unfold str_le. apply _. Defined.

Definition is_empty (s : str) : bool := len s =? 0.

(** ** Character classes *)

Definition in_range (lo hi c : N) : bool := (lo <=? c) && (c <=? hi).
(** [char::is_whitespace]: the Unicode [White_Space] property. *)
Definition is_whitespace (c : char) : bool :=
  in_range 0x09 0x0D c || (c =? 0x20) || (c =? 0x85) || (c =? 0xA0) || (c =? 0x1680)
  || in_range 0x2000 0x200A c || (c =? 0x2028) || (c =? 0x2029) || (c =? 0x202F)
  || (c =? 0x205F) || (c =? 0x3000).
(** [char::is_control]: the general category [Cc]. *)
Definition is_control (c : char) : bool := in_range 0x00 0x1F c || in_range 0x7F 0x9F c.
Definition is_ascii_digit (b : N) : bool := in_range 48 57 b.
Definition is_ascii_lowercase (b : N) : bool := in_range 97 122 b.
Definition is_ascii_uppercase (b : N) : bool := in_range 65 90 b.
Definition is_ascii_alphanumeric (b : N) : bool :=
  is_ascii_digit b || is_ascii_lowercase b || is_ascii_uppercase b.
(** [u8::is_ascii_control]. *)
Definition is_ascii_control (b : N) : bool := (b <? 0x20) || (b =? 0x7F).

(** ** [core::str] *)

Fixpoint drop_while (p : char → bool) (s : str) : str :=
  match s with [] => [] | c :: s' => if p c then drop_while p s' else s end.
Definition trim_start (s : str) : str := drop_while is_whitespace s.
Definition trim_end (s : str) : str := reverse (drop_while is_whitespace (reverse s)).
Definition trim (s : str) : str := trim_end (trim_start s).
Fixpoint strip_prefix (p s : str) : option str :=
  match p, s with
  | [], _ => Some s
  | _ :: _, [] => None
  | a :: p, c :: s => if a =? c then strip_prefix p s else None
  end.
Definition starts_with (s p : str) : bool := is_some (strip_prefix p s).
Definition contains_char (c : char) (s : str) : bool := existsb (N.eqb c) s.
(** [s.split(c).next()]: everything before the first [c]. *)
Fixpoint before (c : char) (s : str) : str :=
  match s with [] => [] | d :: s' => if d =? c then [] else d :: before c s' end.
(** Equality of strings, as [==] on [&str]. *)
Definition str_eqb (s t : str) : bool := bool_decide (s = t).

(** Decimal [Display] of an unsigned integer. *)
Fixpoint uint_str (d : Decimal.uint) : str :=
  match d with
  | Decimal.Nil => []
  | Decimal.D0 d => 48 :: uint_str d | Decimal.D1 d => 49 :: uint_str d
  | Decimal.D2 d => 50 :: uint_str d | Decimal.D3 d => 51 :: uint_str d
  | Decimal.D4 d => 52 :: uint_str d | Decimal.D5 d => 53 :: uint_str d
  | Decimal.D6 d => 54 :: uint_str d | Decimal.D7 d => 55 :: uint_str d
  | Decimal.D8 d => 56 :: uint_str d | Decimal.D9 d => 57 :: uint_str d
  end.
Definition display_uint (n : N) : str := uint_str (N.to_uint n).

(** [[a, b, ..].join(sep)], and the [format!] of the same shape. *)
Fixpoint join (sep : str) (l : list str) : str :=
  match l with [] => [] | [s] => s | s :: l => s ++ sep ++ join sep l end.

(** ** Lemmas: boolean quantifiers *)

Lemma forallb_Forall {A} (p : A → bool) l : forallb p l = true ↔ Forall (λ x, p x = true) l.
Proof.
  induction l as [|x l IH]; cbn; [by split|].
  by rewrite andb_true_iff, Forall_cons, IH.
Qed.
Lemma existsb_false_Forall {A} (p : A → bool) l :
  existsb p l = false ↔ Forall (λ x, p x = false) l.
Proof.
  induction l as [|x l IH]; cbn; [by split|].
  by rewrite orb_false_iff, Forall_cons, IH.
Qed.
Lemma str_eqb_eq s t : str_eqb s t = true ↔ s = t.
Proof. apply bool_decide_eq_true. Qed.
Lemma str_eqb_refl s : str_eqb s s = true.
Proof. by apply str_eqb_eq. Qed.
Lemma str_eqb_neq s t : str_eqb s t = false ↔ s ≠ t.
Proof. apply bool_decide_eq_false. Qed.

(** ** Lemmas: UTF-8 *)

Lemma utf8_ascii c : c < 128 → utf8 c = [c].
Proof. intros H. unfold utf8. by rewrite (proj2 (N.ltb_lt _ _)) by lia. Qed.

Lemma utf8_high c : 128 <= c → Forall (λ b, 128 <= b) (utf8 c).
Proof.
  intros H. unfold utf8. rewrite (proj2 (N.ltb_ge c 128)) by lia.
  repeat case_match; repeat (apply Forall_cons_2; [first [done | lia | by etrans; [|apply N.le_add_r]]|]);
    apply Forall_nil_2.
Qed.

Lemma utf8_length c : (1 <= length (utf8 c) <= 4)%nat.
Proof. unfold utf8. repeat case_match; cbn; lia. Qed.

Lemma as_bytes_nil : as_bytes [] = [].
Proof. done. Qed.
Lemma as_bytes_cons c s : as_bytes (c :: s) = utf8 c ++ as_bytes s.
Proof. done. Qed.
Lemma as_bytes_app s t : as_bytes (s ++ t) = as_bytes s ++ as_bytes t.
Proof. apply bind_app. Qed.
Lemma len_nil : len [] = 0.
Proof. done. Qed.
Lemma len_cons c s : len (c :: s) = N.of_nat (length (utf8 c)) + len s.
Proof. unfold len. rewrite as_bytes_cons, length_app. lia. Qed.
Lemma len_app s t : len (s ++ t) = len s + len t.
Proof. unfold len. rewrite as_bytes_app, length_app. lia. Qed.
#[export] Hint Rewrite as_bytes_app len_app len_cons len_nil : eal_rw.

Lemma length_le_len s : N.of_nat (length s) <= len s.
Proof.
  induction s as [|c s IH]; [done|]. rewrite len_cons. pose proof (utf8_length c).
  cbn [length]. lia.
Qed.
Lemma is_empty_true_iff s : is_empty s = true ↔ s = [].
Proof.
  unfold is_empty. rewrite N.eqb_eq. split; [|by intros ->].
  pose proof (length_le_len s). destruct s; [done|]. cbn [length] in *. lia.
Qed.
Lemma is_empty_false_iff s : is_empty s = false ↔ s ≠ [].
Proof. by rewrite <-not_true_iff_false, is_empty_true_iff. Qed.

Lemma as_bytes_ascii s : Forall (λ c, c < 128) s → as_bytes s = s.
Proof.
  induction 1 as [|c s Hc _ IH]; [done|]. by rewrite as_bytes_cons, utf8_ascii, IH.
Qed.
Lemma len_ascii s : Forall (λ c, c < 128) s → len s = N.of_nat (length s).
Proof. intros H. unfold len. by rewrite as_bytes_ascii. Qed.

(** A byte predicate that only ASCII bytes satisfy holds of every byte of a string
    exactly when the string is ASCII and every character satisfies it. *)
Lemma bytes_all_ascii (p : N → bool) s :
  (∀ b, p b = true → b < 128) →
  forallb p (as_bytes s) = true ↔ Forall (λ c, p c = true) s.
Proof.
  intros Hp. rewrite forallb_Forall. induction s as [|c s IH]; [done|].
  rewrite as_bytes_cons, Forall_app, Forall_cons, IH. split; intros [H1 H2]; (split; [|done]).
  - destruct (decide (c < 128)) as [Hc|Hc].
    + rewrite utf8_ascii in H1 by done. by inversion H1.
    + assert (∃ b, b ∈ utf8 c) as [b Hb].
      { pose proof (utf8_length c). destruct (utf8 c) as [|b l]; [cbn in *; lia|].
        exists b. left. }
      pose proof (proj1 (Forall_forall _ _) (utf8_high c ltac:(lia)) b Hb).
      pose proof (Hp b (proj1 (Forall_forall _ _) H1 b Hb)). cbn in *. lia.
  - rewrite utf8_ascii by eauto. by constructor.
Qed.

(** UTF-8 is a prefix code on Unicode scalar values. *)
Definition utf8_decode1 (l : list N) : option (char * list N) :=
  match l with
  | [] => None
  | b :: l =>
      if b <? 0x80 then Some (b, l)
      else match l with
      | [] => None
      | b1 :: l =>
          if b <? 0xE0 then Some ((b - 0xC0) * 64 + (b1 - 0x80), l)
          else match l with
          | [] => None
          | b2 :: l =>
              if b <? 0xF0 then
                Some ((b - 0xE0) * 4096 + (b1 - 0x80) * 64 + (b2 - 0x80), l)
              else match l with
              | [] => None
              | b3 :: l =>
                  Some ((b - 0xF0) * 262144 + (b1 - 0x80) * 4096 + (b2 - 0x80) * 64
                        + (b3 - 0x80), l)
              end
          end
      end
  end.

Lemma utf8_decode1_utf8 c l : c < 0x110000 → utf8_decode1 (utf8 c ++ l) = Some (c, l).
Proof.
  intros Hc. unfold utf8.
  pose proof (N.div_mod c 64 ltac:(lia)). pose proof (N.mod_lt c 64 ltac:(lia)).
  pose proof (N.div_mod (c / 64) 64 ltac:(lia)). pose proof (N.mod_lt (c / 64) 64 ltac:(lia)).
  pose proof (N.div_mod (c / 4096) 64 ltac:(lia)).
  pose proof (N.mod_lt (c / 4096) 64 ltac:(lia)).
  assert (c / 64 / 64 = c / 4096) as E1 by (rewrite N.Div0.div_div; done).
  assert (c / 4096 / 64 = c / 262144) as E2 by (rewrite N.Div0.div_div; done).
  rewrite E1 in *. rewrite E2 in *.
  clear E1 E2. revert H H0 H1 H2 H3 H4.
  generalize (c mod 64). generalize (c / 64 mod 64). generalize (c / 4096 mod 64).
  generalize (c / 64). generalize (c / 4096). generalize (c / 262144).
  intros q3 q2 q1 r3 r2 r1 ??????.
  destruct (N.ltb_spec c 0x80); cbn [app utf8_decode1].
  { by rewrite (proj2 (N.ltb_lt _ _)) by lia. }
  destruct (N.ltb_spec c 0x800); cbn [app utf8_decode1].
  { rewrite (proj2 (N.ltb_ge _ _)), (proj2 (N.ltb_lt _ _)) by lia. do 2 f_equal. lia. }
  destruct (N.ltb_spec c 0x10000); cbn [app utf8_decode1].
  { rewrite !(proj2 (N.ltb_ge _ _)), (proj2 (N.ltb_lt _ _)) by lia. do 2 f_equal. lia. }
  rewrite !(proj2 (N.ltb_ge _ _)) by lia. do 2 f_equal. lia.
Qed.

Lemma char_valid_lt c : char_valid c = true → c < 0x110000.
Proof.
  unfold char_valid. rewrite orb_true_iff, andb_true_iff, !N.ltb_lt. lia.
Qed.

Lemma as_bytes_inj s t :
  Forall (λ c, char_valid c = true) s → Forall (λ c, char_valid c = true) t →
  as_bytes s = as_bytes t → s = t.
Proof.
  intros Hs. revert t. induction Hs as [|c s Hc _ IH]; intros t Ht.
  - destruct t as [|d t]; [done|]. rewrite as_bytes_cons. pose proof (utf8_length d).
    destruct (utf8 d); [cbn in *; lia|done].
  - destruct Ht as [|d t Hd Ht].
    { rewrite as_bytes_cons. pose proof (utf8_length c).
      destruct (utf8 c); [cbn in *; lia|done]. }
    rewrite !as_bytes_cons. intros E.
    assert (Some (c, as_bytes s) = Some (d, as_bytes t)) as [= -> E'].
    { rewrite <-!utf8_decode1_utf8 by auto using char_valid_lt. by rewrite E. }
    f_equal. auto.
Qed.

(** ** Lemmas: trimming *)

Lemma drop_while_suffix p s : ∃ k, s = k ++ drop_while p s ∧ Forall (λ c, p c = true) k.
Proof.
  induction s as [|c s (k & IH & Hk)]; cbn; [by exists []|].
  destruct (p c) eqn:Hp; [|by exists []].
  exists (c :: k). split; [by cbn; f_equal|by constructor].
Qed.
Lemma drop_while_head p s c s' : drop_while p s = c :: s' → p c = false.
Proof. induction s as [|d s IH]; cbn; [done|]. destruct (p d) eqn:?; [auto|naive_solver]. Qed.
Lemma drop_while_id p c s : p c = false → drop_while p (c :: s) = c :: s.
Proof. intros H. cbn. by rewrite H. Qed.
Lemma drop_while_idemp p s : drop_while p (drop_while p s) = drop_while p s.
Proof.
  destruct (drop_while p s) as [|c s'] eqn:E; [done|].
  apply drop_while_id. by eapply drop_while_head.
Qed.
Lemma drop_while_nil p s : drop_while p s = [] ↔ Forall (λ c, p c = true) s.
Proof.
  induction s as [|c s IH]; cbn; [by split|]. rewrite Forall_cons.
  destruct (p c); [rewrite IH|]; naive_solver.
Qed.

(** [trim] removes a whitespace prefix and a whitespace suffix. *)
Lemma trim_split s : ∃ k l, s = k ++ trim s ++ l ∧
  Forall (λ c, is_whitespace c = true) k ∧ Forall (λ c, is_whitespace c = true) l.
Proof.
  unfold trim, trim_end, trim_start.
  destruct (drop_while_suffix is_whitespace s) as (k & Hs & Hk).
  set (t := drop_while is_whitespace s) in *.
  destruct (drop_while_suffix is_whitespace (reverse t)) as (l & Ht & Hl).
  exists k, (reverse l). split; [|split; [done|by apply Forall_reverse]].
  by rewrite <-reverse_app, <-Ht, reverse_involutive.
Qed.

Lemma trim_start_head s c s' : trim_start s = c :: s' → is_whitespace c = false.
Proof. apply drop_while_head. Qed.

Lemma trim_nil_iff s : trim s = [] ↔ Forall (λ c, is_whitespace c = true) s.
Proof.
  split.
  - intros E. destruct (trim_split s) as (k & l & Hs & Hk & Hl).
    rewrite E in Hs. cbn in Hs. rewrite Hs. by apply Forall_app.
  - intros H. unfold trim, trim_end, trim_start.
    by rewrite (proj2 (drop_while_nil is_whitespace s) H).
Qed.

(** A nonempty trimmed string starts and ends with a character that is not
    whitespace. *)
Lemma trim_first s c t : trim s = c :: t → is_whitespace c = false.
Proof.
  unfold trim, trim_end. intros E.
  destruct (drop_while_suffix is_whitespace (reverse (trim_start s))) as (l & Ht & Hl).
  apply (f_equal reverse) in Ht. rewrite reverse_involutive, reverse_app, E in Ht.
  by eapply trim_start_head.
Qed.
Lemma trim_last s c t : reverse (trim s) = c :: t → is_whitespace c = false.
Proof.
  unfold trim, trim_end. rewrite reverse_involutive. apply drop_while_head.
Qed.

Lemma trim_id s :
  (∀ c t, s = c :: t → is_whitespace c = false) →
  (∀ c t, reverse s = c :: t → is_whitespace c = false) →
  trim s = s.
Proof.
  intros H1 H2. unfold trim, trim_end, trim_start.
  destruct s as [|c s]; [done|]. rewrite drop_while_id by eauto.
  destruct (reverse (c :: s)) as [|d t] eqn:E.
  { apply (f_equal reverse) in E. by rewrite reverse_involutive in E. }
  rewrite drop_while_id by eauto. by rewrite <-E, reverse_involutive.
Qed.
Lemma trim_idemp s : trim (trim s) = trim s.
Proof. apply trim_id; eauto using trim_first, trim_last. Qed.
Lemma trim_no_whitespace s : Forall (λ c, is_whitespace c = false) s → trim s = s.
Proof.
  intros H. apply trim_id.
  - intros c t ->. by inversion H.
  - intros c t E. apply Forall_reverse in H. rewrite E in H. by inversion H.
Qed.

Lemma trim_Forall P s : Forall P s → Forall P (trim s).
Proof.
  destruct (trim_split s) as (k & l & Hs & _). intros H. rewrite Hs in H.
  apply Forall_app in H as [_ H]. by apply Forall_app in H as [H _].
Qed.
Lemma len_trim_le s : len (trim s) <= len s.
Proof.
  destruct (trim_split s) as (k & l & Hs & _).
  assert (len s = len k + (len (trim s) + len l)) by (by rewrite Hs at 1; rewrite !len_app).
  lia.
Qed.
#[export] Hint Resolve trim_idemp trim_Forall len_trim_le : eal.

(** ** Lemmas: prefixes *)

Lemma strip_prefix_Some p s r : strip_prefix p s = Some r ↔ s = p ++ r.
Proof.
  revert s. induction p as [|a p IH]; intros s; cbn; [naive_solver|].
  destruct s as [|c s]; [done|]. destruct (N.eqb_spec a c) as [->|Hac].
  - rewrite IH. split; [by intros ->|by intros [= ->]].
  - split; [done|]. by intros [= -> ->].
Qed.
Lemma strip_prefix_app p r : strip_prefix p (p ++ r) = Some r.
Proof. by apply strip_prefix_Some. Qed.
Lemma starts_with_true_iff s p : starts_with s p = true ↔ ∃ r, s = p ++ r.
Proof.
  unfold starts_with. rewrite is_some_true_iff. split.
  - intros [r H]. apply strip_prefix_Some in H. eauto.
  - intros [r ->]. exists r. apply strip_prefix_app.
Qed.
Lemma contains_char_false_iff c s : contains_char c s = false ↔ c ∉ s.
Proof.
  unfold contains_char. rewrite existsb_false_Forall, Forall_forall.
  setoid_rewrite N.eqb_neq. split; [by intros H ?%H|by intros H x ? ->].
Qed.
Lemma before_app c s t : c ∉ s → before c (s ++ c :: t) = s.
Proof.
  induction s as [|d s IH]; cbn; [by rewrite N.eqb_refl|].
  intros [? ?]%not_elem_of_cons. rewrite (proj2 (N.eqb_neq d c)) by done. by rewrite IH.
Qed.
Lemma before_not_in c s : c ∉ before c s.
Proof.
  induction s as [|d s IH]; cbn; [by apply not_elem_of_nil|].
  destruct (N.eqb_spec d c); [by apply not_elem_of_nil|]. by apply not_elem_of_cons.
Qed.
Lemma before_id c s : c ∉ s → before c s = s.
Proof.
  induction s as [|d s IH]; cbn; [done|]. intros [? ?]%not_elem_of_cons.
  rewrite (proj2 (N.eqb_neq d c)) by done. by rewrite IH.
Qed.

(** Splitting at a separator the left parts do not hold is unambiguous. *)
Lemma app_cons_inj (c : char) (s1 s2 t1 t2 : str) :
  c ∉ s1 → c ∉ s2 → s1 ++ c :: t1 = s2 ++ c :: t2 → s1 = s2 ∧ t1 = t2.
Proof.
  intros H1 H2 E. assert (s1 = s2) as ->.
  { rewrite <-(before_app c s1 t1), <-(before_app c s2 t2) by done. by rewrite E. }
  split; [done|]. by apply app_inv_head in E as [= ->].
Qed.

(** ** Lemmas: decimal display *)

Lemma uint_str_inj d e : uint_str d = uint_str e → d = e.
Proof.
  revert e. induction d; intros e; destruct e; cbn; intros [=]; f_equal; auto.
Qed.
Lemma display_uint_inj n m : display_uint n = display_uint m → n = m.
Proof. intros H%uint_str_inj. by apply DecimalN.Unsigned.to_uint_inj in H. Qed.
Lemma display_uint_digits n : Forall (λ c, is_ascii_digit c = true) (display_uint n).
Proof.
  unfold display_uint. induction (N.to_uint n); cbn; by repeat constructor.
Qed.
