(* ===== verification/Float.v ===== *)
(** * IEEE 754 values of the alert rules

    [f32] and [f64] are the Standard Library's [spec_float]s at the widths of
    binary32 and binary64, with the two conversions the store performs:
    [f64::from(x)] when a rule is inserted and [x as f32] when it is read. *)

From S2P Require Import Prelude.
From Stdlib Require Export SpecFloat.
Open Scope Z_scope.

Abbreviation f32 := spec_float (only parsing).
Abbreviation f64 := spec_float (only parsing).

#[global] Instance spec_float_eq_dec : EqDecision spec_float.
Proof. solve_decision. Defined.

Definition f32_valid (x : f32) : bool := valid_binary 24 128 x.
Definition f64_valid (x : f64) : bool := valid_binary 53 1024 x.

(** [is_finite]. *)
Definition is_finite (x : spec_float) : bool :=
  match x with S754_zero _ | S754_finite _ _ _ => true | _ => false end.
(** The literals [0.0] and [1.0] of the source, at width 24. *)
Definition f32_zero : f32 := S754_zero false.
Definition f32_one : f32 := S754_finite false 8388608 (-23).
(** [(lo..=hi).contains(&x)]. *)
Definition contains_inclusive (lo hi x : spec_float) : bool := SFleb lo x && SFleb x hi.

(** Conversion between widths: the nearest value, ties to even. *)
Definition convert (prec emax : Z) (x : spec_float) : spec_float :=
  match x with
  | S754_finite s m e => binary_round prec emax s m e
  | _ => x
  end.
(** [f64::from(x : f32)]. *)
Definition f64_from_f32 (x : f32) : f64 := convert 53 1024 x.
(** [x as f32] of an [f64]. *)
Definition f64_as_f32 (x : f64) : f32 := convert 24 128 x.

(** ** Exact shifts *)

Definition shl (m : positive) (k : Z) : positive :=
  match k with Zpos d => Pos.iter xO m d | _ => m end.

Lemma digits2_iter n m :
  Zpos (digits2_pos (Nat.iter n xO m)) = Zpos (digits2_pos m) + Z.of_nat n.
Proof.
  induction n as [|n IH]; [cbn; lia|].
  change (Nat.iter (S n) xO m) with (xO (Nat.iter n xO m)). cbn [digits2_pos]. lia.
Qed.

Lemma shl_iter m k : 0 <= k → shl m k = Nat.iter (Z.to_nat k) xO m.
Proof.
  intros Hk. destruct k as [|d|d]; [done| |lia]. cbn [shl Z.to_nat].
  apply Pos2Nat.inj_iter.
Qed.
Lemma digits2_shl m k :
  0 <= k → Zpos (digits2_pos (shl m k)) = Zpos (digits2_pos m) + k.
Proof. intros Hk. rewrite shl_iter, digits2_iter by done. lia. Qed.

Lemma iter_pos_nat {A} (f : A → A) n x : iter_pos f n x = Nat.iter (Pos.to_nat n) f x.
Proof.
  revert x. induction n as [n IH|n IH|]; intros x; cbn [iter_pos].
  - rewrite !IH, <-Nat.iter_add.
    replace (Pos.to_nat n~1) with (S (Pos.to_nat n + Pos.to_nat n)) by lia.
    by rewrite <-Nat.iter_succ_r.
  - rewrite !IH, <-Nat.iter_add.
    by replace (Pos.to_nat n~0) with (Pos.to_nat n + Pos.to_nat n)%nat by lia.
  - done.
Qed.

Lemma shr_1_iter n m :
  Nat.iter n shr_1 (Build_shr_record (Zpos (Nat.iter n xO m)) false false) =
  Build_shr_record (Zpos m) false false.
Proof. induction n as [|n IH]; [done|]. by rewrite Nat.iter_succ_r. Qed.

Section exact.
Context (prec emax : Z).

Lemma bounded_fexp m e :
  bounded prec emax m e = true →
  fexp prec emax (Zpos (digits2_pos m) + e) = e ∧ (e <=? emax - prec) = true.
Proof.
  unfold bounded, canonical_mantissa. rewrite andb_true_iff, Z.eqb_eq. done.
Qed.

(** A shifted canonical mantissa rounds back to the canonical one. *)
Lemma binary_round_aux_exact s m e k :
  bounded prec emax m e = true → 0 <= k →
  binary_round_aux prec emax s (Zpos (shl m k)) (e - k) loc_Exact = S754_finite s m e.
Proof.
  intros [Hf He]%bounded_fexp Hk.
  assert (shr (Build_shr_record (Zpos (shl m k)) false false) (e - k) k
          = (Build_shr_record (Zpos m) false false, e)) as Hshr.
  { destruct k as [|d|d]; [|cbn [shr shl]|lia].
    - cbn. by rewrite Z.sub_0_r.
    - rewrite iter_pos_nat, Pos2Nat.inj_iter. f_equal; [apply shr_1_iter|lia]. }
  unfold binary_round_aux, shr_fexp at 1. cbn [shr_record_of_loc Zdigits2].
  rewrite digits2_shl by done.
  replace (Zpos (digits2_pos m) + k + (e - k)) with (Zpos (digits2_pos m) + e) by lia.
  rewrite Hf. replace (e - (e - k)) with k by lia. rewrite Hshr.
  cbn [shr_m loc_of_shr_record round_nearest_even]. unfold shr_fexp.
  cbn [shr_record_of_loc Zdigits2]. rewrite Hf, Z.sub_diag. cbn [shr shr_m].
  by rewrite He.
Qed.

(** Narrowing a shifted canonical mantissa. *)
Lemma binary_round_narrow s m e k :
  bounded prec emax m e = true → 0 <= k →
  binary_round prec emax s (shl m k) (e - k) = S754_finite s m e.
Proof.
  intros Hb Hk. unfold binary_round, shl_align. rewrite digits2_shl by done.
  replace (Zpos (digits2_pos m) + k + (e - k)) with (Zpos (digits2_pos m) + e) by lia.
  destruct (bounded_fexp m e Hb) as [-> _].
  replace (e - (e - k)) with k by lia.
  destruct k as [|d|d]; [..|lia]; by apply binary_round_aux_exact.
Qed.

(** Widening shifts the mantissa to the left until it is canonical. *)
Lemma binary_round_widen s m e k :
  fexp prec emax (Zpos (digits2_pos m) + e) = e - k → 0 <= k → e - k <= emax - prec →
  binary_round prec emax s m e = S754_finite s (shl m k) (e - k).
Proof.
  intros Hf Hk He.
  assert (bounded prec emax (shl m k) (e - k) = true) as Hb.
  { unfold bounded, canonical_mantissa. rewrite digits2_shl by done.
    replace (Zpos (digits2_pos m) + k + (e - k)) with (Zpos (digits2_pos m) + e) by lia.
    by rewrite Hf, Z.eqb_refl, (proj2 (Z.leb_le _ _)). }
  rewrite <-(binary_round_aux_exact s (shl m k) (e - k) 0) by done.
  unfold binary_round, shl_align. rewrite Hf.
  replace (e - k - e) with (- k) by lia.
  rewrite !Z.sub_0_r.
  destruct k as [|d|d]; [by rewrite Z.sub_0_r|done|lia].
Qed.
End exact.

Lemma fexp_le prec emax d e : fexp prec emax (d + e) = Z.max (d + e - prec) (3 - emax - prec).
Proof. done. Qed.

(** A binary32 value survives the detour through binary64. *)
Lemma f64_as_f32_from (x : f32) : f32_valid x = true → f64_as_f32 (f64_from_f32 x) = x.
Proof.
  destruct x as [| | |s m e]; try done. intros Hb. unfold f32_valid, valid_binary in Hb.
  unfold f64_from_f32, f64_as_f32, convert.
  destruct (bounded_fexp _ _ _ _ Hb) as [Hf He]. rewrite fexp_le in Hf.
  apply Z.leb_le in He.
  set (k := e - fexp 53 1024 (Zpos (digits2_pos m) + e)).
  assert (0 <= k) by (unfold k; rewrite fexp_le; lia).
  rewrite (binary_round_widen 53 1024 s m e k) by (unfold k in *; rewrite ?fexp_le in *; lia).
  by apply binary_round_narrow.
Qed.

(** The literal [1] as a [double precision] value. *)
Definition f64_one : f64 := S754_finite false 4503599627370496 (-52).
Definition f64_zero : f64 := S754_zero false.

Lemma shl_value m k : 0 <= k → Zpos (shl m k) = Zpos m * 2 ^ k.
Proof.
  intros Hk. rewrite shl_iter by done. rewrite <-(Z2Nat.id k) at 2 by done.
  generalize (Z.to_nat k) as n. induction n as [|n IH]; [cbn; lia|].
  change (Nat.iter (S n) xO m) with (xO (Nat.iter n xO m)).
  rewrite Nat2Z.inj_succ, Z.pow_succ_r by lia. rewrite Pos2Z.inj_xO, IH. ring.
Qed.

Lemma contains_unit_finite x :
  contains_inclusive f32_zero f32_one x = true → is_finite x = true.
Proof. by destruct x as [|[]| |]. Qed.

Lemma SFleb_finite (m n : positive) e :
  SFleb (S754_finite false m e) (S754_finite false n e) = (m <=? n)%positive.
Proof.
  unfold SFleb, SFcompare, Pos.leb. rewrite Z.compare_refl. unfold Pos.compare.
  by destruct (Pos.compare_cont Eq m n).
Qed.
Lemma SFleb_exponent (m n : positive) d e :
  d ≠ e → SFleb (S754_finite false m d) (S754_finite false n e) = (d <? e).
Proof.
  intros Hne. unfold SFleb, SFcompare, Z.ltb.
  destruct (Z.compare_spec d e); [done|done|done].
Qed.
Lemma SFleb_zero (m : positive) e : SFleb (S754_zero false) (S754_finite false m e) = true.
Proof. done. Qed.

(** The unit interval test has the same answer on both sides of the widening. *)
Lemma contains_unit_widen x :
  f32_valid x = true → contains_inclusive f32_zero f32_one x = true →
  contains_inclusive f64_zero f64_one (f64_from_f32 x) = true.
Proof.
  destruct x as [[]|[]| |[] m e]; try done. intros Hb. unfold f32_valid, valid_binary in Hb.
  destruct (bounded_fexp _ _ _ _ Hb) as [Hf He]. rewrite fexp_le in Hf. apply Z.leb_le in He.
  unfold contains_inclusive, f64_from_f32, convert, f32_zero, f32_one, f64_zero, f64_one.
  rewrite SFleb_zero. cbn [andb]. intros Hle.
  set (k := e - fexp 53 1024 (Zpos (digits2_pos m) + e)).
  assert (0 <= k) by (unfold k; rewrite fexp_le; lia).
  rewrite (binary_round_widen 53 1024 false m e k) by (unfold k in *; rewrite ?fexp_le in *; lia).
  assert (e - k = Z.max (Zpos (digits2_pos m) + e - 53) (-1074)) as Hek
    by (unfold k; rewrite fexp_le; lia).
  rewrite SFleb_zero. cbn [andb]. destruct (decide (e = -23)) as [E|E].
  - assert (k = 29) as Ek by lia. rewrite Ek, E. rewrite E, SFleb_finite in Hle.
    change (-23 - 29) with (-52). rewrite SFleb_finite.
    rewrite Pos2Z.inj_leb, Z.leb_le in Hle. rewrite Pos2Z.inj_leb, Z.leb_le, shl_value by done.
    change 4503599627370496 with (8388608 * 2 ^ 29). by apply Z.mul_le_mono_nonneg_r.
  - rewrite SFleb_exponent in Hle by done. apply Z.ltb_lt in Hle.
    rewrite SFleb_exponent by lia. apply Z.ltb_lt. lia.
Qed.
