(* ===== verification/Ids.v ===== *)
(** * Identifiers, JSON values and time

    [Uuid] is the 128-bit value of the [uuid] crate.  Its text forms are code of
    that crate: [UuidText] is the interface the server uses, [UuidTextLaws] the
    documented behaviour the theorems rely on, and [Canonical] one concrete
    instance (the hyphenated lower-case form) that satisfies the laws. *)

From S2P Require Import Prelude Str.
Open Scope N_scope.

Record Uuid := mk_uuid { uuid_bits : N; uuid_wf : (uuid_bits <? 2 ^ 128) = true }.

#[global] Instance uuid_bits_inj : Inj (=) (=) uuid_bits.
Proof.
  intros [n Hn] [m Hm]; cbn. intros ->. f_equal. apply (Eqdep_dec.UIP_dec bool_dec).
Qed.
#[global] Instance uuid_eq_dec : EqDecision Uuid.
Proof.
  intros u v. destruct (decide (uuid_bits u = uuid_bits v)) as [E|E].
  - left. by apply uuid_bits_inj.
  - right. by intros ->.
Defined.
#[global] Program Instance uuid_countable : Countable Uuid :=
  inj_countable uuid_bits
    (λ n, match (n <? 2 ^ 128) as b return (n <? 2 ^ 128) = b → option Uuid with
          | true => λ H, Some (mk_uuid n H) | false => λ _, None end eq_refl) _.
Next Obligation.
  intros [n Hn]. cbn [uuid_bits].
  assert (∀ b (E : (n <? 2 ^ 128) = b),
    match b as b' return (n <? 2 ^ 128) = b' → option Uuid with
    | true => λ H, Some (mk_uuid n H) | false => λ _, None end E = Some (mk_uuid n Hn)) as H.
  { intros [] E; [|congruence]. f_equal. by apply uuid_bits_inj. }
  apply H.
Qed.

(** [Uuid::nil]. *)
Definition uuid_nil : Uuid := mk_uuid 0 eq_refl.
Definition is_nil (u : Uuid) : bool := uuid_bits u =? 0.
(** A UUID with the low 128 bits of [n]. *)
Definition uuid_of (n : N) : Uuid :=
  match bool_dec (n mod 2 ^ 128 <? 2 ^ 128) true with
  | left H => mk_uuid (n mod 2 ^ 128) H
  | right _ => uuid_nil
  end.
Lemma uuid_of_bits n : uuid_bits (uuid_of n) = n mod 2 ^ 128.
Proof.
  unfold uuid_of. destruct (bool_dec _ _) as [H|H]; [done|]. destruct H.
  apply N.ltb_lt, N.mod_lt. done.
Qed.

(** ** The text forms of the [uuid] crate *)

Class UuidText := {
  uuid_display : Uuid → str;          (** [to_string] *)
  uuid_parse : str → option Uuid;     (** [Uuid::parse_str(..).ok()] *)
}.
Class UuidTextLaws `{UuidText} := {
  parse_display u : uuid_parse (uuid_display u) = Some u;
  display_no_newline u : 10 ∉ uuid_display u;
  display_ascii u : Forall (λ c, c < 128) (uuid_display u);
  parse_no_newline s u : uuid_parse s = Some u → 10 ∉ s;
}.

Lemma uuid_display_inj `{UuidTextLaws} u v : uuid_display u = uuid_display v → u = v.
Proof. intros E. apply (f_equal uuid_parse) in E. rewrite !parse_display in E. by simplify_eq. Qed.

Module Canonical.
Fixpoint nibbles (k : nat) (n : N) : list N :=
  match k with O => [] | S k => nibbles k (n / 16) ++ [n mod 16] end.
Definition nibble_char (d : N) : char := if d <? 10 then 48 + d else 87 + d.
Definition char_nibble (c : char) : N := if c <? 58 then c - 48 else c - 87.
Definition hyphenate (l : str) : str :=
  take 8 l ++ 45 :: take 4 (drop 8 l) ++ 45 :: take 4 (drop 12 l) ++
  45 :: take 4 (drop 16 l) ++ 45 :: drop 20 l.
Definition display (u : Uuid) : str := hyphenate (nibble_char <$> nibbles 32 (uuid_bits u)).
Definition value (l : list N) : N := fold_left (λ a d, 16 * a + d) l 0.
Definition parse (s : str) : option Uuid :=
  let u := uuid_of (value (char_nibble <$> filter (λ c, c ≠ 45) s)) in
  if decide (display u = s) then Some u else None.

Definition text : UuidText := {| uuid_display := display; uuid_parse := parse |}.

Lemma nibbles_lt k n : Forall (λ d, d < 16) (nibbles k n).
Proof.
  revert n. induction k as [|k IH]; intros n; cbn; [constructor|].
  apply Forall_app_2; [apply IH|]. constructor; [apply N.mod_lt; lia|constructor].
Qed.
Lemma value_nibbles k n : n < 16 ^ N.of_nat k → value (nibbles k n) = n.
Proof.
  revert n. induction k as [|k IH]; intros n Hn; cbn [nibbles].
  - cbn in Hn. by assert (n = 0) as -> by lia.
  - unfold value in *. rewrite fold_left_app. cbn [fold_left]. rewrite IH.
    + symmetry. apply N.div_mod. lia.
    + rewrite Nat2N.inj_succ, N.pow_succ_r' in Hn. apply N.Div0.div_lt_upper_bound; lia.
Qed.
Lemma nibble_char_spec d :
  d < 16 → char_nibble (nibble_char d) = d ∧ nibble_char d ≠ 45 ∧ nibble_char d ≠ 10.
Proof.
  intros Hd. unfold nibble_char, char_nibble.
  destruct (N.ltb_spec d 10) as [?|?].
  - rewrite (proj2 (N.ltb_lt _ _)) by lia. lia.
  - rewrite (proj2 (N.ltb_ge _ _)) by lia. lia.
Qed.
Lemma filter_hyphen_id (k : str) :
  Forall (λ c, c ≠ 45) k → filter (λ c, c ≠ 45) k = k.
Proof.
  induction 1 as [|c k Hc _ IH]; [done|]. rewrite filter_cons_True by done. by rewrite IH.
Qed.
Lemma hyphenate_filter (l : str) :
  Forall (λ c, c ≠ 45) l → filter (λ c, c ≠ 45) (hyphenate l) = l.
Proof.
  intros Hl. unfold hyphenate.
  do 4 (rewrite filter_app, filter_cons_False by (intros H; by apply H)).
  rewrite !filter_hyphen_id by auto using Forall_take, Forall_drop.
  change 20%nat with (16 + 4)%nat. rewrite <-drop_drop, take_drop.
  change 16%nat with (12 + 4)%nat. rewrite <-drop_drop, take_drop.
  change 12%nat with (8 + 4)%nat. rewrite <-drop_drop, take_drop.
  by rewrite take_drop.
Qed.
Lemma display_Forall (P : char → Prop) u :
  (∀ d, d < 16 → P (nibble_char d)) → P 45 → Forall P (display u).
Proof.
  intros Hd Hh. assert (Forall P (nibble_char <$> nibbles 32 (uuid_bits u))) as F.
  { apply Forall_fmap. eapply Forall_impl; [apply nibbles_lt|]. cbn. auto. }
  unfold display, hyphenate. revert F. generalize (nibble_char <$> nibbles 32 (uuid_bits u)).
  intros l F. repeat (apply Forall_app_2; [|apply Forall_cons_2; [done|]]);
    auto using Forall_take, Forall_drop.
Qed.
Lemma display_chars u : 10 ∉ display u.
Proof.
  pose proof (display_Forall (λ c, c ≠ 10) u ltac:(intros; by apply nibble_char_spec) ltac:(done)) as F.
  rewrite Forall_forall in F. intros ?%F. done.
Qed.
Lemma nibble_char_ascii d : d < 16 → nibble_char d < 128.
Proof. intros Hd. unfold nibble_char. case_match; lia. Qed.

Lemma value_display u :
  uuid_of (value (char_nibble <$> filter (λ c, c ≠ 45) (display u))) = u.
Proof.
  pose proof (nibbles_lt 32 (uuid_bits u)) as Hl.
  pose proof (proj1 (N.ltb_lt _ _) (uuid_wf u)) as Hu.
  unfold display. rewrite hyphenate_filter.
  2: { apply Forall_fmap. eapply Forall_impl; [done|]. cbn. intros d Hd. by apply nibble_char_spec. }
  rewrite <-list_fmap_compose, <-(Forall_fmap_ext_1 id), list_fmap_id.
  2: { eapply Forall_impl; [done|]. cbn. intros d Hd. symmetry. by apply nibble_char_spec. }
  apply uuid_bits_inj. rewrite uuid_of_bits, value_nibbles by done.
  by apply N.mod_small.
Qed.

Lemma laws : @UuidTextLaws text.
Proof.
  split; cbn [uuid_display uuid_parse text].
  - intros u. unfold parse. rewrite value_display.
    case_decide as E; done.
  - apply display_chars.
  - intros u. apply display_Forall; [apply nibble_char_ascii|lia].
  - intros s u. unfold parse. case_decide as E; [|done]. intros _. rewrite <-E.
    apply display_chars.
Qed.
End Canonical.
Module CanonicalInstances.
#[export] Instance uuid_text : UuidText := Canonical.text.
#[export] Instance uuid_text_laws : UuidTextLaws := Canonical.laws.
End CanonicalInstances.

(** ** JSON values

    [serde_json::Value] with its constructors; a number is kept as the text
    [Number]'s [Display] prints. *)

Inductive Value : Type :=
| VNull
| VBool (b : bool)
| VNumber (text : str)
| VString (s : str)
| VArray (l : list Value)
| VObject (m : list (str * Value)).

#[global] Instance value_eq_dec : EqDecision Value.
Proof.
  refine (fix go v w := let _ : EqDecision Value := @go in
    match v, w with
    | VNull, VNull => left _
    | VBool b, VBool c => cast_if (decide (b = c))
    | VNumber s, VNumber t => cast_if (decide (s = t))
    | VString s, VString t => cast_if (decide (s = t))
    | VArray l, VArray k => cast_if (decide (l = k))
    | VObject l, VObject k => cast_if (decide (l = k))
    | _, _ => right _
    end); abstract congruence.
Defined.

Definition value_as_str (v : Value) : option str :=
  match v with VString s => Some s | _ => None end.
Definition value_is_null (v : Value) : bool := match v with VNull => true | _ => false end.

(** ** Time

    [DateTime<Utc>] and [SystemTime] are nanoseconds relative to the Unix epoch. *)

Abbreviation DateTime := Z (only parsing).
Definition u64_max : N := 2 ^ 64 - 1.
