(* ===== verification/Model.v ===== *)
(** * Alert rules ([src/model.rs])

    The stored [AlertRule], the [CreateAlertRule] request, its validation and its
    normalisation into a rule. *)

From S2P Require Import Prelude Str Float Ids.
Open Scope N_scope.

(** ** Data *)

Definition MAX_ALERT_NAME_BYTES : N := 160.
Definition MAX_QUERY_BYTES : N := 8 * 1024.
Definition MAX_MODEL_BYTES : N := 128.
Definition MAX_LIST_ITEMS : N := 32.
Definition MAX_LIST_ITEM_BYTES : N := 256.

Record AlertRule := mk_rule {
  ar_id : Uuid;
  ar_created_at : DateTime;
  ar_updated_at : DateTime;
  ar_name : str;
  ar_query_text : str;
  ar_embedding_model : str;
  ar_similarity_threshold : f32;
  ar_source_filters : list str;
  ar_delivery_channels : list str;
  ar_enabled : bool;
}.
#[global] Instance alert_rule_eq_dec : EqDecision AlertRule.
Proof. solve_decision. Defined.

Record CreateAlertRule := mk_create {
  ca_name : str;
  ca_query_text : str;
  ca_embedding_model : str;
  ca_similarity_threshold : f32;
  ca_source_filters : list str;
  ca_delivery_channels : list str;
  ca_enabled : bool;
}.

Record Health := mk_health {
  service : str;
  status : str;
  h_database_configured : bool;
  shared_auth_configured : bool;
  h_mtls_configured : bool;
  h_jetstream_configured : bool;
}.

(** ** Validation *)

Definition text_message : str := lit "text field is empty, oversized, or contains controls".
Definition list_message : str := lit "list field contains too many entries".
Definition threshold_message : str := lit "similarity_threshold must be between zero and one".

Definition validate_text (value : str) (max : N) : result str unit :=
  if is_empty (trim value) || (max <? len value) || existsb is_control value
  then Err text_message
  else Ok tt.

Fixpoint validate_items (values : list str) : result str unit :=
  match values with
  | [] => Ok tt
  | value :: values => validate_text value MAX_LIST_ITEM_BYTES;; validate_items values
  end.
Definition validate_list (values : list str) : result str unit :=
  if MAX_LIST_ITEMS <? N.of_nat (length values) then Err list_message
  else validate_items values.

Definition validate (self : CreateAlertRule) : result str unit :=
  validate_text (ca_name self) MAX_ALERT_NAME_BYTES;;
  validate_text (ca_query_text self) MAX_QUERY_BYTES;;
  validate_text (ca_embedding_model self) MAX_MODEL_BYTES;;
  if negb (is_finite (ca_similarity_threshold self))
     || negb (contains_inclusive f32_zero f32_one (ca_similarity_threshold self))
  then Err threshold_message
  else
    validate_list (ca_source_filters self);;
    validate_list (ca_delivery_channels self);;
    Ok tt.

Definition normalize_list (values : list str) : list str := trim <$> values.

Definition into_rule (self : CreateAlertRule) (id : Uuid) (now : DateTime) : AlertRule := {|
  ar_id := id;
  ar_created_at := now;
  ar_updated_at := now;
  ar_name := trim (ca_name self);
  ar_query_text := trim (ca_query_text self);
  ar_embedding_model := trim (ca_embedding_model self);
  ar_similarity_threshold := ca_similarity_threshold self;
  ar_source_filters := normalize_list (ca_source_filters self);
  ar_delivery_channels := normalize_list (ca_delivery_channels self);
  ar_enabled := ca_enabled self;
|}.

(** ** Specification *)

(** A text the API accepts: some character is not whitespace, at most [max] UTF-8
    bytes, no control character. *)
Definition text_ok (max : N) (s : str) : Prop :=
  (∃ c, c ∈ s ∧ is_whitespace c = false) ∧ len s <= max ∧
  Forall (λ c, is_control c = false) s.
Definition list_ok (l : list str) : Prop :=
  N.of_nat (length l) <= MAX_LIST_ITEMS ∧ Forall (text_ok MAX_LIST_ITEM_BYTES) l.
Definition threshold_ok (x : f32) : Prop := contains_inclusive f32_zero f32_one x = true.
Definition create_ok (c : CreateAlertRule) : Prop :=
  text_ok MAX_ALERT_NAME_BYTES (ca_name c) ∧
  text_ok MAX_QUERY_BYTES (ca_query_text c) ∧
  text_ok MAX_MODEL_BYTES (ca_embedding_model c) ∧
  threshold_ok (ca_similarity_threshold c) ∧
  list_ok (ca_source_filters c) ∧ list_ok (ca_delivery_channels c).

(** The request a rule came from, were it submitted again. *)
Definition as_create (r : AlertRule) : CreateAlertRule := {|
  ca_name := ar_name r;
  ca_query_text := ar_query_text r;
  ca_embedding_model := ar_embedding_model r;
  ca_similarity_threshold := ar_similarity_threshold r;
  ca_source_filters := ar_source_filters r;
  ca_delivery_channels := ar_delivery_channels r;
  ca_enabled := ar_enabled r;
|}.
(** The invariant of stored rules. *)
Definition trimmed (s : str) : Prop := trim s = s.
Definition rule_ok (r : AlertRule) : Prop :=
  create_ok (as_create r) ∧ trimmed (ar_name r) ∧ trimmed (ar_query_text r) ∧
  trimmed (ar_embedding_model r) ∧ Forall trimmed (ar_source_filters r) ∧
  Forall trimmed (ar_delivery_channels r).

(** ** Lemmas *)

Lemma trim_nonempty_iff s : trim s ≠ [] ↔ ∃ c, c ∈ s ∧ is_whitespace c = false.
Proof.
  rewrite trim_nil_iff. split.
  - intros H. destruct (decide (Exists (λ c, is_whitespace c = false) s)) as [E|E].
    + by apply Exists_exists.
    + destruct H. apply Forall_forall. intros c Hc. apply not_false_iff_true. intros Hw.
      apply E, Exists_exists. eauto.
  - intros (c & Hc & Hw) H. rewrite Forall_forall in H. specialize (H c Hc). cbn in H. congruence.
Qed.

Lemma validate_text_iff s max : validate_text s max = Ok tt ↔ text_ok max s.
Proof.
  unfold validate_text, text_ok. rewrite <-trim_nonempty_iff, <-is_empty_false_iff.
  rewrite <-existsb_false_Forall, <-N.ltb_ge.
  destruct (is_empty (trim s)), (max <? len s), (existsb is_control s); cbn; naive_solver.
Qed.
Lemma validate_text_cases s max : validate_text s max = Ok tt ∨ validate_text s max = Err text_message.
Proof. unfold validate_text. case_match; auto. Qed.

Lemma validate_items_iff l : validate_items l = Ok tt ↔ Forall (text_ok MAX_LIST_ITEM_BYTES) l.
Proof.
  induction l as [|s l IH]; cbn [validate_items]; [by split|].
  rewrite Forall_cons, bind_Ok_iff, <-IH, <-validate_text_iff. split.
  - by intros ([] & ? & ?).
  - intros [? ?]. by exists tt.
Qed.
Lemma validate_list_iff l : validate_list l = Ok tt ↔ list_ok l.
Proof.
  unfold validate_list, list_ok. rewrite <-validate_items_iff, <-N.ltb_ge.
  destruct (_ <? _); naive_solver.
Qed.
Lemma text_ok_trim max s : text_ok max s → text_ok max (trim s).
Proof.
  intros (Hc & Hl & Hf). split_and!.
  - apply trim_nonempty_iff. rewrite trim_idemp. by apply trim_nonempty_iff.
  - pose proof (len_trim_le s). lia.
  - by apply trim_Forall.
Qed.
Lemma text_ok_no_control max s c : text_ok max s → c ∈ s → is_control c = false.
Proof. intros (_ & _ & H) Hc. rewrite Forall_forall in H. by apply H. Qed.
Lemma text_ok_nonempty max s : text_ok max s → s ≠ [].
Proof. intros ((c & Hc & _) & _) ->. by apply elem_of_nil in Hc. Qed.
Lemma text_ok_length max s : text_ok max s → 1 <= N.of_nat (length s) <= max.
Proof.
  intros H. split; [|pose proof (length_le_len s); destruct H as (_ & ? & _); lia].
  apply text_ok_nonempty in H. destruct s; cbn; [done|lia].
Qed.
#[export] Hint Resolve text_ok_trim : eal.

Lemma list_ok_normalize l : list_ok l → list_ok (normalize_list l).
Proof.
  intros [Hl Hf]. unfold normalize_list. split; [by rewrite length_fmap|].
  apply Forall_fmap. eapply Forall_impl; [done|]. cbn. eauto with eal.
Qed.
Lemma normalize_trimmed l : Forall trimmed (normalize_list l).
Proof. apply Forall_fmap, Forall_true. intros s. apply trim_idemp. Qed.
Lemma normalize_id l : Forall trimmed l → normalize_list l = l.
Proof. intros H. induction H as [|s l Hs _ IH]; [done|].
  change (trim s :: normalize_list l = s :: l). by rewrite Hs, IH.
Qed.

Lemma validate_create_ok c : validate c = Ok tt ↔ create_ok c.
Proof.
  unfold validate, create_ok, threshold_ok.
  rewrite !seq_Ok_iff, !validate_text_iff, <-!validate_list_iff.
  destruct (contains_inclusive _ _ _) eqn:Hc.
  - rewrite (contains_unit_finite _ Hc). cbn. rewrite !seq_Ok_iff. naive_solver.
  - rewrite orb_true_r. naive_solver.
Qed.

Lemma into_rule_ok c id now : create_ok c → rule_ok (into_rule c id now).
Proof.
  intros (H1 & H2 & H3 & H4 & H5 & H6).
  refine (conj (conj (text_ok_trim _ _ H1) (conj (text_ok_trim _ _ H2) (conj (text_ok_trim _ _ H3)
    (conj H4 (conj (list_ok_normalize _ H5) (list_ok_normalize _ H6)))))) _).
  repeat (split; [apply trim_idemp || apply normalize_trimmed|]). apply normalize_trimmed.
Qed.
Lemma into_rule_of_rule r : rule_ok r → into_rule (as_create r) (ar_id r) (ar_created_at r) =
  {| ar_id := ar_id r; ar_created_at := ar_created_at r; ar_updated_at := ar_created_at r;
     ar_name := ar_name r; ar_query_text := ar_query_text r;
     ar_embedding_model := ar_embedding_model r;
     ar_similarity_threshold := ar_similarity_threshold r;
     ar_source_filters := ar_source_filters r; ar_delivery_channels := ar_delivery_channels r;
     ar_enabled := ar_enabled r |}.
Proof.
  intros (_ & H1 & H2 & H3 & H4 & H5). unfold into_rule, as_create; cbn -[normalize_list trim].
  by rewrite H1, H2, H3, !normalize_id.
Qed.

(** ** Properties *)

(** C37: [CreateAlertRule::validate] accepts exactly the requests whose three texts hold a
    non-blank character, no control character and at most 160, 8192 and 128 UTF-8 bytes, whose
    threshold lies between zero and one (so is not NaN or infinite), and whose two lists hold at
    most 32 texts of at most 256 bytes; every other request is an error. *)
Theorem validate_accepts_iff c :
  (validate c = Ok tt ↔ create_ok c) ∧ (¬ create_ok c → ∃ e, validate c = Err e).
Proof.
  split; [apply validate_create_ok|]. intros H. destruct (validate c) as [[]|e] eqn:E; [|by eexists].
  destruct H. by apply validate_create_ok.
Qed.

Definition sample_create : CreateAlertRule := {|
  ca_name := lit " Release monitor ";
  ca_query_text := lit "new Rust releases";
  ca_embedding_model := lit "small";
  ca_similarity_threshold := S754_finite false 11744051 (-24);
  ca_source_filters := [lit "docs"; lit " blog "];
  ca_delivery_channels := [lit "email"];
  ca_enabled := true;
|}.
Lemma sample_create_ok : create_ok sample_create.
Proof. by apply validate_create_ok. Qed.

Lemma validate_accepts_iff_witness :
  ∃ e, validate (as_create (into_rule {| ca_name := lit "  "; ca_query_text := lit "q";
    ca_embedding_model := lit "m"; ca_similarity_threshold := f32_zero; ca_source_filters := [];
    ca_delivery_channels := []; ca_enabled := false |} uuid_nil 0)) = Err e.
Proof.
  apply (proj2 (validate_accepts_iff _)). intros [((c & Hc & _) & _) _]. by apply elem_of_nil in Hc.
Defined.

(** A rule built from an accepted request is normal: every text is trimmed, still within
    its bounds and still not blank, so the rule would itself be accepted, and building a rule
    from it again changes nothing. *)
Theorem into_rule_normal_form c id now :
  validate c = Ok tt →
  let r := into_rule c id now in
  rule_ok r ∧ validate (as_create r) = Ok tt ∧ into_rule (as_create r) id now = r.
Proof.
  intros Hc%validate_create_ok r. assert (rule_ok r) as Hr by by apply into_rule_ok.
  split_and!; [done|apply validate_create_ok, Hr|by apply into_rule_of_rule].
Qed.
Lemma into_rule_normal_form_witness :
  into_rule (as_create (into_rule sample_create uuid_nil 5)) uuid_nil 5 =
  into_rule sample_create uuid_nil 5.
Proof. by apply (into_rule_normal_form sample_create uuid_nil 5). Defined.
