(* ===== verification/Auth.v ===== *)
(** * The Shared Auth boundary ([src/auth.rs])

    Bearer extraction, the call to the introspection authority, and the strict
    authorization of its answer.  [shared_auth_client] and the [http] header map
    are library code: their operations are the classes [SharedAuth] and [Http]. *)

From S2P Require Import Prelude Str Ids.
Open Scope N_scope.

(** ** Data *)

Definition READ_SCOPE : str := lit "embedded-alerts:alerts:read".
Definition WRITE_SCOPE : str := lit "embedded-alerts:alerts:write".
Definition MAX_CREDENTIAL_BYTES : N := 16 * 1024.

Record AuthPolicy := mk_policy {
  issuer : str;
  audience : str;
  authorized_client : str;
  p_provider_tenant : str;
  p_product_tenant : str;
}.
Record VerifiedActor := mk_actor { subject : Uuid; product_tenant : str }.
#[global] Instance verified_actor_eq_dec : EqDecision VerifiedActor.
Proof. solve_decision. Defined.

Inductive AuthError := Unauthorized | Degraded | Configuration.
#[global] Instance auth_error_eq_dec : EqDecision AuthError.
Proof. solve_decision. Defined.

(** ** Library interfaces *)

(** [shared_auth_client]: the errors the server tells apart, the claims it reads and
    the client's constructor and introspection call. *)
Inductive ClientError := ClientUnauthorized | ClientInvalidInput (m : str) | ClientOther.

Class SharedAuth := {
  Introspection : Type;
  active : Introspection → bool;
  sub : Introspection → option str;
  sid : Introspection → option str;
  iss : Introspection → option str;
  aud : Introspection → option str;
  azp : Introspection → option str;
  provider_tenant : Introspection → option str;
  rest_get : Introspection → str → option Value;
  has_scope : Introspection → str → bool;
  exp : Introspection → option N;
  nbf : Introspection → option N;
  SharedAuthClient : Type;
  try_new : str → option SharedAuthClient;
  with_service_credential : SharedAuthClient → str → SharedAuthClient;
  with_max_response_bytes : SharedAuthClient → N → SharedAuthClient;
  introspect_with_requirements :
    SharedAuthClient → str → str → list str → result ClientError Introspection;
}.

(** [http::HeaderMap]: the [Authorization] values in order, and [HeaderValue::to_str]. *)
Class Http := {
  HeaderMap : Type;
  HeaderValue : Type;
  get_all_authorization : HeaderMap → list HeaderValue;
  to_str : HeaderValue → option str;
}.

(** ** Syntactic checks *)

Definition strict_credential (value : str) : bool :=
  (16 <=? len value) && (len value <=? MAX_CREDENTIAL_BYTES)
  && str_eqb (trim value) value
  && negb (existsb is_whitespace value)
  && negb (existsb is_control value).

Definition identifier_byte (byte : N) : bool :=
  is_ascii_alphanumeric byte
  || (byte =? 46) || (byte =? 95) || (byte =? 58) || (byte =? 47) || (byte =? 45).
Definition bounded_identifier (value : str) : bool :=
  negb (is_empty value) && (len value <=? 128) && forallb identifier_byte (as_bytes value).

(** ** Configuration *)

(** [env] is the configuration lookup [crate::flags::var(name).ok()]. *)
Definition required_env (env : str → option str) (name : str) : result AuthError str :=
  ok_or (opt_filter (λ value, negb (is_empty value)) (trim <$> env name)) Configuration.

(** [SystemTime] is nanoseconds since the epoch; earlier times have no duration since it. *)
Definition unix_seconds (now : Z) : result AuthError N :=
  if (now <? 0)%Z then Err Degraded else Ok (Z.to_N (now / 1000000000)).

Section auth.
Context `{SharedAuth} `{Http} `{UuidText}.

Record AuthBoundary := mk_boundary { client : SharedAuthClient; policy : AuthPolicy }.

Definition from_env (env : str → option str) : result AuthError AuthBoundary :=
  base ← required_env env (lit "SHARED_AUTH_BASE_URL");
  service_credential ← required_env env (lit "SHARED_AUTH_SERVICE_CREDENTIAL");
  if negb (strict_credential service_credential) then Err Configuration else
  i ← required_env env (lit "SHARED_AUTH_ISSUER");
  a ← required_env env (lit "EAL_AUTH_AUDIENCE");
  c ← required_env env (lit "EAL_AUTHORIZED_CLIENT");
  pt ← required_env env (lit "EAL_PROVIDER_TENANT");
  t ← required_env env (lit "EAL_PRODUCT_TENANT");
  let policy := mk_policy i a c pt t in
  if negb (bounded_identifier (audience policy))
     || negb (bounded_identifier (authorized_client policy))
     || negb (bounded_identifier (p_provider_tenant policy))
     || negb (bounded_identifier (p_product_tenant policy))
  then Err Configuration else
  client ← ok_or (try_new base) Configuration;
  Ok (mk_boundary
        (with_max_response_bytes (with_service_credential client service_credential) (64 * 1024))
        policy).

(** ** Authorization *)

Definition claim_string (claims : Introspection) (key : str) : option str :=
  opt_filter bounded_identifier (rest_get claims key ≫= value_as_str).

Definition opt_str_eqb (a b : option str) : bool := bool_decide (a = b).

Definition authorize_introspection (claims : Introspection) (policy : AuthPolicy)
    (required_scope : str) (now : N) : result AuthError VerifiedActor :=
  let tenant_id := claim_string claims (lit "tenant_id") in
  let application_id := claim_string claims (lit "application_id") in
  let actor_kind := claim_string claims (lit "actor_kind") in
  let subject := sub claims ≫= uuid_parse in
  let session_present := is_some_and bounded_identifier (sid claims) in
  if negb (active claims)
     || negb (opt_str_eqb (iss claims) (Some (issuer policy)))
     || negb (opt_str_eqb (aud claims) (Some (audience policy)))
     || negb (opt_str_eqb (azp claims) (Some (authorized_client policy)))
     || negb (opt_str_eqb (provider_tenant claims) (Some (p_provider_tenant policy)))
     || negb (opt_str_eqb tenant_id (Some (p_product_tenant policy)))
     || negb (opt_str_eqb application_id (Some (authorized_client policy)))
     || negb (opt_str_eqb actor_kind (Some (lit "user")))
     || negb (has_scope claims required_scope)
     || is_none_or (λ expiry, expiry <=? now) (exp claims)
     || is_none_or (λ not_before, now <? not_before) (nbf claims)
     || is_none subject
     || negb session_present
  then Err Unauthorized
  else match subject with
       | Some s => Ok (mk_actor s (p_product_tenant policy))
       | None => Err Unauthorized (* [expect]: not reached, [subject] was checked above *)
       end.

Definition verify_token (self : AuthBoundary) (token required_scope : str) (now : Z)
    : result AuthError VerifiedActor :=
  if negb (strict_credential token) || negb (bounded_identifier required_scope)
  then Err Unauthorized else
  claims ← map_err (λ error, match error with
                             | ClientUnauthorized | ClientInvalidInput _ => Unauthorized
                             | ClientOther => Degraded
                             end)
             (introspect_with_requirements (client self) token (audience (policy self))
                [required_scope]);
  now ← unix_seconds now;
  authorize_introspection claims (policy self) required_scope now.

Definition bearer_from_headers (headers : HeaderMap) : result AuthError str :=
  match get_all_authorization headers with
  | [] => Err Unauthorized
  | value :: more =>
      match more with
      | _ :: _ => Err Unauthorized
      | [] =>
          value ← ok_or (to_str value) Unauthorized;
          ok_or (opt_filter strict_credential (strip_prefix (lit "Bearer ") value)) Unauthorized
      end
  end.

Definition verify_authorization (self : AuthBoundary) (headers : HeaderMap)
    (required_scope : str) (now : Z) : result AuthError VerifiedActor :=
  token ← bearer_from_headers headers;
  verify_token self token required_scope now.
End auth.

(** ** Specification *)

Definition credential_ok (s : str) : Prop :=
  16 <= len s <= MAX_CREDENTIAL_BYTES ∧
  Forall (λ c, is_whitespace c = false ∧ is_control c = false) s.
Definition identifier_ok (s : str) : Prop :=
  s ≠ [] ∧ N.of_nat (length s) <= 128 ∧ Forall (λ c, identifier_byte c = true) s.

(** What the introspection answer must say for [s] to be the verified subject. *)
Record authorized `{SharedAuth, UuidText} (claims : Introspection) (policy : AuthPolicy)
    (scope : str) (now : N) (s : Uuid) : Prop := {
  au_active : active claims = true;
  au_iss : iss claims = Some (issuer policy);
  au_aud : aud claims = Some (audience policy);
  au_azp : azp claims = Some (authorized_client policy);
  au_provider : provider_tenant claims = Some (p_provider_tenant policy);
  au_tenant : rest_get claims (lit "tenant_id") = Some (VString (p_product_tenant policy));
  au_tenant_ok : identifier_ok (p_product_tenant policy);
  au_application :
    rest_get claims (lit "application_id") = Some (VString (authorized_client policy));
  au_client_ok : identifier_ok (authorized_client policy);
  au_kind : rest_get claims (lit "actor_kind") = Some (VString (lit "user"));
  au_scope : has_scope claims scope = true;
  au_exp : ∃ expiry, exp claims = Some expiry ∧ now < expiry;
  au_nbf : ∃ not_before, nbf claims = Some not_before ∧ not_before <= now;
  au_sub : ∃ text, sub claims = Some text ∧ uuid_parse text = Some s;
  au_sid : ∃ session, sid claims = Some session ∧ identifier_ok session;
}.

(** ** Lemmas *)

Lemma identifier_byte_ascii b : identifier_byte b = true → b < 128.
Proof.
  unfold identifier_byte, is_ascii_alphanumeric, is_ascii_digit, is_ascii_lowercase,
    is_ascii_uppercase, in_range.
  rewrite !orb_true_iff, !andb_true_iff, !N.leb_le, !N.eqb_eq. lia.
Qed.
Lemma bounded_identifier_iff s : bounded_identifier s = true ↔ identifier_ok s.
Proof.
  unfold bounded_identifier, identifier_ok.
  rewrite !andb_true_iff, negb_true_iff, is_empty_false_iff, N.leb_le.
  rewrite (bytes_all_ascii identifier_byte) by apply identifier_byte_ascii.
  assert (Forall (λ c, identifier_byte c = true) s → len s = N.of_nat (length s)) as Hl.
  { intros Hs. apply len_ascii. eapply Forall_impl; [done|]. apply identifier_byte_ascii. }
  split; [intros [[? ?] ?]|intros (? & ? & ?)]; rewrite Hl in * by done; done.
Qed.
Lemma strict_credential_iff s : strict_credential s = true ↔ credential_ok s.
Proof.
  unfold strict_credential, credential_ok.
  rewrite !andb_true_iff, !negb_true_iff, !N.leb_le, !existsb_false_Forall, str_eqb_eq.
  rewrite Forall_and. split; [tauto|]. intros (? & ? & ?).
  rewrite trim_no_whitespace by done. tauto.
Qed.
Lemma identifier_ok_no c s : identifier_byte c = false → identifier_ok s → c ∉ s.
Proof. intros Hc (_ & _ & H) Hin. rewrite Forall_forall in H. apply H in Hin. congruence. Qed.
Lemma required_env_Ok_iff env name v :
  required_env env name = Ok v ↔ ∃ raw, env name = Some raw ∧ v = trim raw ∧ v ≠ [].
Proof.
  unfold required_env. rewrite ok_or_Ok_iff, opt_filter_Some_iff, fmap_Some.
  rewrite negb_true_iff, is_empty_false_iff. naive_solver.
Qed.
Lemma required_env_Err env name e : required_env env name = Err e → e = Configuration.
Proof. unfold required_env. rewrite ok_or_Err_iff. tauto. Qed.
Lemma opt_str_eqb_eq a b : opt_str_eqb a b = true ↔ a = b.
Proof. apply bool_decide_eq_true. Qed.
Lemma value_as_str_Some v s : value_as_str v = Some s ↔ v = VString s.
Proof. destruct v; cbn; naive_solver. Qed.

Section auth_lemmas.
Context `{SharedAuth} `{Http} `{UuidText}.

Lemma claim_string_Some claims key s :
  claim_string claims key = Some s ↔
  rest_get claims key = Some (VString s) ∧ identifier_ok s.
Proof.
  unfold claim_string. rewrite opt_filter_Some_iff, bounded_identifier_iff, bind_Some.
  setoid_rewrite value_as_str_Some. naive_solver.
Qed.

Lemma authorize_Ok_iff claims policy scope now a :
  authorize_introspection claims policy scope now = Ok a ↔
  authorized claims policy scope now (subject a) ∧ product_tenant a = p_product_tenant policy.
Proof.
  unfold authorize_introspection. set (g := _ || _).
  assert (g = false ↔ ∃ s, authorized claims policy scope now s ∧ sub claims ≫= uuid_parse = Some s)
    as Hg.
  { unfold g. rewrite !orb_false_iff, !negb_false_iff, !opt_str_eqb_eq, !claim_string_Some.
    rewrite is_some_and_true_iff. setoid_rewrite bounded_identifier_iff.
    rewrite !is_none_or_false_iff. setoid_rewrite N.leb_gt. setoid_rewrite N.ltb_ge.
    unfold is_none. rewrite negb_false_iff, is_some_true_iff.
    split.
    - intros ((((((((((((?&?)&?)&?)&?)&[??])&[??])&[??])&?)&?)&?)&[s Hs])&?).
      exists s. split; [|done]. apply bind_Some in Hs. by split.
    - intros (s & [] & Hs). split_and!; eauto.
      by apply bounded_identifier_iff. }
  destruct g.
  - split; [done|]. intros [Ha _]. assert (true = false); [|done]. apply Hg.
    exists (subject a). split; [done|]. apply bind_Some. apply Ha.
  - destruct (proj1 Hg eq_refl) as (s & Ha & Hs). rewrite Hs. destruct a as [s' t]; cbn. split.
    + by intros [= -> ->].
    + intros [Ha' ->]. pose proof (au_sub _ _ _ _ _ Ha') as Hs'. apply bind_Some in Hs'. congruence.
Qed.
Lemma authorize_Err claims policy scope now e :
  authorize_introspection claims policy scope now = Err e → e = Unauthorized.
Proof. unfold authorize_introspection. repeat case_match; naive_solver. Qed.

Lemma unix_seconds_Ok now n :
  unix_seconds now = Ok n ↔ (0 <= now)%Z ∧ n = Z.to_N (now / 1000000000).
Proof. unfold unix_seconds. destruct (Z.ltb_spec now 0); naive_solver lia. Qed.

Lemma bearer_Ok_iff headers token :
  bearer_from_headers headers = Ok token ↔
  ∃ v, get_all_authorization headers = [v] ∧ to_str v = Some (lit "Bearer " ++ token) ∧
       credential_ok token.
Proof.
  unfold bearer_from_headers. destruct (get_all_authorization headers) as [|v [|w l]];
    [naive_solver| |naive_solver].
  rewrite bind_Ok_iff. setoid_rewrite ok_or_Ok_iff. setoid_rewrite opt_filter_Some_iff.
  setoid_rewrite strict_credential_iff. setoid_rewrite strip_prefix_Some.
  split.
  - intros (s & ? & -> & ?). eauto.
  - intros (? & [= <-] & ? & ?). eauto.
Qed.
Lemma bearer_Err headers e : bearer_from_headers headers = Err e → e = Unauthorized.
Proof.
  unfold bearer_from_headers. destruct (get_all_authorization headers) as [|v [|w l]];
    [by intros [=]| |by intros [=]].
  rewrite bind_Err_iff. setoid_rewrite ok_or_Err_iff. naive_solver.
Qed.
End auth_lemmas.

Section auth_results.
Context `{SharedAuth} `{Http} `{UuidText}.

(** The introspection answer for a token, and the error the boundary turns a client
    error into. *)
Definition client_error (e : ClientError) : AuthError :=
  match e with ClientUnauthorized | ClientInvalidInput _ => Unauthorized | ClientOther => Degraded end.
Definition introspect (b : AuthBoundary) (token scope : str) : result ClientError Introspection :=
  introspect_with_requirements (client b) token (audience (policy b)) [scope].

Lemma verify_token_Ok_iff b token scope now a :
  verify_token b token scope now = Ok a ↔
  credential_ok token ∧ identifier_ok scope ∧ (0 <= now)%Z ∧
  product_tenant a = p_product_tenant (policy b) ∧
  ∃ claims, introspect b token scope = Ok claims ∧
    authorized claims (policy b) scope (Z.to_N (now / 1000000000)) (subject a).
Proof.
  unfold verify_token. fold (introspect b token scope).
  rewrite <-strict_credential_iff, <-bounded_identifier_iff.
  destruct (strict_credential token), (bounded_identifier scope); cbn [negb orb];
    [|naive_solver..].
  rewrite bind_Ok_iff. setoid_rewrite map_err_Ok_iff. setoid_rewrite bind_Ok_iff.
  setoid_rewrite unix_seconds_Ok. setoid_rewrite authorize_Ok_iff. naive_solver.
Qed.

Lemma verify_token_Err_iff b token scope now e :
  verify_token b token scope now = Err e → e = Unauthorized ∨
  e = Degraded ∧ credential_ok token ∧ identifier_ok scope ∧
  (introspect b token scope = Err ClientOther ∨
   (now < 0)%Z ∧ ∃ claims, introspect b token scope = Ok claims).
Proof.
  unfold verify_token. fold (introspect b token scope).
  rewrite <-strict_credential_iff, <-bounded_identifier_iff.
  destruct (strict_credential token), (bounded_identifier scope); cbn [negb orb];
    try (intros [= <-]; by left).
  rewrite bind_Err_iff. intros [(c & Hc & ->)%map_err_Err_iff|(claims & Hc & He)].
  - destruct c; [by left..|]. right. naive_solver.
  - rewrite map_err_Ok_iff in Hc. apply bind_Err_iff in He as [He|(n & _ & He)].
    + unfold unix_seconds in He. destruct (Z.ltb_spec now 0); [|done].
      injection He as <-. right. eauto 8.
    + left. by apply authorize_Err in He.
Qed.

Lemma verify_authorization_Ok_iff b headers scope now a :
  verify_authorization b headers scope now = Ok a ↔
  ∃ token, bearer_from_headers headers = Ok token ∧ verify_token b token scope now = Ok a.
Proof. unfold verify_authorization. apply bind_Ok_iff. Qed.

(** ** Properties *)

(** C19: [authorize_introspection] verifies a subject exactly when the answer is active, issuer,
    audience, authorized client, provider tenant, product tenant, application and actor kind
    all equal the policy's, the scope is granted, [nbf <= now < exp], the session is a bounded
    identifier and the subject parses as a UUID; the actor it returns has that subject and the
    policy's tenant, and every other answer is [Unauthorized]. *)
Theorem authorize_introspection_strict claims policy scope now :
  (∀ a, authorize_introspection claims policy scope now = Ok a ↔
        authorized claims policy scope now (subject a) ∧
        product_tenant a = p_product_tenant policy) ∧
  (∀ e, authorize_introspection claims policy scope now = Err e → e = Unauthorized).
Proof. split; intros ?; [apply authorize_Ok_iff|apply authorize_Err]. Qed.

(** C22: a request is authorized only with exactly one [Authorization] header of the form
    [Bearer <token>], a token of 16 to 16384 bytes without whitespace or controls, a positive
    answer of the authority for that token and scope, and an answer that satisfies the policy
    at the current second; and then it always is. *)
Theorem verify_authorization_iff b headers scope now a :
  verify_authorization b headers scope now = Ok a ↔
  ∃ v token claims,
    get_all_authorization headers = [v] ∧ to_str v = Some (lit "Bearer " ++ token) ∧
    credential_ok token ∧ identifier_ok scope ∧ (0 <= now)%Z ∧
    introspect b token scope = Ok claims ∧
    authorized claims (policy b) scope (Z.to_N (now / 1000000000)) (subject a) ∧
    product_tenant a = p_product_tenant (policy b).
Proof.
  rewrite verify_authorization_Ok_iff. setoid_rewrite bearer_Ok_iff.
  setoid_rewrite verify_token_Ok_iff. naive_solver.
Qed.

(** The boundary fails closed with two errors only: [Degraded] when, for well-formed
    credentials, the authority fails for a reason other than a refusal or the clock precedes
    the epoch, and [Unauthorized] in every other failing case; it never reports a
    configuration error and never authorizes when the authority did not answer. *)
Theorem verify_authorization_errors b headers scope now e :
  verify_authorization b headers scope now = Err e →
  e = Unauthorized ∨
  e = Degraded ∧ ∃ token, bearer_from_headers headers = Ok token ∧
    (introspect b token scope = Err ClientOther ∨
     (now < 0)%Z ∧ ∃ claims, introspect b token scope = Ok claims).
Proof.
  unfold verify_authorization. rewrite bind_Err_iff.
  intros [He|(token & Ht & He)]; [left; by eapply bearer_Err|].
  apply verify_token_Err_iff in He as [?|(? & _ & _ & ?)]; eauto.
Qed.

(** [AuthBoundary::from_env] yields a boundary exactly when all seven variables are not
    blank, the service credential is strict, audience, client and both tenants are bounded
    identifiers and the client accepts the base URL; the policy holds the trimmed values, and
    every failure is [Configuration]. *)
Theorem from_env_iff env :
  (∀ b, from_env env = Ok b ↔
    ∃ base credential i a c pt t cl,
      required_env env (lit "SHARED_AUTH_BASE_URL") = Ok base ∧
      required_env env (lit "SHARED_AUTH_SERVICE_CREDENTIAL") = Ok credential ∧
      required_env env (lit "SHARED_AUTH_ISSUER") = Ok i ∧
      required_env env (lit "EAL_AUTH_AUDIENCE") = Ok a ∧
      required_env env (lit "EAL_AUTHORIZED_CLIENT") = Ok c ∧
      required_env env (lit "EAL_PROVIDER_TENANT") = Ok pt ∧
      required_env env (lit "EAL_PRODUCT_TENANT") = Ok t ∧
      credential_ok credential ∧ Forall identifier_ok [a; c; pt; t] ∧ try_new base = Some cl ∧
      b = mk_boundary (with_max_response_bytes (with_service_credential cl credential) 65536)
            (mk_policy i a c pt t)) ∧
  (∀ e, from_env env = Err e → e = Configuration).
Proof.
  unfold from_env. split.
  - intros b. split.
    + intros Hb. inv_ok.
      repeat match goal with H : _ || _ = false |- _ => apply orb_false_iff in H as [? ?] end.
      repeat match goal with H : negb _ = false |- _ => apply negb_false_iff in H end.
      rewrite bounded_identifier_iff in *. rewrite strict_credential_iff in *.
      subst b. do 8 eexists. split_and!; try done.
      repeat (apply Forall_cons_2; [done|]). apply Forall_nil_2.
    + intros (base & cred & i & a & c & pt & t & cl & Hall). destruct_and! Hall.
      match goal with F : Forall _ _ |- _ => rewrite !Forall_cons in F; destruct_and! F end.
      run_ok. rewrite <-strict_credential_iff, <-bounded_identifier_iff in *.
      cbn [audience authorized_client p_provider_tenant p_product_tenant].
      repeat match goal with E : _ = true |- _ => rewrite E; clear E end.
      cbn [negb orb]. by simplify_eq; match goal with E : try_new _ = _ |- _ => rewrite E end.
  - intros e He. inv_err; eauto using required_env_Err.
Qed.
End auth_results.

(** ** A concrete authority

    A client that knows a table of tokens, used by the examples of this development. *)

Module Sample.
Record claims := mk_claims {
  c_active : bool; c_sub : option str; c_sid : option str; c_iss : option str;
  c_aud : option str; c_azp : option str; c_provider : option str;
  c_rest : list (str * Value); c_scope : str; c_exp : option N; c_nbf : option N;
}.
Definition assoc (l : list (str * Value)) (k : str) : option Value :=
  snd <$> find (λ p, str_eqb (fst p) k) l.
Definition client : Type := str → result ClientError claims.

Definition user_claims (sub : string) (tenant : string) : claims := {|
  c_active := true; c_sub := Some (lit sub); c_sid := Some (lit "session-1");
  c_iss := Some (lit "https://auth.example/customer"); c_aud := Some (lit "embedded-alerts-api");
  c_azp := Some (lit "embedded-alerts-web"); c_provider := Some (lit "embedded-alerts-provider");
  c_rest := [(lit "tenant_id", VString (lit tenant));
             (lit "application_id", VString (lit "embedded-alerts-web"));
             (lit "actor_kind", VString (lit "user"))];
  c_scope := READ_SCOPE; c_exp := Some 4000000000; c_nbf := Some 1;
|}.
Definition subject1 : string := "00000000-0000-4000-8000-000000000001".
Definition table : client := λ token,
  if str_eqb token (lit "end-user-access-token") then Ok (user_claims subject1 "embedded-alerts")
  else if str_eqb token (lit "authority-outage-token") then Err ClientOther
  else Err ClientUnauthorized.

Module Instances.
#[export] Instance shared_auth : SharedAuth := {|
  Introspection := claims;
  active := c_active; sub := c_sub; sid := c_sid; iss := c_iss; aud := c_aud; azp := c_azp;
  provider_tenant := c_provider; rest_get c k := assoc (c_rest c) k;
  has_scope c s := str_eqb (c_scope c) s; exp := c_exp; nbf := c_nbf;
  SharedAuthClient := client;
  try_new base := if starts_with base (lit "http") then Some table else None;
  with_service_credential c _ := c;
  with_max_response_bytes c _ := c;
  introspect_with_requirements c token _ _ := c token;
|}.
#[export] Instance http : Http := {|
  HeaderMap := list str; HeaderValue := str; get_all_authorization h := h; to_str v := Some v;
|}.
End Instances.
Import Instances.

Definition env (name : str) : option str :=
  snd <$> find (λ p, str_eqb (lit (fst p)) name)
    [("SHARED_AUTH_BASE_URL", lit "http://127.0.0.1:8120/shared-auth");
     ("SHARED_AUTH_SERVICE_CREDENTIAL", lit "replace-with-runtime-secret");
     ("SHARED_AUTH_ISSUER", lit " https://auth.example/customer ");
     ("EAL_AUTH_AUDIENCE", lit "embedded-alerts-api");
     ("EAL_AUTHORIZED_CLIENT", lit "embedded-alerts-web");
     ("EAL_PROVIDER_TENANT", lit "embedded-alerts-provider");
     ("EAL_PRODUCT_TENANT", lit "embedded-alerts")].
Definition policy : AuthPolicy := {|
  issuer := lit "https://auth.example/customer"; audience := lit "embedded-alerts-api";
  authorized_client := lit "embedded-alerts-web";
  p_provider_tenant := lit "embedded-alerts-provider"; p_product_tenant := lit "embedded-alerts";
|}.
Definition boundary : AuthBoundary := mk_boundary table policy.
Definition actor : VerifiedActor :=
  mk_actor (uuid_of 0x00000000000040008000000000000001) (lit "embedded-alerts").
Definition now : Z := 2000000000000000000.
Definition good_claims : Introspection := user_claims subject1 "embedded-alerts".
Definition other_claims : Introspection := user_claims subject1 "other".
End Sample.
Import CanonicalInstances Sample.Instances.

Lemma authorize_introspection_strict_witness :
  authorized Sample.good_claims Sample.policy READ_SCOPE 2000000000 (subject Sample.actor) ∧
  ∀ e, authorize_introspection Sample.other_claims Sample.policy READ_SCOPE 2000000000 = Err e →
    e = Unauthorized.
Proof.
  split.
  - apply (proj1 (authorize_introspection_strict _ _ _ _) Sample.actor). by vm_compute.
  - apply (proj2 (authorize_introspection_strict _ _ _ _)).
Defined.

Lemma verify_authorization_iff_witness :
  verify_authorization Sample.boundary [lit "Bearer end-user-access-token"] READ_SCOPE Sample.now
    = Ok Sample.actor ∧
  ∃ v token claims,
    get_all_authorization [lit "Bearer end-user-access-token"] = [v] ∧
    to_str v = Some (lit "Bearer " ++ token) ∧ credential_ok token ∧ identifier_ok READ_SCOPE ∧
    (0 <= Sample.now)%Z ∧ introspect Sample.boundary token READ_SCOPE = Ok claims ∧
    authorized claims (policy Sample.boundary) READ_SCOPE
      (Z.to_N (Sample.now / 1000000000)) (subject Sample.actor) ∧
    product_tenant Sample.actor = p_product_tenant (policy Sample.boundary).
Proof. split; [by vm_compute|]. apply verify_authorization_iff. by vm_compute. Defined.

Lemma verify_authorization_errors_witness :
  let e := Degraded in
  e = Unauthorized ∨
  e = Degraded ∧ ∃ token,
    bearer_from_headers [lit "Bearer authority-outage-token"] = Ok token ∧
    (introspect Sample.boundary token READ_SCOPE = Err ClientOther ∨
     (Sample.now < 0)%Z ∧ ∃ claims, introspect Sample.boundary token READ_SCOPE = Ok claims).
Proof. apply (verify_authorization_errors _ _ _ _ Degraded). by vm_compute. Defined.

Lemma from_env_iff_witness :
  from_env Sample.env = Ok Sample.boundary ∧
  ∀ e, from_env (λ _, None) = Err e → e = Configuration.
Proof.
  split; [|apply (proj2 (from_env_iff _))]. apply (proj1 (from_env_iff _)).
  exists (lit "http://127.0.0.1:8120/shared-auth"), (lit "replace-with-runtime-secret").
  do 5 eexists. exists Sample.table. split_and!; try by vm_compute.
  - by apply strict_credential_iff.
  - repeat (apply Forall_cons_2; [by apply bounded_identifier_iff|]). apply Forall_nil_2.
Defined.
