(* ===== verification/Database.v ===== *)
(** * The PostgreSQL schema and statements

    The four tables of [migrations/0001_four_mode_transport.sql] with their
    constraints, and one function per SQL statement of [src/store.rs] and
    [src/transport.rs].  A table maps the primary key to the row.  What the server
    does beyond the statements' own text (casts of bound parameters, the precision of
    a stored timestamp) is the class [Postgres]. *)

From S2P Require Import Prelude Str Float Ids.
Open Scope N_scope.

(** ** Rows *)

Record AlertRow := mk_alert_row {
  al_id : Uuid;
  al_product_tenant : str;
  al_owner_subject : Uuid;
  al_created_at : DateTime;
  al_updated_at : DateTime;
  al_name : str;
  al_query_text : str;
  al_embedding_model : str;
  al_similarity_threshold : f64;
  al_source_filters : Value;
  al_delivery_channels : Value;
  al_enabled : bool;
}.
Record InboxRow := mk_inbox_row {
  in_event_id : Uuid;
  in_correlation_id : Uuid;
  in_dedupe_key : str;
  in_product_tenant : str;
  in_actor_subject : Uuid;
  in_received_at : DateTime;
}.
Record OutboxRow := mk_outbox_row {
  out_event_id : Uuid;
  out_correlation_id : Uuid;
  out_dedupe_key : str;
  out_subject : str;
  out_payload : Value;
  out_created_at : DateTime;
  out_published_at : option DateTime;
}.
Record StatusRow := mk_status_row {
  st_correlation_id : Uuid;
  st_product_tenant : str;
  st_actor_subject : Uuid;
  st_status : str;
  st_updated_at : DateTime;
}.

#[global] Instance alert_row_eq_dec : EqDecision AlertRow.
Proof. solve_decision. Defined.
#[global] Instance inbox_row_eq_dec : EqDecision InboxRow.
Proof. solve_decision. Defined.
#[global] Instance outbox_row_eq_dec : EqDecision OutboxRow.
Proof. solve_decision. Defined.
#[global] Instance status_row_eq_dec : EqDecision StatusRow.
Proof. solve_decision. Defined.

Record Db := mk_db {
  alerts : gmap Uuid AlertRow;
  inbox : gmap Uuid InboxRow;
  outbox : gmap Uuid OutboxRow;
  statuses : gmap Uuid StatusRow;
}.
Definition empty_db : Db := mk_db ∅ ∅ ∅ ∅.
Definition set_alerts (f : gmap Uuid AlertRow → gmap Uuid AlertRow) (db : Db) : Db :=
  mk_db (f (alerts db)) (inbox db) (outbox db) (statuses db).
Definition set_inbox (f : gmap Uuid InboxRow → gmap Uuid InboxRow) (db : Db) : Db :=
  mk_db (alerts db) (f (inbox db)) (outbox db) (statuses db).
Definition set_outbox (f : gmap Uuid OutboxRow → gmap Uuid OutboxRow) (db : Db) : Db :=
  mk_db (alerts db) (inbox db) (f (outbox db)) (statuses db).
Definition set_statuses (f : gmap Uuid StatusRow → gmap Uuid StatusRow) (db : Db) : Db :=
  mk_db (alerts db) (inbox db) (outbox db) (f (statuses db)).

(** Why a statement fails. *)
Inductive DbErr :=
| Disconnected          (* the connection or the server *)
| UniqueViolation
| CheckViolation
| InvalidParameter      (* a bound value the column's type does not accept *)
| TransactionAborted.   (* an earlier statement of the transaction failed *)

(** What PostgreSQL does with bound parameters: a text parameter for a [uuid] column
    ([None]: the statement fails), the [::jsonb] cast of a text, and the value a
    [timestamptz] column stores. *)
Class Postgres := {
  text_as_uuid : str → option Uuid;
  text_as_jsonb : str → option Value;
  store_time : Z → Z;
}.

(** ** Constraints of the migration *)

(** [length(text) BETWEEN lo AND hi]: characters. *)
Definition length_between (lo hi : N) (s : str) : bool :=
  (lo <=? N.of_nat (length s)) && (N.of_nat (length s) <=? hi).
Definition jsonb_is_array (v : Value) : bool :=
  match v with VArray _ => true | _ => false end.

Definition alert_checks (r : AlertRow) : bool :=
  length_between 1 64 (al_product_tenant r)
  && length_between 1 160 (al_name r)
  && length_between 1 8192 (al_query_text r)
  && length_between 1 128 (al_embedding_model r)
  && contains_inclusive f64_zero f64_one (al_similarity_threshold r)
  && jsonb_is_array (al_source_filters r) && jsonb_is_array (al_delivery_channels r).
Definition inbox_checks (r : InboxRow) : bool :=
  length_between 1 128 (in_dedupe_key r) && length_between 1 64 (in_product_tenant r).
Definition outbox_checks (r : OutboxRow) : bool :=
  length_between 1 134 (out_dedupe_key r) && length_between 1 256 (out_subject r).
Definition status_checks (r : StatusRow) : bool :=
  length_between 1 64 (st_product_tenant r)
  && (str_eqb (st_status r) (lit "completed") || str_eqb (st_status r) (lit "rejected")).

(** ** Statements *)

(** [ORDER BY]: ascending pairs of a timestamp and a [uuid]. *)
Definition key_le (a b : Z * N) : Prop :=
  (a.1 < b.1)%Z ∨ (a.1 = b.1 ∧ a.2 <= b.2).
#[global] Instance key_le_dec a b : Decision (key_le a b).
Proof. unfold key_le. apply _. Defined.
Definition order_by {A} (key : A → Z * N) (l : list A) : list A :=
  merge_sort (λ x y, key_le (key x) (key y)) l.
Definition rows {A} (table : gmap Uuid A) : list A := snd <$> map_to_list table.

(** [DIRECT_ALERTS_SQL]. *)
Definition alert_key (r : AlertRow) : Z * N := ((- al_updated_at r)%Z, uuid_bits (al_id r)).
Definition alert_of (tenant : str) (owner : Uuid) (r : AlertRow) : Prop :=
  al_product_tenant r = tenant ∧ al_owner_subject r = owner.
#[global] Instance alert_of_dec t o r : Decision (alert_of t o r).
Proof. unfold alert_of. apply _. Defined.
Definition owned_rows (tenant : str) (owner : Uuid) (db : Db) : list AlertRow :=
  order_by alert_key (filter (alert_of tenant owner) (rows (alerts db))).
Definition DIRECT_ALERTS_SQL (tenant : str) (owner : Uuid) (db : Db) : list AlertRow :=
  take 100 (owned_rows tenant owner db).

(** [INSERT_ALERT_SQL]; the two lists are bound as JSON text and cast. *)
Definition INSERT_ALERT_SQL `{Postgres} (id : Uuid) (tenant : str) (owner : Uuid)
    (created updated : DateTime) (name query model : str) (threshold : f64)
    (filters channels : str) (enabled : bool) (db : Db) : result DbErr (N * Db) :=
  filters ← ok_or (text_as_jsonb filters) InvalidParameter;
  channels ← ok_or (text_as_jsonb channels) InvalidParameter;
  let row := mk_alert_row id tenant owner (store_time created) (store_time updated)
               name query model threshold filters channels enabled in
  if negb (alert_checks row) then Err CheckViolation else
  if is_some (alerts db !! id) then Err UniqueViolation else
  Ok (1, set_alerts <[id := row]> db).

(** [INSERT_INBOX_SQL]: [ON CONFLICT DO NOTHING] over the three unique columns;
    the number of affected rows is returned.  [$5] is bound as text. *)
Definition inbox_conflict (event correlation : Uuid) (dedupe : str) (r : InboxRow) : bool :=
  bool_decide (in_event_id r = event) || bool_decide (in_correlation_id r = correlation)
  || str_eqb (in_dedupe_key r) dedupe.
Definition INSERT_INBOX_SQL `{Postgres} (event correlation : Uuid) (dedupe tenant actor : str)
    (now : DateTime) (db : Db) : result DbErr (N * Db) :=
  actor ← ok_or (text_as_uuid actor) InvalidParameter;
  let row := mk_inbox_row event correlation dedupe tenant actor (store_time now) in
  if negb (inbox_checks row) then Err CheckViolation else
  if existsb (inbox_conflict event correlation dedupe) (rows (inbox db)) then Ok (0, db)
  else Ok (1, set_inbox <[event := row]> db).

(** [INSERT_STATUS_SQL]: an upsert on the correlation id that only changes the status
    and the time.  [$3] is bound as text. *)
Definition INSERT_STATUS_SQL `{Postgres} (correlation : Uuid) (tenant actor status : str)
    (now : DateTime) (db : Db) : result DbErr (N * Db) :=
  actor ← ok_or (text_as_uuid actor) InvalidParameter;
  let row := mk_status_row correlation tenant actor status (store_time now) in
  if negb (status_checks row) then Err CheckViolation else
  let row := match statuses db !! correlation with
             | Some old => mk_status_row correlation (st_product_tenant old)
                             (st_actor_subject old) status (store_time now)
             | None => row
             end in
  Ok (1, set_statuses <[correlation := row]> db).

(** [INSERT_OUTBOX_SQL]: only a conflict on [dedupe_key] does nothing; a repeated
    [event_id] violates the primary key. *)
Definition INSERT_OUTBOX_SQL `{Postgres} (event correlation : Uuid) (dedupe subject : str)
    (payload : Value) (now : DateTime) (db : Db) : result DbErr (N * Db) :=
  let row := mk_outbox_row event correlation dedupe subject payload (store_time now) None in
  if negb (outbox_checks row) then Err CheckViolation else
  if existsb (λ r, str_eqb (out_dedupe_key r) dedupe) (rows (outbox db)) then Ok (0, db) else
  if is_some (outbox db !! event) then Err UniqueViolation else
  Ok (1, set_outbox <[event := row]> db).

(** [SELECT_OUTBOX_SQL]. *)
Definition outbox_key (r : OutboxRow) : Z * N := (out_created_at r, uuid_bits (out_event_id r)).
Definition pending (r : OutboxRow) : Prop := out_published_at r = None.
#[global] Instance pending_dec r : Decision (pending r).
Proof. unfold pending. destruct (out_published_at r); [by right|by left]. Defined.
Definition pending_rows (db : Db) : list OutboxRow :=
  order_by outbox_key (filter pending (rows (outbox db))).
Definition SELECT_OUTBOX_SQL (db : Db) : list OutboxRow := take 50 (pending_rows db).

(** [MARK_OUTBOX_SQL]. *)
Definition publish_row (now : DateTime) (r : OutboxRow) : OutboxRow :=
  match out_published_at r with
  | None => mk_outbox_row (out_event_id r) (out_correlation_id r) (out_dedupe_key r)
              (out_subject r) (out_payload r) (out_created_at r) (Some now)
  | Some _ => r
  end.
Definition MARK_OUTBOX_SQL `{Postgres} (event : Uuid) (now : DateTime) (db : Db)
    : result DbErr (N * Db) :=
  let affected := match outbox db !! event with
                  | Some r => if decide (pending r) then 1 else 0
                  | None => 0
                  end in
  Ok (affected, set_outbox (alter (publish_row (store_time now)) event) db).

(** ** Calls

    One call of the server: it can fail before the statement runs, or lose the answer
    of a statement that took effect. *)
Inductive Link := LinkUp | LinkDown | LinkLost.
Definition execute {A} (link : Link) (stmt : Db → result DbErr (A * Db)) (db : Db)
    : result DbErr A * Db :=
  match link with
  | LinkDown => (Err Disconnected, db)
  | LinkUp => match stmt db with Ok (a, db) => (Ok a, db) | Err e => (Err e, db) end
  | LinkLost => match stmt db with
                | Ok (_, db) => (Err Disconnected, db)
                | Err _ => (Err Disconnected, db)
                end
  end.
Definition query {A} (link : Link) (select : Db → A) (db : Db) : result DbErr A :=
  match link with LinkUp => Ok (select db) | LinkDown | LinkLost => Err Disconnected end.

(** ** Lemmas *)

#[global] Instance key_le_trans : Transitive key_le.
Proof. intros [a1 a2] [b1 b2] [c1 c2]. unfold key_le; cbn. lia. Qed.
#[global] Instance key_le_total : Total key_le.
Proof. intros [a1 a2] [b1 b2]. unfold key_le; cbn. lia. Qed.

Section order_by_lemmas.
Context {A : Type} (key : A → Z * N).
#[local] Instance by_key_trans : Transitive (λ x y, key_le (key x) (key y)).
Proof. intros x y z. apply key_le_trans. Qed.
#[local] Instance by_key_total : Total (λ x y, key_le (key x) (key y)).
Proof. intros x y. apply key_le_total. Qed.
Lemma order_by_perm l : order_by key l ≡ₚ l.
Proof. apply merge_sort_Permutation. Qed.
Lemma order_by_sorted l : StronglySorted (λ x y, key_le (key x) (key y)) (order_by key l).
Proof. apply StronglySorted_merge_sort; apply _. Qed.
Lemma elem_of_order_by x l : x ∈ order_by key l ↔ x ∈ l.
Proof. by rewrite order_by_perm. Qed.
End order_by_lemmas.

Lemma elem_of_rows {A} (t : gmap Uuid A) x : x ∈ rows t ↔ ∃ k, t !! k = Some x.
Proof.
  unfold rows. rewrite list_elem_of_fmap. split.
  - intros ([k y] & -> & H). apply elem_of_map_to_list in H. eauto.
  - intros (k & H). exists (k, x). by rewrite elem_of_map_to_list.
Qed.
Lemma rows_insert {A} (t : gmap Uuid A) k x :
  t !! k = None → rows (<[k := x]> t) ≡ₚ x :: rows t.
Proof. intros H. unfold rows. by rewrite map_to_list_insert. Qed.

Lemma length_between_iff lo hi s :
  length_between lo hi s = true ↔ lo <= N.of_nat (length s) <= hi.
Proof. unfold length_between. rewrite andb_true_iff, !N.leb_le. tauto. Qed.

Lemma elem_of_owned tenant owner db r :
  r ∈ owned_rows tenant owner db ↔
  (∃ k, alerts db !! k = Some r) ∧ al_product_tenant r = tenant ∧ al_owner_subject r = owner.
Proof.
  unfold owned_rows. rewrite elem_of_order_by, list_elem_of_filter, elem_of_rows.
  unfold alert_of. tauto.
Qed.
Lemma elem_of_direct tenant owner db r :
  r ∈ DIRECT_ALERTS_SQL tenant owner db → r ∈ owned_rows tenant owner db.
Proof. apply subseteq_take. Qed.
Lemma direct_length tenant owner db : (length (DIRECT_ALERTS_SQL tenant owner db) <= 100)%nat.
Proof. unfold DIRECT_ALERTS_SQL. rewrite length_take. lia. Qed.
Lemma direct_all tenant owner db :
  (length (owned_rows tenant owner db) <= 100)%nat →
  DIRECT_ALERTS_SQL tenant owner db = owned_rows tenant owner db.
Proof. apply take_ge. Qed.

(** Every table is keyed by its primary key. *)
Record db_keyed (db : Db) : Prop := {
  keyed_alerts : ∀ k r, alerts db !! k = Some r → al_id r = k;
  keyed_inbox : ∀ k r, inbox db !! k = Some r → in_event_id r = k;
  keyed_outbox : ∀ k r, outbox db !! k = Some r → out_event_id r = k;
  keyed_statuses : ∀ k r, statuses db !! k = Some r → st_correlation_id r = k;
}.
Lemma empty_db_keyed : db_keyed empty_db.
Proof.
  split; intros k r; cbn [alerts inbox outbox statuses empty_db]; by rewrite lookup_empty.
Qed.

(** The rows one owner sees depend only on the rows of that owner. *)
Lemma owned_rows_insert_other tenant owner id row db :
  alerts db !! id = None →
  ¬ alert_of tenant owner row →
  owned_rows tenant owner (set_alerts <[id := row]> db) ≡ₚ owned_rows tenant owner db.
Proof.
  intros Hid Hrow. unfold owned_rows. rewrite !order_by_perm. cbn [alerts set_alerts].
  rewrite rows_insert, filter_cons_False by done. done.
Qed.
Lemma owned_rows_insert_own tenant owner id row db :
  alerts db !! id = None →
  alert_of tenant owner row →
  owned_rows tenant owner (set_alerts <[id := row]> db) ≡ₚ row :: owned_rows tenant owner db.
Proof.
  intros Hid Hrow. unfold owned_rows. rewrite !order_by_perm. cbn [alerts set_alerts].
  by rewrite rows_insert, filter_cons_True.
Qed.

(** Equal sets of rows with distinct keys sort to the same list. *)
Lemma key_le_antisym a b : key_le a b → key_le b a → a = b.
Proof. destruct a, b. unfold key_le; cbn. intros ??. f_equal; lia. Qed.
Lemma order_by_unique {A} (key : A → Z * N) (l1 l2 : list A) :
  (∀ x y, x ∈ l1 → y ∈ l1 → key x = key y → x = y) →
  l1 ≡ₚ l2 → order_by key l1 = order_by key l2.
Proof.
  intros Hinj Hp.
  apply (StronglySorted_unique_strong (λ x y, key_le (key x) (key y)));
    [|by apply order_by_sorted..|by rewrite !order_by_perm].
  intros x y Hx Hy ??. rewrite !elem_of_order_by in *. rewrite <-Hp in Hy.
  apply Hinj; [done..|]. by apply key_le_antisym.
Qed.

Lemma owned_rows_inj tenant owner db x y :
  db_keyed db → x ∈ owned_rows tenant owner db → y ∈ owned_rows tenant owner db →
  alert_key x = alert_key y → x = y.
Proof.
  intros Hk [[k Hx] _]%elem_of_owned [[l Hy] _]%elem_of_owned [= _ E%uuid_bits_inj].
  rewrite (keyed_alerts _ Hk _ _ Hx), (keyed_alerts _ Hk _ _ Hy) in E. congruence.
Qed.
Lemma owned_rows_insert_frame tenant owner id row db :
  db_keyed db → alerts db !! id = None → ¬ alert_of tenant owner row →
  owned_rows tenant owner (set_alerts <[id := row]> db) = owned_rows tenant owner db.
Proof.
  intros Hk Hid Hrow.
  assert (filter (alert_of tenant owner) (rows (<[id := row]> (alerts db))) ≡ₚ
          filter (alert_of tenant owner) (rows (alerts db))) as Hp.
  { rewrite rows_insert, filter_cons_False by done. done. }
  apply order_by_unique; [|done]. intros x y Hx Hy. rewrite Hp in Hx, Hy.
  apply (owned_rows_inj tenant owner db); unfold owned_rows; rewrite ?elem_of_order_by; done.
Qed.
