(* ===== verification/Store.v ===== *)
(** * The alert store ([src/store.rs])

    [AlertStore] keeps alerts in PostgreSQL when a database is configured and in a
    shared map otherwise.  The state the clones of a store share (the server's tables
    or the map behind [Arc<RwLock<..>>]) is passed explicitly. *)

From S2P Require Import Prelude Str Float Ids Model Auth Database.
Open Scope N_scope.

(** ** Data *)

Inductive StoreError := Unavailable | InvalidRecord.
#[global] Instance store_error_eq_dec : EqDecision StoreError.
Proof. solve_decision. Defined.

Definition AlertKey : Type := str * Uuid * Uuid.
#[global] Instance alert_key_eq_dec : EqDecision AlertKey := _.
#[global] Instance alert_key_countable : Countable AlertKey := _.
Abbreviation FallbackAlerts := (gmap AlertKey AlertRule) (only parsing).

Record AlertStore := mk_store { database : option Db; fallback : FallbackAlerts }.

(** [serde_json]: the text of a [Vec<String>] and the reading of one from a [Value]. *)
Class Serde := {
  list_to_json : list str → option str;
  list_from_value : Value → option (list str);
}.
(** [HashMap::iter] visits every entry once, in an order it does not specify. *)
Class HashMapIter := {
  hash_iter : FallbackAlerts → list (AlertKey * AlertRule);
  hash_iter_perm m : hash_iter m ≡ₚ map_to_list m;
}.

(** A result row: each column may fail to decode. *)
Record QueryResult := mk_query_result {
  q_id : option Uuid;
  q_created_at : option DateTime;
  q_updated_at : option DateTime;
  q_name : option str;
  q_query_text : option str;
  q_embedding_model : option str;
  q_similarity_threshold : option f64;
  q_source_filters : option Value;
  q_delivery_channels : option Value;
  q_enabled : option bool;
}.
(** A row of the migration's table: every column is [NOT NULL] and of the type read. *)
Definition query_result (r : AlertRow) : QueryResult := {|
  q_id := Some (al_id r); q_created_at := Some (al_created_at r);
  q_updated_at := Some (al_updated_at r); q_name := Some (al_name r);
  q_query_text := Some (al_query_text r); q_embedding_model := Some (al_embedding_model r);
  q_similarity_threshold := Some (al_similarity_threshold r);
  q_source_filters := Some (al_source_filters r);
  q_delivery_channels := Some (al_delivery_channels r); q_enabled := Some (al_enabled r);
|}.

Definition map_db (_error : DbErr) : StoreError := Unavailable.

Section store.
Context `{Postgres} `{Serde} `{HashMapIter}.

(** ** Operations *)

Definition new (database : option Db) : AlertStore := mk_store database ∅.
Definition database_configured (self : AlertStore) : bool := is_some (database self).

Definition decode_alert (row : QueryResult) : result StoreError AlertRule :=
  id ← ok_or (q_id row) InvalidRecord;
  source_filters ← ok_or (q_source_filters row) InvalidRecord;
  delivery_channels ← ok_or (q_delivery_channels row) InvalidRecord;
  created_at ← ok_or (q_created_at row) InvalidRecord;
  updated_at ← ok_or (q_updated_at row) InvalidRecord;
  name ← ok_or (q_name row) InvalidRecord;
  query_text ← ok_or (q_query_text row) InvalidRecord;
  embedding_model ← ok_or (q_embedding_model row) InvalidRecord;
  similarity_threshold ← ok_or (q_similarity_threshold row) InvalidRecord;
  source_filters ← ok_or (list_from_value source_filters) InvalidRecord;
  delivery_channels ← ok_or (list_from_value delivery_channels) InvalidRecord;
  enabled ← ok_or (q_enabled row) InvalidRecord;
  Ok (mk_rule id created_at updated_at name query_text embedding_model
        (f64_as_f32 similarity_threshold) source_filters delivery_channels enabled).

Definition read_alerts (link : Link) (db : Db) (actor : VerifiedActor)
    : result StoreError (list AlertRule) :=
  rows ← map_err map_db
           (query link (DIRECT_ALERTS_SQL (product_tenant actor) (subject actor)) db);
  collect_results ((λ r, decode_alert (query_result r)) <$> rows).

Definition owned_key (actor : VerifiedActor) (key : AlertKey) : bool :=
  let '(tenant, owner, _) := key in
  str_eqb tenant (product_tenant actor) && bool_decide (owner = subject actor).

Definition list_alerts (link : Link) (self : AlertStore) (actor : VerifiedActor)
    : result StoreError (list AlertRule) :=
  match database self with
  | Some database => read_alerts link database actor
  | None => Ok (snd <$> List.filter (λ e, owned_key actor (fst e)) (hash_iter (fallback self)))
  end.

Definition get (link : Link) (self : AlertStore) (actor : VerifiedActor) (id : Uuid)
    : result StoreError (option AlertRule) :=
  if is_some (database self) then
    alerts ← list_alerts link self actor;
    Ok (find (λ alert, bool_decide (ar_id alert = id)) alerts)
  else Ok (fallback self !! (product_tenant actor, subject actor, id)).

(** [now] and [fresh] are the values of [Utc::now()] and [Uuid::new_v4()]. *)
Definition create (link : Link) (now : DateTime) (fresh : Uuid) (self : AlertStore)
    (actor : VerifiedActor) (input : CreateAlertRule)
    : result StoreError AlertRule * AlertStore :=
  match validate input with
  | Err _ => (Err InvalidRecord, self)
  | Ok _ =>
      let alert := into_rule input fresh now in
      match database self with
      | Some db =>
          match list_to_json (ar_source_filters alert),
                list_to_json (ar_delivery_channels alert) with
          | Some source_filters, Some delivery_channels =>
              let '(r, db) := execute link
                (INSERT_ALERT_SQL (ar_id alert) (product_tenant actor) (subject actor)
                   (ar_created_at alert) (ar_updated_at alert) (ar_name alert)
                   (ar_query_text alert) (ar_embedding_model alert)
                   (f64_from_f32 (ar_similarity_threshold alert))
                   source_filters delivery_channels (ar_enabled alert)) db in
              (map_err map_db ((λ _, alert) <$> r), mk_store (Some db) (fallback self))
          | _, _ => (Err InvalidRecord, self)
          end
      | None =>
          (Ok alert, mk_store None
             (<[(product_tenant actor, subject actor, ar_id alert) := alert]> (fallback self)))
      end
  end.
End store.

(** ** Specification

    The alerts an actor owns, whatever the backend, and the result of reading them:
    lists are compared up to the order in which a [HashMap] is visited. *)

Definition same_alerts (r s : result StoreError (list AlertRule)) : Prop :=
  match r, s with Ok l, Ok k => l ≡ₚ k | Err d, Err e => d = e | _, _ => False end.
#[global] Instance same_alerts_equiv : Equivalence same_alerts.
Proof.
  split.
  - intros [l|e]; cbn; done.
  - intros [l|d] [k|e]; cbn; done.
  - intros [l|d] [k|e] [m|f]; cbn; try done; [by intros -> ->|congruence].
Qed.

(** The documented behaviour of [serde_json] and PostgreSQL the store relies on:
    a list of texts without control characters (so without NUL) survives the way
    through JSON text and [jsonb], and stored timestamps keep their order. *)
Class StorageLaws `{Postgres, Serde} := {
  json_list_roundtrip l :
    Forall (Forall (λ c, is_control c = false)) l →
    ∃ text v, list_to_json l = Some text ∧ text_as_jsonb text = Some v ∧
      jsonb_is_array v = true ∧ list_from_value v = Some l;
  store_time_mono t u : (t <= u)%Z → (store_time t <= store_time u)%Z;
}.

Section store_spec.
Context `{Postgres} `{Serde} `{HashMapIter}.

(** A rule as it reads back: PostgreSQL rounds the timestamps. *)
Definition stored_rule (r : AlertRule) : AlertRule :=
  mk_rule (ar_id r) (store_time (ar_created_at r)) (store_time (ar_updated_at r))
    (ar_name r) (ar_query_text r) (ar_embedding_model r) (ar_similarity_threshold r)
    (ar_source_filters r) (ar_delivery_channels r) (ar_enabled r).
Definition stored (self : AlertStore) (r : AlertRule) : AlertRule :=
  match database self with None => r | Some _ => stored_rule r end.
Definition decode_row (row : AlertRow) : result StoreError AlertRule :=
  decode_alert (query_result row).
#[global] Arguments decode_row : simpl never.
(** The abstract store: what each actor owns. *)
Definition abs (self : AlertStore) (actor : VerifiedActor) : list AlertRule :=
  match database self with
  | Some db => omap (λ row, ok (decode_row row))
                 (owned_rows (product_tenant actor) (subject actor) db)
  | None => snd <$> List.filter (λ e, owned_key actor (fst e)) (hash_iter (fallback self))
  end.
Definition fresh_in (self : AlertStore) (actor : VerifiedActor) (id : Uuid) : Prop :=
  match database self with
  | Some db => alerts db !! id = None
  | None => fallback self !! (product_tenant actor, subject actor, id) = None
  end.
(** Rows are keyed by their id and decode; map entries are keyed by their rule's id. *)
Definition store_wf (self : AlertStore) : Prop :=
  match database self with
  | Some db => db_keyed db ∧ ∀ k row, alerts db !! k = Some row → is_ok (decode_row row) = true
  | None => ∀ t o i r, fallback self !! (t, o, i) = Some r → ar_id r = i
  end.

(** ** Lemmas *)

Lemma owned_key_true actor t o i :
  owned_key actor (t, o, i) = true ↔ t = product_tenant actor ∧ o = subject actor.
Proof. cbn. rewrite andb_true_iff, str_eqb_eq, bool_decide_eq_true. done. Qed.

Lemma filter_perm {A} (f : A → bool) l k : l ≡ₚ k → List.filter f l ≡ₚ List.filter f k.
Proof.
  induction 1 as [|x l k _ IH|x y l|l k m _ IH1 _ IH2]; cbn; [done| | |by rewrite IH1].
  - destruct (f x); by rewrite IH.
  - destruct (f x), (f y); done || constructor.
Qed.
Lemma hash_iter_insert m k r :
  m !! k = None → hash_iter (<[k := r]> m) ≡ₚ (k, r) :: hash_iter m.
Proof. intros Hk. by rewrite !hash_iter_perm, map_to_list_insert. Qed.
Lemma elem_of_hash_iter m k r : (k, r) ∈ hash_iter m ↔ m !! k = Some r.
Proof. rewrite hash_iter_perm. apply elem_of_map_to_list. Qed.

Lemma elem_of_abs_fallback self actor r :
  database self = None →
  r ∈ abs self actor ↔
  ∃ id, fallback self !! (product_tenant actor, subject actor, id) = Some r.
Proof.
  intros Hd. unfold abs. rewrite Hd, list_elem_of_fmap. split.
  - intros ([[[t o] i] r'] & -> & Hin). rewrite list_elem_of_In, filter_In in Hin.
    destruct Hin as [Hin Hk]. apply owned_key_true in Hk as [-> ->]. exists i.
    by apply elem_of_hash_iter, list_elem_of_In.
  - intros (id & Hid). exists (product_tenant actor, subject actor, id, r). split; [done|].
    apply list_elem_of_In, filter_In. split.
    + by apply list_elem_of_In, elem_of_hash_iter.
    + by apply owned_key_true.
Qed.
Lemma elem_of_abs_database self actor db r :
  database self = Some db →
  r ∈ abs self actor ↔
  ∃ k row, alerts db !! k = Some row ∧ al_product_tenant row = product_tenant actor ∧
    al_owner_subject row = subject actor ∧ decode_row row = Ok r.
Proof.
  intros Hd. unfold abs. rewrite Hd, list_elem_of_omap. split.
  - intros (row & [[k Hk] [Ht Ho]]%elem_of_owned & Hr%ok_Some_iff). eauto 6.
  - intros (k & row & Hk & Ht & Ho & Hr). exists row. rewrite elem_of_owned, ok_Some_iff. eauto.
Qed.

Lemma collect_decode_Ok (l : list AlertRow) k :
  collect_results (decode_row <$> l) = Ok k → k = omap (λ row, ok (decode_row row)) l.
Proof.
  rewrite collect_results_Ok_iff. revert k. induction l as [|row l IH]; intros [|a k]; try done.
  cbn. intros [= -> Hk]. cbn. f_equal. by apply IH.
Qed.
Lemma collect_decode_total (l : list AlertRow) :
  (∀ row, row ∈ l → is_ok (decode_row row) = true) →
  collect_results (decode_row <$> l) = Ok (omap (λ row, ok (decode_row row)) l).
Proof.
  intros Hl. apply collect_results_Ok_iff. induction l as [|row l IH]; [done|]. cbn.
  pose proof (Hl row ltac:(left)) as Hr. destruct (decode_row row); [|done]. cbn. f_equal.
  apply IH. intros r ?. apply Hl. by right.
Qed.

(** What a read returns is owned by the reader. *)
Lemma read_alerts_rows link db actor l r :
  read_alerts link db actor = Ok l → r ∈ l →
  ∃ k row, alerts db !! k = Some row ∧ alert_of (product_tenant actor) (subject actor) row ∧
    decode_row row = Ok r.
Proof.
  unfold read_alerts. intros Hl Hr. inv_ok. subst.
  apply collect_decode_Ok in Hl as ->. apply list_elem_of_omap in Hr as (row & Hrow & Hr).
  destruct link; cbn in *; simplify_eq. apply elem_of_direct, elem_of_owned in Hrow.
  destruct Hrow as [[k Hk] Hown]. exists k, row. by rewrite <-ok_Some_iff.
Qed.
Lemma list_alerts_owned link self actor l r :
  list_alerts link self actor = Ok l → r ∈ l → r ∈ abs self actor.
Proof.
  unfold list_alerts. destruct (database self) as [db|] eqn:Hd.
  - intros Hl Hr. rewrite (elem_of_abs_database _ _ _ _ Hd).
    by destruct (read_alerts_rows _ _ _ _ _ Hl Hr) as (k & row & Hk & [Ht Hs] & Hdec); eauto 6.
  - intros [= <-]. unfold abs. by rewrite Hd.
Qed.
Lemma list_alerts_complete self actor :
  store_wf self → (length (abs self actor) <= 100)%nat →
  list_alerts LinkUp self actor = Ok (abs self actor).
Proof.
  unfold list_alerts, abs, store_wf. destruct (database self) as [db|]; [|done].
  intros [Hk Hdec] Hlen. unfold read_alerts. cbn [query map_err mbind result_bind].
  assert (∀ row, row ∈ owned_rows (product_tenant actor) (subject actor) db →
    is_ok (decode_row row) = true) as Hall.
  { intros row [[k Hrow] _]%elem_of_owned. eauto. }
  assert (length (owned_rows (product_tenant actor) (subject actor) db) <= 100)%nat as Hlen'.
  { etrans; [|exact Hlen]. clear Hlen.
    induction (owned_rows _ _ _) as [|row l IH]; [done|]. cbn.
    pose proof (Hall row ltac:(left)) as Hr. destruct (decode_row row); [|done]. cbn.
    apply le_n_S, IH. intros r ?. apply Hall. by right. }
  rewrite direct_all by done. by apply collect_decode_total.
Qed.

(** ** What [create] does *)

Definition row_of (actor : VerifiedActor) (r : AlertRule) (filters channels : Value) : AlertRow :=
  mk_alert_row (ar_id r) (product_tenant actor) (subject actor) (store_time (ar_created_at r))
    (store_time (ar_updated_at r)) (ar_name r) (ar_query_text r) (ar_embedding_model r)
    (f64_from_f32 (ar_similarity_threshold r)) filters channels (ar_enabled r).
Definition row_values (r : AlertRule) (filters channels : Value) : Prop :=
  list_to_json (ar_source_filters r) ≫= text_as_jsonb = Some filters ∧
  list_to_json (ar_delivery_channels r) ≫= text_as_jsonb = Some channels.
(** [self'] is [self] with the rule added under the actor. *)
Definition inserted (self : AlertStore) (actor : VerifiedActor) (r : AlertRule)
    (self' : AlertStore) : Prop :=
  match database self with
  | None => self' = mk_store None
      (<[(product_tenant actor, subject actor, ar_id r) := r]> (fallback self))
  | Some db => ∃ v w,
      row_values r v w ∧ alert_checks (row_of actor r v w) = true ∧
      alerts db !! ar_id r = None ∧
      self' = mk_store (Some (set_alerts <[ar_id r := row_of actor r v w]> db)) (fallback self)
  end.

Lemma insert_alert_Ok_iff r actor sf dc db n db' :
  INSERT_ALERT_SQL (ar_id r) (product_tenant actor) (subject actor) (ar_created_at r)
    (ar_updated_at r) (ar_name r) (ar_query_text r) (ar_embedding_model r)
    (f64_from_f32 (ar_similarity_threshold r)) sf dc (ar_enabled r) db = Ok (n, db') ↔
  ∃ v w, text_as_jsonb sf = Some v ∧ text_as_jsonb dc = Some w ∧
    alert_checks (row_of actor r v w) = true ∧ alerts db !! ar_id r = None ∧ n = 1 ∧
    db' = set_alerts <[ar_id r := row_of actor r v w]> db.
Proof.
  unfold INSERT_ALERT_SQL, row_of. destruct (text_as_jsonb sf) as [v|]; cbn [ok_or mbind result_bind];
    [|naive_solver].
  destruct (text_as_jsonb dc) as [w|]; cbn [ok_or mbind result_bind]; [|naive_solver].
  rewrite !guard_Ok_iff, negb_false_iff. destruct (alerts db !! ar_id r); cbn [is_some];
    naive_solver.
Qed.

Lemma create_cases link now fresh self actor input res self' :
  create link now fresh self actor input = (res, self') →
  (self' = self ∧ ∃ e, res = Err e) ∨
  validate input = Ok tt ∧ inserted self actor (into_rule input fresh now) self' ∧
    (res = Ok (into_rule input fresh now) ∨ link = LinkLost ∧ res = Err Unavailable).
Proof.
  unfold create. destruct (validate input) as [[]|e]; [|intros [= <- <-]; left; eauto].
  set (r := into_rule input fresh now). destruct (database self) as [db|] eqn:Hd.
  2: { intros [= <- <-]. right. unfold inserted. rewrite Hd. auto. }
  destruct (list_to_json (ar_source_filters r)) as [sf|] eqn:Hsf;
    [|intros [= <- <-]; left; eauto].
  destruct (list_to_json (ar_delivery_channels r)) as [dc|] eqn:Hdc;
    [|intros [= <- <-]; left; eauto].
  assert (self = mk_store (Some db) (fallback self)) as Hself by (destruct self; cbn in *; congruence).
  assert (∀ n db', INSERT_ALERT_SQL (ar_id r) (product_tenant actor) (subject actor)
    (ar_created_at r) (ar_updated_at r) (ar_name r) (ar_query_text r) (ar_embedding_model r)
    (f64_from_f32 (ar_similarity_threshold r)) sf dc (ar_enabled r) db = Ok (n, db') →
    inserted self actor r (mk_store (Some db') (fallback self))) as Hins.
  { intros n db' (v & w & ? & ? & ? & ? & _ & ->)%insert_alert_Ok_iff. unfold inserted, row_values.
    rewrite Hd, Hsf, Hdc. eauto 8. }
  destruct link; unfold execute.
  - destruct (INSERT_ALERT_SQL _ _ _ _ _ _ _ _ _ _ _ _ _) as [[n db']|e]; intros [= <- <-].
    + right. split_and!; eauto.
    + left. rewrite <-Hself. cbn. eauto.
  - intros [= <- <-]. left. rewrite <-Hself. cbn. eauto.
  - destruct (INSERT_ALERT_SQL _ _ _ _ _ _ _ _ _ _ _ _ _) as [[n db']|e]; intros [= <- <-].
    + right. split_and!; eauto.
    + left. rewrite <-Hself. cbn. eauto.
Qed.
End store_spec.

Section store_refinement.
Context `{StorageLaws} `{HashMapIter}.

Lemma list_ok_texts l : list_ok l → Forall (Forall (λ c, is_control c = false)) l.
Proof. intros [_ Hl]. eapply Forall_impl; [done|]. by intros s (_ & _ & ?). Qed.

Lemma decode_row_of actor r v w :
  rule_ok r → f32_valid (ar_similarity_threshold r) = true → row_values r v w →
  decode_row (row_of actor r v w) = Ok (stored_rule r).
Proof.
  intros ((_ & _ & _ & _ & Hsf%list_ok_texts & Hdc%list_ok_texts) & _) Hf [Hv Hw].
  cbn [as_create ca_source_filters ca_delivery_channels] in *.
  destruct (json_list_roundtrip _ Hsf) as (t1 & v1 & E1 & E2 & _ & E3).
  destruct (json_list_roundtrip _ Hdc) as (t2 & v2 & F1 & F2 & _ & F3).
  rewrite E1 in Hv. rewrite F1 in Hw. cbn in Hv, Hw. rewrite E2 in Hv. rewrite F2 in Hw.
  simplify_eq. unfold decode_row, decode_alert, query_result, row_of.
  cbn [q_id q_created_at q_updated_at q_name q_query_text q_embedding_model
    q_similarity_threshold q_source_filters q_delivery_channels q_enabled al_id al_created_at
    al_updated_at al_name al_query_text al_embedding_model al_similarity_threshold
    al_source_filters al_delivery_channels al_enabled ok_or mbind result_bind].
  rewrite E3, F3. cbn [ok_or mbind result_bind]. by rewrite f64_as_f32_from.
Qed.

Lemma alert_checks_row_of actor r v w :
  rule_ok r → f32_valid (ar_similarity_threshold r) = true →
  1 <= N.of_nat (length (product_tenant actor)) <= 64 → row_values r v w →
  alert_checks (row_of actor r v w) = true.
Proof.
  intros ((Hn%text_ok_length & Hq%text_ok_length & Hm%text_ok_length & Hthr &
    Hsf%list_ok_texts & Hdc%list_ok_texts) & _) Hf Ht [Hv Hw].
  cbn [as_create ca_name ca_query_text ca_embedding_model ca_similarity_threshold
    ca_source_filters ca_delivery_channels] in *.
  destruct (json_list_roundtrip _ Hsf) as (t1 & v1 & E1 & E2 & E3 & _).
  destruct (json_list_roundtrip _ Hdc) as (t2 & v2 & F1 & F2 & F3 & _).
  rewrite E1 in Hv. rewrite F1 in Hw. cbn in Hv, Hw. rewrite E2 in Hv. rewrite F2 in Hw.
  simplify_eq. unfold alert_checks, row_of.
  cbn [al_product_tenant al_name al_query_text al_embedding_model al_similarity_threshold
    al_source_filters al_delivery_channels].
  rewrite !andb_true_iff, !length_between_iff, E3, F3, contains_unit_widen by done. done.
Qed.

Lemma row_values_exist r : rule_ok r → ∃ t1 t2 v w,
  list_to_json (ar_source_filters r) = Some t1 ∧ text_as_jsonb t1 = Some v ∧
  list_to_json (ar_delivery_channels r) = Some t2 ∧ text_as_jsonb t2 = Some w.
Proof.
  intros ((_ & _ & _ & _ & Hsf%list_ok_texts & Hdc%list_ok_texts) & _).
  destruct (json_list_roundtrip _ Hsf) as (t1 & v1 & ? & ? & _).
  destruct (json_list_roundtrip _ Hdc) as (t2 & v2 & ? & ? & _). eauto 8.
Qed.

Lemma actor_ne_alert_of (a b : VerifiedActor) r v w :
  b ≠ a → ¬ alert_of (product_tenant b) (subject b) (row_of a r v w).
Proof. intros Hne [??]. apply Hne. destruct a, b; cbn in *; congruence. Qed.

Lemma inserted_wf self actor r self' :
  store_wf self → rule_ok r → f32_valid (ar_similarity_threshold r) = true →
  inserted self actor r self' → store_wf self'.
Proof.
  unfold inserted, store_wf. destruct (database self) as [db|] eqn:Hd.
  - intros [Hk Hdec] Hr Hf (v & w & Hv & _ & _ & ->). cbn [database]. split.
    + destruct Hk as [Hka Hki Hko Hks]. split; cbn [alerts inbox outbox statuses set_alerts]; try done.
      intros k row. rewrite lookup_insert_Some. intros [[<- <-]|[_ ?]]; [done|eauto].
    + intros k row. cbn [alerts set_alerts]. rewrite lookup_insert_Some.
      intros [[<- <-]|[_ ?]]; [|eauto]. by rewrite decode_row_of.
  - intros Hk Hr Hf ->. cbn [database fallback]. intros t o i r'.
    rewrite lookup_insert_Some. intros [[[= <- <- <-] <-]|[_ ?]]; eauto.
Qed.

Lemma inserted_abs_own self actor r self' :
  rule_ok r → f32_valid (ar_similarity_threshold r) = true →
  fresh_in self actor (ar_id r) → inserted self actor r self' →
  abs self' actor ≡ₚ stored self r :: abs self actor.
Proof.
  unfold inserted, fresh_in, abs, stored. destruct (database self) as [db|] eqn:Hd.
  - intros Hr Hf Hfresh (v & w & Hv & _ & _ & ->). cbn [database].
    rewrite owned_rows_insert_own by done. cbn. by rewrite decode_row_of.
  - intros Hr Hf Hfresh ->. cbn [database fallback].
    rewrite (filter_perm _ _ _ (hash_iter_insert _ _ _ Hfresh)). cbn [List.filter fst].
    rewrite (proj2 (owned_key_true _ _ _ _)) by done. done.
Qed.

Lemma inserted_frame link self actor r self' b :
  store_wf self → fresh_in self actor (ar_id r) → inserted self actor r self' → b ≠ actor →
  same_alerts (list_alerts link self' b) (list_alerts link self b) ∧
  abs self' b ≡ₚ abs self b ∧ ∀ id, get link self' b id = get link self b id.
Proof.
  unfold inserted, fresh_in, store_wf, abs, get, list_alerts.
  destruct (database self) as [db|] eqn:Hd.
  - intros [Hk _] Hfresh (v & w & _ & _ & _ & ->) Hne. cbn [database].
    unfold read_alerts, query, DIRECT_ALERTS_SQL.
    by rewrite owned_rows_insert_frame by auto using actor_ne_alert_of.
  - intros _ Hfresh -> Hne. cbn [database fallback is_some].
    assert (owned_key b (product_tenant actor, subject actor, ar_id r) = false) as Hb.
    { apply not_true_iff_false. rewrite owned_key_true. intros [??]. apply Hne.
      destruct actor, b; cbn in *; congruence. }
    pose proof (filter_perm (λ e, owned_key b (fst e)) _ _
      (hash_iter_insert _ _ r Hfresh)) as Hp. cbn [List.filter fst] in Hp. rewrite Hb in Hp.
    split_and!; [cbn; by rewrite Hp|by rewrite Hp|]. intros id. rewrite lookup_insert_ne; [done|].
    intros [= ? ? _]. apply Hne. destruct actor, b; cbn in *; congruence.
Qed.

Lemma create_database_up now fresh self actor input db :
  database self = Some db → create_ok input →
  f32_valid (ca_similarity_threshold input) = true → alerts db !! fresh = None →
  1 <= N.of_nat (length (product_tenant actor)) <= 64 →
  ∃ self', create LinkUp now fresh self actor input = (Ok (into_rule input fresh now), self').
Proof.
  intros Hd Hin Hf Hfresh Ht. pose proof (into_rule_ok _ fresh now Hin) as Hr.
  destruct (row_values_exist _ Hr) as (t1 & t2 & v & w & E1 & E2 & E3 & E4).
  unfold create. rewrite (proj2 (validate_create_ok _) Hin), Hd, E1, E3.
  assert (row_values (into_rule input fresh now) v w) as Hvw.
  { unfold row_values. rewrite E1, E3. by split. }
  pose proof (proj2 (insert_alert_Ok_iff (into_rule input fresh now) actor t1 t2 db 1 _)
    (ex_intro _ v (ex_intro _ w (conj E2 (conj E4 (conj (alert_checks_row_of actor _ v w Hr Hf Ht Hvw)
      (conj Hfresh (conj eq_refl eq_refl)))))))) as Hins.
  unfold execute. rewrite Hins. cbn. eauto.
Qed.

Lemma find_perm_NoDup {A} (f : A → bool) l k :
  l ≡ₚ k → (∀ x y, x ∈ l → y ∈ l → f x = true → f y = true → x = y) → find f l = find f k.
Proof.
  intros Hp Hf. destruct (find f l) as [x|] eqn:E; destruct (find f k) as [y|] eqn:F; [| | |done].
  - apply List.find_some in E as [E1 E2]. apply List.find_some in F as [F1 F2].
    rewrite <-list_elem_of_In in *. f_equal. apply Hf; [done| |done|done]. by rewrite Hp.
  - apply List.find_some in E as [E1 E2]. rewrite <-list_elem_of_In in E1. rewrite Hp in E1.
    rewrite list_elem_of_In in E1. by rewrite (List.find_none _ _ F _ E1) in E2.
  - apply List.find_some in F as [F1 F2]. rewrite <-list_elem_of_In in F1. rewrite <-Hp in F1.
    rewrite list_elem_of_In in F1. by rewrite (List.find_none _ _ E _ F1) in F2.
Qed.
End store_refinement.

Section store_get.
Context `{Postgres} `{Serde} `{HashMapIter}.

Lemma decode_row_id row r : decode_row row = Ok r → ar_id r = al_id row.
Proof. unfold decode_row, decode_alert. intros Hr. inv_ok. by simplify_eq/=. Qed.

Lemma decode_row_Err row e : decode_row row = Err e → e = InvalidRecord.
Proof. unfold decode_row, decode_alert. intros Hr. inv_err; done. Qed.
Lemma read_alerts_up_Err db actor e : read_alerts LinkUp db actor = Err e → e = InvalidRecord.
Proof.
  unfold read_alerts. rewrite bind_Err_iff. intros [(? & [=] & _)%map_err_Err_iff|(l & _ & E)].
  apply collect_results_Err, list_elem_of_fmap in E as (row & E & _). by eapply decode_row_Err.
Qed.

Lemma abs_id_unique self actor r s :
  store_wf self → r ∈ abs self actor → s ∈ abs self actor → ar_id r = ar_id s → r = s.
Proof.
  unfold store_wf. destruct (database self) as [db|] eqn:Hd.
  - intros [Hk _]. rewrite !(elem_of_abs_database _ _ _ _ Hd).
    intros (k & row & Hrow & _ & _ & Hr) (l & row' & Hrow' & _ & _ & Hs) E.
    rewrite (decode_row_id _ _ Hr), (decode_row_id _ _ Hs) in E.
    rewrite (keyed_alerts _ Hk _ _ Hrow), (keyed_alerts _ Hk _ _ Hrow') in E. congruence.
  - intros Hk. rewrite !(elem_of_abs_fallback _ _ _ Hd). intros (i & Hr) (j & Hs) E.
    rewrite (Hk _ _ _ _ Hr), (Hk _ _ _ _ Hs) in E. congruence.
Qed.

Lemma get_abs self actor id :
  store_wf self → (length (abs self actor) <= 100)%nat →
  get LinkUp self actor id = Ok (find (λ r, bool_decide (ar_id r = id)) (abs self actor)).
Proof.
  intros Hwf Hlen. unfold get. destruct (database self) as [db|] eqn:Hd; cbn [is_some].
  - by rewrite list_alerts_complete by done.
  - f_equal. destruct (find _ _) as [r|] eqn:E.
    + apply List.find_some in E as [Hin Hid%bool_decide_eq_true].
      apply list_elem_of_In, (elem_of_abs_fallback _ _ _ Hd) in Hin as [i Hi].
      unfold store_wf in Hwf. rewrite Hd in Hwf. rewrite (Hwf _ _ _ _ Hi) in Hid. by subst.
    + destruct (fallback self !! _) as [r|] eqn:Hi; [|done].
      assert (r ∈ abs self actor) as Hin by (apply elem_of_abs_fallback; eauto).
      apply list_elem_of_In in Hin. apply (List.find_none _ _ E) in Hin.
      unfold store_wf in Hwf. rewrite Hd in Hwf. rewrite (Hwf _ _ _ _ Hi) in Hin.
      by apply bool_decide_eq_false in Hin.
Qed.

Lemma NoDup_rows {A} (t : gmap Uuid A) : (∀ k l x, t !! k = Some x → t !! l = Some x → k = l) →
  NoDup (rows t).
Proof.
  intros Hinj. unfold rows. apply NoDup_fmap_2_strong; [|apply NoDup_map_to_list].
  intros [k x] [l y] ?%elem_of_map_to_list ?%elem_of_map_to_list E. cbn in E. subst.
  f_equal. eauto.
Qed.
Lemma NoDup_owned tenant owner db : db_keyed db → NoDup (owned_rows tenant owner db).
Proof.
  intros Hk. unfold owned_rows. rewrite order_by_perm. apply NoDup_filter, NoDup_rows.
  intros k l x Hx Hy. by rewrite <-(keyed_alerts _ Hk _ _ Hx), (keyed_alerts _ Hk _ _ Hy).
Qed.

Lemma get_past_limit self actor db i row :
  database self = Some db → store_wf self →
  owned_rows (product_tenant actor) (subject actor) db !! i = Some row → (100 <= i)%nat →
  get LinkUp self actor (al_id row) = Ok None.
Proof.
  intros Hd Hwf Hi Hle. unfold store_wf in Hwf. rewrite Hd in Hwf. destruct Hwf as [Hk Hdec].
  unfold get, list_alerts. rewrite Hd. cbn [is_some]. unfold read_alerts.
  cbn [query map_err mbind result_bind].
  set (T := DIRECT_ALERTS_SQL _ _ db).
  assert (∀ r, r ∈ T → r ∈ owned_rows (product_tenant actor) (subject actor) db) as HT
    by apply elem_of_direct.
  change (collect_results _) with (collect_results (decode_row <$> T)).
  rewrite collect_decode_total.
  2: { intros r Hr%HT. apply elem_of_owned in Hr as [[k ?] _]. eauto. }
  cbn [mbind result_bind]. f_equal. apply eq_None_not_Some. intros [r Hr].
  apply List.find_some in Hr as [Hin Hid%bool_decide_eq_true].
  apply list_elem_of_In, list_elem_of_omap in Hin as (row' & Hrow' & Hr%ok_Some_iff).
  rewrite (decode_row_id _ _ Hr) in Hid.
  assert (row' = row) as ->.
  { assert (row ∈ owned_rows (product_tenant actor) (subject actor) db) as Hrow
      by (by eapply list_elem_of_lookup_2).
    pose proof (HT _ Hrow') as Hrow2. apply elem_of_owned in Hrow as [[k Hkr] _].
    apply elem_of_owned in Hrow2 as [[l Hlr] _].
    rewrite (keyed_alerts _ Hk _ _ Hkr), (keyed_alerts _ Hk _ _ Hlr) in Hid. congruence. }
  apply list_elem_of_lookup_1 in Hrow' as [j Hj]. unfold T, DIRECT_ALERTS_SQL in Hj.
  apply lookup_take_Some in Hj as [Hj Hlt].
  pose proof (NoDup_lookup _ _ _ _ (NoDup_owned _ _ _ Hk) Hi Hj). lia.
Qed.
End store_get.

(** ** A concrete server and map

    Used by the examples of this development. *)

Module SampleStorage.
Definition line (s : str) : str := s ++ [10].
Fixpoint lines (acc s : str) : list str :=
  match s with
  | [] => []
  | c :: s => if c =? 10 then reverse acc :: lines [] s else lines (c :: acc) s
  end.
Lemma lines_line acc s t :
  Forall (λ c, is_control c = false) s →
  lines acc (line s ++ t) = (reverse acc ++ s) :: lines [] t.
Proof.
  intros Hs. revert acc. induction Hs as [|c s Hc _ IH]; intros acc; cbn.
  - by rewrite app_nil_r.
  - destruct (N.eqb_spec c 10) as [->|_]; [done|]. unfold line in IH. cbn in IH.
    by rewrite IH, reverse_cons, <-app_assoc.
Qed.
Definition strings_of (v : Value) : option (list str) :=
  match v with VArray l => mapM value_as_str l | _ => None end.
Module Instances.
#[export] Instance postgres : Postgres := {|
  text_as_uuid := Canonical.parse;
  text_as_jsonb text := Some (VArray (VString <$> lines [] text));
  store_time t := (t / 1000 * 1000)%Z;
|}.
#[export] Instance serde : Serde := {|
  list_to_json l := Some (l ≫= line);
  list_from_value := strings_of;
|}.
#[export] Instance hash_map_iter : HashMapIter :=
  {| hash_iter := map_to_list; hash_iter_perm m := Permutation_refl _ |}.
#[export] Instance storage_laws : StorageLaws.
Proof.
  split.
  - intros l Hl. exists (l ≫= line), (VArray (VString <$> l)). cbn. split_and!; try done.
    + do 2 f_equal. induction Hl as [|s l Hs _ IH]; [done|]. cbn [mbind list_bind].
      pose proof (lines_line [] s (l ≫= line) Hs) as E. cbn in E. cbn. rewrite E. cbn. by f_equal.
    + clear Hl. induction l as [|s l IH]; [done|]. cbn. by rewrite IH.
  - intros t u Htu. cbn. apply Z.mul_le_mono_nonneg_r; [done|]. by apply Z.div_le_mono.
Qed.
End Instances.
Import Instances.

Definition actor_a : VerifiedActor := mk_actor (uuid_of 1) (lit "embedded-alerts").
Definition actor_b : VerifiedActor := mk_actor (uuid_of 2) (lit "embedded-alerts").
(** [n] stored alerts of [actor_a], the [i]-th updated at microsecond [i]. *)
Definition sample_row (i : N) : AlertRow :=
  mk_alert_row (uuid_of i) (product_tenant actor_a) (subject actor_a) 0 (Z.of_N i * 1000)
    (lit "name") (lit "query") (lit "model") (S754_zero false) (VArray []) (VArray []) true.
Definition sample_db (n : nat) : Db :=
  set_alerts (λ _, list_to_map ((λ i, (uuid_of (N.of_nat i), sample_row (N.of_nat i))) <$> seq 1 n))
    empty_db.
Definition sample_store (n : nat) : AlertStore := mk_store (Some (sample_db n)) ∅.
End SampleStorage.

Lemma table_check {A} (t : gmap Uuid A) (check : Uuid → A → bool) :
  forallb (λ p, check (fst p) (snd p)) (map_to_list t) = true →
  ∀ k x, t !! k = Some x → check k x = true.
Proof.
  intros H k x Hk%elem_of_map_to_list%list_elem_of_In.
  by apply (proj1 (forallb_forall _ _) H) in Hk.
Qed.

(** ** Properties *)

Section properties.
Context `{Postgres} `{Serde} `{HashMapIter}.

(** [AlertStore::list] never returns an alert its actor does not own, whatever the
    backend and the state of the database link; with at most 100 alerts of the actor and the
    database reachable it succeeds and returns all of them. *)
Theorem list_returns_owned self actor :
  (∀ link l r, list_alerts link self actor = Ok l → r ∈ l → r ∈ abs self actor) ∧
  (store_wf self → (length (abs self actor) <= 100)%nat →
   list_alerts LinkUp self actor = Ok (abs self actor)).
Proof. split; [intros link l r; apply list_alerts_owned|apply list_alerts_complete]. Qed.

(** C13: [create] is atomic and confined to its actor: a well-formed store stays well formed;
    on success the abstract store gains exactly the normalised rule under the actor (as it
    will read back); on failure nothing changed, or the insert took effect and only its
    answer was lost; and every other actor lists and gets exactly what it did before. *)
Theorem create_refines `{!StorageLaws} link now fresh self actor input res self' :
  store_wf self → fresh_in self actor fresh →
  f32_valid (ca_similarity_threshold input) = true →
  create link now fresh self actor input = (res, self') →
  store_wf self' ∧
  (let r := into_rule input fresh now in
   match res with
   | Ok r' => r' = r ∧ abs self' actor ≡ₚ stored self r :: abs self actor
   | Err _ => self' = self ∨
       link = LinkLost ∧ abs self' actor ≡ₚ stored self r :: abs self actor
   end) ∧
  (∀ b link', b ≠ actor →
     same_alerts (list_alerts link' self' b) (list_alerts link' self b) ∧
     abs self' b ≡ₚ abs self b ∧ ∀ id, get link' self' b id = get link' self b id).
Proof.
  intros Hwf Hfresh Hf Hc. destruct (create_cases _ _ _ _ _ _ _ _ Hc)
    as [[-> [e ->]]|(Hv%validate_create_ok & Hins & Hres)].
  - split_and!; [done|by left|]. intros b link' _. by split_and!.
  - pose proof (into_rule_ok _ fresh now Hv) as Hr. split_and!; [by eapply inserted_wf| |].
    + pose proof (inserted_abs_own _ _ _ _ Hr Hf Hfresh Hins) as Ha.
      destruct Hres as [->|[-> ->]]; [split; [done|exact Ha]|right; split; [done|exact Ha]].
    + intros b link' Hne. 
      by apply (inserted_frame link' self actor (into_rule input fresh now) self' b).
Qed.

(** Read your write: after a successful [create] on a store where the actor has fewer
    than 100 alerts, [list] returns the new rule next to all previous ones and [get] finds it
    by its id. *)
Theorem create_then_read `{!StorageLaws} link now fresh self actor input r self' :
  store_wf self → fresh_in self actor fresh →
  f32_valid (ca_similarity_threshold input) = true →
  (length (abs self actor) < 100)%nat →
  create link now fresh self actor input = (Ok r, self') →
  (∃ l, list_alerts LinkUp self' actor = Ok l ∧ l ≡ₚ stored self r :: abs self actor) ∧
  get LinkUp self' actor fresh = Ok (Some (stored self r)).
Proof.
  intros Hwf Hfresh Hf Hlen Hc. destruct (create_cases _ _ _ _ _ _ _ _ Hc)
    as [[-> [e [=]]]|(Hv%validate_create_ok & Hins & Hres)].
  destruct Hres as [[= ->]|[_ [=]]]. pose proof (into_rule_ok _ fresh now Hv) as Hr.
  pose proof (inserted_abs_own _ _ _ _ Hr Hf Hfresh Hins) as Ha.
  pose proof (inserted_wf _ _ _ _ Hwf Hr Hf Hins) as Hwf'.
  assert (length (abs self' actor) <= 100)%nat as Hlen' by (rewrite Ha; cbn; lia).
  split; [eexists; split; [by apply list_alerts_complete|done]|].
  rewrite get_abs by done. f_equal.
  rewrite (find_perm_NoDup _ _ _ Ha).
  - cbn [find]. rewrite bool_decide_true; [done|]. by unfold stored; destruct (database self).
  - intros x y Hx Hy ?%bool_decide_eq_true ?%bool_decide_eq_true.
    apply (abs_id_unique self' actor); congruence.
Qed.

(** C36: with a database, [get] only sees the 100 most recently updated alerts of the actor:
    an alert that the actor owns at a later position of the [ORDER BY] is reported as absent. *)
Theorem get_misses_past_limit self actor db i row :
  database self = Some db → store_wf self →
  owned_rows (product_tenant actor) (subject actor) db !! i = Some row → (100 <= i)%nat →
  (∃ r, r ∈ abs self actor ∧ ar_id r = al_id row) ∧
  get LinkUp self actor (al_id row) = Ok None.
Proof.
  intros Hd Hwf Hi Hle. split; [|by eapply get_past_limit].
  assert (row ∈ owned_rows (product_tenant actor) (subject actor) db) as Hin
    by (by eapply list_elem_of_lookup_2).
  pose proof Hwf as Hwf'. unfold store_wf in Hwf'. rewrite Hd in Hwf'. destruct Hwf' as [_ Hdec].
  apply elem_of_owned in Hin as [[k Hk] [Ht Ho]].
  specialize (Hdec _ _ Hk). destruct (decode_row row) as [r|] eqn:Hr; [|done].
  exists r. split; [|by eapply decode_row_id]. apply (elem_of_abs_database _ _ _ _ Hd). eauto 6.
Qed.

(** With a reachable database, a valid request and an unused id, [create] succeeds
    exactly when the actor's product tenant has 1 to 64 characters: the migration's [CHECK]s
    hold of every other column of a validated rule, and a longer tenant, which the
    configuration admits up to 128 bytes, makes every insert fail as unavailable. *)
Theorem create_database_iff `{!StorageLaws} now fresh self actor input db :
  database self = Some db → validate input = Ok tt →
  f32_valid (ca_similarity_threshold input) = true → alerts db !! fresh = None →
  (1 <= N.of_nat (length (product_tenant actor)) <= 64 →
   ∃ self', create LinkUp now fresh self actor input = (Ok (into_rule input fresh now), self')) ∧
  (64 < N.of_nat (length (product_tenant actor)) →
   create LinkUp now fresh self actor input = (Err Unavailable, self)).
Proof.
  intros Hd Hv%validate_create_ok Hf Hfresh. split; [by eapply create_database_up|].
  intros Ht. pose proof (into_rule_ok _ fresh now Hv) as Hr.
  destruct (row_values_exist _ Hr) as (t1 & t2 & v & w & E1 & E2 & E3 & E4).
  unfold create. rewrite (proj2 (validate_create_ok _) Hv), Hd, E1, E3.
  unfold execute, INSERT_ALERT_SQL. rewrite E2, E4. cbn [ok_or mbind result_bind].
  unfold alert_checks at 1. cbn [al_product_tenant].
  assert (length_between 1 64 (product_tenant actor) = false) as ->.
  { apply not_true_iff_false. rewrite length_between_iff. lia. }
  cbn. destruct self; cbn in *; by subst.
Qed.
End properties.
Import CanonicalInstances SampleStorage SampleStorage.Instances.

Lemma sample_store_wf n :
  forallb (λ p, bool_decide (al_id (snd p) = fst p) && is_ok (decode_row (snd p)))
    (map_to_list (alerts (sample_db n))) = true →
  store_wf (sample_store n).
Proof.
  intros Hall. pose proof (table_check _
    (λ k row, bool_decide (al_id row = k) && is_ok (decode_row row)) Hall) as Hc.
  unfold store_wf. cbn [database sample_store]. split.
  - split; try (intros k r; cbn; by rewrite lookup_empty). intros k r Hr.
    apply Hc in Hr. rewrite andb_true_iff, bool_decide_eq_true in Hr. tauto.
  - intros k r Hr. apply Hc in Hr. rewrite andb_true_iff in Hr. tauto.
Qed.

Lemma list_returns_owned_witness :
  length (abs (sample_store 3) actor_a) = 3%nat ∧
  list_alerts LinkUp (sample_store 3) actor_a = Ok (abs (sample_store 3) actor_a).
Proof.
  split; [by vm_compute|]. apply list_returns_owned; [|by vm_compute; lia].
  apply sample_store_wf. by vm_compute.
Defined.

Definition sample_created : result StoreError AlertRule * AlertStore :=
  create LinkUp 7 (uuid_of 9) (sample_store 3) actor_a sample_create.
Lemma create_refines_witness :
  is_ok (fst sample_created) = true ∧ store_wf (snd sample_created) ∧
  (∀ b link, b ≠ actor_a →
     same_alerts (list_alerts link (snd sample_created) b) (list_alerts link (sample_store 3) b)).
Proof.
  destruct (create_refines LinkUp 7 (uuid_of 9) (sample_store 3) actor_a sample_create
    (fst sample_created) (snd sample_created)) as (Hwf & _ & Hfr);
    [apply sample_store_wf; by vm_compute|by vm_compute|by vm_compute|apply surjective_pairing|].
  split; [by vm_compute|]. split; [done|]. intros b link Hb. by apply Hfr.
Defined.

Definition sample_first : result StoreError AlertRule * AlertStore :=
  create LinkUp 7000 (uuid_of 9) (new None) actor_a sample_create.
Lemma create_then_read_witness :
  get LinkUp (snd sample_first) actor_a (uuid_of 9) =
    Ok (Some (into_rule sample_create (uuid_of 9) 7000)).
Proof.
  apply (create_then_read LinkUp 7000 (uuid_of 9) (new None) actor_a sample_create
           (into_rule sample_create (uuid_of 9) 7000)).
  - intros t o i r. cbn. by rewrite lookup_empty.
  - by apply lookup_empty.
  - by vm_compute.
  - vm_compute. lia.
  - unfold sample_first. rewrite (surjective_pairing (create _ _ _ _ _ _)). f_equal.
Defined.

Lemma get_misses_past_limit_witness :
  length (abs (sample_store 101) actor_a) = 101%nat ∧
  get LinkUp (sample_store 101) actor_a (uuid_of 1) = Ok None ∧
  get LinkUp (sample_store 101) actor_a (uuid_of 2) ≠ Ok None.
Proof.
  split_and!; [by vm_compute| |by vm_compute].
  apply (get_misses_past_limit (sample_store 101) actor_a (sample_db 101) 100 (sample_row 1));
    [done| |by vm_compute|done].
  apply sample_store_wf. by vm_compute.
Defined.

Lemma create_database_iff_witness :
  (∃ self', create LinkUp 7 (uuid_of 9) (sample_store 3) actor_a sample_create
     = (Ok (into_rule sample_create (uuid_of 9) 7), self')) ∧
  create LinkUp 7 (uuid_of 9) (sample_store 3)
    (mk_actor (uuid_of 1) (replicate 65 97)) sample_create = (Err Unavailable, sample_store 3).
Proof.
  split; (eapply create_database_iff; [done|by vm_compute|by vm_compute|by vm_compute|]);
    by vm_compute.
Defined.
