(* ===== verification/Repository.v ===== *)
(** * The repository interface

    What the HTTP handlers rely on in the alert store, as a class of operations with its
    laws; [AlertStore] of [src/store.rs] implements it.  The laws speak of the abstract
    repository: the alerts each actor owns. *)

From S2P Require Import Prelude Str Float Ids Model Auth Database Store.
Open Scope N_scope.

Class AlertRepo (R : Type) := {
  repo_list : Link → R → VerifiedActor → result StoreError (list AlertRule);
  repo_get : Link → R → VerifiedActor → Uuid → result StoreError (option AlertRule);
  repo_create : Link → DateTime → Uuid → R → VerifiedActor → CreateAlertRule →
    result StoreError AlertRule * R;
  repo_durable : R → bool;
}.

Class AlertRepoLaws (R : Type) `{AlertRepo R} := {
  (** What an actor owns, the states that occur, and an unused id. *)
  repo_owned : R → VerifiedActor → list AlertRule;
  repo_wf : R → Prop;
  repo_fresh : R → VerifiedActor → Uuid → Prop;
  (** The form in which a created rule reads back. *)
  repo_stored : R → AlertRule → AlertRule;

  repo_stored_id s r : ar_id (repo_stored s r) = ar_id r;
  repo_list_owned link s a l r : repo_list link s a = Ok l → r ∈ l → r ∈ repo_owned s a;
  repo_get_owned link s a id r :
    repo_wf s → repo_get link s a id = Ok (Some r) → r ∈ repo_owned s a ∧ ar_id r = id;
  repo_create_wf link now id s a input res s' :
    repo_wf s → repo_fresh s a id → f32_valid (ca_similarity_threshold input) = true →
    repo_create link now id s a input = (res, s') → repo_wf s';
  repo_create_ok link now id s a input r s' :
    repo_wf s → repo_fresh s a id → f32_valid (ca_similarity_threshold input) = true →
    repo_create link now id s a input = (Ok r, s') →
    r = into_rule input id now ∧ repo_owned s' a ≡ₚ repo_stored s r :: repo_owned s a;
  repo_create_err link now id s a input e s' :
    repo_wf s → repo_fresh s a id → f32_valid (ca_similarity_threshold input) = true →
    repo_create link now id s a input = (Err e, s') →
    s' = s ∨ link = LinkLost ∧
      repo_owned s' a ≡ₚ repo_stored s (into_rule input id now) :: repo_owned s a;
  repo_create_frame link now id s a input res s' b :
    repo_wf s → repo_fresh s a id → f32_valid (ca_similarity_threshold input) = true →
    repo_create link now id s a input = (res, s') → b ≠ a →
    repo_owned s' b ≡ₚ repo_owned s b;
}.

(** ** [AlertStore] *)

#[export] Instance alert_store_repo `{Postgres, Serde, HashMapIter} : AlertRepo AlertStore := {|
  repo_list := list_alerts;
  repo_get := get;
  repo_create := create;
  repo_durable := database_configured;
|}.

Section laws.
Context `{StorageLaws} `{HashMapIter}.

Lemma get_owned link self actor id r :
  store_wf self → get link self actor id = Ok (Some r) → r ∈ abs self actor ∧ ar_id r = id.
Proof.
  intros Hwf. unfold get. destruct (database self) as [db|] eqn:Hd; cbn [is_some].
  - intros Hg. apply bind_Ok_iff in Hg as (l & Hl & [= Hf]).
    apply List.find_some in Hf as [Hin Hid%bool_decide_eq_true]. split; [|done].
    eapply list_alerts_owned; [exact Hl|]. by apply list_elem_of_In.
  - intros [= Hg]. split; [apply elem_of_abs_fallback; eauto|].
    unfold store_wf in Hwf. rewrite Hd in Hwf. eauto.
Qed.

#[export] Instance alert_store_laws : AlertRepoLaws AlertStore.
Proof.
  refine {| repo_owned := abs; repo_wf := store_wf; repo_fresh := fresh_in;
            repo_stored := stored |}; cbn [repo_list repo_get repo_create alert_store_repo].
  - intros s r. unfold stored. by destruct (database s).
  - intros *. apply list_alerts_owned.
  - intros *. apply get_owned.
  - intros link now id s a input res s' Hwf Hfr Hf Hc.
    destruct (create_cases _ _ _ _ _ _ _ _ Hc) as [[-> _]|(Hv%validate_create_ok & Hins & _)];
      [done|]. by eapply inserted_wf; [|apply into_rule_ok| |].
  - intros link now id s a input r s' Hwf Hfr Hf Hc.
    destruct (create_cases _ _ _ _ _ _ _ _ Hc)
      as [[_ [e [=]]]|(Hv%validate_create_ok & Hins & [[= ->]|[_ [=]]])].
    split; [done|]. by eapply inserted_abs_own; [apply into_rule_ok|..].
  - intros link now id s a input e s' Hwf Hfr Hf Hc.
    destruct (create_cases _ _ _ _ _ _ _ _ Hc)
      as [[-> _]|(Hv%validate_create_ok & Hins & [[=]|[-> _]])]; [by left|right].
    split; [done|]. by eapply inserted_abs_own; [apply into_rule_ok|..].
  - intros link now id s a input res s' b Hwf Hfr Hf Hc Hne.
    destruct (create_cases _ _ _ _ _ _ _ _ Hc) as [[-> _]|(Hv%validate_create_ok & Hins & _)];
      [done|].
    by destruct (inserted_frame link s a (into_rule input id now) s' b Hwf Hfr Hins Hne)
      as (_ & ? & _).
Defined.
End laws.
