(* ===== verification/WebRole.v ===== *)
(** * The direct SQL contract: the web role of [migrations/0001_four_mode_transport.sql]

    The paired web server reads alerts itself, with the role [__eal_web_ro] and the query
    [DIRECT_ALERTS_SQL].  The migration gives the role the privilege to read one table and a
    row level security policy on it, which compares each row with two settings of the session.
    Expressions are three-valued: [None] is SQL's NULL. *)

From S2P Require Import Prelude Str Float Ids Model Auth Database Store.
Open Scope N_scope.

(** ** Privileges: [REVOKE ALL] and [GRANT SELECT] *)

Inductive Table := EalAlertRules | EalTransportInbox | EalTransportOutbox | EalTransportStatus.
Inductive Privilege := Select | Insert | Update | Delete | Truncate | References | Trigger.
#[global] Instance table_eq_dec : EqDecision Table.
Proof. solve_decision. Defined.
#[global] Instance privilege_eq_dec : EqDecision Privilege.
Proof. solve_decision. Defined.
Abbreviation Acl := (list (Table * Privilege)) (only parsing).
Definition revoke_all (t : Table) (acl : Acl) : Acl := filter (λ e, e.1 ≠ t) acl.
Definition grant (p : Privilege) (t : Table) (acl : Acl) : Acl := (t, p) :: acl.
(** The role's privileges after the migration; [before] are those on the tables when the
    statements run, which is none for the tables the migration has just created. *)
Definition web_acl (before : Acl) : Acl :=
  grant Select EalAlertRules (revoke_all EalAlertRules before).
Definition allowed (acl : Acl) (t : Table) (p : Privilege) : bool := bool_decide ((t, p) ∈ acl).

(** ** The policy *)

(** [current_setting(name, true)]: NULL when the setting is missing. *)
Abbreviation Settings := (str → option str) (only parsing).
Definition sql_eq {A} `{EqDecision A} (a b : option A) : option bool :=
  x ← a; y ← b; Some (bool_decide (x = y)).
Definition sql_and (a b : option bool) : option bool :=
  match a, b with
  | Some false, _ | _, Some false => Some false
  | Some true, Some true => Some true
  | _, _ => None
  end.
(** [text::uuid]. *)
Class UuidCast := { cast_uuid : str → option Uuid }.
Class UuidCastLaws `{UuidText, UuidCast} := {
  cast_display u : cast_uuid (uuid_display u) = Some u;
}.

Section policy.
Context `{UuidCast}.
Definition owner_setting (s : Settings) : result DbErr (option Uuid) :=
  match s (lit "eal.owner_subject") with
  | None => Ok None
  | Some text => Some <$> ok_or (cast_uuid text) InvalidParameter
  end.
(** [eal_web_owner_read].  The server may skip the second operand of the [AND], and then its
    cast, when the first is false: [eager] tells whether it evaluates it. *)
Definition eal_web_owner_read (eager : bool) (s : Settings) (r : AlertRow)
    : result DbErr (option bool) :=
  let same_tenant := sql_eq (Some (al_product_tenant r)) (s (lit "eal.product_tenant")) in
  if negb eager && bool_decide (same_tenant = Some false) then Ok (Some false) else
  owner ← owner_setting s;
  Ok (sql_and same_tenant (sql_eq (Some (al_owner_subject r)) owner)).

(** The rows of a table the role sees: those for which the policy is true. *)
Fixpoint visible (eager : bool) (s : Settings) (l : list AlertRow) : result DbErr (list AlertRow) :=
  match l with
  | [] => Ok []
  | r :: l =>
      shown ← eal_web_owner_read eager s r;
      l ← visible eager s l;
      Ok (if bool_decide (shown = Some true) then r :: l else l)
  end.
(** [DIRECT_ALERTS_SQL] with the given parameters, run by the role. *)
Definition web_alerts (eager : bool) (s : Settings) (tenant : str) (owner : Uuid) (db : Db)
    : result DbErr (list AlertRow) :=
  if negb (allowed (web_acl []) EalAlertRules Select) then Err InvalidParameter else
  shown ← visible eager s (rows (alerts db));
  Ok (take 100 (order_by alert_key (filter (alert_of tenant owner) shown))).
End policy.

(** ** Lemmas *)

Section lemmas.
Context `{UuidCast}.

Lemma allowed_web_iff t p : allowed (web_acl []) t p = true ↔ t = EalAlertRules ∧ p = Select.
Proof.
  unfold allowed. rewrite bool_decide_eq_true. unfold web_acl, grant, revoke_all.
  rewrite list_elem_of_singleton. naive_solver.
Qed.
Lemma sql_and_true a b : sql_and a b = Some true ↔ a = Some true ∧ b = Some true.
Proof. destruct a as [[]|], b as [[]|]; naive_solver. Qed.
Lemma sql_eq_true {A} `{EqDecision A} (x : A) b : sql_eq (Some x) b = Some true ↔ b = Some x.
Proof.
  destruct b as [y|]; cbn; [|done]. destruct (decide (x = y)) as [->|Hne].
  - by rewrite bool_decide_eq_true_2.
  - rewrite bool_decide_eq_false_2 by done. naive_solver.
Qed.
Lemma policy_true eager s r :
  eal_web_owner_read eager s r = Ok (Some true) ↔
  s (lit "eal.product_tenant") = Some (al_product_tenant r) ∧
  owner_setting s = Ok (Some (al_owner_subject r)).
Proof.
  unfold eal_web_owner_read.
  pose proof (sql_eq_true (al_product_tenant r) (s (lit "eal.product_tenant"))) as Ht.
  destruct (negb eager && _) eqn:E.
  - apply andb_true_iff in E as [_ E%bool_decide_eq_true]. rewrite E in Ht. naive_solver.
  - destruct (owner_setting s) as [o|e]; cbn [mbind result_bind]; [|naive_solver].
    rewrite (inj_iff Ok), sql_and_true, Ht, sql_eq_true. naive_solver.
Qed.
Lemma visible_filter eager s tenant owner l :
  s (lit "eal.product_tenant") = Some tenant → owner_setting s = Ok (Some owner) →
  visible eager s l = Ok (filter (alert_of tenant owner) l).
Proof.
  intros Ht Ho. induction l as [|r l IH]; [done|]. cbn [visible]. rewrite IH.
  pose proof (policy_true eager s r) as Hp. rewrite Ht, Ho in Hp.
  assert (∃ b, eal_web_owner_read eager s r = Ok b) as [b Hb].
  { unfold eal_web_owner_read. destruct (negb eager && _); [by eexists|]. rewrite Ho. by eexists. }
  rewrite Hb in Hp |- *. cbn [mbind result_bind]. f_equal.
  destruct (decide (alert_of tenant owner r)) as [Ha|Ha].
  - rewrite filter_cons_True by done. destruct Ha as [<- <-].
    rewrite bool_decide_eq_true_2; [done|]. apply (inj (Ok (E := DbErr))). by apply Hp.
  - rewrite filter_cons_False by done. rewrite bool_decide_eq_false_2; [done|].
    intros ->. apply Ha. unfold alert_of. naive_solver.
Qed.
Lemma visible_sound eager s l k :
  visible eager s l = Ok k → ∀ r, r ∈ k → r ∈ l ∧
    s (lit "eal.product_tenant") = Some (al_product_tenant r) ∧
    owner_setting s = Ok (Some (al_owner_subject r)).
Proof.
  revert k. induction l as [|x l IH]; intros k; cbn [visible].
  { intros [= <-] r ?%elem_of_nil. done. }
  intros (b & Hb & Hk)%bind_Ok_iff r Hr. apply bind_Ok_iff in Hk as (k' & Hk' & [= <-]).
  case_bool_decide as E.
  - subst b. apply elem_of_cons in Hr as [->|Hr].
    + split; [left|]. by apply (policy_true eager).
    + destruct (IH _ Hk' _ Hr) as (? & ?). split; [by right|done].
  - destruct (IH _ Hk' _ Hr) as (? & ?). split; [by right|done].
Qed.
Lemma filter_filter_same {A} (P : A → Prop) `{∀ x, Decision (P x)} (l : list A) :
  filter P (filter P l) = filter P l.
Proof.
  induction l as [|x l IH]; [done|]. destruct (decide (P x)).
  - rewrite !filter_cons_True by done. by rewrite IH.
  - by rewrite filter_cons_False.
Qed.
Lemma web_alerts_own eager s tenant owner db :
  s (lit "eal.product_tenant") = Some tenant → owner_setting s = Ok (Some owner) →
  web_alerts eager s tenant owner db = Ok (DIRECT_ALERTS_SQL tenant owner db).
Proof.
  intros Ht Ho. unfold web_alerts. rewrite (proj2 (allowed_web_iff _ _)) by done. cbn [negb].
  rewrite (visible_filter _ _ _ _ _ Ht Ho). cbn [mbind result_bind].
  by rewrite filter_filter_same.
Qed.
End lemmas.

(** ** Properties *)

Section properties.
Context `{UuidCastLaws}.

(** C23: the web role reads its owner's alerts and nothing else.  The migration lets the role
    read the alert table only.  With the settings of a tenant and subject the direct query
    gives the same rows as the API's own, and no rows for the parameters of anybody else;
    without a setting it gives no rows or fails; and whatever the settings and the query, each
    row the role can see has the tenant and the subject of its settings. *)
Theorem web_role_reads_own_rows eager s tenant owner db :
  (∀ t p, allowed (web_acl []) t p = true ↔ t = EalAlertRules ∧ p = Select) ∧
  (s (lit "eal.product_tenant") = Some tenant → s (lit "eal.owner_subject") = Some (uuid_display owner) →
   web_alerts eager s tenant owner db = Ok (DIRECT_ALERTS_SQL tenant owner db) ∧
   ∀ t o, (t, o) ≠ (tenant, owner) → web_alerts eager s t o db = Ok []) ∧
  (s (lit "eal.product_tenant") = None ∨ s (lit "eal.owner_subject") = None →
   ∀ l, web_alerts eager s tenant owner db = Ok l → l = []) ∧
  (∀ l r, visible eager s (rows (alerts db)) = Ok l → r ∈ l →
   s (lit "eal.product_tenant") = Some (al_product_tenant r) ∧
   ∃ text, s (lit "eal.owner_subject") = Some text ∧ cast_uuid text = Some (al_owner_subject r)).
Proof.
  assert (∀ o, owner_setting s = Ok (Some o) ↔
    ∃ text, s (lit "eal.owner_subject") = Some text ∧ cast_uuid text = Some o) as Howner.
  { intros o. unfold owner_setting. destruct (s _) as [text|]; [|naive_solver].
    rewrite fmap_Ok_iff. setoid_rewrite ok_or_Ok_iff. naive_solver. }
  split; [apply allowed_web_iff|]. split; [|split].
  - intros Ht Hs. assert (owner_setting s = Ok (Some owner)) as Ho
      by (apply Howner; exists (uuid_display owner); split; [done|apply cast_display]).
    split; [by apply web_alerts_own|]. intros t o Hne.
    unfold web_alerts. rewrite (proj2 (allowed_web_iff _ _)) by done. cbn [negb].
    rewrite (visible_filter _ _ _ _ _ Ht Ho). cbn [mbind result_bind].
    assert (filter (alert_of t o) (filter (alert_of tenant owner) (rows (alerts db))) = []) as ->;
      [|done].
    destruct (filter (alert_of t o) _) as [|r l] eqn:E; [done|].
    assert (r ∈ filter (alert_of t o) (filter (alert_of tenant owner) (rows (alerts db)))) as Hr
      by (rewrite E; left).
    apply list_elem_of_filter in Hr as [[<- <-] [[<- <-] _]%list_elem_of_filter]. by destruct Hne.
  - intros Hnone l. unfold web_alerts. rewrite (proj2 (allowed_web_iff _ _)) by done. cbn [negb].
    intros (k & Hk & [= <-])%bind_Ok_iff. destruct k as [|r k]; [done|].
    destruct (visible_sound _ _ _ _ Hk r ltac:(left)) as (_ & Ht & (text & Hs & _)%Howner).
    destruct Hnone; congruence.
  - intros l r Hl Hr. destruct (visible_sound _ _ _ _ Hl r Hr) as (_ & Ht & Ho).
    split; [done|]. by apply Howner.
Qed.
End properties.

(** ** Example *)

Module SampleWeb.
Import CanonicalInstances.
Module Instances.
#[export] Instance uuid_cast : UuidCast := {| cast_uuid := uuid_parse |}.
#[export] Instance uuid_cast_laws : UuidCastLaws.
Proof. split. apply parse_display. Qed.
End Instances.
Definition settings (actor : VerifiedActor) (name : str) : option str :=
  if str_eqb name (lit "eal.product_tenant") then Some (product_tenant actor) else
  if str_eqb name (lit "eal.owner_subject") then Some (uuid_display (subject actor)) else None.
End SampleWeb.
Import CanonicalInstances SampleStorage SampleWeb.Instances.
Lemma web_role_reads_own_rows_witness :
  length (DIRECT_ALERTS_SQL (product_tenant actor_a) (subject actor_a) (sample_db 3)) = 3%nat ∧
  web_alerts false (SampleWeb.settings actor_a) (product_tenant actor_a) (subject actor_a) (sample_db 3) =
    Ok (DIRECT_ALERTS_SQL (product_tenant actor_a) (subject actor_a) (sample_db 3)) ∧
  ∀ t o, (t, o) ≠ (product_tenant actor_a, subject actor_a) →
    web_alerts false (SampleWeb.settings actor_a) t o (sample_db 3) = Ok [].
Proof.
  split; [by vm_compute|].
  apply (proj1 (proj2 (web_role_reads_own_rows false (SampleWeb.settings actor_a)
    (product_tenant actor_a) (subject actor_a) (sample_db 3)))); by vm_compute.
Defined.
