(* ===== verification/Envelope.v ===== *)
(** * Operation envelopes and signed commands ([src/transport.rs])

    The wire types of the TCP and JetStream transports, the envelope checks, and the
    signature of asynchronous commands.  HMAC-SHA256 and the hex codec are library
    code behind the class [Crypto]. *)

From S2P Require Import Prelude Str Ids Auth.
Open Scope N_scope.

(** ** Data *)

Definition MAX_FRAME_BYTES : N := 64 * 1024.
Definition MAX_OPERATION_DEADLINE_MS : N := 15000.
Definition MAX_NATS_PAYLOAD_BYTES : N := 256 * 1024.

Record OperationEnvelope := mk_operation {
  version : N;                    (* u8 *)
  operation_id : Uuid;
  operation : str;
  actor_subject : str;
  op_product_tenant : str;
  deadline_unix_ms : N;           (* u64 *)
}.
Record AuthenticatedOperation := mk_authenticated {
  authorization : str;
  envelope : OperationEnvelope;
}.
Record OperationReply := mk_reply {
  reply_operation_id : Uuid;
  reply_status : str;
  reply_result : option Value;
  reply_error : option str;
}.
Record AsyncCommand := mk_command {
  event_id : Uuid;
  correlation_id : Uuid;
  dedupe_key : str;
  cmd_product_tenant : str;
  cmd_operation : OperationEnvelope;
  signature : str;
}.
Record EventEnvelope := mk_event {
  ev_event_id : Uuid;
  ev_correlation_id : Uuid;
  ev_dedupe_key : str;
  ev_product_tenant : str;
  ev_subject : str;
  ev_reply : OperationReply;
}.

Definition with_signature (c : AsyncCommand) (s : str) : AsyncCommand :=
  mk_command (event_id c) (correlation_id c) (dedupe_key c) (cmd_product_tenant c)
    (cmd_operation c) s.

Definition error_reply (operation_id : Uuid) (error : str) : OperationReply :=
  mk_reply operation_id (lit "rejected") None (Some error).

(** ** Syntactic checks *)

(** [value.bytes().enumerate().all(..)]. *)
Fixpoint all_indexed (p : N → N → bool) (i : N) (l : list N) : bool :=
  match l with [] => true | b :: l => p i b && all_indexed p (i + 1) l end.
Definition tenant_byte (index byte : N) : bool :=
  is_ascii_lowercase byte || is_ascii_digit byte
  || ((0 <? index) && ((byte =? 95) || (byte =? 45))).
Definition bounded_tenant (value : str) : bool :=
  negb (is_empty value) && (len value <=? 64) && all_indexed tenant_byte 0 (as_bytes value).

Definition dedupe_byte (byte : N) : bool :=
  is_ascii_alphanumeric byte || (byte =? 58) || (byte =? 95) || (byte =? 45).
Definition bounded_dedupe_key (value : str) : bool :=
  negb (is_empty value) && (len value <=? 128) && forallb dedupe_byte (as_bytes value).

Definition valid_command_key (key : list N) : bool :=
  (32 <=? N.of_nat (length key)) && (N.of_nat (length key) <=? 1024)
  && negb (existsb is_ascii_control key).

(** ** Clock *)

(** [unix_ms]: milliseconds since the epoch, saturated to [u64]. *)
Definition unix_ms (now : Z) : option N :=
  if (now <? 0)%Z then None else Some (N.min (Z.to_N (now / 1000000)) u64_max).

(** ** Library interfaces *)

Class Crypto := {
  (** [Hmac::<Sha256>::new_from_slice(key)] and the tag of a message under it. *)
  hmac_new : list N → option (list N → list N);
  hex_encode : list N → str;
  hex_decode : str → option (list N);
}.
(** The documented behaviour of the [hex] and [hmac] crates: decoding inverts the
    encoding of bytes, HMAC takes keys of any length and its tags are bytes. *)
Class CryptoLaws `{Crypto} := {
  hex_roundtrip b : Forall (λ x, x < 256) b → hex_decode (hex_encode b) = Some b;
  hmac_any_key key : is_Some (hmac_new key);
  hmac_bytes key mac m : hmac_new key = Some mac → Forall (λ x, x < 256) (mac m);
}.

Section envelope.
Context `{UuidText}.

Definition operation_message : str := lit "operation envelope is invalid".

Definition validate_operation_envelope_at (envelope : OperationEnvelope) (now_ms : N)
    : result str unit :=
  if negb (version envelope =? 1)
     || negb (str_eqb (operation envelope) (lit "list_alerts"))
     || is_nil (operation_id envelope)
     || negb (bounded_tenant (op_product_tenant envelope))
     || is_none (uuid_parse (actor_subject envelope))
     || (deadline_unix_ms envelope <? now_ms)
     || (MAX_OPERATION_DEADLINE_MS <? deadline_unix_ms envelope - now_ms)
  then Err operation_message
  else Ok tt.

(** ** Signatures *)

Definition command_signing_bytes (command : AsyncCommand) : str :=
  join [10]
    [ uuid_display (event_id command);
      uuid_display (correlation_id command);
      dedupe_key command;
      cmd_product_tenant command;
      display_uint (version (cmd_operation command));
      uuid_display (operation_id (cmd_operation command));
      operation (cmd_operation command);
      actor_subject (cmd_operation command);
      display_uint (deadline_unix_ms (cmd_operation command)) ].

Context `{Crypto}.

Definition key_message : str := lit "command key is malformed".

Definition sign_command (command : AsyncCommand) (key : list N) : result str str :=
  if negb (valid_command_key key) then Err key_message else
  mac ← ok_or (hmac_new key) key_message;
  Ok (hex_encode (mac (as_bytes (command_signing_bytes command)))).

Definition verify_command_signature (command : AsyncCommand) (key : list N) : bool :=
  match hex_decode (signature command) with
  | None => false
  | Some signature =>
      match hmac_new key with
      | None => false
      | Some mac =>
          valid_command_key key
          && bool_decide (mac (as_bytes (command_signing_bytes command)) = signature)
      end
  end.

(** The acceptance test of [run_jetstream]; [true] when the command goes on to
    [process_command]. *)
Definition command_accepted (product_tenant : str) (command_key : list N) (now_ms : N)
    (command : AsyncCommand) : bool :=
  negb (negb (str_eqb (cmd_product_tenant command) product_tenant)
        || negb (str_eqb (cmd_product_tenant command) (op_product_tenant (cmd_operation command)))
        || negb (bool_decide (operation_id (cmd_operation command) = correlation_id command))
        || negb (bounded_dedupe_key (dedupe_key command))
        || negb (verify_command_signature command command_key)
        || is_err (validate_operation_envelope_at (cmd_operation command) now_ms)).
End envelope.

(** ** Configuration *)

Definition optional_env (env : str → option str) (name : str) : option str :=
  opt_filter (λ value, negb (is_empty value)) (trim <$> env name).
Definition required_setting (env : str → option str) (name : str) : result str str :=
  ok_or (optional_env env name) (name ++ lit " is required").

Definition nats_message : str := lit "remote NATS requires a credential-free tls:// URL".
Definition validate_nats_url (value : str) : result str unit :=
  let secure := starts_with value (lit "tls://") && (len (lit "tls://") <? len value) in
  let loopback := starts_with value (lit "nats://127.0.0.1:")
                  || starts_with value (lit "nats://localhost:")
                  || starts_with value (lit "nats://[::1]:") in
  if (secure || loopback) && negb (contains_char 64 value) then Ok tt else Err nats_message.

(** ** Specification *)

(** A tenant: 1 to 64 of [a-z 0-9 _ -], not starting with [_] or [-]. *)
Definition tenant_start (c : char) : bool := is_ascii_lowercase c || is_ascii_digit c.
Definition tenant_char (c : char) : bool := tenant_start c || (c =? 95) || (c =? 45).
Definition tenant_ok (s : str) : Prop :=
  match s with
  | [] => False
  | c :: s => tenant_start c = true ∧ Forall (λ c, tenant_char c = true) s ∧
      N.of_nat (length s) <= 63
  end.
Definition dedupe_ok (s : str) : Prop :=
  1 <= N.of_nat (length s) <= 128 ∧ Forall (λ c, dedupe_byte c = true) s.

(** The texts of a command are Rust strings: sequences of Unicode scalar values. *)
Definition text (s : str) : Prop := Forall (λ c, char_valid c = true) s.
Record command_text (c : AsyncCommand) : Prop := {
  ct_dedupe : text (dedupe_key c);
  ct_tenant : text (cmd_product_tenant c);
  ct_operation : text (operation (cmd_operation c));
  ct_actor : text (actor_subject (cmd_operation c));
}.

(** ** Lemmas *)

Lemma tenant_char_ascii c : tenant_char c = true → c < 128.
Proof.
  unfold tenant_char, tenant_start, is_ascii_lowercase, is_ascii_digit, in_range.
  rewrite !orb_true_iff, !andb_true_iff, !N.leb_le, !N.eqb_eq. lia.
Qed.
Lemma tenant_char_no c s : tenant_char c = false → tenant_ok s → c ∉ s.
Proof.
  destruct s as [|d s]; [done|]. intros Hc (Hd & Hs & _). apply not_elem_of_cons. split.
  - intros ->. unfold tenant_char in Hc. by rewrite Hd in Hc.
  - rewrite Forall_forall in Hs. intros Hin. by rewrite (Hs _ Hin) in Hc.
Qed.
Lemma all_indexed_tail i l :
  0 < i → all_indexed tenant_byte i l = forallb tenant_char l.
Proof.
  revert i. induction l as [|b l IH]; intros i Hi; [done|]. cbn [all_indexed forallb].
  rewrite IH by lia. unfold tenant_byte, tenant_char, tenant_start.
  rewrite (proj2 (N.ltb_lt _ _) Hi). cbn [andb]. by rewrite orb_assoc.
Qed.
Lemma all_indexed_start b l :
  all_indexed tenant_byte 0 (b :: l) = tenant_start b && forallb tenant_char l.
Proof.
  cbn [all_indexed]. rewrite all_indexed_tail by done. f_equal.
  unfold tenant_byte, tenant_start. by rewrite orb_false_r.
Qed.
Lemma bounded_tenant_iff s : bounded_tenant s = true ↔ tenant_ok s.
Proof.
  unfold bounded_tenant. destruct s as [|c s]; [done|].
  rewrite !andb_true_iff, negb_true_iff, is_empty_false_iff, N.leb_le. cbn [tenant_ok].
  assert (c < 128 → Forall (λ c, tenant_char c = true) s →
    len (c :: s) = N.of_nat (length (c :: s))) as Hlen.
  { intros Hc Hs. apply len_ascii. constructor; [done|].
    eapply Forall_impl; [exact Hs|apply tenant_char_ascii]. }
  assert (tenant_start c = true → c < 128) as Hst.
  { intros Hc. apply tenant_char_ascii. unfold tenant_char. by rewrite Hc. }
  rewrite as_bytes_cons. split.
  - intros [[_ Hl] Hb].
    assert (c < 128) as Hc.
    { destruct (decide (c < 128)) as [|Hge]; [done|]. pose proof (utf8_high c ltac:(lia)) as Hu.
      pose proof (utf8_length c). destruct (utf8 c) as [|b u]; [cbn in *; lia|].
      rewrite <-app_comm_cons, all_indexed_start, andb_true_iff in Hb. destruct Hb as [Hb _].
      inversion Hu. enough (b < 128) by lia. apply tenant_char_ascii. unfold tenant_char.
      by rewrite Hb. }
    rewrite utf8_ascii in Hb by done. cbn [app] in Hb.
    rewrite all_indexed_start, andb_true_iff, (bytes_all_ascii _ _ tenant_char_ascii) in Hb.
    destruct Hb as [? Hs]. rewrite Hlen in Hl by done. cbn [length] in Hl.
    split_and!; [done..|lia].
  - intros (Hc & Hs & Hl). rewrite utf8_ascii by auto. cbn [app].
    rewrite all_indexed_start, andb_true_iff, (bytes_all_ascii _ _ tenant_char_ascii).
    rewrite Hlen by auto. cbn [length]. split_and!; [done|lia|done..].
Qed.
Lemma dedupe_byte_ascii b : dedupe_byte b = true → b < 128.
Proof.
  unfold dedupe_byte, is_ascii_alphanumeric, is_ascii_digit, is_ascii_lowercase,
    is_ascii_uppercase, in_range.
  rewrite !orb_true_iff, !andb_true_iff, !N.leb_le, !N.eqb_eq. lia.
Qed.
Lemma bounded_dedupe_key_iff s : bounded_dedupe_key s = true ↔ dedupe_ok s.
Proof.
  unfold bounded_dedupe_key, dedupe_ok.
  rewrite !andb_true_iff, negb_true_iff, is_empty_false_iff, N.leb_le.
  rewrite (bytes_all_ascii dedupe_byte) by apply dedupe_byte_ascii.
  assert (Forall (λ c, dedupe_byte c = true) s → len s = N.of_nat (length s)) as Hl.
  { intros Hs. apply len_ascii. eapply Forall_impl; [done|]. apply dedupe_byte_ascii. }
  destruct s as [|c s].
  - split; [by intros [[? _] _]|]. intros [? _]. cbn in *. lia.
  - split; [intros [[_ ?] Hs]|intros [? Hs]]; rewrite Hl in * by done.
    + cbn [length] in *. split; [lia|done].
    + split_and!; [done|lia|done].
Qed.
Lemma dedupe_ok_no c s : dedupe_byte c = false → dedupe_ok s → c ∉ s.
Proof.
  intros Hc [_ Hs] Hin. rewrite Forall_forall in Hs. by rewrite (Hs _ Hin) in Hc.
Qed.
Lemma tenant_ok_length s : tenant_ok s → 1 <= N.of_nat (length s) <= 64.
Proof. destruct s as [|c s]; [done|]. intros (_ & _ & ?). cbn [length]. lia. Qed.
Lemma display_uint_no_newline n : 10 ∉ display_uint n.
Proof. intros H. pose proof (proj1 (Forall_forall _ _) (display_uint_digits n) _ H). done. Qed.

Section envelope_results.
Context `{UuidText}.

(** What an accepted operation envelope satisfies at time [now_ms]. *)
Record envelope_ok (e : OperationEnvelope) (now_ms : N) : Prop := {
  eo_version : version e = 1;
  eo_operation : operation e = lit "list_alerts";
  eo_id : operation_id e ≠ uuid_nil;
  eo_tenant : tenant_ok (op_product_tenant e);
  eo_actor : is_Some (uuid_parse (actor_subject e));
  eo_deadline : now_ms <= deadline_unix_ms e <= now_ms + 15000;
}.

Lemma is_nil_iff u : is_nil u = true ↔ u = uuid_nil.
Proof.
  unfold is_nil. rewrite N.eqb_eq. split; [|by intros ->]. intros Hu. by apply uuid_bits_inj.
Qed.
Lemma validate_envelope_Ok_iff e now_ms :
  validate_operation_envelope_at e now_ms = Ok tt ↔ envelope_ok e now_ms.
Proof.
  unfold validate_operation_envelope_at. rewrite guard_Ok_iff, !orb_false_iff, !negb_false_iff.
  rewrite N.eqb_eq, str_eqb_eq, bounded_tenant_iff, N.ltb_ge, N.ltb_ge.
  unfold is_none, MAX_OPERATION_DEADLINE_MS. rewrite negb_false_iff, is_some_true_iff.
  rewrite <-not_true_iff_false, is_nil_iff. split.
  - intros [((((((?&?)&?)&?)&?)&?)&?) _]. split; try done. lia.
  - intros []. split; [|done]. split_and!; try done; lia.
Qed.
Lemma validate_envelope_Err e now_ms m :
  validate_operation_envelope_at e now_ms = Err m → m = operation_message.
Proof. unfold validate_operation_envelope_at. case_match; [by intros [=]|done]. Qed.

Context `{Crypto}.

(** What a command that reaches [process_command] satisfies. *)
Record command_ok (tenant : str) (key : list N) (now_ms : N) (c : AsyncCommand) : Prop := {
  co_tenant : cmd_product_tenant c = tenant;
  co_operation_tenant : op_product_tenant (cmd_operation c) = tenant;
  co_correlation : operation_id (cmd_operation c) = correlation_id c;
  co_dedupe : dedupe_ok (dedupe_key c);
  co_signature : verify_command_signature c key = true;
  co_envelope : envelope_ok (cmd_operation c) now_ms;
}.
Lemma command_accepted_iff tenant key now_ms c :
  command_accepted tenant key now_ms c = true ↔ command_ok tenant key now_ms c.
Proof.
  unfold command_accepted. rewrite negb_true_iff, !orb_false_iff, !negb_false_iff.
  rewrite !str_eqb_eq, bool_decide_eq_true, bounded_dedupe_key_iff, is_err_false_iff.
  split.
  - intros (((((Ht&Ho)&?)&?)&?)&[[] Hv]). rewrite validate_envelope_Ok_iff in Hv.
    split; congruence || done.
  - intros []. split_and!; try congruence || done. exists tt. by apply validate_envelope_Ok_iff.
Qed.

Lemma verify_signature_iff c key :
  verify_command_signature c key = true ↔
  valid_command_key key = true ∧ ∃ tag mac, hex_decode (signature c) = Some tag ∧
    hmac_new key = Some mac ∧ tag = mac (as_bytes (command_signing_bytes c)).
Proof.
  unfold verify_command_signature. destruct (hex_decode _) as [tag|]; [|naive_solver].
  destruct (hmac_new key) as [mac|]; [|naive_solver].
  rewrite andb_true_iff, bool_decide_eq_true. naive_solver.
Qed.
End envelope_results.

Section signing.
Context `{UuidTextLaws} `{Crypto}.

Lemma signing_bytes_text c : command_text c → text (command_signing_bytes c).
Proof.
  assert (∀ s, Forall (λ c, c < 128) s → text s) as Hascii.
  { intros s Hs. eapply Forall_impl; [exact Hs|]. intros x Hx. cbn in *. unfold char_valid.
    apply orb_true_iff. left. apply N.ltb_lt. lia. }
  assert (∀ n, text (display_uint n)) as Huint.
  { intros n. apply Hascii. eapply Forall_impl; [apply display_uint_digits|].
    unfold is_ascii_digit, in_range. intros x. rewrite andb_true_iff, !N.leb_le. lia. }
  assert (∀ u, text (uuid_display u)) as Huuid by (intros u; apply Hascii, display_ascii).
  intros []. unfold command_signing_bytes, text. cbn [join].
  repeat (apply Forall_app_2; [first [apply Huint|apply Huuid|done]|apply Forall_app_2; [by repeat constructor|]]).
  apply Huint.
Qed.

(** The fields of a command none of whose texts holds the separator can be read back. *)
Record no_newline (c : AsyncCommand) : Prop := {
  nn_dedupe : 10 ∉ dedupe_key c;
  nn_tenant : 10 ∉ cmd_product_tenant c;
  nn_operation : 10 ∉ operation (cmd_operation c);
  nn_actor : 10 ∉ actor_subject (cmd_operation c);
}.
Lemma signing_bytes_inj c d :
  no_newline c → no_newline d → command_signing_bytes c = command_signing_bytes d →
  event_id c = event_id d ∧ correlation_id c = correlation_id d ∧
  dedupe_key c = dedupe_key d ∧ cmd_product_tenant c = cmd_product_tenant d ∧
  version (cmd_operation c) = version (cmd_operation d) ∧
  operation_id (cmd_operation c) = operation_id (cmd_operation d) ∧
  operation (cmd_operation c) = operation (cmd_operation d) ∧
  actor_subject (cmd_operation c) = actor_subject (cmd_operation d) ∧
  deadline_unix_ms (cmd_operation c) = deadline_unix_ms (cmd_operation d).
Proof.
  intros [] [] E. unfold command_signing_bytes in E. cbn [join app] in E.
  repeat (apply app_cons_inj in E;
    [|first [done|apply display_no_newline|apply display_uint_no_newline]..];
    let E' := fresh "E" in destruct E as [E' E]).
  split_and!; eauto using uuid_display_inj, display_uint_inj.
Qed.
Lemma command_ok_no_newline tenant key now_ms c :
  command_ok tenant key now_ms c → no_newline c.
Proof.
  intros [Ht Hot _ Hd _ [_ Ho _ Hte [u Hu] _]]. split.
  - by eapply dedupe_ok_no.
  - rewrite Ht, <-Hot. by eapply tenant_char_no.
  - rewrite Ho. by apply (bool_decide_unpack (10 ∉ lit "list_alerts")); vm_compute.
  - by eapply parse_no_newline.
Qed.
End signing.

(** ** Properties *)

Section envelope_properties.
Context `{UuidText}.

(** An operation envelope is valid at a time exactly when its version is 1, it asks for
    [list_alerts], its id is not nil, its tenant is 1 to 64 of [a-z0-9_-] starting with a
    letter or digit, its actor parses as a UUID and its deadline lies between now and 15
    seconds from now; everything else is the one invalid-envelope error. *)
Theorem operation_envelope_iff e now_ms :
  (validate_operation_envelope_at e now_ms = Ok tt ↔ envelope_ok e now_ms) ∧
  (¬ envelope_ok e now_ms →
   validate_operation_envelope_at e now_ms = Err operation_message).
Proof.
  split; [apply validate_envelope_Ok_iff|]. intros Hn.
  destruct (validate_operation_envelope_at e now_ms) as [[]|m] eqn:E.
  - by apply validate_envelope_Ok_iff in E.
  - by rewrite (validate_envelope_Err _ _ _ E).
Qed.
End envelope_properties.

Section signing_properties.
Context `{UuidTextLaws} `{Crypto}.

(** C20: the signature covers the whole command: two commands that pass the acceptance test
    (under whatever tenants, keys and times) and have the same signed bytes are equal in
    every field but the signature itself, although the fields are only joined by newlines
    and the operation's own tenant is not among them. *)
Theorem signature_covers_command t1 k1 n1 t2 k2 n2 c d :
  command_text c → command_text d →
  command_accepted t1 k1 n1 c = true → command_accepted t2 k2 n2 d = true →
  as_bytes (command_signing_bytes c) = as_bytes (command_signing_bytes d) →
  with_signature c [] = with_signature d [].
Proof.
  intros Hc Hd Ac%command_accepted_iff Ad%command_accepted_iff E.
  apply as_bytes_inj in E; [|by apply signing_bytes_text..].
  apply signing_bytes_inj in E; [|by eapply command_ok_no_newline..].
  destruct E as (E1 & E2 & E3 & E4 & E5 & E6 & E7 & E8 & E9).
  assert (op_product_tenant (cmd_operation c) = op_product_tenant (cmd_operation d)) as E10.
  { destruct Ac as [? -> _ _ _ _], Ad as [? -> _ _ _ _]. congruence. }
  unfold with_signature. destruct c as [???? oc ?], d as [???? od ?]; cbn in *.
  destruct oc, od; cbn in *. congruence.
Qed.

Context `{!CryptoLaws}.

(** With a key of 32 to 1024 bytes without ASCII controls signing succeeds and the signed
    command verifies under that key; with any other key signing is an error and nothing
    verifies. *)
Theorem sign_then_verify c key :
  if valid_command_key key
  then ∃ s, sign_command c key = Ok s ∧ verify_command_signature (with_signature c s) key = true
  else sign_command c key = Err key_message ∧ ∀ d, verify_command_signature d key = false.
Proof.
  unfold sign_command. destruct (valid_command_key key) eqn:Hk; cbn [negb].
  - destruct (hmac_any_key key) as [mac Hmac]. rewrite Hmac. cbn [ok_or mbind result_bind].
    eexists. split; [done|]. apply verify_signature_iff. split; [done|].
    cbn [signature with_signature]. rewrite hex_roundtrip by (by eapply hmac_bytes). eauto.
  - split; [done|]. intros d. apply not_true_iff_false. rewrite verify_signature_iff.
    intros [? _]. congruence.
Qed.
End signing_properties.

(** A NATS URL is accepted exactly when it holds no [@] and is a [tls://] URL with
    something after the scheme, or starts with a loopback [nats://] authority. *)
Theorem nats_url_iff url :
  validate_nats_url url = Ok tt ↔
  (64 ∉ url) ∧
  ((∃ rest, url = lit "tls://" ++ rest ∧ rest ≠ []) ∨
   (∃ host rest, url = host ++ rest ∧
     host ∈ [lit "nats://127.0.0.1:"; lit "nats://localhost:"; lit "nats://[::1]:"])).
Proof.
  unfold validate_nats_url. rewrite <-contains_char_false_iff.
  assert (∀ b : bool, (if b then Ok tt else Err nats_message) = Ok tt ↔ b = true) as ->
    by (intros []; naive_solver).
  rewrite andb_true_iff, !orb_true_iff, andb_true_iff, negb_true_iff, N.ltb_lt.
  rewrite !starts_with_true_iff. setoid_rewrite elem_of_cons. setoid_rewrite elem_of_cons.
  setoid_rewrite list_elem_of_singleton.
  split.
  - intros [[[[rest ->] Hl]|[[[rest ->]|[rest ->]]|[rest ->]]] ?]; (split; [done|]).
    + left. exists rest. split; [done|]. intros ->. rewrite app_nil_r in Hl. lia.
    + right. eauto 6.
    + right. eauto 6.
    + right. eauto 6.
  - intros [Hat [(rest & -> & Hr)|(host & rest & -> & Hh)]]; (split; [|done]).
    + left. split; [eauto|]. rewrite len_app.
      assert (len rest ≠ 0); [|lia]. apply is_empty_false_iff, N.eqb_neq in Hr. done.
    + right. destruct Hh as [->|[->| ->]]; eauto.
Qed.

(** ** A concrete signer

    A table of hex digits and a keyed checksum in place of HMAC-SHA256. *)

Module SampleCommand.
Definition hex (b : list N) : str :=
  b ≫= λ x, [Canonical.nibble_char (x / 16); Canonical.nibble_char (x mod 16)].
Fixpoint unhex (s : str) : option (list N) :=
  match s with
  | [] => Some []
  | a :: b :: s => cons (16 * Canonical.char_nibble a + Canonical.char_nibble b) <$> unhex s
  | _ => None
  end.
Definition checksum (key m : list N) : list N :=
  let h := foldr (λ x a, (31 * a + x) mod 4294967296) 17 (key ++ m) in
  (λ i, (h / 256 ^ i) mod 256) <$> [3; 2; 1; 0].
Module Instances.
#[export] Instance crypto : Crypto :=
  {| hmac_new key := Some (checksum key); hex_encode := hex; hex_decode := unhex |}.
#[export] Instance crypto_laws : CryptoLaws.
Proof.
  split.
  - intros b Hb. cbn. induction Hb as [|x b Hx _ IH]; [done|].
    change (hex (x :: b)) with
      (Canonical.nibble_char (x / 16) :: Canonical.nibble_char (x mod 16) :: hex b).
    cbn [unhex]. rewrite IH. cbn [fmap option_fmap option_map].
    rewrite !(λ d H, proj1 (Canonical.nibble_char_spec d H)); [|by apply N.mod_lt|].
    + by rewrite <-N.div_mod.
    + apply N.Div0.div_lt_upper_bound. lia.
  - intros key. by eexists.
  - intros key mac m [= <-]. unfold checksum. cbn.
    repeat (apply Forall_cons_2; [by apply N.mod_lt|]). apply Forall_nil_2.
Qed.
End Instances.
Import CanonicalInstances Instances.

Definition tenant : str := lit "embedded-alerts".
Definition key : list N := repeat 107 32.
Definition now_ms : N := 2000000000000.
Definition envelope : OperationEnvelope :=
  mk_operation 1 (uuid_of 5) (lit "list_alerts") (uuid_display (uuid_of 1)) tenant (now_ms + 9000).
Definition unsigned (dedupe : str) (event : N) : AsyncCommand :=
  mk_command (uuid_of event) (uuid_of 5) dedupe tenant envelope [].
Definition signed (c : AsyncCommand) : AsyncCommand :=
  match sign_command c key with Ok s => with_signature c s | Err _ => c end.
Definition command : AsyncCommand := signed (unsigned (lit "job:1") 7).
End SampleCommand.
Import CanonicalInstances SampleCommand.Instances.

(** Without the acceptance test the signed text does not determine the command. *)
Example signing_text_is_ambiguous :
  let c := mk_command (uuid_of 1) (uuid_of 2) (lit "a" ++ [10] ++ lit "b") (lit "c")
             SampleCommand.envelope [] in
  let d := mk_command (uuid_of 1) (uuid_of 2) (lit "a") (lit "b" ++ [10] ++ lit "c")
             SampleCommand.envelope [] in
  command_signing_bytes c = command_signing_bytes d ∧ c ≠ d.
Proof. split; [by vm_compute|]. intros [=]. Qed.

Lemma operation_envelope_iff_witness :
  validate_operation_envelope_at SampleCommand.envelope SampleCommand.now_ms = Ok tt ∧
  validate_operation_envelope_at SampleCommand.envelope 0 = Err operation_message.
Proof.
  split.
  - apply (proj1 (operation_envelope_iff _ _)). by apply validate_envelope_Ok_iff.
  - apply (proj2 (operation_envelope_iff _ _)).
    intros [_ _ _ _ _ [_ Hd]]. revert Hd. apply N.lt_nge. by vm_compute.
Defined.

Lemma signature_covers_command_witness :
  with_signature SampleCommand.command [] =
  with_signature (SampleCommand.unsigned (lit "job:1") 7) [].
Proof.
  apply (signature_covers_command SampleCommand.tenant SampleCommand.key SampleCommand.now_ms
           SampleCommand.tenant SampleCommand.key (SampleCommand.now_ms + 5000)
           SampleCommand.command (SampleCommand.signed (SampleCommand.unsigned (lit "job:1") 7)));
    try by vm_compute.
  - split; apply (bool_decide_unpack _); by vm_compute.
  - split; apply (bool_decide_unpack _); by vm_compute.
Defined.

Lemma sign_then_verify_witness :
  ∃ s, sign_command (SampleCommand.unsigned (lit "job:1") 7) SampleCommand.key = Ok s ∧
       verify_command_signature (with_signature (SampleCommand.unsigned (lit "job:1") 7) s)
         SampleCommand.key = true.
Proof. apply (sign_then_verify (SampleCommand.unsigned (lit "job:1") 7) SampleCommand.key). Defined.
