(* ===== verification/Commands.v ===== *)
(** * Processing a signed command ([process_command], [enqueue_reply] of
    [src/transport.rs])

    One command runs in one PostgreSQL transaction: the inbox row, the query, the outbox
    row with the reply, and the status row are committed together.  Every await takes its
    outcome from a [Faults] record, so the theorems hold for every placement of
    connection losses, statement errors and timeouts.  Here the transaction is one step;
    [Interleaving] runs it statement by statement among others. *)

From S2P Require Import Prelude Str Float Ids Model Auth Database Store Envelope.
Open Scope N_scope.

(** ** Transactions *)

(** [Aborted]: a statement failed and the server ignores the others; [Broken]: the
    connection is gone. *)
Inductive TxState := Alive | Aborted | Broken.
Record Tx := mk_tx { work : Db; tx_state : TxState }.
Definition fail_tx (s : TxState) (t : Tx) : Tx := mk_tx (work t) s.

Definition begin (link : Link) (db : Db) : result DbErr Tx :=
  match link with LinkUp => Ok (mk_tx db Alive) | LinkDown | LinkLost => Err Disconnected end.
Definition tx_execute {A} (link : Link) (stmt : Db → result DbErr (A * Db)) (t : Tx)
    : result DbErr A * Tx :=
  match tx_state t, link with
  | Broken, _ => (Err Disconnected, t)
  | _, (LinkDown | LinkLost) => (Err Disconnected, fail_tx Broken t)
  | Aborted, LinkUp => (Err TransactionAborted, t)
  | Alive, LinkUp =>
      match stmt (work t) with
      | Ok (a, db) => (Ok a, mk_tx db Alive)
      | Err e => (Err e, fail_tx Aborted t)
      end
  end.
(** The answer to [COMMIT] and the committed state.  The server answers a [COMMIT] of an
    aborted transaction by rolling it back, which is not an error for the client. *)
Definition commit (link : Link) (before : Db) (t : Tx) : result DbErr unit * Db :=
  match tx_state t, link with
  | Broken, _ => (Err Disconnected, before)
  | _, LinkDown => (Err Disconnected, before)
  | Alive, LinkUp => (Ok tt, work t)
  | Alive, LinkLost => (Err Disconnected, work t)
  | Aborted, LinkUp => (Ok tt, before)
  | Aborted, LinkLost => (Err Disconnected, before)
  end.

(** The outcome of the query awaited under [QUERY_TIMEOUT]: an answer, an error of the
    server, a lost connection, or no answer in time, in which case the statement still
    ends at the server in one of the three states. *)
Inductive QueryFate :=
| Answered
| ServerError
| ConnectionLost
| TimedOut (left : TxState).

Record Faults := mk_faults {
  f_begin : Link; f_inbox : Link; f_query : QueryFate;
  f_outbox : Link; f_status : Link; f_commit : Link;
}.
Definition no_faults : Faults := mk_faults LinkUp LinkUp Answered LinkUp LinkUp LinkUp.

(** [serde_json::to_value] of the alerts (which [json!] unwraps) and of an event. *)
Class ReplyJson := {
  alerts_to_value : list AlertRule → Value;
  event_to_value : EventEnvelope → option Value;
}.

Section commands.
Context `{UuidText} `{Postgres} `{Serde} `{ReplyJson}.

(** [timeout(QUERY_TIMEOUT, read_alerts(&transaction, &actor))]: [None] is the timeout. *)
Definition timed_read_alerts (fate : QueryFate) (t : Tx) (actor : VerifiedActor)
    : option (result StoreError (list AlertRule)) * Tx :=
  match fate with
  | Answered => (Some (read_alerts LinkUp (work t) actor), t)
  | ServerError => (Some (Err (map_db InvalidParameter)), fail_tx Aborted t)
  | ConnectionLost => (Some (Err (map_db Disconnected)), fail_tx Broken t)
  | TimedOut s => (None, fail_tx s t)
  end.

Definition completed_reply (operation_id : Uuid) (alerts : list AlertRule) : OperationReply :=
  mk_reply operation_id (lit "completed") (Some (alerts_to_value alerts)) None.
Definition reply_of (operation_id : Uuid) (r : option (result StoreError (list AlertRule)))
    : OperationReply :=
  match r with
  | Some (Ok alerts) => completed_reply operation_id alerts
  | Some (Err _) => error_reply operation_id (lit "unavailable")
  | None => error_reply operation_id (lit "timeout")
  end.

Definition event_subject (product_tenant : str) : str :=
  lit "eal.event." ++ product_tenant ++ lit ".v1".
Definition reply_key (dedupe : str) : str := lit "reply:" ++ dedupe.
Definition reply_event (event_id : Uuid) (command : AsyncCommand) (reply : OperationReply)
    : EventEnvelope :=
  mk_event event_id (correlation_id command) (reply_key (dedupe_key command))
    (cmd_product_tenant command) (event_subject (cmd_product_tenant command)) reply.

(** [fresh] is the value of [Uuid::new_v4()], [now] the transaction's [now()]. *)
Definition enqueue_reply (link : Link) (now : DateTime) (fresh : Uuid) (command : AsyncCommand)
    (reply : OperationReply) (t : Tx) : result str unit * Tx :=
  let envelope := reply_event fresh command reply in
  match event_to_value envelope with
  | None => (Err (lit "serialize JetStream reply failed"), t)
  | Some payload =>
      match tx_execute link
              (INSERT_OUTBOX_SQL fresh (correlation_id command) (ev_dedupe_key envelope)
                 (ev_subject envelope) payload now) t with
      | (Err _, t) => (Err (lit "persist JetStream outbox failed"), t)
      | (Ok _, t) => (Ok tt, t)
      end
  end.

(** The work of a first delivery, after its inbox row went in. *)
Definition answer_command (f : Faults) (now : DateTime) (fresh : Uuid) (command : AsyncCommand)
    (t : Tx) : result str unit * Tx :=
  let operation := cmd_operation command in
  match uuid_parse (actor_subject operation) with
  | None => (Err (lit "JetStream actor subject is invalid"), t)
  | Some subject =>
      let actor := mk_actor subject (cmd_product_tenant command) in
      let '(r, t) := timed_read_alerts (f_query f) t actor in
      let reply := reply_of (correlation_id command) r in
      match enqueue_reply (f_outbox f) now fresh command reply t with
      | (Err e, t) => (Err e, t)
      | (Ok _, t) =>
          match tx_execute (f_status f)
                  (INSERT_STATUS_SQL (correlation_id command) (cmd_product_tenant command)
                     (actor_subject operation) (reply_status reply) now) t with
          | (Err _, t) => (Err (lit "persist JetStream status failed"), t)
          | (Ok _, t) => (Ok tt, t)
          end
      end
  end.

(** The result and the committed database; a transaction dropped without a commit is
    rolled back. *)
Definition process_command (f : Faults) (now : DateTime) (fresh : Uuid) (command : AsyncCommand)
    (db : Db) : result str unit * Db :=
  match begin (f_begin f) db with
  | Err _ => (Err (lit "begin JetStream inbox transaction failed"), db)
  | Ok t =>
      match tx_execute (f_inbox f)
              (INSERT_INBOX_SQL (event_id command) (correlation_id command) (dedupe_key command)
                 (cmd_product_tenant command) (actor_subject (cmd_operation command)) now) t with
      | (Err _, _) => (Err (lit "persist JetStream inbox failed"), db)
      | (Ok affected, t) =>
          match (if affected =? 1 then answer_command f now fresh command t else (Ok tt, t)) with
          | (Err e, _) => (Err e, db)
          | (Ok _, t) =>
              match commit (f_commit f) db t with
              | (Err _, db) => (Err (lit "commit JetStream inbox transaction failed"), db)
              | (Ok _, db) => (Ok tt, db)
              end
          end
      end
  end.
End commands.

(** ** Specification

    A command is a duplicate when an inbox row shares one of its three keys.  The first
    command of its keys is recorded: one inbox row, one reply row, one status row. *)

Definition duplicate (command : AsyncCommand) (db : Db) : Prop :=
  ∃ k i, inbox db !! k = Some i ∧
    (in_event_id i = event_id command ∨ in_correlation_id i = correlation_id command ∨
     in_dedupe_key i = dedupe_key command).

Section spec.
Context `{UuidText} `{Postgres} `{Serde} `{ReplyJson}.

Definition inbox_row (now : DateTime) (c : AsyncCommand) (owner : Uuid) : InboxRow :=
  mk_inbox_row (event_id c) (correlation_id c) (dedupe_key c) (cmd_product_tenant c) owner
    (store_time now).
Definition outbox_row (now : DateTime) (fresh : Uuid) (c : AsyncCommand) (payload : Value)
    : OutboxRow :=
  mk_outbox_row fresh (correlation_id c) (reply_key (dedupe_key c))
    (event_subject (cmd_product_tenant c)) payload (store_time now) None.
Definition status_row (now : DateTime) (c : AsyncCommand) (owner : Uuid) (status : str) : StatusRow :=
  mk_status_row (correlation_id c) (cmd_product_tenant c) owner status (store_time now).
Definition recorded (now : DateTime) (fresh : Uuid) (c : AsyncCommand) (owner : Uuid)
    (payload : Value) (status : str) (db : Db) : Db :=
  set_statuses <[correlation_id c := status_row now c owner status]>
    (set_outbox <[fresh := outbox_row now fresh c payload]>
      (set_inbox <[event_id c := inbox_row now c owner]> db)).

(** A reply to an operation of an actor: an error, or a listing of alerts the actor owns. *)
Definition own_alert (actor : VerifiedActor) (a : AlertRule) : Prop :=
  ∃ row, alert_of (product_tenant actor) (subject actor) row ∧ decode_row row = Ok a.
Definition own_reply (actor : VerifiedActor) (operation_id : Uuid) (reply : OperationReply) : Prop :=
  ∃ r, reply = reply_of operation_id r ∧
    ∀ alerts, r = Some (Ok alerts) → Forall (own_alert actor) alerts.

(** A reply row and a status row answer an inbox row: one reply for its correlation id,
    under its prefixed dedupe key, to its tenant's subject, with nothing but alerts of its
    tenant and of the subject its actor's text stands for. *)
Definition answers (i : InboxRow) (o : OutboxRow) (s : StatusRow) : Prop :=
  ∃ reply text subject,
    text_as_uuid text = Some (in_actor_subject i) ∧ uuid_parse text = Some subject ∧
    own_reply (mk_actor subject (in_product_tenant i)) (in_correlation_id i) reply ∧
    out_correlation_id o = in_correlation_id i ∧
    out_dedupe_key o = reply_key (in_dedupe_key i) ∧
    out_subject o = event_subject (in_product_tenant i) ∧
    event_to_value (mk_event (out_event_id o) (in_correlation_id i) (out_dedupe_key o)
      (in_product_tenant i) (out_subject o) reply) = Some (out_payload o) ∧
    st_product_tenant s = in_product_tenant i ∧
    st_actor_subject s = in_actor_subject i ∧
    st_status s = reply_status reply.

Record transport_wf (db : Db) : Prop := {
  tw_keyed : db_keyed db;
  tw_inbox_unique k l i j :
    inbox db !! k = Some i → inbox db !! l = Some j →
    in_correlation_id i = in_correlation_id j ∨ in_dedupe_key i = in_dedupe_key j → i = j;
  tw_answered k i : inbox db !! k = Some i →
    ∃ l o s, outbox db !! l = Some o ∧ statuses db !! in_correlation_id i = Some s ∧ answers i o s;
  tw_outbox_unique k l o p :
    outbox db !! k = Some o → outbox db !! l = Some p → out_dedupe_key o = out_dedupe_key p → k = l;
  tw_outbox_from k o : outbox db !! k = Some o →
    ∃ l i, inbox db !! l = Some i ∧ out_dedupe_key o = reply_key (in_dedupe_key i);
  tw_status_from k s : statuses db !! k = Some s →
    ∃ l i, inbox db !! l = Some i ∧ in_correlation_id i = k;
}.

(** ** Lemmas: the statements *)

Lemma inbox_conflict_iff e c d r :
  inbox_conflict e c d r = true ↔
  in_event_id r = e ∨ in_correlation_id r = c ∨ in_dedupe_key r = d.
Proof.
  unfold inbox_conflict. rewrite !orb_true_iff, !bool_decide_eq_true, str_eqb_eq. tauto.
Qed.
Lemma existsb_rows {A} (p : A → bool) (t : gmap Uuid A) :
  existsb p (rows t) = true ↔ ∃ k r, t !! k = Some r ∧ p r = true.
Proof.
  rewrite existsb_exists. split.
  - intros (r & Hin%list_elem_of_In%elem_of_rows & Hp). destruct Hin as [k ?]. eauto.
  - intros (k & r & Hk & Hp). exists r. split; [|done]. apply list_elem_of_In, elem_of_rows. eauto.
Qed.
Lemma existsb_rows_false {A} (p : A → bool) (t : gmap Uuid A) :
  existsb p (rows t) = false ↔ ∀ k r, t !! k = Some r → p r = false.
Proof.
  rewrite <-not_true_iff_false, existsb_rows. split.
  - intros Hn k r Hk. destruct (p r) eqn:E; [|done]. destruct Hn. eauto.
  - intros Hall (k & r & Hk & Hp). by rewrite (Hall _ _ Hk) in Hp.
Qed.
Lemma insert_inbox_Ok_iff now c db n db' :
  INSERT_INBOX_SQL (event_id c) (correlation_id c) (dedupe_key c) (cmd_product_tenant c)
    (actor_subject (cmd_operation c)) now db = Ok (n, db') ↔
  ∃ owner, text_as_uuid (actor_subject (cmd_operation c)) = Some owner ∧
    inbox_checks (inbox_row now c owner) = true ∧
    (duplicate c db ∧ n = 0 ∧ db' = db ∨
     ¬ duplicate c db ∧ n = 1 ∧ db' = set_inbox <[event_id c := inbox_row now c owner]> db).
Proof.
  assert (existsb (inbox_conflict (event_id c) (correlation_id c) (dedupe_key c))
    (rows (inbox db)) = true ↔ duplicate c db) as Hdup.
  { rewrite existsb_rows. unfold duplicate. by setoid_rewrite inbox_conflict_iff. }
  unfold INSERT_INBOX_SQL. destruct (text_as_uuid _) as [owner|]; cbn [ok_or mbind result_bind];
    [|naive_solver].
  rewrite guard_Ok_iff, negb_false_iff. fold (inbox_row now c owner).
  destruct (existsb _ _); [assert (duplicate c db) by by apply Hdup|
    assert (¬ duplicate c db) by (by intros ?%Hdup)]; naive_solver.
Qed.
Lemma insert_outbox_Ok_iff now fresh c payload db n db' :
  (∀ k o, outbox db !! k = Some o → out_dedupe_key o ≠ reply_key (dedupe_key c)) →
  INSERT_OUTBOX_SQL fresh (correlation_id c) (reply_key (dedupe_key c))
    (event_subject (cmd_product_tenant c)) payload now db = Ok (n, db') ↔
  outbox_checks (outbox_row now fresh c payload) = true ∧ outbox db !! fresh = None ∧ n = 1 ∧
  db' = set_outbox <[fresh := outbox_row now fresh c payload]> db.
Proof.
  intros Hno. unfold INSERT_OUTBOX_SQL. fold (outbox_row now fresh c payload).
  rewrite guard_Ok_iff, negb_false_iff.
  assert (existsb (λ r, str_eqb (out_dedupe_key r) (reply_key (dedupe_key c)))
    (rows (outbox db)) = false) as ->.
  { apply existsb_rows_false. intros k r Hk. apply str_eqb_neq. eauto. }
  destruct (outbox db !! fresh); cbn [is_some]; naive_solver.
Qed.
Lemma insert_status_Ok_iff now c status db n db' :
  statuses db !! correlation_id c = None →
  INSERT_STATUS_SQL (correlation_id c) (cmd_product_tenant c) (actor_subject (cmd_operation c))
    status now db = Ok (n, db') ↔
  ∃ owner, text_as_uuid (actor_subject (cmd_operation c)) = Some owner ∧
    status_checks (status_row now c owner status) = true ∧ n = 1 ∧
    db' = set_statuses <[correlation_id c := status_row now c owner status]> db.
Proof.
  intros Hno. unfold INSERT_STATUS_SQL. rewrite Hno.
  destruct (text_as_uuid _) as [owner|]; cbn [ok_or mbind result_bind]; [|naive_solver].
  rewrite guard_Ok_iff, negb_false_iff. fold (status_row now c owner status). naive_solver.
Qed.
Lemma tx_execute_Ok {A} link (stmt : Db → result DbErr (A * Db)) t a t' :
  tx_execute link stmt t = (Ok a, t') →
  tx_state t = Alive ∧ link = LinkUp ∧ ∃ db, stmt (work t) = Ok (a, db) ∧ t' = mk_tx db Alive.
Proof.
  unfold tx_execute. destruct (tx_state t), link; try done.
  destruct (stmt (work t)) as [[b db]|e]; [|done]. intros [= -> <-]. eauto.
Qed.
End spec.

Section lemmas.
Context `{UuidText} `{Postgres} `{Serde} `{ReplyJson}.

#[global] Instance reply_key_inj : Inj (=) (=) reply_key.
Proof. intros a b. apply app_inv_head. Qed.

(** What a first delivery needs to be recorded, and the reply it then gets. *)
Record first_delivery (f : Faults) (now : DateTime) (fresh : Uuid) (c : AsyncCommand) (db : Db)
    (owner : Uuid) (reply : OperationReply) (payload : Value) : Prop := {
  fd_new : ¬ duplicate c db;
  fd_links : f_begin f = LinkUp ∧ f_inbox f = LinkUp ∧ f_outbox f = LinkUp ∧ f_status f = LinkUp;
  fd_query : f_query f = Answered ∨ f_query f = TimedOut Alive;
  fd_owner : text_as_uuid (actor_subject (cmd_operation c)) = Some owner;
  fd_reply : ∃ subject, uuid_parse (actor_subject (cmd_operation c)) = Some subject ∧
    reply = reply_of (correlation_id c)
      (match f_query f with
       | TimedOut _ => None
       | _ => Some (read_alerts LinkUp db (mk_actor subject (cmd_product_tenant c)))
       end);
  fd_payload : event_to_value (reply_event fresh c reply) = Some payload;
  fd_fresh : outbox db !! fresh = None;
  fd_checks : inbox_checks (inbox_row now c owner) = true ∧
    outbox_checks (outbox_row now fresh c payload) = true ∧
    status_checks (status_row now c owner (reply_status reply)) = true;
}.

Lemma no_reply_row c db :
  transport_wf db → ¬ duplicate c db →
  (∀ k o, outbox db !! k = Some o → out_dedupe_key o ≠ reply_key (dedupe_key c)) ∧
  statuses db !! correlation_id c = None.
Proof.
  intros Hwf Hdup. split.
  - intros k o Hk E. destruct (tw_outbox_from _ Hwf _ _ Hk) as (l & i & Hl & E').
    rewrite E in E'. apply (inj reply_key) in E'. apply Hdup. exists l, i. auto.
  - apply eq_None_not_Some. intros [s Hs].
    destruct (tw_status_from _ Hwf _ _ Hs) as (l & i & Hl & E). apply Hdup. exists l, i. auto.
Qed.

Lemma read_alerts_inbox link g db actor :
  read_alerts link (set_inbox g db) actor = read_alerts link db actor.
Proof. done. Qed.

Lemma enqueue_reply_Ok link now fresh c reply t t' :
  (∀ k o, outbox (work t) !! k = Some o → out_dedupe_key o ≠ reply_key (dedupe_key c)) →
  enqueue_reply link now fresh c reply t = (Ok tt, t') →
  ∃ payload, event_to_value (reply_event fresh c reply) = Some payload ∧ tx_state t = Alive ∧
    link = LinkUp ∧ outbox_checks (outbox_row now fresh c payload) = true ∧
    outbox (work t) !! fresh = None ∧
    t' = mk_tx (set_outbox <[fresh := outbox_row now fresh c payload]> (work t)) Alive.
Proof.
  intros Hno. unfold enqueue_reply. destruct (event_to_value _) as [payload|] eqn:Hp; [|done].
  destruct (tx_execute _ _ t) as [[n|e] t2] eqn:E; [|done]. intros [= <-].
  apply tx_execute_Ok in E as (Halive & -> & db & Hdb & ->).
  apply insert_outbox_Ok_iff in Hdb as (Hc & Hf & _ & ->); [|done]. eauto 8.
Qed.

Lemma answer_command_Ok f now fresh c t t' :
  (∀ k o, outbox (work t) !! k = Some o → out_dedupe_key o ≠ reply_key (dedupe_key c)) →
  statuses (work t) !! correlation_id c = None → tx_state t = Alive →
  answer_command f now fresh c t = (Ok tt, t') →
  ∃ subject owner payload,
    let reply := reply_of (correlation_id c)
      (match f_query f with
       | TimedOut _ => None
       | _ => Some (read_alerts LinkUp (work t) (mk_actor subject (cmd_product_tenant c)))
       end) in
    uuid_parse (actor_subject (cmd_operation c)) = Some subject ∧
    text_as_uuid (actor_subject (cmd_operation c)) = Some owner ∧
    (f_query f = Answered ∨ f_query f = TimedOut Alive) ∧
    f_outbox f = LinkUp ∧ f_status f = LinkUp ∧
    event_to_value (reply_event fresh c reply) = Some payload ∧
    outbox (work t) !! fresh = None ∧
    outbox_checks (outbox_row now fresh c payload) = true ∧
    status_checks (status_row now c owner (reply_status reply)) = true ∧
    t' = mk_tx (set_statuses
        <[correlation_id c := status_row now c owner (reply_status reply)]>
        (set_outbox <[fresh := outbox_row now fresh c payload]> (work t))) Alive.
Proof.
  intros Hno Hst Halive. unfold answer_command.
  destruct (uuid_parse _) as [subject|]; [|done].
  destruct (timed_read_alerts _ _ _) as [r t1] eqn:Hq.
  destruct (enqueue_reply _ _ _ _ _ t1) as [[[]|e] t2] eqn:He; [|done].
  assert (work t1 = work t) as Hw by (destruct (f_query f); by injection Hq as <- <-).
  apply enqueue_reply_Ok in He as (payload & Hp & Ha1 & Hlo & Hco & Hfr & ->);
    [|by rewrite Hw]. rewrite Hw in *.
  destruct (tx_execute (f_status f) _ _) as [[n|e] t3] eqn:Es; [|done]. intros [= <-].
  apply tx_execute_Ok in Es as (_ & Hls & db & Hdb & ->). cbn [work] in Hdb.
  apply insert_status_Ok_iff in Hdb as (owner & Ho & Hcs & _ & ->); [|done].
  exists subject, owner, payload. cbn zeta.
  assert ((f_query f = Answered ∨ f_query f = TimedOut Alive) ∧
    r = match f_query f with
        | TimedOut _ => None
        | _ => Some (read_alerts LinkUp (work t) (mk_actor subject (cmd_product_tenant c)))
        end) as [Hfq ->].
  { destruct (f_query f) as [| | |s]; injection Hq as <- <-; cbn in Ha1; simplify_eq; auto. }
  split_and!; done.
Qed.

Lemma process_cases f now fresh c db r db' :
  transport_wf db → process_command f now fresh c db = (r, db') →
  (db' = db ∧ (∃ e, r = Err e)) ∨
  (db' = db ∧ r = Ok tt ∧ duplicate c db) ∨
  ∃ owner reply payload, first_delivery f now fresh c db owner reply payload ∧
    db' = recorded now fresh c owner payload (reply_status reply) db ∧
    (r = Ok tt ∧ f_commit f = LinkUp ∨ (∃ e, r = Err e) ∧ f_commit f = LinkLost).
Proof.
  intros Hwf. unfold process_command, begin.
  destruct (f_begin f) eqn:Hb; [|intros [= <- <-]; eauto..].
  destruct (tx_execute (f_inbox f) _ _) as [[n|e] t] eqn:Ei; [|intros [= <- <-]; eauto].
  apply tx_execute_Ok in Ei as (_ & Hli & dbi & Hi & ->). cbn [work] in Hi.
  apply insert_inbox_Ok_iff in Hi as (owner & Ho & Hci & [(Hdup & -> & ->)|(Hdup & -> & ->)]);
    cbn [N.eqb Pos.eqb].
  { destruct (f_commit f); cbn; intros [= <- <-]; eauto. }
  destruct (no_reply_row _ _ Hwf Hdup) as [Hno Hst].
  destruct (answer_command _ _ _ _ _) as [[[]|e] t] eqn:Ea; [|intros [= <- <-]; eauto].
  apply answer_command_Ok in Ea
    as (subject & owner' & payload & Hs & Ho' & Hq & Hlo & Hls & Hp & Hfr & Hco & Hcs & ->);
    [|done..].
  cbn [work set_inbox outbox] in *. rewrite read_alerts_inbox in *.
  rewrite Ho in Ho'. injection Ho' as <-.
  match type of Hp with event_to_value (reply_event _ _ ?reply) = _ =>
    assert (first_delivery f now fresh c db owner reply payload) as Hfd by (split; eauto) end.
  destruct (f_commit f); cbn [commit tx_state work]; intros [= <- <-]; [|by eauto|];
    right; right; do 3 eexists; (split; [exact Hfd|]); (split; [done|]); eauto.
Qed.
End lemmas.

Section recorded.
Context `{UuidText} `{Postgres} `{Serde} `{ReplyJson}.

Lemma first_delivery_runs f now fresh c db owner reply payload :
  transport_wf db → first_delivery f now fresh c db owner reply payload →
  process_command f now fresh c db =
  let db' := recorded now fresh c owner payload (reply_status reply) db in
  match f_commit f with
  | LinkUp => (Ok tt, db')
  | LinkLost => (Err (lit "commit JetStream inbox transaction failed"), db')
  | LinkDown => (Err (lit "commit JetStream inbox transaction failed"), db)
  end.
Proof.
  intros Hwf [Hnew (Hb & Hi & Ho & Hs) Hq Hown (subject & Hsub & Hrep) Hpay Hfr (Hc1 & Hc2 & Hc3)].
  destruct (no_reply_row _ _ Hwf Hnew) as [Hno Hst].
  unfold process_command. rewrite Hb, Hi. cbn [begin tx_execute tx_state work].
  rewrite (proj2 (insert_inbox_Ok_iff now c db 1 _)
    (ex_intro _ owner (conj Hown (conj Hc1 (or_intror (conj Hnew (conj eq_refl eq_refl))))))).
  cbn [N.eqb Pos.eqb]. unfold answer_command. rewrite Hsub.
  assert (timed_read_alerts (f_query f) (mk_tx (set_inbox <[event_id c:=inbox_row now c owner]> db) Alive)
    (mk_actor subject (cmd_product_tenant c)) =
    (match f_query f with
     | TimedOut _ => None
     | _ => Some (read_alerts LinkUp db (mk_actor subject (cmd_product_tenant c)))
     end, mk_tx (set_inbox <[event_id c:=inbox_row now c owner]> db) Alive)) as ->
    by (destruct Hq as [-> | ->]; done).
  rewrite <-Hrep. unfold enqueue_reply. rewrite Hpay. cbn [ev_dedupe_key ev_subject reply_event].
  rewrite Ho, Hs. cbn [tx_execute tx_state work].
  rewrite (proj2 (insert_outbox_Ok_iff now fresh c payload
    (set_inbox <[event_id c:=inbox_row now c owner]> db) 1 _ Hno)
    (conj Hc2 (conj Hfr (conj eq_refl eq_refl)))).
  cbn [tx_execute tx_state work].
  rewrite (proj2 (insert_status_Ok_iff now c (reply_status reply)
    (set_outbox <[fresh:=outbox_row now fresh c payload]>
      (set_inbox <[event_id c:=inbox_row now c owner]> db)) 1 _ Hst)
    (ex_intro _ owner (conj Hown (conj Hc3 (conj eq_refl eq_refl))))).
  cbn [commit tx_state work]. unfold recorded. by destruct (f_commit f).
Qed.

Lemma recorded_duplicate now fresh c owner payload status db :
  duplicate c (recorded now fresh c owner payload status db).
Proof.
  exists (event_id c), (inbox_row now c owner). split; [apply lookup_insert_eq|]. by left.
Qed.

Lemma reply_of_operation operation_id r : reply_operation_id (reply_of operation_id r) = operation_id.
Proof. by destruct r as [[]|]. Qed.
Lemma own_reply_none actor operation_id : own_reply actor operation_id (reply_of operation_id None).
Proof. by exists None. Qed.
Lemma own_reply_read db actor operation_id :
  own_reply actor operation_id (reply_of operation_id (Some (read_alerts LinkUp db actor))).
Proof.
  eexists. split; [done|]. intros alerts [= Hr]. apply Forall_forall. intros a Ha.
  destruct (read_alerts_rows _ _ _ _ _ Hr Ha) as (k & row & _ & Hown & Hd). by exists row.
Qed.

(** The new rows keep the transport tables well formed, whatever the reply says. *)
Lemma recorded_wf_from now fresh c db owner subject reply payload :
  transport_wf db → ¬ duplicate c db → outbox db !! fresh = None →
  text_as_uuid (actor_subject (cmd_operation c)) = Some owner →
  uuid_parse (actor_subject (cmd_operation c)) = Some subject →
  own_reply (mk_actor subject (cmd_product_tenant c)) (correlation_id c) reply →
  event_to_value (reply_event fresh c reply) = Some payload →
  transport_wf (recorded now fresh c owner payload (reply_status reply) db).
Proof.
  intros Hwf Hnew Hfr Hown Hsub Hop Hpay.
  destruct (no_reply_row _ _ Hwf Hnew) as [Hno Hst].
  assert (inbox db !! event_id c = None) as Hev.
  { apply eq_None_not_Some. intros [i Hi]. apply Hnew. exists (event_id c), i.
    split; [done|]. left. by rewrite (keyed_inbox _ (tw_keyed _ Hwf) _ _ Hi). }
  assert (∀ k i, inbox db !! k = Some i → k ≠ event_id c) as Hne.
  { intros k i Hk ->. congruence. }
  unfold recorded. split; cbn [alerts inbox outbox statuses set_inbox set_outbox set_statuses].
  - destruct (tw_keyed _ Hwf) as [Ka Ki Ko Ks].
    split; cbn [alerts inbox outbox statuses set_inbox set_outbox set_statuses]; [done|..];
      intros k x; rewrite lookup_insert_Some; intros [[<- <-]|[_ ?]]; eauto.
  - intros k l i j. rewrite !lookup_insert_Some.
    intros [[<- <-]|[_ Hi]] [[<- <-]|[_ Hj]] E; [done|..|by eapply (tw_inbox_unique _ Hwf)];
      destruct Hnew; [exists l, j|exists k, i]; cbn in E; naive_solver.
  - intros k i. rewrite lookup_insert_Some. intros [[<- <-]|[_ Hi]].
    + exists fresh, (outbox_row now fresh c payload), (status_row now c owner (reply_status reply)).
      rewrite !lookup_insert_eq. split_and!; [done..|]. exists reply. by eexists _, subject.
    + destruct (tw_answered _ Hwf _ _ Hi) as (l & o & s & Ho & Hs & Ha). exists l, o, s.
      split_and!; [| |done].
      * apply lookup_insert_Some. right. split; [|done]. intros <-. congruence.
      * apply lookup_insert_Some. right. split; [|done]. intros E. congruence.
  - intros k l o p. rewrite !lookup_insert_Some.
    intros [[<- <-]|[_ Ho]] [[<- <-]|[_ Hp]] E; [done|..|by eapply (tw_outbox_unique _ Hwf)].
    + by destruct (Hno _ _ Hp).
    + by destruct (Hno _ _ Ho).
  - intros k o. rewrite lookup_insert_Some. intros [[<- <-]|[_ Ho]].
    + exists (event_id c), (inbox_row now c owner). by rewrite lookup_insert_eq.
    + destruct (tw_outbox_from _ Hwf _ _ Ho) as (l & i & Hl & E). exists l, i.
      rewrite lookup_insert_ne; [done|]. apply not_eq_sym. eauto.
  - intros k s. rewrite lookup_insert_Some. intros [[<- <-]|[_ Hs]].
    + exists (event_id c), (inbox_row now c owner). by rewrite lookup_insert_eq.
    + destruct (tw_status_from _ Hwf _ _ Hs) as (l & i & Hl & E). exists l, i.
      rewrite lookup_insert_ne; [done|]. apply not_eq_sym. eauto.
Qed.

Lemma recorded_wf f now fresh c db owner reply payload :
  transport_wf db → first_delivery f now fresh c db owner reply payload →
  transport_wf (recorded now fresh c owner payload (reply_status reply) db).
Proof.
  intros Hwf [Hnew _ Hq Hown (subject & Hsub & ->) Hpay Hfr _].
  eapply recorded_wf_from; [done..| |done].
  destruct Hq as [-> | ->]; [apply own_reply_read|apply own_reply_none].
Qed.

Lemma process_wf f now fresh c db r db' :
  transport_wf db → process_command f now fresh c db = (r, db') → transport_wf db'.
Proof.
  intros Hwf Hp. destruct (process_cases _ _ _ _ _ _ _ Hwf Hp)
    as [[-> _]|[(-> & _)|(o & re & pa & Hfd & -> & _)]]; [done..|]. by eapply recorded_wf.
Qed.
Lemma process_unconvertible f now fresh c db :
  text_as_uuid (actor_subject (cmd_operation c)) = None →
  (∃ e, fst (process_command f now fresh c db) = Err e) ∧
  snd (process_command f now fresh c db) = db.
Proof.
  intros Hno. unfold process_command. destruct (begin _ _) as [t|]; [|by eauto].
  destruct (tx_execute (f_inbox f) _ t) as [[n|e] t'] eqn:Ei; [|by eauto].
  apply tx_execute_Ok in Ei as (_ & _ & dbi & (o & Ho & _)%insert_inbox_Ok_iff & _). congruence.
Qed.
Lemma empty_transport_wf : transport_wf empty_db.
Proof. split; [apply empty_db_keyed|..]; intros *; cbn; rewrite ?lookup_empty; done. Qed.
End recorded.

(** ** Properties *)

Section properties.
Context `{UuidText} `{Postgres} `{Serde} `{ReplyJson}.

(** C8: a command is processed atomically and at most once, whatever fails: afterwards the
    database is either unchanged or holds exactly the inbox row, the pending reply row and
    the status row of this first delivery.  A success means that the command was already
    recorded or is recorded now; an error after recording means that only the answer of the
    commit was lost. *)
Theorem process_command_atomic f now fresh c db r db' :
  transport_wf db → process_command f now fresh c db = (r, db') →
  (db' = db ∧ ((∃ e, r = Err e) ∨ r = Ok tt ∧ duplicate c db)) ∨
  (∃ owner reply payload, first_delivery f now fresh c db owner reply payload ∧
    db' = recorded now fresh c owner payload (reply_status reply) db ∧
    (r = Ok tt ∨ (∃ e, r = Err e) ∧ f_commit f = LinkLost)).
Proof.
  intros Hwf Hp. destruct (process_cases _ _ _ _ _ _ _ Hwf Hp)
    as [[-> He]|[(-> & -> & Hd)|(o & re & pa & Hfd & -> & Hr)]]; [eauto|eauto|].
  right. exists o, re, pa. split_and!; [done..|]. tauto.
Qed.

(** C33: redelivery is harmless: once a delivery of a command has succeeded or changed the
    database, no later delivery of it changes the database again, under any failures, and a
    later delivery without failures succeeds. *)
Theorem redelivery_idempotent f now fresh c db r db1 f2 now2 fresh2 :
  transport_wf db → process_command f now fresh c db = (r, db1) →
  r = Ok tt ∨ db1 ≠ db →
  snd (process_command f2 now2 fresh2 c db1) = db1 ∧
  process_command no_faults now2 fresh2 c db1 = (Ok tt, db1).
Proof.
  intros Hwf Hp Hdone.
  assert (duplicate c db1) as Hdup.
  { destruct (process_cases _ _ _ _ _ _ _ Hwf Hp)
      as [[-> [e ->]]|[(-> & _ & Hd)|(o & re & pa & Hfd & -> & _)]];
      [by destruct Hdone|done|apply recorded_duplicate]. }
  assert (∃ owner, text_as_uuid (actor_subject (cmd_operation c)) = Some owner ∧
    inbox_checks (inbox_row now2 c owner) = true) as (owner & Ho & Hc).
  { destruct (process_cases _ _ _ _ _ _ _ Hwf Hp)
      as [[-> [e ->]]|[(-> & -> & Hd)|(o & re & pa & [] & _ & _)]];
      [by destruct Hdone| |naive_solver].
    unfold process_command in Hp. destruct (begin _ _) as [t|] eqn:Hb; [|done].
    destruct (tx_execute (f_inbox f) _ _) as [[n|] t'] eqn:Ei; [|done].
    apply tx_execute_Ok in Ei as (_ & _ & dbi & (o & ? & ? & _)%insert_inbox_Ok_iff & _).
    by exists o. }
  split.
  - destruct (process_command f2 now2 fresh2 c db1) as [r2 db2] eqn:Hp2.
    destruct (process_cases _ _ _ _ _ _ _ (process_wf _ _ _ _ _ _ _ Hwf Hp) Hp2)
      as [[-> _]|[(-> & _)|(o & re & pa & [] & _ & _)]]; done.
  - unfold process_command. cbn [no_faults f_begin f_inbox f_commit begin tx_execute tx_state work].
    rewrite (proj2 (insert_inbox_Ok_iff now2 c db1 0 _)
      (ex_intro _ owner (conj Ho (conj Hc (or_introl (conj Hdup (conj eq_refl eq_refl))))))).
    done.
Qed.

(** A failed query never becomes a reply: when the server or the connection fails while
    the alerts are read, or the query times out and the statement fails afterwards, a first
    delivery ends in an error with nothing recorded.  The reply "unavailable" is recorded
    only when a stored alert does not decode. *)
Theorem failed_query_has_no_reply f now fresh c db :
  transport_wf db → ¬ duplicate c db →
  (f_query f ≠ Answered → f_query f ≠ TimedOut Alive →
   (∃ e, fst (process_command f now fresh c db) = Err e) ∧
   snd (process_command f now fresh c db) = db) ∧
  (∀ owner reply payload, first_delivery f now fresh c db owner reply payload →
   reply_error reply = Some (lit "unavailable") →
   ∃ subject, uuid_parse (actor_subject (cmd_operation c)) = Some subject ∧
     read_alerts LinkUp db (mk_actor subject (cmd_product_tenant c)) = Err InvalidRecord).
Proof.
  intros Hwf Hdup. split.
  - intros Hq Hq'. destruct (process_command f now fresh c db) as [r db'] eqn:Hp.
    destruct (process_cases _ _ _ _ _ _ _ Hwf Hp)
      as [[-> He]|[(_ & _ & Hd)|(o & re & pa & [] & _ & _)]]; [done|done|naive_solver].
  - intros owner reply payload [] Hun. destruct fd_reply0 as (subject & Hs & ->).
    exists subject. split; [done|].
    destruct fd_query0 as [Hq|Hq]; rewrite Hq in Hun; [|done].
    destruct (read_alerts _ _ _) as [l|e] eqn:E; [done|].
    by rewrite (read_alerts_up_Err _ _ _ E).
Qed.

Lemma accepted_checks now fresh c owner payload :
  dedupe_ok (dedupe_key c) → tenant_ok (cmd_product_tenant c) →
  inbox_checks (inbox_row now c owner) = true ∧
  outbox_checks (outbox_row now fresh c payload) = true ∧
  status_checks (status_row now c owner (lit "completed")) = true.
Proof.
  intros [Hd _] Hten%tenant_ok_length.
  unfold inbox_checks, outbox_checks, status_checks.
  cbn [in_dedupe_key in_product_tenant out_dedupe_key out_subject st_product_tenant st_status
    inbox_row outbox_row status_row].
  rewrite !andb_true_iff, !length_between_iff. unfold reply_key, event_subject.
  rewrite !length_app.
  change (length (lit "reply:")) with 6%nat. change (length (lit "eal.event.")) with 10%nat.
  change (length (lit ".v1")) with 3%nat. split_and!; lia || done.
Qed.

(** C32: an accepted command is answered exactly when the server converts its actor.  The actor's
    text is bound for a [uuid] column; whether the server takes it decides what becomes of a
    command that was accepted, whose keys are new and whose alerts and event read and serialize.
    When it is converted and nothing fails, processing succeeds and records the reply
    "completed" with exactly those alerts, addressed to the tenant's event subject: the lengths
    the acceptance test admits satisfy every [CHECK] of the three tables.  When it is not, the
    inbox insert fails, and under any faults, clock and database the command gets an error,
    leaves no row and is never answered. *)
Theorem conversion_decides_commands `{!Crypto} tenant key now_ms now fresh c db subject alerts payload :
  let reply := completed_reply (correlation_id c) alerts in
  command_accepted tenant key now_ms c = true → transport_wf db → ¬ duplicate c db →
  outbox db !! fresh = None →
  uuid_parse (actor_subject (cmd_operation c)) = Some subject →
  read_alerts LinkUp db (mk_actor subject (cmd_product_tenant c)) = Ok alerts →
  event_to_value (reply_event fresh c reply) = Some payload →
  match text_as_uuid (actor_subject (cmd_operation c)) with
  | Some owner =>
      process_command no_faults now fresh c db =
        (Ok tt, recorded now fresh c owner payload (lit "completed") db) ∧
      out_subject (outbox_row now fresh c payload) = event_subject tenant
  | None =>
      process_command no_faults now fresh c db = (Err (lit "persist JetStream inbox failed"), db) ∧
      ∀ f now' fresh' db', ∃ e, process_command f now' fresh' c db' = (Err e, db')
  end.
Proof.
  intros reply Hacc%command_accepted_iff Hwf Hdup Hfr Hs Hr Hp.
  destruct (text_as_uuid _) as [owner|] eqn:Ho.
  - destruct Hacc as [Ht Hot _ Hd _ [_ _ _ Hten _ _]]. split; [|by cbn; rewrite Ht].
    rewrite (first_delivery_runs no_faults now fresh c db owner reply payload); [done..|].
    split; try done; [by left|exists subject; cbn [f_query no_faults]; by rewrite Hr|].
    rewrite Hot in Hten. subst tenant. by apply accepted_checks.
  - split.
    + unfold process_command, no_faults. cbn [begin f_begin f_inbox].
      unfold tx_execute, INSERT_INBOX_SQL. cbn [tx_state work]. by rewrite Ho.
    + intros f now' fresh' db'. destruct (process_unconvertible f now' fresh' c db' Ho) as [[e He] Hdb].
      exists e. destruct (process_command _ _ _ _ _) as [r d]. cbn [fst snd] in *. congruence.
Qed.
End properties.

(** ** A concrete encoding of replies, and examples *)

Module SampleReply.
Module Instances.
#[export] Instance reply_json : ReplyJson := {|
  alerts_to_value l := VArray ((λ r, VString (ar_name r)) <$> l);
  event_to_value e := Some (VObject
    [(lit "dedupe_key", VString (ev_dedupe_key e));
     (lit "status", VString (reply_status (ev_reply e)));
     (lit "result", default VNull (reply_result (ev_reply e)))]);
|}.
End Instances.
End SampleReply.
Import CanonicalInstances SampleStorage SampleStorage.Instances SampleCommand.Instances
  SampleReply.Instances.

Lemma sample_db_wf n :
  forallb (λ p, bool_decide (al_id (snd p) = fst p)) (map_to_list (alerts (sample_db n))) = true →
  transport_wf (sample_db n).
Proof.
  intros Hc. pose proof (table_check _ (λ k row, bool_decide (al_id row = k)) Hc) as Hk.
  split; [split|..]; intros *; cbn [inbox outbox statuses sample_db set_alerts empty_db];
    rewrite ?lookup_empty; try done.
  intros E. apply Hk in E. by apply bool_decide_eq_true in E.
Qed.
Lemma sample_db_new n : ¬ duplicate SampleCommand.command (sample_db n).
Proof.
  intros (k & i & Hi & _). cbn [inbox sample_db set_alerts empty_db] in Hi.
  by rewrite lookup_empty in Hi.
Qed.
Definition sample_run (f : Faults) : result str unit * Db :=
  process_command f 5000 (uuid_of 77) SampleCommand.command (sample_db 2).

Lemma process_command_atomic_witness :
  let lost := mk_faults LinkUp LinkUp Answered LinkUp LinkUp LinkLost in
  transport_wf (sample_db 2) ∧ is_err (fst (sample_run lost)) = true ∧
  length (rows (inbox (snd (sample_run lost)))) = 1%nat ∧
  ((snd (sample_run lost) = sample_db 2 ∧
     ((∃ e, fst (sample_run lost) = Err e) ∨
      fst (sample_run lost) = Ok tt ∧ duplicate SampleCommand.command (sample_db 2))) ∨
   ∃ owner reply payload,
     first_delivery lost 5000 (uuid_of 77) SampleCommand.command (sample_db 2) owner reply payload ∧
     snd (sample_run lost) =
       recorded 5000 (uuid_of 77) SampleCommand.command owner payload (reply_status reply)
         (sample_db 2) ∧
     (fst (sample_run lost) = Ok tt ∨
      (∃ e, fst (sample_run lost) = Err e) ∧ f_commit lost = LinkLost)).
Proof.
  intros lost. assert (transport_wf (sample_db 2)) as Hwf by (apply sample_db_wf; by vm_compute).
  split; [exact Hwf|]. split; [by vm_compute|]. split; [by vm_compute|].
  apply process_command_atomic; [exact Hwf|]. apply surjective_pairing.
Defined.

Lemma redelivery_idempotent_witness :
  process_command no_faults 6000 (uuid_of 78) SampleCommand.command (snd (sample_run no_faults))
    = (Ok tt, snd (sample_run no_faults)).
Proof.
  apply (redelivery_idempotent no_faults 5000 (uuid_of 77) SampleCommand.command (sample_db 2)
    (fst (sample_run no_faults)) (snd (sample_run no_faults)) no_faults 6000 (uuid_of 78)).
  - apply sample_db_wf. by vm_compute.
  - apply surjective_pairing.
  - left. by vm_compute.
Defined.

Lemma failed_query_has_no_reply_witness :
  let f := mk_faults LinkUp LinkUp ServerError LinkUp LinkUp LinkUp in
  (∃ e, fst (sample_run f) = Err e) ∧ snd (sample_run f) = sample_db 2.
Proof.
  intros f. apply (failed_query_has_no_reply f); [apply sample_db_wf; by vm_compute| |done|done].
  apply sample_db_new.
Defined.

(** A server without a conversion from [text] to [uuid]. *)
Definition typed_postgres : Postgres := {|
  text_as_uuid _ := None; text_as_jsonb := @text_as_jsonb postgres;
  store_time := @store_time postgres;
|}.
Definition sample_alerts : list AlertRule :=
  match read_alerts LinkUp (sample_db 2) actor_a with Ok l => l | Err _ => [] end.
Definition sample_reply_payload : Value :=
  default VNull (event_to_value (reply_event (uuid_of 77) SampleCommand.command
    (completed_reply (correlation_id SampleCommand.command) sample_alerts))).
Lemma conversion_decides_commands_witness :
  length sample_alerts = 2%nat ∧
  sample_run no_faults =
    (Ok tt, recorded 5000 (uuid_of 77) SampleCommand.command (uuid_of 1) sample_reply_payload
              (lit "completed") (sample_db 2)) ∧
  @process_command _ typed_postgres _ _ no_faults 5000 (uuid_of 77) SampleCommand.command empty_db =
    (Err (lit "persist JetStream inbox failed"), empty_db).
Proof.
  split; [by vm_compute|]. split.
  - pose proof (conversion_decides_commands SampleCommand.tenant SampleCommand.key
      SampleCommand.now_ms 5000 (uuid_of 77) SampleCommand.command (sample_db 2) (uuid_of 1)
      sample_alerts sample_reply_payload) as Hc.
    assert (text_as_uuid (actor_subject (cmd_operation SampleCommand.command)) = Some (uuid_of 1))
      as E by (by vm_compute).
    rewrite E in Hc. apply Hc; clear.
    + by vm_compute.
    + apply sample_db_wf. by vm_compute.
    + apply sample_db_new.
    + by apply lookup_empty.
    + by vm_compute.
    + by vm_compute.
    + by vm_compute.
  - pose proof (@conversion_decides_commands _ typed_postgres _ _ _ SampleCommand.tenant
      SampleCommand.key SampleCommand.now_ms 5000 (uuid_of 77) SampleCommand.command empty_db
      (uuid_of 1) [] (default VNull (event_to_value (reply_event (uuid_of 77) SampleCommand.command
        (completed_reply (correlation_id SampleCommand.command) []))))) as Hc.
    cbn [text_as_uuid typed_postgres] in Hc. apply Hc; clear.
    + by vm_compute.
    + apply empty_transport_wf.
    + intros (k & i & Hi & _). cbn in Hi. by rewrite lookup_empty in Hi.
    + by apply lookup_empty.
    + by vm_compute.
    + reflexivity.
    + by vm_compute.
Defined.
