(* ===== verification/Outbox.v ===== *)
(** * Publishing the outbox ([publish_pending], [PendingOutbox] of [src/transport.rs])

    The publisher reads the oldest pending replies, sends each to the event stream, waits
    for the broker's acknowledgement and only then marks the row.  The state is the
    database and the log of messages the broker has stored; every await takes its outcome
    from a [RowFaults] record. *)

From S2P Require Import Prelude Str Float Ids Model Auth Database Store Envelope Commands.
Open Scope N_scope.

Record Message := mk_message {
  msg_subject : str;
  msg_id : str;                   (* the [Nats-Msg-Id] header *)
  msg_payload : list N;
}.

(** [serde_json::to_vec] of a value, and whether [HeaderValue::from_str] takes a text. *)
Class NatsCodec := {
  value_to_vec : Value → option (list N);
  header_from_str : str → bool;
}.

(** A result row; each column may fail to decode. *)
Record OutboxResult := mk_outbox_result {
  o_event_id : option Uuid;
  o_correlation_id : option Uuid;
  o_dedupe_key : option str;
  o_subject : option str;
  o_payload : option Value;
}.
Definition outbox_result (r : OutboxRow) : OutboxResult :=
  mk_outbox_result (Some (out_event_id r)) (Some (out_correlation_id r))
    (Some (out_dedupe_key r)) (Some (out_subject r)) (Some (out_payload r)).

Record PendingOutbox := mk_pending {
  po_event_id : Uuid;
  po_correlation_id : Uuid;
  po_dedupe_key : str;
  po_subject : str;
  po_payload : Value;
}.
Definition from_row (row : OutboxResult) : result str PendingOutbox :=
  event_id ← ok_or (o_event_id row) (lit "JetStream outbox event ID is invalid");
  correlation_id ← ok_or (o_correlation_id row) (lit "JetStream outbox correlation ID is invalid");
  dedupe_key ← ok_or (o_dedupe_key row) (lit "JetStream outbox dedupe key is invalid");
  subject ← ok_or (o_subject row) (lit "JetStream outbox subject is invalid");
  payload ← ok_or (o_payload row) (lit "JetStream outbox payload is invalid");
  Ok (mk_pending event_id correlation_id dedupe_key subject payload).

(** A publication fails before it is sent, is sent but not acknowledged (stored or not), or
    is acknowledged. *)
Inductive PublishFate := PubFailed | PubUnacked (stored : bool) | PubAcked.
Record RowFaults := mk_row_faults { rf_publish : PublishFate; rf_mark : Link; rf_now : DateTime }.

Abbreviation Bus := (Db * list Message)%type (only parsing).

Section publish.
Context `{Postgres} `{NatsCodec}.

Definition publish_one (f : RowFaults) (row : OutboxResult) (st : Bus) : result str unit * Bus :=
  let '(db, log) := st in
  match from_row row with
  | Err e => (Err e, st)
  | Ok pending =>
      match value_to_vec (po_payload pending) with
      | None => (Err (lit "serialize JetStream outbox failed"), st)
      | Some payload =>
          if MAX_NATS_PAYLOAD_BYTES <? N.of_nat (length payload)
          then (Err (lit "JetStream outbox payload is oversized"), st) else
          if negb (header_from_str (po_dedupe_key pending))
          then (Err (lit "JetStream dedupe header is invalid"), st) else
          let message := mk_message (po_subject pending) (po_dedupe_key pending) payload in
          match rf_publish f with
          | PubFailed => (Err (lit "JetStream reply publish failed"), st)
          | PubUnacked stored =>
              (Err (lit "JetStream reply was not acknowledged"),
               (db, if stored then log ++ [message] else log))
          | PubAcked =>
              let '(r, db) := execute (rf_mark f)
                                (MARK_OUTBOX_SQL (po_event_id pending) (rf_now f)) db in
              (match r with
               | Ok _ => Ok tt
               | Err _ => Err (lit "mark JetStream outbox published failed")
               end, (db, log ++ [message]))
          end
      end
  end.

(** [for row in rows]; the faults of the [i]-th row are [fs i]. *)
Fixpoint publish_rows (fs : nat → RowFaults) (i : nat) (rows : list OutboxResult) (st : Bus)
    : result str unit * Bus :=
  match rows with
  | [] => (Ok tt, st)
  | row :: rows =>
      match publish_one (fs i) row st with
      | (Err e, st) => (Err e, st)
      | (Ok _, st) => publish_rows fs (S i) rows st
      end
  end.
Definition publish_pending (link : Link) (fs : nat → RowFaults) (st : Bus)
    : result str unit * Bus :=
  match query link SELECT_OUTBOX_SQL (fst st) with
  | Err _ => (Err (lit "read JetStream outbox failed"), st)
  | Ok rows => publish_rows fs 0 (outbox_result <$> rows) st
  end.

(** ** Specification: a queue of replies *)

(** The message of an outbox row, when it can be sent. *)
Definition message_of (r : OutboxRow) : option Message :=
  payload ← value_to_vec (out_payload r);
  if MAX_NATS_PAYLOAD_BYTES <? N.of_nat (length payload) then None else
  if header_from_str (out_dedupe_key r)
  then Some (mk_message (out_subject r) (out_dedupe_key r) payload) else None.

(** Every message of the log is a reply of the outbox; every published row is in it. *)
Record log_wf (db : Db) (log : list Message) : Prop := {
  lw_from m : m ∈ log → ∃ k o, outbox db !! k = Some o ∧ message_of o = Some m;
  lw_published k o : outbox db !! k = Some o → ¬ pending o →
    ∃ m, message_of o = Some m ∧ m ∈ log;
}.

(** ** Lemmas *)

Lemma publish_row_same now r :
  out_event_id (publish_row now r) = out_event_id r ∧
  out_correlation_id (publish_row now r) = out_correlation_id r ∧
  out_dedupe_key (publish_row now r) = out_dedupe_key r ∧
  out_subject (publish_row now r) = out_subject r ∧
  out_payload (publish_row now r) = out_payload r.
Proof. unfold publish_row. by destruct (out_published_at r). Qed.
Lemma publish_row_message now r : message_of (publish_row now r) = message_of r.
Proof. unfold publish_row. by destruct (out_published_at r). Qed.
Lemma publish_row_published now r : ¬ pending (publish_row now r).
Proof. unfold publish_row, pending. by destruct (out_published_at r) eqn:E; rewrite ?E. Qed.

Definition mark (now : DateTime) (id : Uuid) (db : Db) : Db :=
  set_outbox (alter (publish_row (store_time now)) id) db.

Lemma mark_lookup now id db k o :
  outbox (mark now id db) !! k = Some o ↔
  ∃ o', outbox db !! k = Some o' ∧
    o = if decide (k = id) then publish_row (store_time now) o' else o'.
Proof.
  cbn [outbox mark set_outbox]. case_decide as E.
  - subst. rewrite lookup_alter_eq. rewrite fmap_Some. naive_solver.
  - rewrite lookup_alter_ne by congruence. naive_solver.
Qed.
Lemma mark_lookup_1 now id db k o :
  outbox db !! k = Some o → ∃ o', outbox (mark now id db) !! k = Some o' ∧
    (o' = o ∨ o' = publish_row (store_time now) o).
Proof.
  intros Ho. eexists. rewrite mark_lookup. split; [eauto|]. case_decide; auto.
Qed.

Lemma mark_head now db r q :
  db_keyed db → pending_rows db = r :: q → pending_rows (mark now (out_event_id r) db) = q.
Proof.
  intros Hk Hq.
  assert (r ∈ pending_rows db) as Hr by (rewrite Hq; left).
  unfold pending_rows in Hr. rewrite elem_of_order_by, list_elem_of_filter, elem_of_rows in Hr.
  destruct Hr as [Hpend [k Hrk]]. rewrite (keyed_outbox _ Hk _ _ Hrk).
  assert (delete k (outbox (mark now k db)) = delete k (outbox db)) as Hdel.
  { apply map_eq. intros j. destruct (decide (j = k)) as [->|Hj].
    - by rewrite !lookup_delete_eq.
    - rewrite !lookup_delete_ne by done. cbn [outbox mark set_outbox].
      by rewrite lookup_alter_ne by done. }
  assert (filter pending (rows (outbox (mark now k db))) ≡ₚ
          filter pending (rows (delete k (outbox db)))) as Hp1.
  { rewrite <-(insert_delete_id (outbox (mark now k db)) k (publish_row (store_time now) r)).
    2: { cbn [outbox mark set_outbox]. by rewrite lookup_alter_eq, Hrk. }
    rewrite rows_insert by apply lookup_delete_eq.
    by rewrite filter_cons_False, Hdel by apply publish_row_published. }
  assert (r :: q ≡ₚ r :: filter pending (rows (delete k (outbox db)))) as Hp2.
  { rewrite <-Hq. unfold pending_rows. rewrite order_by_perm.
    rewrite <-(insert_delete_id (outbox db) k r Hrk) at 1.
    rewrite rows_insert by apply lookup_delete_eq. by rewrite filter_cons_True. }
  apply (inj (r ::.)) in Hp2.
  apply (StronglySorted_unique_strong (λ x y, key_le (outbox_key x) (outbox_key y))).
  - intros x y Hx Hy Hxy Hyx. pose proof (key_le_antisym _ _ Hxy Hyx) as E.
    unfold pending_rows in Hx. rewrite elem_of_order_by, Hp1, <-Hp2 in Hx.
    assert (∀ z, z ∈ q → ∃ j, outbox db !! j = Some z) as Hin.
    { intros z Hz. rewrite Hp2, list_elem_of_filter, elem_of_rows in Hz. destruct Hz as [_ [j Hz]].
      exists j. by apply lookup_delete_Some in Hz as [_ ?]. }
    destruct (Hin _ Hx) as [i Hi], (Hin _ Hy) as [j Hj]. injection E as _ E%uuid_bits_inj.
    rewrite (keyed_outbox _ Hk _ _ Hi), (keyed_outbox _ Hk _ _ Hj) in E. congruence.
  - apply order_by_sorted.
  - assert (StronglySorted (λ x y, key_le (outbox_key x) (outbox_key y)) (r :: q)) as Hs
      by (rewrite <-Hq; apply order_by_sorted). by inversion Hs.
  - unfold pending_rows. by rewrite order_by_perm, Hp1, Hp2.
Qed.

Lemma mark_keyed now id db : db_keyed db → db_keyed (mark now id db).
Proof.
  intros [Ka Ki Ko Ks]. split; [done|done| |done]. intros k o. rewrite mark_lookup.
  intros (o' & Ho' & ->). case_decide; rewrite ?(proj1 (publish_row_same _ _)); eauto.
Qed.
Lemma mark_wf `{UuidText, Serde, ReplyJson} now id db : transport_wf db → transport_wf (mark now id db).
Proof.
  intros [Kk Ki Ka Ku Ko Ks].
  assert (∀ k o, outbox (mark now id db) !! k = Some o →
    ∃ o', outbox db !! k = Some o' ∧ out_dedupe_key o = out_dedupe_key o') as Hout.
  { intros k o. rewrite mark_lookup. intros (o' & Ho' & ->). exists o'. split; [done|].
    case_decide; [|done]. apply publish_row_same. }
  split; [by apply mark_keyed|done| | | |done].
  - intros k i Hi. destruct (Ka _ _ Hi) as (l & o & s & Ho & Hs & Ha).
    destruct (mark_lookup_1 now id _ _ _ Ho) as (o' & Ho' & Heq). exists l, o', s.
    split_and!; [done..|]. destruct Heq as [->| ->]; [done|].
    destruct (publish_row_same (store_time now) o) as (E1&E2&E3&E4&E5).
    destruct Ha as (re & ?). exists re. by rewrite E1, E2, E3, E4, E5.
  - intros k l o p (o' & Ho & ->)%Hout (p' & Hp & ->)%Hout. by eapply Ku.
  - intros k o (o' & Ho & ->)%Hout. eauto.
Qed.
End publish.

(** A creation leaves the transport tables alone. *)
Lemma create_frame `{Postgres, UuidText, Serde, ReplyJson} link now fresh fallback actor input r
    store db db' :
  create link now fresh (mk_store (Some db) fallback) actor input = (r, store) →
  database store = Some db' →
  (transport_wf db → transport_wf db') ∧ inbox db' = inbox db ∧ outbox db' = outbox db.
Proof.
  intros Hc Hd. destruct (create_cases _ _ _ _ _ _ _ _ Hc) as [[-> _]|(_ & Hins & _)].
  { injection Hd as ->. by split_and!. }
  unfold inserted in Hins. cbn [database] in Hins.
  destruct Hins as (v & w & _ & _ & _ & ->). injection Hd as <-.
  split_and!; [|done..]. intros [[Ka Ki Ko Ks] ?????]. split; try done. split; try done.
  intros k x. cbn [alerts set_alerts]. rewrite lookup_insert_Some.
  intros [[<- <-]|[_ ?]]; [done|eauto].
Qed.

Section publish_lemmas.
Context `{Postgres} `{NatsCodec}.

(** One row: not sent, sent and left pending, or sent and marked. *)
Lemma publish_one_cases f r db log res st' :
  publish_one f (outbox_result r) (db, log) = (res, st') →
  (st' = (db, log) ∧ ∃ e, res = Err e) ∨
  ∃ m, message_of r = Some m ∧
    (st' = (db, log ++ [m]) ∧ (∃ e, res = Err e) ∨
     st' = (mark (rf_now f) (out_event_id r) db, log ++ [m]) ∧ (res = Ok tt ∨ ∃ e, res = Err e)).
Proof.
  unfold publish_one, message_of, from_row, outbox_result.
  cbn [ok_or mbind result_bind o_event_id o_correlation_id o_dedupe_key o_subject o_payload
    po_event_id po_dedupe_key po_subject po_payload].
  destruct (value_to_vec _) as [payload|]; cbn [mbind option_bind]; [|intros [= <- <-]; eauto].
  destruct (_ <? _); [intros [= <- <-]; eauto|].
  destruct (header_from_str _); cbn [negb]; [|intros [= <- <-]; eauto].
  destruct (rf_publish f) as [|[]|].
  - intros [= <- <-]. eauto.
  - intros [= <- <-]. right. eauto 8.
  - intros [= <- <-]. eauto.
  - destruct (rf_mark f); cbn; intros [= <- <-]; right; eexists; (split; [done|]);
      solve [right; split; eauto | left; split; eauto].
Qed.
Lemma publish_one_up f r db log m :
  message_of r = Some m → rf_publish f = PubAcked → rf_mark f = LinkUp →
  publish_one f (outbox_result r) (db, log) =
    (Ok tt, (mark (rf_now f) (out_event_id r) db, log ++ [m])).
Proof.
  unfold publish_one, message_of, from_row, outbox_result.
  cbn [ok_or mbind result_bind o_event_id o_correlation_id o_dedupe_key o_subject o_payload
    po_event_id po_dedupe_key po_subject po_payload].
  destruct (value_to_vec _) as [payload|]; cbn [mbind option_bind]; [|done].
  destruct (_ <? _); [done|]. destruct (header_from_str _); cbn [negb]; [|done].
  intros [= <-] -> ->. done.
Qed.
Lemma publish_one_unsendable f r st :
  message_of r = None →
  ∃ e, publish_one f (outbox_result r) st = (Err e, st).
Proof.
  destruct st as [db log]. unfold publish_one, message_of, from_row, outbox_result.
  cbn [ok_or mbind result_bind o_event_id o_correlation_id o_dedupe_key o_subject o_payload
    po_event_id po_dedupe_key po_subject po_payload].
  destruct (value_to_vec _) as [payload|]; cbn [mbind option_bind]; [|eauto].
  destruct (_ <? _); [eauto|]. destruct (header_from_str _); cbn [negb]; [done|eauto].
Qed.

(** A run over the front of the queue: [n] rows were sent in order, all of them but at most
    the last were marked and left the queue. *)
Lemma publish_rows_fifo fs i l q db log res db' log' :
  db_keyed db → pending_rows db = l ++ q →
  publish_rows fs i (outbox_result <$> l) (db, log) = (res, (db', log')) →
  ∃ n k ms, (k <= n <= S k)%nat ∧ (n <= length l)%nat ∧
    message_of <$> take n l = Some <$> ms ∧ log' = log ++ ms ∧
    pending_rows db' = drop k (l ++ q) ∧ db_keyed db' ∧
    (res = Ok tt → k = length l).
Proof.
  revert i db log. induction l as [|r l IH]; intros i db log Hk Hq.
  { cbn. intros [= <- <- <-]. exists 0%nat, 0%nat, []. cbn. rewrite app_nil_r.
    split_and!; done || lia. }
  cbn [fmap list_fmap publish_rows].
  destruct (publish_one (fs i) (outbox_result r) (db, log)) as [r1 st1] eqn:E1.
  destruct (publish_one_cases _ _ _ _ _ _ E1)
    as [[-> [e ->]]|(m & Hm & [[-> [e ->]]|[-> Hr]])].
  - intros [= <- <- <-]. exists 0%nat, 0%nat, []. cbn. rewrite app_nil_r.
    split_and!; done || lia.
  - intros [= <- <- <-]. exists 1%nat, 0%nat, [m]. cbn. rewrite Hm.
    split_and!; done || lia.
  - pose proof (mark_head (rf_now (fs i)) db r (l ++ q) Hk Hq) as Hq1.
    pose proof (mark_keyed (rf_now (fs i)) (out_event_id r) db Hk) as Hk1.
    destruct Hr as [->|[e ->]].
    + intros Hrun. destruct (IH _ _ _ Hk1 Hq1 Hrun) as (n & k & ms & ? & ? & Hms & -> & ? & ? & Hres).
      exists (S n), (S k), (m :: ms). cbn. rewrite Hm, Hms, <-app_assoc.
      split_and!; try done; [lia..|]. intros ?. f_equal. auto.
    + intros [= <- <- <-]. exists 1%nat, 1%nat, [m]. cbn. rewrite Hm.
      split_and!; done || lia.
Qed.
(** Without failures every row of the run is sent and marked. *)
Lemma publish_rows_up fs i l q db log ms :
  db_keyed db → pending_rows db = l ++ q → message_of <$> l = Some <$> ms →
  (∀ j, rf_publish (fs j) = PubAcked ∧ rf_mark (fs j) = LinkUp) →
  ∃ db', publish_rows fs i (outbox_result <$> l) (db, log) = (Ok tt, (db', log ++ ms)) ∧
    pending_rows db' = q ∧ db_keyed db'.
Proof.
  revert i db log ms. induction l as [|r l IH]; intros i db log [|m ms] Hk Hq Hms Hf; try done.
  - exists db. cbn. by rewrite app_nil_r.
  - injection Hms as Hm Hms. cbn [fmap list_fmap publish_rows]. destruct (Hf i) as [Hp Hl].
    rewrite (publish_one_up _ _ _ _ _ Hm Hp Hl).
    destruct (IH (S i) _ (log ++ [m]) ms (mark_keyed (rf_now (fs i)) (out_event_id r) db Hk)
      (mark_head _ _ _ _ Hk Hq) Hms Hf) as (db' & Hrun & Hq' & Hk').
    exists db'. rewrite Hrun. by rewrite <-app_assoc.
Qed.

(** Replies are never deleted or rewritten: only their publication time changes. *)
Definition outbox_le (db db' : Db) : Prop :=
  ∀ k o, outbox db !! k = Some o → ∃ o', outbox db' !! k = Some o' ∧
    outbox_result o' = outbox_result o.
Lemma publish_one_inv `{UuidText, Serde, ReplyJson} f r db log res db' log' k :
  transport_wf db → log_wf db log → outbox db !! k = Some r →
  publish_one f (outbox_result r) (db, log) = (res, (db', log')) →
  transport_wf db' ∧ log_wf db' log' ∧ outbox_le db db'.
Proof.
  intros Hwf [Hl1 Hl2] Hr E1. pose proof (keyed_outbox _ (tw_keyed _ Hwf) _ _ Hr) as Hkr.
  destruct (publish_one_cases _ _ _ _ _ _ E1)
    as [[[= -> ->] _]|(m & Hm & [[[= -> ->] _]|[[= -> ->] _]])]; [split_and!; [done|by split|]; intros j o; by eauto| |].
  - split_and!; [done| |intros j o; by eauto]. split.
    + intros m'. rewrite elem_of_app, list_elem_of_singleton. intros [?| ->]; eauto.
    + intros j o Ho Hp. destruct (Hl2 _ _ Ho Hp) as (m' & ? & ?). exists m'.
      rewrite elem_of_app. auto.
  - split_and!; [by apply mark_wf| |].
    + split.
      * intros m'. rewrite elem_of_app, list_elem_of_singleton.
        assert (∀ j o, outbox db !! j = Some o → message_of o = Some m' →
          ∃ j o, outbox (mark (rf_now f) (out_event_id r) db) !! j = Some o ∧
            message_of o = Some m') as Hkeep.
        { intros j o Ho Hmo. destruct (mark_lookup_1 (rf_now f) (out_event_id r) _ _ _ Ho)
            as (o' & Ho' & Heq). exists j, o'. split; [done|].
          destruct Heq as [->| ->]; [done|]. rewrite <-Hmo. apply publish_row_message. }
        intros [Hin| ->]; [|by eauto]. destruct (Hl1 _ Hin) as (j & o & Ho & Hmo). eauto.
      * intros j o. rewrite mark_lookup. intros (o' & Ho' & ->) Hp. case_decide as Hj.
        -- assert (o' = r) as -> by congruence. exists m.
           rewrite elem_of_app, list_elem_of_singleton. split; [|by right].
           rewrite <-Hm. apply publish_row_message.
        -- destruct (Hl2 _ _ Ho' Hp) as (m' & ? & ?). exists m'. rewrite elem_of_app. auto.
    + intros j o Ho. destruct (mark_lookup_1 (rf_now f) (out_event_id r) _ _ _ Ho)
        as (o' & Ho' & Heq). exists o'. split; [done|]. destruct Heq as [->| ->]; [done|].
      destruct (publish_row_same (store_time (rf_now f)) o) as (E2&E3&E4&E5&E6).
      unfold outbox_result. by rewrite E2, E3, E4, E5, E6.
Qed.

Lemma log_wf_outbox db db' log : outbox db' = outbox db → log_wf db log → log_wf db' log.
Proof. intros E [H1 H2]. split; rewrite E; done. Qed.
End publish_lemmas.

Section publish_invariant.
Context `{UuidText} `{Postgres} `{Serde} `{ReplyJson} `{NatsCodec}.

(** A selected reply is still in the outbox, whatever happened to the database since. *)
Definition still_there (db : Db) (r : OutboxResult) : Prop :=
  ∃ k o, outbox db !! k = Some o ∧ outbox_result o = r.
Lemma still_there_mono db db' r : outbox_le db db' → still_there db r → still_there db' r.
Proof. intros Hle (k & o & Ho & <-). destruct (Hle _ _ Ho) as (o' & ? & ?). by exists k, o'. Qed.
Lemma selected_still_there db : Forall (still_there db) (outbox_result <$> SELECT_OUTBOX_SQL db).
Proof.
  apply Forall_fmap, Forall_forall. intros r Hr.
  unfold SELECT_OUTBOX_SQL in Hr. apply subseteq_take in Hr. unfold pending_rows in Hr.
  rewrite elem_of_order_by, list_elem_of_filter, elem_of_rows in Hr.
  destruct Hr as [_ [k Hk]]. by exists k, r.
Qed.
Lemma publish_one_inbox f r db log res db' log' :
  publish_one f r (db, log) = (res, (db', log')) → inbox db' = inbox db.
Proof.
  unfold publish_one. intros E. repeat case_match; simplify_eq; try done.
  all: match goal with E : execute ?l _ _ = _ |- _ => destruct l; cbn in E; by simplify_eq end.
Qed.
Lemma publish_one_step f r db log res db' log' :
  transport_wf db → log_wf db log → still_there db r →
  publish_one f r (db, log) = (res, (db', log')) →
  transport_wf db' ∧ log_wf db' log' ∧ outbox_le db db' ∧ inbox db' = inbox db.
Proof.
  intros Hwf Hlog (k & o & Ho & <-) Hp.
  destruct (publish_one_inv _ _ _ _ _ _ _ _ Hwf Hlog Ho Hp) as (? & ? & ?).
  split_and!; try done. by eapply publish_one_inbox.
Qed.
End publish_invariant.

(** The publisher's loop: one [publish_pending] per round, each with its own faults. *)
Section rounds.
Context `{Postgres} `{NatsCodec}.
Fixpoint publish_rounds (rounds : list (Link * (nat → RowFaults))) (st : Bus) : Bus :=
  match rounds with
  | [] => st
  | (link, fs) :: rounds => publish_rounds rounds (snd (publish_pending link fs st))
  end.
Definition healthy (fs : nat → RowFaults) : Prop :=
  ∀ j, rf_publish (fs j) = PubAcked ∧ rf_mark (fs j) = LinkUp.

Lemma publish_pending_up fs db log ms :
  db_keyed db → message_of <$> pending_rows db = Some <$> ms → healthy fs →
  ∃ db', publish_pending LinkUp fs (db, log) = (Ok tt, (db', log ++ take 50 ms)) ∧
    pending_rows db' = drop 50 (pending_rows db) ∧ db_keyed db'.
Proof.
  intros Hk Hms Hf. unfold publish_pending, SELECT_OUTBOX_SQL. cbn [fst query].
  apply publish_rows_up; [done|by rewrite take_drop| |done].
  by rewrite !fmap_take, Hms.
Qed.
Lemma publish_rounds_up fss db log ms :
  db_keyed db → message_of <$> pending_rows db = Some <$> ms → Forall healthy fss →
  ∃ db', publish_rounds ((λ fs, (LinkUp, fs)) <$> fss) (db, log) =
      (db', log ++ take (50 * length fss) ms) ∧
    pending_rows db' = drop (50 * length fss) (pending_rows db).
Proof.
  revert db log ms. induction fss as [|fs fss IH]; intros db log ms Hk Hms Hf.
  { exists db. cbn. by rewrite app_nil_r. }
  apply Forall_cons in Hf as [Hfs Hf]. cbn [fmap list_fmap publish_rounds].
  destruct (publish_pending_up fs db log ms Hk Hms Hfs) as (db1 & -> & Hq & Hk1). cbn [snd].
  destruct (IH db1 (log ++ take 50 ms) (drop 50 ms)) as (db' & -> & Hq'); [done| |done|].
  { by rewrite Hq, !fmap_drop, Hms. }
  exists db'. split.
  - f_equal. rewrite <-app_assoc. f_equal.
    rewrite <-(take_drop 50 (take (50 * length (fs :: fss)) ms)).
    rewrite take_take, skipn_firstn_comm. cbn [length]. f_equal; [f_equal; lia|f_equal; lia].
  - rewrite Hq', Hq, drop_drop. f_equal. cbn [length]. lia.
Qed.
End rounds.

(** ** Properties *)

Section properties.
Context `{Postgres} `{NatsCodec}.

(** C21: the outbox is a first-in-first-out queue with at-least-once delivery: whatever fails,
    one pass appends to the broker's log, in creation order, the messages of the first [n]
    pending replies, with [n] at most 50, and removes from the queue the same replies but at
    most the last one; a pass that succeeds has sent and removed all of its replies. *)
Theorem publish_pending_fifo link fs db log res db' log' :
  db_keyed db → publish_pending link fs (db, log) = (res, (db', log')) →
  ∃ n k ms, (k <= n <= S k)%nat ∧ (n <= 50)%nat ∧
    message_of <$> take n (pending_rows db) = Some <$> ms ∧ log' = log ++ ms ∧
    pending_rows db' = drop k (pending_rows db) ∧ db_keyed db' ∧
    (res = Ok tt → k = Nat.min 50 (length (pending_rows db))).
Proof.
  intros Hk. unfold publish_pending. cbn [fst]. destruct link; cbn [query].
  2-3: intros [= <- <- <-]; exists 0%nat, 0%nat, []; cbn; rewrite app_nil_r; split_and!; done || lia.
  intros Hrun. unfold SELECT_OUTBOX_SQL in Hrun.
  destruct (publish_rows_fifo fs 0 (take 50 (pending_rows db)) (drop 50 (pending_rows db))
    db log res db' log' Hk ltac:(by rewrite take_drop) Hrun)
    as (n & k & ms & ? & Hn & Hms & -> & Hq & ? & Hres).
  rewrite length_take in *. rewrite take_drop in Hq. rewrite take_take in Hms.
  exists n, k, ms. split_and!; try done; try lia. rewrite <-Hms. do 2 f_equal. lia.
Qed.

(** C35: the publisher makes progress: when every pending reply can be sent, enough passes
    without failures send all of them in order, each once, and empty the queue. *)
Theorem publisher_drains_outbox fss db log ms :
  db_keyed db → message_of <$> pending_rows db = Some <$> ms → Forall healthy fss →
  (length (pending_rows db) <= 50 * length fss)%nat →
  ∃ db', publish_rounds ((λ fs, (LinkUp, fs)) <$> fss) (db, log) = (db', log ++ ms) ∧
    pending_rows db' = [].
Proof.
  intros Hk Hms Hf Hlen.
  destruct (publish_rounds_up fss db log ms Hk Hms Hf) as (db' & -> & Hq).
  assert (length ms = length (pending_rows db)) as Hl.
  { apply (f_equal length) in Hms. by rewrite !length_fmap in Hms. }
  exists db'. rewrite take_ge by lia. rewrite Hq, drop_ge by lia. done.
Qed.

(** A reply that cannot be sent blocks the outbox: when the oldest pending reply is over
    256 KiB (or its payload or key does not encode), every pass fails without sending or
    marking anything, so no later reply is ever published, however many passes are made and
    whether or not anything else fails. *)
Theorem unsendable_head_blocks rounds r q db log :
  pending_rows db = r :: q → message_of r = None →
  publish_rounds rounds (db, log) = (db, log) ∧
  (∀ fs, ∃ e, fst (publish_pending LinkUp fs (db, log)) = Err e).
Proof.
  intros Hq Hr.
  assert (∀ link fs, ∃ e, publish_pending link fs (db, log) = (Err e, (db, log))) as Hone.
  { intros link fs. unfold publish_pending. destruct link; cbn [fst query]; [|by eauto..].
    unfold SELECT_OUTBOX_SQL. rewrite Hq. cbn [take fmap list_fmap publish_rows].
    destruct (publish_one_unsendable (fs 0%nat) r (db, log) Hr) as [e ->]. eauto. }
  split.
  - induction rounds as [|[link fs] rounds IH]; [done|]. cbn [publish_rounds].
    destruct (Hone link fs) as [e ->]. exact IH.
  - intros fs. destruct (Hone LinkUp fs) as [e ->]. eauto.
Qed.
End properties.

(** ** A concrete codec, and examples *)

Module SampleOutbox.
Definition encode (v : Value) : list N :=
  match v with
  | VString s => as_bytes s
  | VObject ((_, VString s) :: _) => as_bytes s
  | _ => []
  end.
Module Instances.
#[export] Instance codec : NatsCodec := {|
  value_to_vec v := Some (encode v);
  header_from_str s := negb (contains_char 10 s || contains_char 13 s);
|}.
End Instances.
Definition row (payload : str) (i : N) : OutboxRow :=
  mk_outbox_row (uuid_of i) (uuid_of i) (reply_key (display_uint i)) (event_subject (lit "t"))
    (VString payload) (Z.of_N i) None.
(** [n] pending replies, the [i]-th created at [i]. *)
Definition db (payload : str) (n : nat) : Db :=
  set_outbox (λ _, list_to_map
    ((λ i, (uuid_of (N.of_nat i), row payload (N.of_nat i))) <$> seq 1 n)) empty_db.
Definition up (_ : nat) : RowFaults := mk_row_faults PubAcked LinkUp 9.
(** The third publication is stored but its acknowledgement is lost. *)
Definition lossy (i : nat) : RowFaults :=
  mk_row_faults (if bool_decide (i = 2%nat) then PubUnacked true else PubAcked) LinkUp 9.
Definition message (payload : str) (i : N) : Message :=
  mk_message (event_subject (lit "t")) (reply_key (display_uint i)) payload.
End SampleOutbox.
Import CanonicalInstances SampleStorage.Instances SampleOutbox.Instances.

Lemma sample_outbox_keyed p n :
  forallb (λ x, bool_decide (out_event_id (snd x) = fst x))
    (map_to_list (outbox (SampleOutbox.db p n))) = true →
  db_keyed (SampleOutbox.db p n).
Proof.
  intros Hc. pose proof (table_check _ (λ k row, bool_decide (out_event_id row = k)) Hc) as Hk.
  split; intros k r; cbn [alerts inbox statuses SampleOutbox.db set_outbox empty_db];
    rewrite ?lookup_empty; try done.
  intros E. apply Hk in E. by apply bool_decide_eq_true in E.
Qed.
Lemma publish_pending_fifo_witness :
  let st := (SampleOutbox.db (lit "x") 5, []) in
  let run := publish_pending LinkUp SampleOutbox.lossy st in
  length (snd (snd run)) = 3%nat ∧ length (pending_rows (fst (snd run))) = 3%nat ∧
  ∃ n k ms, (k <= n <= S k)%nat ∧ (n <= 50)%nat ∧
    message_of <$> take n (pending_rows (fst st)) = Some <$> ms ∧
    snd (snd run) = [] ++ ms ∧
    pending_rows (fst (snd run)) = drop k (pending_rows (fst st)) ∧ db_keyed (fst (snd run)) ∧
    (fst run = Ok tt → k = Nat.min 50 (length (pending_rows (fst st)))).
Proof.
  intros st run. split; [by vm_compute|]. split; [by vm_compute|].
  apply (publish_pending_fifo LinkUp SampleOutbox.lossy (fst st) (snd st)).
  - apply sample_outbox_keyed. by vm_compute.
  - unfold run, st. cbn [fst snd]. destruct (publish_pending _ _ _) as [r [d l]]. done.
Defined.
Lemma publisher_drains_outbox_witness :
  let ms := (λ i, SampleOutbox.message (lit "x") (N.of_nat i)) <$> seq 1 60 in
  ∃ db', publish_rounds [(LinkUp, SampleOutbox.up); (LinkUp, SampleOutbox.up)]
           (SampleOutbox.db (lit "x") 60, []) = (db', [] ++ ms) ∧ pending_rows db' = [].
Proof.
  intros ms.
  apply (publisher_drains_outbox [SampleOutbox.up; SampleOutbox.up] (SampleOutbox.db (lit "x") 60)
           [] ms).
  - apply sample_outbox_keyed. by vm_compute.
  - by vm_compute.
  - by repeat constructor.
  - by apply (bool_decide_unpack _); vm_compute.
Defined.
Lemma oversized_row n i :
  (N.to_nat MAX_NATS_PAYLOAD_BYTES < n)%nat →
  message_of (SampleOutbox.row (replicate n 97) i) = None.
Proof.
  intros Hn. unfold message_of.
  cbn [SampleOutbox.row out_payload value_to_vec SampleOutbox.Instances.codec
    SampleOutbox.encode mbind option_bind].
  rewrite as_bytes_ascii, length_replicate.
  - rewrite (proj2 (N.ltb_lt _ _)); [done|]. lia.
  - apply Forall_replicate. lia.
Qed.
Lemma sample_queue p :
  pending_rows (SampleOutbox.db p 2) = [SampleOutbox.row p 1; SampleOutbox.row p 2].
Proof. by vm_compute. Qed.
Lemma unsendable_head_blocks_witness :
  let big := replicate (S (N.to_nat MAX_NATS_PAYLOAD_BYTES)) 97 in
  let st := (SampleOutbox.db big 2, []) in
  publish_rounds [(LinkUp, SampleOutbox.up); (LinkUp, SampleOutbox.up)] st = st.
Proof.
  intros big st.
  apply (unsendable_head_blocks _ (SampleOutbox.row big 1) [SampleOutbox.row big 2]).
  - apply sample_queue.
  - apply oversized_row. apply Nat.lt_succ_diag_r.
Defined.
