(* ===== verification/Interleaving.v ===== *)
(** * Concurrent command transactions, statement by statement

    [Commands] runs the transaction of a command as one step.  Here several servers process
    commands on one database at once and their statements interleave, with each other and
    with HTTP writers and publishers, as under PostgreSQL's default isolation level READ
    COMMITTED: each statement runs on the rows committed by then and the rows its own
    transaction wrote, and an insertion waits while another open transaction holds a row
    under one of its unique keys.  The file shows that the statements compose to
    [process_command], that every interleaving is a sequence of atomic steps, and that no
    transaction waits forever. *)

From S2P Require Import Prelude Str Float Ids Model Auth Database Store Envelope Commands Outbox.
Open Scope N_scope.

(** ** Rows of one transaction

    The rows a transaction wrote are a database of their own; the transaction sees them over
    the committed rows. *)

Definition overlay (own db : Db) : Db :=
  mk_db (alerts own ∪ alerts db) (inbox own ∪ inbox db) (outbox own ∪ outbox db)
    (statuses own ∪ statuses db).
(** The entries of [after] that [before] does not hold. *)
Definition delta {A} `{EqDecision A} (before after : gmap Uuid A) : gmap Uuid A :=
  merge (λ o n, if decide (o = n) then None else n) before after.
Definition written (before after : Db) : Db :=
  mk_db (delta (alerts before) (alerts after)) (delta (inbox before) (inbox after))
    (delta (outbox before) (outbox after)) (delta (statuses before) (statuses after)).

(** ** A command in progress *)

(** The next await of [process_command]. *)
Inductive Point :=
| AtInbox
| AtQuery
| AtOutbox (reply : OperationReply)
| AtStatus (reply : OperationReply)
| AtCommit
| Ended (r : result str unit).

(** [p_begun] is not kept by the code: how many states had been committed before the one the
    transaction began on. *)
Record Process := mk_process {
  p_begun : nat; p_faults : Faults; p_now : DateTime; p_fresh : Uuid; p_command : AsyncCommand;
  p_state : TxState; p_writes : Db; p_point : Point;
}.
Definition ended (p : Process) : bool := match p_point p with Ended _ => true | _ => false end.
(** How many awaits are left. *)
Definition remaining (p : Process) : nat :=
  match p_point p with
  | AtInbox => 5 | AtQuery => 4 | AtOutbox _ => 3 | AtStatus _ => 2 | AtCommit => 1 | Ended _ => 0
  end.
Definition go (point : Point) (p : Process) : Process :=
  mk_process (p_begun p) (p_faults p) (p_now p) (p_fresh p) (p_command p) (p_state p) (p_writes p) point.

Section process.
Context `{UuidText} `{Postgres} `{Serde} `{ReplyJson}.

(** What the transaction sees when a statement starts, and what it keeps of it. *)
Definition view (p : Process) (db : Db) : Tx := mk_tx (overlay (p_writes p) db) (p_state p).
Definition keep (t : Tx) (db : Db) (p : Process) : Process :=
  mk_process (p_begun p) (p_faults p) (p_now p) (p_fresh p) (p_command p) (tx_state t)
    (overlay (written (work (view p db)) (work t)) (p_writes p)) (p_point p).

(** [database.begin().await]. *)
Definition start (begun : nat) (f : Faults) (now : DateTime) (fresh : Uuid) (c : AsyncCommand)
    : Process :=
  mk_process begun f now fresh c Alive empty_db
    (match f_begin f with
     | LinkUp => AtInbox
     | _ => Ended (Err (lit "begin JetStream inbox transaction failed"))
     end).

(** One await of [process_command], on the database as it is committed when it runs. *)
Definition advance (p : Process) (db : Db) : Process * Db :=
  let f := p_faults p in
  let c := p_command p in
  match p_point p with
  | AtInbox =>
      match tx_execute (f_inbox f)
              (INSERT_INBOX_SQL (event_id c) (correlation_id c) (dedupe_key c)
                 (cmd_product_tenant c) (actor_subject (cmd_operation c)) (p_now p)) (view p db) with
      | (Err _, _) => (go (Ended (Err (lit "persist JetStream inbox failed"))) p, db)
      | (Ok affected, t) => (go (if affected =? 1 then AtQuery else AtCommit) (keep t db p), db)
      end
  | AtQuery =>
      match uuid_parse (actor_subject (cmd_operation c)) with
      | None => (go (Ended (Err (lit "JetStream actor subject is invalid"))) p, db)
      | Some subject =>
          let '(r, t) := timed_read_alerts (f_query f) (view p db)
                           (mk_actor subject (cmd_product_tenant c)) in
          (go (AtOutbox (reply_of (correlation_id c) r)) (keep t db p), db)
      end
  | AtOutbox reply =>
      match enqueue_reply (f_outbox f) (p_now p) (p_fresh p) c reply (view p db) with
      | (Err e, _) => (go (Ended (Err e)) p, db)
      | (Ok _, t) => (go (AtStatus reply) (keep t db p), db)
      end
  | AtStatus reply =>
      match tx_execute (f_status f)
              (INSERT_STATUS_SQL (correlation_id c) (cmd_product_tenant c)
                 (actor_subject (cmd_operation c)) (reply_status reply) (p_now p)) (view p db) with
      | (Err _, _) => (go (Ended (Err (lit "persist JetStream status failed"))) p, db)
      | (Ok _, t) => (go AtCommit (keep t db p), db)
      end
  | AtCommit =>
      match commit (f_commit f) db (view p db) with
      | (Err _, db) => (go (Ended (Err (lit "commit JetStream inbox transaction failed"))) p, db)
      | (Ok _, db) => (go (Ended (Ok tt)) p, db)
      end
  | Ended _ => (p, db)
  end.

(** [n] awaits in a row. *)
Fixpoint advances (n : nat) (p : Process) (db : Db) : Process * Db :=
  match n with
  | O => (p, db)
  | S n => let '(p, db) := advance p db in advances n p db
  end.

(** ** Waiting

    An open transaction holds the keys of the rows it wrote; a failed or disconnected one is
    rolled back by the server and holds nothing. *)
Definition holds (p : Process) : bool :=
  negb (ended p) && match p_state p with Alive => true | _ => false end.
Definition waits (p q : Process) : bool :=
  let c := p_command p in
  match p_point p with
  | AtInbox => existsb (inbox_conflict (event_id c) (correlation_id c) (dedupe_key c))
                 (rows (inbox (p_writes q)))
  | AtOutbox _ => existsb (λ r, str_eqb (out_dedupe_key r) (reply_key (dedupe_key c)))
                    (rows (outbox (p_writes q))) || is_some (outbox (p_writes q) !! p_fresh p)
  | AtStatus _ => is_some (statuses (p_writes q) !! correlation_id c)
  | _ => false
  end.

(** ** The system

    [c_past] holds every committed state so far, the current one last; the code does not
    keep it, the specification refers to it. *)
Record Conc := mk_conc { c_db : Db; c_procs : list Process; c_past : list Db }.
Definition conc_init : Conc := mk_conc empty_db [] [empty_db].
Definition unblocked (s : Conc) (i : nat) (p : Process) : Prop :=
  ∀ j q, j ≠ i → c_procs s !! j = Some q → holds q = true → waits p q = false.

(** One await of one process. *)
Inductive own_step : Conc → Conc → Prop :=
| own_advance s i p p' db :
    c_procs s !! i = Some p → ended p = false → unblocked s i p →
    advance p (c_db s) = (p', db) →
    own_step s (mk_conc db (<[i := p']> (c_procs s)) (c_past s ++ [db])).
Inductive conc_step : Conc → Conc → Prop :=
| conc_start s f now fresh c :
    conc_step s (mk_conc (c_db s)
      (c_procs s ++ [start (pred (length (c_past s))) f now fresh c]) (c_past s))
| conc_own s s' : own_step s s' → conc_step s s'
| conc_create s link now fresh fallback actor input r store db :
    create link now fresh (mk_store (Some (c_db s)) fallback) actor input = (r, store) →
    database store = Some db →
    conc_step s (mk_conc db (c_procs s) (c_past s ++ [db]))
| conc_mark s id now :
    conc_step s (mk_conc (mark now id (c_db s)) (c_procs s) (c_past s ++ [mark now id (c_db s)])).
Definition conc_reachable : Conc → Prop := rtc conc_step conc_init.
End process.

(** ** Specification *)

Section spec.
Context `{UuidText} `{Postgres} `{Serde} `{ReplyJson}.

(** A reply to a command from the alerts committed in [q], or without them (a timeout). *)
Definition reply_at (c : AsyncCommand) (q : Db) (reply : OperationReply) : Prop :=
  ∃ subject, uuid_parse (actor_subject (cmd_operation c)) = Some subject ∧
    (reply = reply_of (correlation_id c)
       (Some (read_alerts LinkUp q (mk_actor subject (cmd_product_tenant c)))) ∨
     reply = reply_of (correlation_id c) None).

(** The atomic operations on the committed state of [s].  A transaction that records its
    command read the alerts in a state committed since it began. *)
Inductive atomic (s : Conc) : Db → Prop :=
| atomic_none : atomic s (c_db s)
| atomic_record i p owner q reply payload :
    c_procs s !! i = Some p → ¬ duplicate (p_command p) (c_db s) →
    text_as_uuid (actor_subject (cmd_operation (p_command p))) = Some owner →
    q ∈ drop (p_begun p) (c_past s) → reply_at (p_command p) q reply →
    event_to_value (reply_event (p_fresh p) (p_command p) reply) = Some payload →
    outbox (c_db s) !! p_fresh p = None →
    atomic s (recorded (p_now p) (p_fresh p) (p_command p) owner payload (reply_status reply)
                (c_db s))
| atomic_create link now fresh fallback actor input r store db :
    create link now fresh (mk_store (Some (c_db s)) fallback) actor input = (r, store) →
    database store = Some db → atomic s db
| atomic_mark id now : atomic s (mark now id (c_db s)).

(** ** Invariant *)

Definition entered (now : DateTime) (c : AsyncCommand) (owner : Uuid) : Db :=
  set_inbox <[event_id c := inbox_row now c owner]> empty_db.
Definition queued (now : DateTime) (fresh : Uuid) (c : AsyncCommand) (owner : Uuid)
    (payload : Value) : Db :=
  set_outbox <[fresh := outbox_row now fresh c payload]> (entered now c owner).

Definition may_enter (db : Db) (c : AsyncCommand) (owner : Uuid) : Prop :=
  ¬ duplicate c db ∧ text_as_uuid (actor_subject (cmd_operation c)) = Some owner.
Definition has_reply (past : list Db) (p : Process) (reply : OperationReply) : Prop :=
  ∃ q, q ∈ drop (p_begun p) past ∧ reply_at (p_command p) q reply.
Definition may_queue (db : Db) (p : Process) (reply : OperationReply) (payload : Value) : Prop :=
  event_to_value (reply_event (p_fresh p) (p_command p) reply) = Some payload ∧
  outbox db !! p_fresh p = None.

(** What a process wrote at each point, and what keeps its rows free to commit. *)
Definition proc_ok (db : Db) (past : list Db) (p : Process) : Prop :=
  let c := p_command p in
  match p_point p with
  | AtInbox => p_state p = Alive ∧ p_writes p = empty_db
  | AtQuery => p_state p = Alive ∧
      ∃ owner, may_enter db c owner ∧ p_writes p = entered (p_now p) c owner
  | AtOutbox reply => p_state p = Alive →
      ∃ owner, may_enter db c owner ∧ p_writes p = entered (p_now p) c owner ∧
        has_reply past p reply
  | AtStatus reply => p_state p = Alive ∧
      ∃ owner payload, may_enter db c owner ∧ has_reply past p reply ∧
        may_queue db p reply payload ∧ p_writes p = queued (p_now p) (p_fresh p) c owner payload
  | AtCommit => p_state p = Alive ∧
      (p_writes p = empty_db ∧ duplicate c db ∨
       ∃ owner payload reply, may_enter db c owner ∧ has_reply past p reply ∧
         may_queue db p reply payload ∧
         p_writes p = recorded (p_now p) (p_fresh p) c owner payload (reply_status reply) empty_db)
  | Ended r => r = Ok tt → duplicate c db
  end.

(** Two transactions hold no key in common. *)
Definition apart (p q : Process) : Prop :=
  (∀ k l i j, inbox (p_writes p) !! k = Some i → inbox (p_writes q) !! l = Some j →
     in_event_id i ≠ in_event_id j ∧ in_correlation_id i ≠ in_correlation_id j ∧
     in_dedupe_key i ≠ in_dedupe_key j) ∧
  (∀ k, outbox (p_writes p) !! k = None ∨ outbox (p_writes q) !! k = None).

Record conc_inv (s : Conc) : Prop := {
  ci_wf : transport_wf (c_db s);
  ci_last : last (c_past s) = Some (c_db s);
  ci_begun i p : c_procs s !! i = Some p → (p_begun p < length (c_past s))%nat;
  ci_proc i p : c_procs s !! i = Some p → proc_ok (c_db s) (c_past s) p;
  ci_apart i j p q : c_procs s !! i = Some p → c_procs s !! j = Some q → i ≠ j →
    holds p = true → holds q = true → apart p q;
}.
End spec.

(** ** Lemmas: rows of one transaction *)

Lemma db_eq (d e : Db) :
  alerts d = alerts e → inbox d = inbox e → outbox d = outbox e → statuses d = statuses e → d = e.
Proof. destruct d, e; cbn. congruence. Qed.
Lemma delta_lookup {A} `{EqDecision A} (b a : gmap Uuid A) k :
  delta b a !! k = if decide (b !! k = a !! k) then None else a !! k.
Proof. unfold delta. rewrite lookup_merge. by destruct (b !! k), (a !! k). Qed.
Lemma delta_same {A} `{EqDecision A} (a : gmap Uuid A) : delta a a = ∅.
Proof. apply map_eq. intros k. by rewrite delta_lookup, decide_True, lookup_empty. Qed.
Lemma delta_insert {A} `{EqDecision A} (a : gmap Uuid A) k x :
  a !! k = None → delta a (<[k := x]> a) = {[k := x]}.
Proof.
  intros Hk. apply map_eq. intros j. rewrite delta_lookup. destruct (decide (j = k)) as [->|Hj].
  - by rewrite lookup_insert_eq, lookup_singleton_eq, Hk, decide_False.
  - by rewrite lookup_insert_ne, lookup_singleton_ne, decide_True.
Qed.
Lemma overlay_empty db : overlay empty_db db = db.
Proof. apply db_eq; apply (left_id_L ∅ (∪)). Qed.
Lemma overlay_empty_r own : overlay own empty_db = own.
Proof. apply db_eq; apply (right_id_L ∅ (∪)). Qed.
Lemma overlay_set_inbox k x own db :
  overlay (set_inbox <[k := x]> own) db = set_inbox <[k := x]> (overlay own db).
Proof. apply db_eq; try done. cbn. by rewrite insert_union_l. Qed.
Lemma overlay_set_outbox k x own db :
  overlay (set_outbox <[k := x]> own) db = set_outbox <[k := x]> (overlay own db).
Proof. apply db_eq; try done. cbn. by rewrite insert_union_l. Qed.
Lemma overlay_set_statuses k x own db :
  overlay (set_statuses <[k := x]> own) db = set_statuses <[k := x]> (overlay own db).
Proof. apply db_eq; try done. cbn. by rewrite insert_union_l. Qed.
Lemma written_same db own : overlay (written db db) own = own.
Proof. unfold written. rewrite !delta_same. apply overlay_empty. Qed.
Lemma written_inbox k x db own :
  inbox db !! k = None →
  overlay (written db (set_inbox <[k := x]> db)) own = set_inbox <[k := x]> own.
Proof.
  intros Hk. unfold written. cbn. rewrite !delta_same, delta_insert by done.
  apply db_eq; cbn; rewrite ?(left_id_L ∅ (∪)); try done. by rewrite <-insert_union_singleton_l.
Qed.
Lemma written_outbox k x db own :
  outbox db !! k = None →
  overlay (written db (set_outbox <[k := x]> db)) own = set_outbox <[k := x]> own.
Proof.
  intros Hk. unfold written. cbn. rewrite !delta_same, delta_insert by done.
  apply db_eq; cbn; rewrite ?(left_id_L ∅ (∪)); try done. by rewrite <-insert_union_singleton_l.
Qed.
Lemma written_statuses k x db own :
  statuses db !! k = None →
  overlay (written db (set_statuses <[k := x]> db)) own = set_statuses <[k := x]> own.
Proof.
  intros Hk. unfold written. cbn. rewrite !delta_same, delta_insert by done.
  apply db_eq; cbn; rewrite ?(left_id_L ∅ (∪)); try done. by rewrite <-insert_union_singleton_l.
Qed.

Section steps.
Context `{UuidText} `{Postgres} `{Serde} `{ReplyJson}.
Implicit Types (p q : Process) (db : Db) (past : list Db).

Lemma overlay_entered now c owner db :
  overlay (entered now c owner) db = set_inbox <[event_id c := inbox_row now c owner]> db.
Proof. unfold entered. by rewrite overlay_set_inbox, overlay_empty. Qed.
Lemma overlay_queued now fresh c owner payload db :
  overlay (queued now fresh c owner payload) db =
  set_outbox <[fresh := outbox_row now fresh c payload]>
    (set_inbox <[event_id c := inbox_row now c owner]> db).
Proof. unfold queued. by rewrite overlay_set_outbox, overlay_entered. Qed.
Lemma overlay_recorded now fresh c owner payload st db :
  overlay (recorded now fresh c owner payload st empty_db) db =
  recorded now fresh c owner payload st db.
Proof.
  unfold recorded. rewrite overlay_set_statuses, overlay_set_outbox, overlay_set_inbox.
  by rewrite overlay_empty.
Qed.

Lemma not_duplicate_inbox c db : db_keyed db → ¬ duplicate c db → inbox db !! event_id c = None.
Proof.
  intros Hk Hdup. apply eq_None_not_Some. intros [i Hi]. apply Hdup. exists (event_id c), i.
  split; [done|]. left. by rewrite (keyed_inbox _ Hk _ _ Hi).
Qed.
Lemma current_seen p past db :
  last past = Some db → (p_begun p < length past)%nat → db ∈ drop (p_begun p) past.
Proof.
  intros Hlast Hlen. apply last_Some in Hlast as [l ->]. rewrite length_app in Hlen. cbn in Hlen.
  rewrite drop_app_le by lia. apply elem_of_app. right. by apply list_elem_of_singleton.
Qed.
Lemma timed_read_alive fate t actor r t' :
  timed_read_alerts fate t actor = (r, t') → tx_state t' = Alive →
  work t' = work t ∧ (r = Some (read_alerts LinkUp (work t) actor) ∨ r = None).
Proof. destruct fate; cbn; intros [= <- <-]; cbn; try done; intros; split; auto. Qed.
Lemma timed_read_work fate t actor r t' :
  timed_read_alerts fate t actor = (r, t') → work t' = work t.
Proof. by destruct fate; intros [= <- <-]. Qed.
Lemma timed_read_state fate t actor r t' :
  timed_read_alerts fate t actor = (r, t') → tx_state t' = Alive → tx_state t = Alive ∨
    fate = TimedOut Alive.
Proof. destruct fate as [| | |[]]; intros [= <- <-]; cbn; auto; done. Qed.

(** What a process adds to the rows it holds. *)
Inductive extends p p' : Prop :=
| extends_same : p_writes p' = p_writes p → extends p p'
| extends_inbox owner :
    p_point p = AtInbox →
    p_writes p' = set_inbox <[event_id (p_command p) := inbox_row (p_now p) (p_command p) owner]>
      (p_writes p) → extends p p'
| extends_outbox reply payload :
    p_point p = AtOutbox reply →
    p_writes p' = set_outbox <[p_fresh p := outbox_row (p_now p) (p_fresh p) (p_command p) payload]>
      (p_writes p) → extends p p'
| extends_statuses k x : p_writes p' = set_statuses <[k := x]> (p_writes p) → extends p p'.

(** One await leaves the committed state alone and moves the process on, or commits. *)
Inductive advanced db past p p' db' : Prop :=
| advanced_on :
    db' = db → proc_ok db past p' → (holds p' = true → holds p = true ∧ extends p p') →
    advanced db past p p' db'
| advanced_commit owner payload reply r :
    holds p = true → p_point p' = Ended r → may_enter db (p_command p) owner →
    has_reply past p reply → may_queue db p reply payload →
    p_writes p =
      recorded (p_now p) (p_fresh p) (p_command p) owner payload (reply_status reply) empty_db →
    db' = recorded (p_now p) (p_fresh p) (p_command p) owner payload (reply_status reply) db →
    advanced db past p p' db'.

Lemma holds_alive p : ended p = false → p_state p = Alive → holds p = true.
Proof. unfold holds. by intros -> ->. Qed.

Lemma advance_inbox db past p p' db' :
  transport_wf db → proc_ok db past p → p_point p = AtInbox → advance p db = (p', db') →
  advanced db past p p' db'.
Proof.
  intros Hwf Hok Hpt. unfold proc_ok in Hok. rewrite Hpt in Hok. destruct Hok as [Ha Hw].
  assert (holds p = true) as Hholds by (apply holds_alive; [unfold ended; by rewrite Hpt|done]).
  unfold advance. rewrite Hpt. unfold keep, view. rewrite Hw, Ha, overlay_empty.
  destruct (tx_execute _ _ _) as [[n|e] t] eqn:E; [|by intros [= <- <-]; apply advanced_on].
  apply tx_execute_Ok in E as (_ & _ & db1 & Hi & ->). cbn [work tx_state] in *.
  apply insert_inbox_Ok_iff in Hi as (owner & Ho & _ & [(Hdup & -> & ->)|(Hdup & -> & ->)]);
    cbn [N.eqb Pos.eqb]; intros [= <- <-]; apply advanced_on; try done.
  - unfold proc_ok. cbn. rewrite written_same. eauto.
  - intros _. split; [done|]. apply extends_same. cbn. by rewrite written_same, Hw.
  - unfold proc_ok. cbn. split; [done|]. exists owner. split; [done|].
    by rewrite written_inbox by (apply not_duplicate_inbox; [apply Hwf|done]).
  - intros _. split; [done|]. eapply extends_inbox; [done|]. cbn.
    by rewrite written_inbox, Hw by (apply not_duplicate_inbox; [apply Hwf|done]).
Qed.

Lemma advance_query db past p p' db' :
  transport_wf db → last past = Some db → (p_begun p < length past)%nat →
  proc_ok db past p → p_point p = AtQuery → advance p db = (p', db') → advanced db past p p' db'.
Proof.
  intros Hwf Hlast Hlen Hok Hpt. unfold proc_ok in Hok. rewrite Hpt in Hok.
  destruct Hok as (Ha & owner & Hent & Hw).
  assert (holds p = true) as Hholds by (apply holds_alive; [unfold ended; by rewrite Hpt|done]).
  unfold advance. rewrite Hpt.
  destruct (uuid_parse _) as [subject|] eqn:Hs; [|by intros [= <- <-]; apply advanced_on].
  destruct (timed_read_alerts _ _ _) as [r t] eqn:Hq. intros [= <- <-].
  assert (p_writes (keep t db p) = p_writes p) as Hwr.
  { cbn. rewrite (timed_read_work _ _ _ _ _ Hq). apply written_same. }
  apply advanced_on; [done| |].
  - unfold proc_ok. cbn [p_point go p_state p_command p_writes p_now p_begun]. intros Halive.
    destruct (timed_read_alive _ _ _ _ _ Hq Halive) as [_ Hr]. exists owner.
    split; [done|]. split; [by rewrite Hwr|]. exists db. split; [by apply current_seen|].
    exists subject. split; [done|]. cbn [view work] in Hr. rewrite Hw, overlay_entered in Hr.
    rewrite read_alerts_inbox in Hr. destruct Hr as [->| ->]; auto.
  - intros _. split; [done|]. apply extends_same. exact Hwr.
Qed.

Lemma advance_outbox db past p p' db' reply :
  transport_wf db → proc_ok db past p → p_point p = AtOutbox reply → advance p db = (p', db') →
  advanced db past p p' db'.
Proof.
  intros Hwf Hok Hpt. unfold proc_ok in Hok. rewrite Hpt in Hok.
  unfold advance. rewrite Hpt.
  destruct (enqueue_reply _ _ _ _ _ _) as [[[]|e] t] eqn:E; [|by intros [= <- <-]; apply advanced_on].
  assert (p_state p = Alive) as Ha.
  { unfold enqueue_reply in E. destruct (event_to_value _); [|done].
    destruct (tx_execute _ _ _) as [[n|] t1] eqn:E1; [|done]. by apply tx_execute_Ok in E1 as [? _]. }
  destruct (Hok Ha) as (owner & Hent & Hw & Hrep). destruct Hent as [Hdup Ho].
  destruct (no_reply_row _ _ Hwf Hdup) as [Hno _].
  assert (holds p = true) as Hholds by (apply holds_alive; [unfold ended; by rewrite Hpt|done]).
  apply enqueue_reply_Ok in E as (payload & Hp & _ & _ & _ & Hfr & ->);
    [|cbn [view work]; rewrite Hw, overlay_entered; exact Hno].
  cbn [view work] in Hfr. rewrite Hw, overlay_entered in Hfr. cbn [outbox set_inbox] in Hfr.
  assert (∀ own, overlay (written (overlay (entered (p_now p) (p_command p) owner) db)
    (set_outbox <[p_fresh p := outbox_row (p_now p) (p_fresh p) (p_command p) payload]>
      (overlay (entered (p_now p) (p_command p) owner) db))) own =
    set_outbox <[p_fresh p := outbox_row (p_now p) (p_fresh p) (p_command p) payload]> own) as Hwo.
  { intros own. rewrite overlay_entered. by apply written_outbox. }
  intros [= <- <-]. apply advanced_on; [done| |].
  - unfold proc_ok. cbn. rewrite Hw, Hwo. split; [done|]. exists owner, payload. done.
  - intros _. split; [done|]. eapply extends_outbox; [done|]. cbn. by rewrite Hw, Hwo.
Qed.

Lemma advance_status db past p p' db' reply :
  transport_wf db → proc_ok db past p → p_point p = AtStatus reply → advance p db = (p', db') →
  advanced db past p p' db'.
Proof.
  intros Hwf Hok Hpt. unfold proc_ok in Hok. rewrite Hpt in Hok.
  destruct Hok as (Ha & owner & payload & [Hdup Ho] & Hrep & Hq & Hw).
  destruct (no_reply_row _ _ Hwf Hdup) as [_ Hst].
  assert (holds p = true) as Hholds by (apply holds_alive; [unfold ended; by rewrite Hpt|done]).
  unfold advance. rewrite Hpt.
  destruct (tx_execute _ _ _) as [[n|e] t] eqn:E; [|by intros [= <- <-]; apply advanced_on].
  apply tx_execute_Ok in E as (_ & _ & db1 & Hi & ->). cbn [view work] in Hi.
  rewrite Hw, overlay_queued in Hi.
  apply insert_status_Ok_iff in Hi as (owner' & Ho' & _ & _ & ->); [|done].
  rewrite Ho in Ho'. injection Ho' as <-.
  intros [= <- <-].
  assert (∀ own, overlay (written (overlay (queued (p_now p) (p_fresh p) (p_command p) owner payload) db)
    (set_statuses <[correlation_id (p_command p) := status_row (p_now p) (p_command p) owner
        (reply_status reply)]>
      (set_outbox <[p_fresh p := outbox_row (p_now p) (p_fresh p) (p_command p) payload]>
        (set_inbox <[event_id (p_command p) := inbox_row (p_now p) (p_command p) owner]> db)))) own =
    set_statuses <[correlation_id (p_command p) := status_row (p_now p) (p_command p) owner
        (reply_status reply)]> own) as Hws.
  { intros own. rewrite overlay_queued. by apply written_statuses. }
  apply advanced_on; [done| |].
  - unfold proc_ok. cbn. rewrite Hw, Hws. split; [done|]. right. exists owner, payload, reply. done.
  - intros _. split; [done|]. eapply extends_statuses. cbn. by rewrite Hw, Hws.
Qed.

Lemma advance_commit db past p p' db' :
  proc_ok db past p → p_point p = AtCommit → advance p db = (p', db') → advanced db past p p' db'.
Proof.
  intros Hok Hpt. unfold proc_ok in Hok. rewrite Hpt in Hok. destruct Hok as [Ha Hok].
  assert (holds p = true) as Hholds by (apply holds_alive; [unfold ended; by rewrite Hpt|done]).
  unfold advance. rewrite Hpt. unfold view. rewrite Ha.
  destruct Hok as [[Hw Hdup]|(owner & payload & reply & Hent & Hrep & Hq & Hw)].
  - rewrite Hw, overlay_empty.
    destruct (f_commit _); cbn [commit tx_state work]; intros [= <- <-];
      (apply advanced_on; [done| |done]); by intros ?.
  - rewrite Hw, overlay_recorded.
    destruct (f_commit _); cbn [commit tx_state work]; intros [= <- <-];
      [|by apply advanced_on|];
      eapply advanced_commit; try done.
Qed.

Lemma advance_cases db past p p' db' :
  transport_wf db → last past = Some db → (p_begun p < length past)%nat →
  proc_ok db past p → advance p db = (p', db') → advanced db past p p' db'.
Proof.
  intros Hwf Hlast Hlen Hok Hadv. destruct (p_point p) eqn:Hpt;
    eauto using advance_inbox, advance_query, advance_outbox, advance_status, advance_commit.
  unfold advance in Hadv. rewrite Hpt in Hadv. injection Hadv as <- <-.
  apply advanced_on; [done..|]. unfold holds, ended. by rewrite Hpt.
Qed.
Lemma advance_same p db p' db' :
  advance p db = (p', db') →
  p_command p' = p_command p ∧ p_fresh p' = p_fresh p ∧ p_begun p' = p_begun p ∧
  p_now p' = p_now p ∧ p_faults p' = p_faults p.
Proof. unfold advance. repeat case_match; intros [= <- <-]; done. Qed.
End steps.

Section invariant.
Context `{UuidText} `{Postgres} `{Serde} `{ReplyJson}.
Implicit Types (p q : Process) (db : Db) (past : list Db) (s : Conc).

#[local] Instance apart_sym : Symmetric apart.
Proof.
  intros p q [Hi Ho]. split; [|intros k; destruct (Ho k); auto].
  intros k l i j Hk Hl. destruct (Hi _ _ _ _ Hl Hk) as (? & ? & ?). by split_and!; apply not_eq_sym.
Qed.
Lemma apart_empty p q : p_writes p = empty_db → apart p q.
Proof.
  unfold apart. intros ->. split; [intros *; cbn; by rewrite lookup_empty|].
  intros k. left. apply lookup_empty.
Qed.

Lemma extends_apart p p' q :
  p_command p' = p_command p → extends p p' → waits p q = false → apart p q → apart p' q.
Proof.
  intros Hc He Hw [Hi Ho]. unfold waits in Hw.
  destruct He as [E|owner Hpt E|reply payload Hpt E|k x E]; unfold apart; rewrite E; cbn; [done| | |done].
  - split; [|done]. rewrite Hpt in Hw. intros k l i j. rewrite lookup_insert_Some.
    intros [[<- <-]|[_ Hk]] Hl; [|by eapply Hi]. cbn.
    pose proof (proj1 (existsb_rows_false _ _) Hw _ _ Hl) as Hj.
    apply not_true_iff_false in Hj. rewrite inbox_conflict_iff in Hj.
    split_and!; intros E'; apply Hj; auto.
  - split; [done|]. rewrite Hpt in Hw. apply orb_false_iff in Hw as [_ Hw]. intros k.
    destruct (decide (k = p_fresh p)) as [->|Hk].
    + right. by destruct (outbox (p_writes q) !! p_fresh p).
    + rewrite lookup_insert_ne by done. apply Ho.
Qed.

(** What must not change for a process to stay ready. *)
Definition leaves_free p db db' : Prop :=
  holds p = true →
  (∀ l j, inbox db' !! l = Some j → inbox db !! l = Some j ∨
     ∀ k i, inbox (p_writes p) !! k = Some i → in_event_id i ≠ in_event_id j ∧
       in_correlation_id i ≠ in_correlation_id j ∧ in_dedupe_key i ≠ in_dedupe_key j) ∧
  (∀ k o, outbox (p_writes p) !! k = Some o → outbox db !! k = None → outbox db' !! k = None).

Lemma may_enter_frame p db db' owner :
  holds p = true → leaves_free p db db' →
  inbox (p_writes p) !! event_id (p_command p) = Some (inbox_row (p_now p) (p_command p) owner) →
  may_enter db (p_command p) owner → may_enter db' (p_command p) owner.
Proof.
  intros Hh Hfree Hrow [Hdup Ho]. split; [|done]. destruct (Hfree Hh) as [Hin _].
  intros (l & j & Hj & Hkeys). destruct (Hin _ _ Hj) as [Hj'|Hne]; [by apply Hdup; exists l, j|].
  destruct (Hne _ _ Hrow) as (? & ? & ?). cbn in *. naive_solver.
Qed.
Lemma has_reply_frame p past more reply : has_reply past p reply → has_reply (past ++ more) p reply.
Proof.
  intros (q & Hq & Hr). exists q. split; [|done]. rewrite drop_app. apply elem_of_app. by left.
Qed.
Lemma may_queue_frame p db db' reply payload o :
  holds p = true → leaves_free p db db' → outbox (p_writes p) !! p_fresh p = Some o →
  may_queue db p reply payload → may_queue db' p reply payload.
Proof. intros Hh Hfree Hrow [Hp Ho]. split; [done|]. by eapply (Hfree Hh). Qed.

Lemma proc_ok_frame p db db' past more :
  (∀ c, duplicate c db → duplicate c db') → leaves_free p db db' →
  proc_ok db past p → proc_ok db' (past ++ more) p.
Proof.
  intros Hmono Hfree. unfold proc_ok. destruct (p_point p) eqn:Hpt; [done|..].
  - intros (Ha & owner & Hent & Hw). split; [done|]. exists owner. split; [|done].
    eapply may_enter_frame; [by apply holds_alive; [unfold ended; rewrite Hpt|]|done| |done].
    rewrite Hw. cbn. by rewrite lookup_insert_eq.
  - intros Hok Ha. destruct (Hok Ha) as (owner & Hent & Hw & Hr). exists owner.
    split_and!; [|done|by apply has_reply_frame].
    eapply may_enter_frame; [by apply holds_alive; [unfold ended; rewrite Hpt|]|done| |done].
    rewrite Hw. cbn. by rewrite lookup_insert_eq.
  - intros (Ha & owner & payload & Hent & Hr & Hq & Hw). split; [done|]. exists owner, payload.
    assert (holds p = true) by (by apply holds_alive; [unfold ended; rewrite Hpt|]).
    split_and!; [|by apply has_reply_frame| |done].
    + eapply may_enter_frame; [done..| |done]. rewrite Hw. cbn. by rewrite lookup_insert_eq.
    + eapply may_queue_frame; [done..| |done]. rewrite Hw. cbn. by rewrite lookup_insert_eq.
  - intros (Ha & [[Hw Hdup]|(owner & payload & reply & Hent & Hr & Hq & Hw)]); (split; [done|]);
      [by left; eauto|right]. exists owner, payload, reply.
    assert (holds p = true) by (by apply holds_alive; [unfold ended; rewrite Hpt|]).
    split_and!; [|by apply has_reply_frame| |done].
    + eapply may_enter_frame; [done..| |done]. rewrite Hw. cbn. by rewrite lookup_insert_eq.
    + eapply may_queue_frame; [done..| |done]. rewrite Hw. cbn. by rewrite lookup_insert_eq.
  - eauto.
Qed.

Lemma start_ok db past begun f now fresh c :
  proc_ok db past (start begun f now fresh c) ∧ p_writes (start begun f now fresh c) = empty_db.
Proof. split; [|done]. unfold proc_ok, start. cbn. by destruct (f_begin f). Qed.

(** Operations that keep the inbox and the keys of the outbox. *)
Lemma other_step s db :
  transport_wf db → inbox db = inbox (c_db s) →
  (∀ k, outbox (c_db s) !! k = None → outbox db !! k = None) →
  conc_inv s → conc_inv (mk_conc db (c_procs s) (c_past s ++ [db])).
Proof.
  intros Hwf Hin Hout [_ Hlast Hb Hp Ha]. split; cbn; [done|by rewrite last_snoc| | |done].
  - intros i p Hi. rewrite length_app. cbn. specialize (Hb _ _ Hi). lia.
  - intros i p Hi. apply proc_ok_frame with (db := c_db s); [| |eauto].
    + unfold duplicate. by rewrite Hin.
    + intros _. rewrite Hin. split; [by left|eauto].
Qed.
Lemma apart_insert (procs : list Process) i (p' : Process) :
  (∀ j k p q, procs !! j = Some p → procs !! k = Some q → j ≠ k → holds p = true →
     holds q = true → apart p q) →
  (∀ j q, procs !! j = Some q → j ≠ i → holds p' = true → holds q = true → apart p' q) →
  ∀ j k p q, <[i := p']> procs !! j = Some p → <[i := p']> procs !! k = Some q → j ≠ k →
    holds p = true → holds q = true → apart p q.
Proof.
  intros Hold Hnew j k p q. rewrite !list_lookup_insert_Some.
  intros [(-> & -> & _)|[Hj Hp]] [(-> & -> & _)|[Hk Hq]] Hjk Hhp Hhq; [done|eauto| |eauto].
  symmetry. eauto.
Qed.

Lemma advance_on_inv s i p p' :
  conc_inv s → c_procs s !! i = Some p → unblocked s i p → p_command p' = p_command p →
  p_begun p' = p_begun p → proc_ok (c_db s) (c_past s) p' →
  (holds p' = true → holds p = true ∧ extends p p') →
  conc_inv (mk_conc (c_db s) (<[i := p']> (c_procs s)) (c_past s ++ [c_db s])).
Proof.
  intros [Hwf Hlast Hb Hp Ha] Hi Hun Hcmd Hbeg Hok Hext.
  split; cbn; [done|by rewrite last_snoc| | |].
  - intros j q. rewrite list_lookup_insert_Some, length_app. cbn.
    intros [(<- & <- & _)|[_ Hj]]; [rewrite Hbeg; specialize (Hb _ _ Hi)|specialize (Hb _ _ Hj)]; lia.
  - intros j q. rewrite list_lookup_insert_Some. intros Hj.
    apply proc_ok_frame with (db := c_db s); [done|intros _; split; eauto|].
    destruct Hj as [(<- & <- & _)|[_ Hj]]; eauto.
  - apply apart_insert; [done|]. intros j q Hj Hne Hh Hhq. destruct (Hext Hh) as [Hhp He].
    apply (extends_apart p); [done|done|by eapply Hun|by eapply Ha].
Qed.

Lemma commit_leaves_free s i j p q owner payload reply :
  conc_inv s → c_procs s !! i = Some p → c_procs s !! j = Some q → i ≠ j → holds p = true →
  p_writes p =
    recorded (p_now p) (p_fresh p) (p_command p) owner payload (reply_status reply) empty_db →
  leaves_free q (c_db s)
    (recorded (p_now p) (p_fresh p) (p_command p) owner payload (reply_status reply) (c_db s)).
Proof.
  intros Hinv Hi Hj Hij Hhp Hw Hhq. destruct (ci_apart _ Hinv _ _ _ _ Hi Hj Hij Hhp Hhq) as [Hin Hout].
  assert (inbox (p_writes p) !! event_id (p_command p) =
    Some (inbox_row (p_now p) (p_command p) owner)) as Hpi by (rewrite Hw; apply lookup_insert_eq).
  assert (outbox (p_writes p) !! p_fresh p =
    Some (outbox_row (p_now p) (p_fresh p) (p_command p) payload)) as Hpo
    by (rewrite Hw; apply lookup_insert_eq).
  split; cbn [recorded inbox outbox set_statuses set_outbox set_inbox].
  - intros l r. rewrite lookup_insert_Some. intros [[<- <-]|[_ ?]]; [right|by left].
    intros k x Hk. destruct (Hin _ _ _ _ Hpi Hk) as (? & ? & ?). by split_and!; apply not_eq_sym.
  - intros k o Hk Hno. destruct (decide (k = p_fresh p)) as [->|Hne].
    + destruct (Hout (p_fresh p)); congruence.
    + by rewrite lookup_insert_ne.
Qed.

Lemma advance_commit_inv s i p p' owner payload reply r :
  let db := recorded (p_now p) (p_fresh p) (p_command p) owner payload (reply_status reply) (c_db s) in
  conc_inv s → c_procs s !! i = Some p → p_command p' = p_command p → p_begun p' = p_begun p →
  holds p = true → p_point p' = Ended r → may_enter (c_db s) (p_command p) owner →
  has_reply (c_past s) p reply → may_queue (c_db s) p reply payload →
  p_writes p =
    recorded (p_now p) (p_fresh p) (p_command p) owner payload (reply_status reply) empty_db →
  conc_inv (mk_conc db (<[i := p']> (c_procs s)) (c_past s ++ [db])) ∧ atomic s db.
Proof.
  intros db Hinv Hi Hcmd Hbeg Hh Hpt [Hdup Ho] (q0 & Hq0 & Hr) [Hpay Hfr] Hw.
  pose proof Hinv as [Hwf Hlast Hb Hp Ha].
  split; [|eapply atomic_record; eauto]. split; cbn.
  - destruct Hr as (subject & Hsub & Hr). eapply recorded_wf_from; [done..| |done].
    destruct Hr as [-> | ->]; [apply own_reply_read|apply own_reply_none].
  - by rewrite last_snoc.
  - intros j q. rewrite list_lookup_insert_Some, length_app. cbn.
    intros [(<- & <- & _)|[_ Hj]]; [rewrite Hbeg; specialize (Hb _ _ Hi)|specialize (Hb _ _ Hj)]; lia.
  - intros j q. rewrite list_lookup_insert_Some. intros [(<- & <- & _)|[Hne Hj]].
    + unfold proc_ok. rewrite Hpt, Hcmd. intros _. apply recorded_duplicate.
    + apply proc_ok_frame with (db := c_db s); [| |eauto].
      * intros c (k & x & Hk & Hx). exists k, x. split; [|done].
        unfold db, recorded. cbn [inbox set_statuses set_outbox set_inbox].
        rewrite lookup_insert_ne; [done|]. intros E. apply Hdup. exists k, x. split; [done|].
        left. rewrite E. by rewrite (keyed_inbox _ (tw_keyed _ Hwf) _ _ Hk).
      * by eapply commit_leaves_free.
  - apply apart_insert; [done|]. intros j q _ _ Hh'. unfold holds, ended in Hh'.
    by rewrite Hpt in Hh'.
Qed.

Lemma own_step_inv s s' : conc_inv s → own_step s s' → conc_inv s' ∧ atomic s (c_db s').
Proof.
  intros Hinv Hs. revert Hinv. destruct Hs as [s i p p' db Hi Hne Hun Hadv]. intros Hinv.
  pose proof Hinv as [Hwf Hlast Hb Hp Ha].
  destruct (advance_same _ _ _ _ Hadv) as (Hcmd & _ & Hbeg & _).
  destruct (advance_cases _ _ _ _ _ Hwf Hlast (Hb _ _ Hi) (Hp _ _ Hi) Hadv)
    as [-> Hok Hext|owner payload reply r Hh Hpt Hent Hr Hq Hw ->].
  - split; [by eapply advance_on_inv|apply (atomic_none s)].
  - by eapply advance_commit_inv.
Qed.
Lemma conc_step_inv s s' : conc_inv s → conc_step s s' → conc_inv s' ∧ atomic s (c_db s').
Proof.
  intros Hinv Hs. revert Hinv.
  destruct Hs as [s f now fresh c|s s' Hs|s link now fresh fb actor input r st db Hc Hd|s id now];
    intros Hinv.
  - split; [|apply (atomic_none s)]. pose proof Hinv as [Hwf Hlast Hb Hp Ha].
    assert (0 < length (c_past s))%nat by (destruct (c_past s); cbn; [done|lia]).
    split; cbn; [done..| | |].
    + intros i p [?|[_ [_ <-]%list_lookup_singleton_Some]]%lookup_app_Some; [eauto|]. cbn. lia.
    + intros i p [?|[_ [_ <-]%list_lookup_singleton_Some]]%lookup_app_Some; [eauto|]. apply start_ok.
    + intros i j p q [Hi|[? [Ei <-]%list_lookup_singleton_Some]]%lookup_app_Some
        [Hj|[? [Ej <-]%list_lookup_singleton_Some]]%lookup_app_Some Hij Hh Hhq; [eauto| | |lia].
      * symmetry. apply apart_empty, (start_ok (c_db s) []).
      * apply apart_empty, (start_ok (c_db s) []).
  - by apply own_step_inv.
  - split; [|by eapply atomic_create].
    destruct (create_frame _ _ _ _ _ _ _ _ _ _ Hc Hd) as (Hwf & Hin & Hout).
    apply other_step; [apply Hwf, Hinv|done|by rewrite Hout|done].
  - split; [|apply (atomic_mark s)]. apply other_step; [apply mark_wf, Hinv|done| |done].
    intros k Hk. cbn. destruct (decide (k = id)) as [->|Hne].
    + by rewrite lookup_alter_eq, Hk.
    + by rewrite lookup_alter_ne.
Qed.
Lemma conc_reachable_inv s : conc_reachable s → conc_inv s.
Proof.
  unfold conc_reachable. intros Hr.
  assert (conc_inv conc_init) as Hi.
  { split; cbn; [apply empty_transport_wf|done|by intros ? ?..]. }
  revert Hi. induction Hr as [|s1 s2 s3 Hs _ IH]; [done|]. intros Hi. apply IH.
  by apply (conc_step_inv s1).
Qed.
End invariant.

(** ** Lemmas: one process alone *)

(** A statement that deletes nothing. *)
Record grows (b a : Db) : Prop := {
  gr_alerts k : alerts a !! k = None → alerts b !! k = None;
  gr_inbox k : inbox a !! k = None → inbox b !! k = None;
  gr_outbox k : outbox a !! k = None → outbox b !! k = None;
  gr_statuses k : statuses a !! k = None → statuses b !! k = None;
}.
#[local] Instance grows_refl : Reflexive grows.
Proof. by split. Qed.
Lemma insert_grows {A} (m : gmap Uuid A) j x k : <[j := x]> m !! k = None → m !! k = None.
Proof. by intros [? _]%lookup_insert_None. Qed.
Lemma delta_union {A} `{EqDecision A} (own db after : gmap Uuid A) :
  (∀ k, after !! k = None → (own ∪ db) !! k = None) →
  (delta (own ∪ db) after ∪ own) ∪ db = after.
Proof.
  intros Hg. apply map_eq. intros k. rewrite <-(assoc_L (∪)), lookup_union, delta_lookup.
  case_decide as E; [by rewrite <-E; destruct ((own ∪ db) !! k)|].
  destruct (after !! k) as [x|] eqn:Hk; [by destruct ((own ∪ db) !! k)|].
  by rewrite Hg in E.
Qed.
Lemma overlay_written own db after :
  grows (overlay own db) after → overlay (overlay (written (overlay own db) after) own) db = after.
Proof. intros []. apply db_eq; by apply delta_union. Qed.

Section alone.
Context `{UuidText} `{Postgres} `{Serde} `{ReplyJson}.

Lemma view_go point p db : view (go point p) db = view p db.
Proof. done. Qed.
Lemma view_keep t db p t0 :
  view p db = t0 → grows (work t0) (work t) → view (keep t db p) db = t.
Proof.
  intros <- Hg. unfold view, keep. cbn [p_writes p_state]. destruct t as [w s].
  cbn [work tx_state] in *. f_equal. by apply overlay_written.
Qed.
Lemma view_keep_go t db point p t0 :
  view p db = t0 → grows (work t0) (work t) → view (keep t db (go point p)) db = t.
Proof. intros Hv. apply view_keep. by rewrite view_go. Qed.
Lemma timed_read_grows fate t actor r t' :
  timed_read_alerts fate t actor = (r, t') → grows (work t) (work t').
Proof. intros Hr. by rewrite (timed_read_work _ _ _ _ _ Hr). Qed.
Lemma tx_execute_grows {A} link (stmt : Db → result DbErr (A * Db)) t r t' :
  (∀ db a db', stmt db = Ok (a, db') → grows db db') →
  tx_execute link stmt t = (r, t') → grows (work t) (work t').
Proof.
  intros Hs. unfold tx_execute.
  destruct (tx_state t), link; try (intros [= <- <-]; cbn; reflexivity).
  destruct (stmt (work t)) as [[a db]|e] eqn:E; intros [= <- <-]; cbn; [by eapply Hs|reflexivity].
Qed.
Lemma insert_inbox_grows e c d t a now db n db' :
  INSERT_INBOX_SQL e c d t a now db = Ok (n, db') → grows db db'.
Proof.
  unfold INSERT_INBOX_SQL. intros Hi. inv_ok. destruct (existsb _ _); simplify_eq; [done|].
  split; try done. intros k. apply insert_grows.
Qed.
Lemma insert_outbox_grows e c d su pa now db n db' :
  INSERT_OUTBOX_SQL e c d su pa now db = Ok (n, db') → grows db db'.
Proof.
  unfold INSERT_OUTBOX_SQL. intros Hi. inv_ok.
  destruct (existsb _ _); [by simplify_eq|]. inv_ok. simplify_eq.
  split; try done. intros k. apply insert_grows.
Qed.
Lemma insert_status_grows c t a st now db n db' :
  INSERT_STATUS_SQL c t a st now db = Ok (n, db') → grows db db'.
Proof.
  unfold INSERT_STATUS_SQL. intros Hi. inv_ok. simplify_eq.
  split; try done. intros k. apply insert_grows.
Qed.
Lemma enqueue_reply_grows link now fresh c reply t r t' :
  enqueue_reply link now fresh c reply t = (r, t') → grows (work t) (work t').
Proof.
  unfold enqueue_reply. destruct (event_to_value _); [|by intros [= _ <-]].
  destruct (tx_execute _ _ _) as [r1 t1] eqn:E. intros Hr.
  assert (t1 = t') as -> by (destruct r1; by injection Hr).
  eapply tx_execute_grows; [|exact E]. intros *. apply insert_outbox_grows.
Qed.
Lemma keep_faults t db p : p_faults (keep t db p) = p_faults p.
Proof. done. Qed.
Lemma keep_command t db p : p_command (keep t db p) = p_command p.
Proof. done. Qed.
Lemma keep_now t db p : p_now (keep t db p) = p_now p.
Proof. done. Qed.
Lemma keep_fresh t db p : p_fresh (keep t db p) = p_fresh p.
Proof. done. Qed.
Lemma advances_ended n p db r : p_point p = Ended r → advances n p db = (p, db).
Proof.
  intros Hp. induction n as [|n IH]; [done|]. cbn [advances]. unfold advance. by rewrite Hp.
Qed.
Lemma advances_S n p db : advances (S n) p db = let '(p, db) := advance p db in advances n p db.
Proof. done. Qed.
End alone.

(** ** Lemmas: progress *)

Definition total (procs : list Process) : nat := sum_list_with remaining procs.

#[local] Arguments remaining : simpl never.
Section progress.
Context `{UuidText} `{Postgres} `{Serde} `{ReplyJson}.
Implicit Types (p q : Process) (s : Conc).

Lemma advance_remaining p db p' db' :
  advance p db = (p', db') → ended p = false → (remaining p' < remaining p)%nat.
Proof.
  unfold advance, ended, remaining. destruct (p_point p); [..|done]; intros Ha _.
  - destruct (tx_execute _ _ _) as [[n|] t]; injection Ha as <- _; cbn; [destruct (n =? 1)|]; lia.
  - destruct (uuid_parse _); [destruct (timed_read_alerts _ _ _)|]; injection Ha as <- _; cbn; lia.
  - destruct (enqueue_reply _ _ _ _ _ _) as [[]]; injection Ha as <- _; cbn; lia.
  - destruct (tx_execute _ _ _) as [[] t]; injection Ha as <- _; cbn; lia.
  - destruct (commit _ _ _) as [[]]; injection Ha as <- _; cbn; lia.
Qed.
Lemma total_insert (procs : list Process) i p p' :
  procs !! i = Some p → (total (<[i := p']> procs) + remaining p = total procs + remaining p')%nat.
Proof.
  unfold total. revert i. induction procs as [|q procs IH]; intros [|i]; cbn; intros Hi; simplify_eq; [lia|].
  rewrite <-!Nat.add_assoc. f_equal. by apply IH.
Qed.
Lemma own_step_total s s' : own_step s s' →
  (total (c_procs s') < total (c_procs s))%nat ∧ length (c_procs s') = length (c_procs s).
Proof.
  intros [s0 i p p' db Hi Hne _ Ha]. cbn [c_procs]. rewrite length_insert. split; [|done].
  pose proof (total_insert _ _ _ p' Hi). pose proof (advance_remaining _ _ _ _ Ha Hne). lia.
Qed.
Lemma total_le (procs : list Process) : (total procs <= 5 * length procs)%nat.
Proof.
  unfold total. induction procs as [|p procs IH]; cbn [sum_list_with length]; [lia|].
  assert (remaining p <= 5)%nat by (unfold remaining; destruct (p_point p); lia). lia.
Qed.

(** A process waits only for one that is further on. *)
Lemma waits_remaining db past p q :
  proc_ok db past q → holds q = true → waits p q = true → (remaining q < remaining p)%nat.
Proof.
  unfold waits, proc_ok, holds. intros Hok Hh Hw.
  apply andb_true_iff in Hh as [He%negb_true_iff Ha].
  assert (p_state q = Alive) as Halive by (by destruct (p_state q)).
  assert (∀ f : InboxRow → bool, existsb f (rows ∅) = false) as Ei by done.
  assert (∀ f : OutboxRow → bool, existsb f (rows ∅) = false) as Eo by done.
  unfold remaining. unfold ended in He.
  destruct (p_point q) eqn:Eq; try done.
  - destruct Hok as [_ Hwr]. rewrite Hwr in Hw. destruct (p_point p); done.
  - destruct Hok as (_ & owner & _ & Hwr). rewrite Hwr in Hw.
    destruct (p_point p); cbn [inbox outbox statuses entered set_inbox empty_db] in Hw;
      rewrite ?Eo, ?lookup_empty in Hw; done || lia.
  - destruct (Hok Halive) as (owner & _ & Hwr & _). rewrite Hwr in Hw.
    destruct (p_point p); cbn [inbox outbox statuses entered set_inbox empty_db] in Hw;
      rewrite ?Eo, ?lookup_empty in Hw; done || lia.
  - destruct Hok as (_ & owner & payload & _ & _ & _ & Hwr). rewrite Hwr in Hw.
    destruct (p_point p); cbn [statuses queued entered set_inbox set_outbox empty_db] in Hw;
      rewrite ?lookup_empty in Hw; done || lia.
  - destruct (p_point p); done || lia.
Qed.

Lemma some_unblocked s i p :
  conc_inv s → c_procs s !! i = Some p → ended p = false →
  ∃ j q, c_procs s !! j = Some q ∧ ended q = false ∧ unblocked s j q.
Proof.
  intros Hinv. remember (remaining p) as n eqn:Hn. revert i p Hn.
  induction n as [n IH] using lt_wf_ind. intros i p -> Hi Hne.
  set (blocks j := j ≠ i ∧ match c_procs s !! j with
                           | Some q => holds q = true ∧ waits p q = true | None => False end).
  assert (∀ j, Decision (blocks j)) as Hdec.
  { intros j. unfold blocks. destruct (c_procs s !! j); apply _. }
  destruct (decide (Exists blocks (seq 0 (length (c_procs s))))) as [E|E].
  - apply Exists_exists in E as (j & _ & Hji & Hb). destruct (c_procs s !! j) as [q|] eqn:Hj; [|done].
    destruct Hb as [Hh Hw].
    eapply (IH (remaining q)); [|done|exact Hj|].
    + by eapply (waits_remaining (c_db s) (c_past s)); [eapply ci_proc|..].
    + unfold holds in Hh. by apply andb_true_iff in Hh as [?%negb_true_iff _].
  - exists i, p. split_and!; [done..|]. intros j q Hji Hj Hh. apply not_true_iff_false. intros Hw.
    apply E, Exists_exists. exists j. split; [|unfold blocks; by rewrite Hj].
    apply elem_of_seq. apply lookup_lt_Some in Hj. lia.
Qed.
End progress.
(** ** Properties *)

Section properties.
Context `{UuidText} `{Postgres} `{Serde} `{ReplyJson}.

(** One await of a process whose view [V] gives; the end of a process. *)
Ltac await V :=
  rewrite advances_S; unfold advance at 1;
  rewrite ?view_go, V;
  repeat first [progress (rewrite ?keep_faults, ?keep_command, ?keep_now, ?keep_fresh)
               |progress (cbn [p_point go p_faults p_command p_now p_fresh])].
Ltac stop := eexists; split; [by eapply advances_ended|done].

(** The statements of one command, run without others in between, are exactly
    [process_command]: five awaits end the process with its result and its database, whatever
    fails. *)
Theorem statements_compose begun f now fresh c db :
  ∃ p, advances 5 (start begun f now fresh c) db = (p, snd (process_command f now fresh c db)) ∧
    p_point p = Ended (fst (process_command f now fresh c db)).
Proof.
  unfold process_command, start. destruct (f_begin f) eqn:Hb; cbn [begin]; [|stop..].
  assert (view (mk_process begun f now fresh c Alive empty_db AtInbox) db = mk_tx db Alive) as V0
    by (unfold view; cbn; by rewrite overlay_empty).
  await V0.
  destruct (tx_execute (f_inbox f) _ _) as [[n|e] t1] eqn:E1; [|stop].
  pose proof (view_keep t1 db _ _ V0 (tx_execute_grows _ _ _ _ _
    (insert_inbox_grows _ _ _ _ _ _) E1)) as V1.
  destruct (n =? 1); [|await V1; destruct (commit _ _ _) as [[[]|e] db']; stop].
  await V1. unfold answer_command. destruct (uuid_parse _) as [subject|]; [|stop].
  destruct (timed_read_alerts _ _ _) as [r t2] eqn:E2.
  pose proof (view_keep_go t2 db AtQuery _ _ V1 (timed_read_grows _ _ _ _ _ E2)) as V2.
  await V2. destruct (enqueue_reply _ _ _ _ _ _) as [[[]|e] t3] eqn:E3; [|stop].
  pose proof (view_keep_go t3 db (AtOutbox (reply_of (correlation_id c) r)) _ _ V2
    (enqueue_reply_grows _ _ _ _ _ _ _ _ E3)) as V3.
  await V3. destruct (tx_execute (f_status f) _ _) as [[m|e] t4] eqn:E4; [|stop].
  pose proof (view_keep_go t4 db (AtStatus (reply_of (correlation_id c) r)) _ _ V3
    (tx_execute_grows _ _ _ _ _ (insert_status_grows _ _ _ _ _) E4)) as V4.
  await V4. destruct (commit _ _ _) as [[[]|e] db']; stop.
Qed.

(** C2: no interleaving breaks a transaction.  Whatever servers, HTTP writers and publishers do
    in between, each step of the system leaves the committed state as it was, creates an
    alert, marks a reply, or records one new command completely: its inbox row, the reply made
    from the alerts committed at some moment since its transaction began, and its status.  The
    transport tables stay well formed, and a process that ended well has its command
    recorded. *)
Theorem interleaved_steps_atomic s s' :
  conc_reachable s → conc_step s s' →
  atomic s (c_db s') ∧ transport_wf (c_db s') ∧
  ∀ i p, c_procs s' !! i = Some p → p_point p = Ended (Ok tt) → duplicate (p_command p) (c_db s').
Proof.
  intros Hr Hs. destruct (conc_step_inv s s' (conc_reachable_inv s Hr) Hs) as [Hinv Hat].
  split; [done|]. split; [by apply ci_wf|]. intros i p Hi Hpt.
  pose proof (ci_proc _ Hinv _ _ Hi) as Hok. unfold proc_ok in Hok. rewrite Hpt in Hok. by apply Hok.
Qed.

(** C26: every transaction ends.  However the processes of a reachable state are scheduled, they
    take at most five awaits each; none waits forever, since some process can always go on:
    all of them can be run to their end. *)
Theorem transactions_end s :
  conc_reachable s →
  (∀ n s', nsteps own_step n s s' → (n <= 5 * length (c_procs s))%nat) ∧
  (∀ s', rtc own_step s s' → (∃ p, p ∈ c_procs s' ∧ ended p = false) → ∃ s'', own_step s' s'') ∧
  ∃ s', rtc own_step s s' ∧ length (c_procs s') = length (c_procs s) ∧
    Forall (λ p, ended p = true) (c_procs s').
Proof.
  intros Hr%conc_reachable_inv.
  assert (∀ t, conc_inv t → (∃ p, p ∈ c_procs t ∧ ended p = false) → ∃ t', own_step t t') as Hgo.
  { intros t Ht (p & [i Hi]%list_elem_of_lookup_1 & Hne).
    destruct (some_unblocked _ _ _ Ht Hi Hne) as (j & q & Hj & Hq & Hun).
    destruct (advance q (c_db t)) as [q' db] eqn:Ha. eexists. by eapply own_advance. }
  split; [|split].
  - intros n s' Hn. assert (n + total (c_procs s') <= total (c_procs s))%nat as Hle.
    { clear Hr Hgo. induction Hn as [|n s1 s2 s3 H12 _ IH]; [lia|].
      pose proof (proj1 (own_step_total _ _ H12)). lia. }
    pose proof (total_le (c_procs s)). lia.
  - intros s' Hs. apply Hgo. clear Hgo. induction Hs as [|s1 s2 s3 H12 _ IH]; [done|].
    by apply IH, (own_step_inv s1).
  - remember (total (c_procs s)) as n eqn:Hn. revert s Hr Hn.
    induction n as [n IH] using lt_wf_ind. intros s Hr ->.
    destruct (decide (Exists (λ p, ended p = false) (c_procs s))) as [E|E].
    + apply Exists_exists in E. destruct (Hgo _ Hr E) as [s1 Hs1].
      destruct (own_step_total _ _ Hs1) as [Hlt Hlen].
      destruct (IH _ Hlt s1 (proj1 (own_step_inv _ _ Hr Hs1)) eq_refl) as (s' & Hs' & Hl & Hall).
      exists s'. split; [by eapply rtc_l|]. split; [congruence|done].
    + exists s. split; [done|]. split; [done|].
      apply Forall_forall. intros p Hp. destruct (ended p) eqn:Hpe; [done|].
      destruct E. apply Exists_exists. eauto.
Qed.
End properties.

(** ** Examples *)

Section scheduler.
Context `{UuidText} `{Postgres} `{Serde} `{ReplyJson}.

(** Let the [i]-th process run one await. *)
Definition drive (i : nat) (s : Conc) : Conc :=
  match c_procs s !! i with
  | Some p => let '(p', db) := advance p (c_db s) in
              mk_conc db (<[i := p']> (c_procs s)) (c_past s ++ [db])
  | None => s
  end.
Definition ready (i : nat) (s : Conc) : bool :=
  match c_procs s !! i with
  | Some p => negb (ended p) &&
      forallb (λ j, bool_decide (j = i) ||
        match c_procs s !! j with
        | Some q => negb (holds q && waits p q)
        | None => true
        end) (seq 0 (length (c_procs s)))
  | None => false
  end.
Lemma drive_step i s : ready i s = true → own_step s (drive i s).
Proof.
  unfold ready, drive. destruct (c_procs s !! i) as [p|] eqn:Hi; [|done].
  rewrite andb_true_iff, negb_true_iff, forallb_forall. intros [Hne Hall].
  destruct (advance p (c_db s)) as [p' db] eqn:Ha. eapply own_advance; [done|done| |done].
  intros j q Hji Hj Hh. assert (List.In j (seq 0 (length (c_procs s)))) as Hin.
  { apply in_seq. apply lookup_lt_Some in Hj. lia. }
  specialize (Hall j Hin). rewrite bool_decide_eq_false_2 in Hall by done.
  rewrite Hj, Hh in Hall. cbn in Hall. by apply negb_true_iff in Hall.
Qed.
(** A schedule, and whether each of its steps was possible. *)
Definition schedule (l : list nat) (s : Conc) : Conc := fold_left (λ s i, drive i s) l s.
Fixpoint possible (l : list nat) (s : Conc) : bool :=
  match l with [] => true | i :: l => ready i s && possible l (drive i s) end.
Lemma schedule_reachable l s :
  conc_reachable s → possible l s = true → conc_reachable (schedule l s).
Proof.
  revert s. induction l as [|i l IH]; intros s Hr; cbn; [done|].
  rewrite andb_true_iff. intros [Hi Hl]. apply IH; [|done].
  eapply rtc_r; [exact Hr|]. by apply conc_own, drive_step.
Qed.
End scheduler.

Import CanonicalInstances SampleStorage.Instances SampleCommand.Instances SampleReply.Instances.

Lemma statements_compose_witness :
  ∃ p, advances 5 (start 0 no_faults 5000 (uuid_of 77) SampleCommand.command) empty_db =
    (p, snd (process_command no_faults 5000 (uuid_of 77) SampleCommand.command empty_db)) ∧
    p_point p = Ended (Ok tt).
Proof.
  destruct (statements_compose 0 no_faults 5000 (uuid_of 77) SampleCommand.command empty_db)
    as (p & Hp & Hpt).
  exists p. split; [exact Hp|]. rewrite Hpt. by vm_compute.
Defined.

(** Two servers get the same command; the second one waits for the first. *)
Definition two_servers : Conc :=
  mk_conc empty_db [start 0 no_faults 5000 (uuid_of 77) SampleCommand.command;
                    start 0 no_faults 5001 (uuid_of 78) SampleCommand.command] [empty_db].
Lemma two_servers_reachable : conc_reachable two_servers.
Proof.
  eapply rtc_l; [apply (conc_start conc_init no_faults 5000 (uuid_of 77) SampleCommand.command)|].
  eapply rtc_l; [|reflexivity].
  apply (conc_start (mk_conc empty_db [start 0 no_faults 5000 (uuid_of 77) SampleCommand.command]
    [empty_db]) no_faults 5001 (uuid_of 78) SampleCommand.command).
Qed.
Definition first_wrote : Conc := schedule [0%nat; 0%nat; 0%nat; 0%nat] two_servers.

Lemma interleaved_steps_atomic_witness :
  ready 1 first_wrote = false ∧
  length (rows (inbox (c_db first_wrote))) = 0%nat ∧
  length (rows (inbox (c_db (drive 0 first_wrote)))) = 1%nat ∧
  atomic first_wrote (c_db (drive 0 first_wrote)).
Proof.
  split; [by vm_compute|]. split; [by vm_compute|]. split; [by vm_compute|].
  apply (interleaved_steps_atomic first_wrote (drive 0 first_wrote)).
  - apply schedule_reachable; [apply two_servers_reachable|by vm_compute].
  - apply conc_own, drive_step. by vm_compute.
Defined.

Lemma transactions_end_witness :
  ready 1 (schedule [0%nat] two_servers) = false ∧
  ∃ s', rtc own_step (schedule [0%nat] two_servers) s' ∧
    length (c_procs s') = length (c_procs (schedule [0%nat] two_servers)) ∧
    Forall (λ p, ended p = true) (c_procs s').
Proof.
  split; [by vm_compute|]. apply transactions_end.
  apply schedule_reachable; [apply two_servers_reachable|by vm_compute].
Defined.
