(* ===== verification/Jetstream.v ===== *)
(** * The JetStream transport ([run_jetstream], [spawn_jetstream_from_env] of
    [src/transport.rs])

    The consumer loop over command deliveries, the configuration of the transport, and the
    system of consumer, publisher and HTTP writers over one database as a step relation. *)

From S2P Require Import Prelude Str Float Ids Model Auth Database Store Envelope Commands Outbox.
Open Scope N_scope.

(** ** Streams *)

Definition COMMAND_STREAM : str := lit "EAL_COMMANDS_V1".
Definition COMMAND_SUBJECT_WILDCARD : str := lit "eal.command.*.v1".
Definition EVENT_STREAM : str := lit "EAL_EVENTS_V1".
Definition EVENT_SUBJECT_WILDCARD : str := lit "eal.event.*.v1".
Definition COMMAND_DURABLE : str := lit "eal-api-commands-v1".

Inductive StorageType := File | Memory.
Inductive AckPolicy := Explicit | NoAck | AllAck.
Record StreamConfig := mk_stream {
  s_name : str; subjects : list str; storage : StorageType;
  max_messages : Z; max_message_size : Z;
}.
Record ConsumerConfig := mk_consumer {
  durable_name : option str; ack_policy : AckPolicy; ack_wait_ms : N;
  filter_subject : str; max_ack_pending : Z; max_deliver : Z;
}.
Definition command_stream : StreamConfig :=
  mk_stream COMMAND_STREAM [COMMAND_SUBJECT_WILDCARD] File 100000
    (Z.of_N MAX_NATS_PAYLOAD_BYTES).
Definition event_stream : StreamConfig :=
  mk_stream EVENT_STREAM [EVENT_SUBJECT_WILDCARD] File 100000 (Z.of_N MAX_NATS_PAYLOAD_BYTES).
Definition command_consumer : ConsumerConfig :=
  mk_consumer (Some COMMAND_DURABLE) Explicit 30000 COMMAND_SUBJECT_WILDCARD 64 8.

(** NATS subjects: tokens separated by dots; the wildcard [*] stands for one token. *)
Fixpoint tokens (acc s : str) : list str :=
  match s with
  | [] => [reverse acc]
  | c :: s => if c =? 46 then reverse acc :: tokens [] s else tokens (c :: acc) s
  end.
Fixpoint tokens_match (pattern subject : list str) : bool :=
  match pattern, subject with
  | [], [] => true
  | p :: pattern, t :: subject =>
      (if str_eqb p (lit "*") then negb (is_empty t) else str_eqb p t)
      && tokens_match pattern subject
  | _, _ => false
  end.
Definition subject_matches (pattern subject : str) : bool :=
  tokens_match (tokens [] pattern) (tokens [] subject).

(** ** Configuration *)

Record JetstreamSettings := mk_jetstream {
  js_url : str; js_product_tenant : str; js_command_key : list N;
}.
Definition spawn_jetstream_from_env (env : str → option str) (store : AlertStore)
    (product_tenant : str) : result str (option JetstreamSettings) :=
  match optional_env env (lit "NATS_URL") with
  | None => Ok None
  | Some url =>
      validate_nats_url url;;
      command_key ← required_setting env (lit "EAL_NATS_COMMAND_HMAC_KEY");
      let command_key := as_bytes command_key in
      if negb (valid_command_key command_key)
      then Err (lit "EAL_NATS_COMMAND_HMAC_KEY is malformed") else
      ok_or (database store)
        (lit "JetStream requires DATABASE_URL for durable inbox/outbox state");;
      Ok (Some (mk_jetstream url product_tenant command_key))
  end.

(** ** The consumer *)

(** [serde_json::from_slice] of a command. *)
Class CommandJson := { command_from_slice : list N → option AsyncCommand }.

Inductive Ack := Term | Acked.
(** The surroundings of one delivery: the clock, the faults of its transaction, the
    database's [now()], the value of [Uuid::new_v4()], and whether the acknowledgement is
    sent. *)
Record Delivery := mk_delivery {
  d_clock : Z; d_faults : Faults; d_now : DateTime; d_fresh : Uuid; d_ack : bool;
}.
(** What the body of the loop did: the acknowledgement it tried to send (the attempt may have
    failed, see [d_ack]), its result, and the database after it. *)
Record Handled := mk_handled { h_ack : option Ack; h_result : result str unit; h_db : Db }.

Section jetstream.
Context `{UuidText} `{Postgres} `{Serde} `{ReplyJson} `{Crypto} `{CommandJson}.

Definition terminate (d : Delivery) (db : Db) : Handled :=
  mk_handled (Some Term)
    (if d_ack d then Ok tt else Err (lit "JetStream termination acknowledgement failed")) db.

(** The body of the [while let Some(message)] loop, for a message that arrived. *)
Definition handle_message (tenant : str) (key : list N) (d : Delivery) (payload : list N)
    (db : Db) : Handled :=
  if MAX_NATS_PAYLOAD_BYTES <? N.of_nat (length payload) then terminate d db else
  match command_from_slice payload with
  | None => terminate d db
  | Some command =>
      match unix_ms (d_clock d) with
      | None => mk_handled None (Err (lit "system clock is unavailable")) db
      | Some now =>
          if negb (command_accepted tenant key now command) then terminate d db else
          match process_command (d_faults d) (d_now d) (d_fresh d) command db with
          | (Err e, db) => mk_handled None (Err e) db
          | (Ok _, db) =>
              mk_handled (Some Acked)
                (if d_ack d then Ok tt else Err (lit "JetStream explicit acknowledgement failed"))
                db
          end
      end
  end.

(** The loop: a delivery is a message with its surroundings or an error of the subscription.
    The result holds the acknowledgements, in order. *)
Fixpoint consume (tenant : str) (key : list N) (deliveries : list (Delivery * option (list N)))
    (db : Db) : list (list N * Ack) * (result str unit * Db) :=
  match deliveries with
  | [] => ([], (Err (lit "JetStream command delivery ended"), db))
  | (_, None) :: _ => ([], (Err (lit "JetStream command delivery failed"), db))
  | (d, Some payload) :: deliveries =>
      let h := handle_message tenant key d payload db in
      let acks := match h_ack h with Some a => [(payload, a)] | None => [] end in
      match h_result h with
      | Err e => (acks, (Err e, h_db h))
      | Ok _ =>
          let '(more, r) := consume tenant key deliveries (h_db h) in (acks ++ more, r)
      end
  end.

(** The setup of [run_jetstream]: each await succeeds or not. *)
Record Setup := mk_setup {
  connects : bool; has_command_stream : bool; has_event_stream : bool;
  has_consumer : bool; has_messages : bool;
}.
Definition publisher_started (s : Setup) : bool :=
  connects s && has_command_stream s && has_event_stream s && has_consumer s.
Definition run_jetstream (s : Setup) (settings : JetstreamSettings)
    (deliveries : list (Delivery * option (list N))) (db : Db)
    : list (list N * Ack) * (result str unit * Db) :=
  let fail m := ([], (Err (lit m), db)) in
  if negb (connects s) then fail "NATS connection failed"%string else
  if negb (has_command_stream s) then fail "durable command stream is unavailable"%string else
  if negb (has_event_stream s) then fail "durable event stream is unavailable"%string else
  if negb (has_consumer s) then fail "durable command consumer is unavailable"%string else
  if negb (has_messages s) then fail "JetStream command delivery is unavailable"%string else
  consume (js_product_tenant settings) (js_command_key settings) deliveries db.
End jetstream.

(** ** The system

    Consumer, publishers and HTTP writers share the database and interleave: between the
    selection of a batch of replies and the publication of each of its rows anything else may
    happen, also other passes over the same replies (several servers run on one database).
    The consumer task ends with its first error and runs again when the server restarts.
    [sys_acks] are the acknowledgements it tried to send, [sys_batches] the replies each pass still has
    to publish. *)

Record System := mk_system {
  sys_db : Db; sys_log : list Message; sys_running : bool; sys_acks : list (list N * Ack);
  sys_batches : list (list OutboxResult);
}.

Section system.
Context `{UuidText} `{Postgres} `{Serde} `{ReplyJson} `{Crypto} `{CommandJson} `{NatsCodec}.
Context (tenant : str) (key : list N).

Definition sys_init : System := mk_system empty_db [] true [] [].
Inductive step : System → System → Prop :=
| step_deliver s d payload :
    sys_running s = true →
    let h := handle_message tenant key d payload (sys_db s) in
    step s (mk_system (h_db h) (sys_log s) (is_ok (h_result h))
      (match h_ack h with Some a => sys_acks s ++ [(payload, a)] | None => sys_acks s end)
      (sys_batches s))
| step_delivery_error s :
    step s (mk_system (sys_db s) (sys_log s) false (sys_acks s) (sys_batches s))
| step_restart s :
    step s (mk_system (sys_db s) (sys_log s) true (sys_acks s) (sys_batches s))
| step_select s link rows :
    query link SELECT_OUTBOX_SQL (sys_db s) = Ok rows →
    step s (mk_system (sys_db s) (sys_log s) (sys_running s) (sys_acks s)
      (sys_batches s ++ [outbox_result <$> rows]))
| step_publish s i r rest f res db log :
    sys_batches s !! i = Some (r :: rest) →
    publish_one f r (sys_db s, sys_log s) = (res, (db, log)) →
    step s (mk_system db log (sys_running s) (sys_acks s)
      (<[i := if is_ok res then rest else []]> (sys_batches s)))
| step_abandon s i :
    step s (mk_system (sys_db s) (sys_log s) (sys_running s) (sys_acks s)
      (<[i := []]> (sys_batches s)))
| step_create s link now fresh fallback actor input r store db :
    create link now fresh (mk_store (Some (sys_db s)) fallback) actor input = (r, store) →
    database store = Some db →
    step s (mk_system db (sys_log s) (sys_running s) (sys_acks s) (sys_batches s)).
Definition reachable : System → Prop := rtc step sys_init.
(** The system after one delivery. *)
Definition after_delivery (d : Delivery) (payload : list N) (s : System) : System :=
  let h := handle_message tenant key d payload (sys_db s) in
  mk_system (h_db h) (sys_log s) (is_ok (h_result h))
    (match h_ack h with Some a => sys_acks s ++ [(payload, a)] | None => sys_acks s end)
    (sys_batches s).
Lemma after_delivery_reachable d payload s :
  reachable s → sys_running s = true → reachable (after_delivery d payload s).
Proof. intros Hr Hrun. eapply rtc_r; [exact Hr|by apply step_deliver]. Qed.

(** One attempt of the NATS server to deliver a message: the server's clock in milliseconds
    when it sends the message; the surroundings in which the loop handles it, later if the
    message waited in the buffer of the subscription; the database it finds; whether the
    consumer was started again before it; and whether an acknowledgement the loop sent reaches
    the server, which a sender is not told. *)
Record Attempt := mk_attempt {
  at_server : N; at_delivery : Delivery; at_db : Db; at_restarted : bool; at_received : bool;
}.
Definition attempt (payload : list N) (a : Attempt) : Handled :=
  handle_message tenant key (at_delivery a) payload (at_db a).
Definition settled (payload : list N) (a : Attempt) : bool :=
  is_some (h_ack (attempt payload a)) && d_ack (at_delivery a) && at_received a.
(** The deliveries of one message: again until the server has an acknowledgement.  An error
    ends the consumer, and nothing is delivered before it is started again. *)
Fixpoint redeliver (payload : list N) (attempts : list Attempt) : list Handled :=
  match attempts with
  | [] => []
  | a :: attempts =>
      let h := attempt payload a in
      h :: if settled payload a then [] else
        match attempts with
        | next :: _ => if is_ok (h_result h) || at_restarted next then redeliver payload attempts else []
        | [] => []
        end
  end.
Definition deliveries (payload : list N) (attempts : list Attempt) : list Handled :=
  redeliver payload (take (Z.to_nat (max_deliver command_consumer)) attempts).

(** Whether the attempt passes the message to [process_command]. *)
Definition runs (payload : list N) (a : Attempt) : bool :=
  (N.of_nat (length payload) <=? MAX_NATS_PAYLOAD_BYTES) &&
  match command_from_slice payload, unix_ms (d_clock (at_delivery a)) with
  | Some c, Some now => command_accepted tenant key now c
  | _, _ => false
  end.
End system.

(** The acknowledgement wait runs from one delivery by the server to the next. *)
Fixpoint spaced (attempts : list Attempt) : bool :=
  match attempts with
  | a :: ((b :: _) as attempts) =>
      (at_server a + ack_wait_ms command_consumer <=? at_server b) && spaced attempts
  | _ => true
  end.
(** The handler's clock, which is the server's, is not behind the delivery. *)
Definition handled_after (a : Attempt) : Prop :=
  ∀ t, unix_ms (d_clock (at_delivery a)) = Some t → at_server a <= t.

(** ** Invariants *)

Section invariants.
Context `{UuidText} `{Postgres} `{Serde} `{ReplyJson} `{Crypto} `{CommandJson} `{NatsCodec}.
Context (tenant : str) (key : list N).

(** Every inbox row was made from a command that passed the acceptance test. *)
Definition authentic (i : InboxRow) : Prop :=
  ∃ c now_ms, command_accepted tenant key now_ms c = true ∧
    in_event_id i = event_id c ∧ in_correlation_id i = correlation_id c ∧
    in_dedupe_key i = dedupe_key c ∧ in_product_tenant i = tenant.
Definition inbox_from (db : Db) : Prop := ∀ k i, inbox db !! k = Some i → authentic i.
Definition refused (payload : list N) : Prop :=
  MAX_NATS_PAYLOAD_BYTES < N.of_nat (length payload) ∨
  command_from_slice payload = None ∨
  ∃ c now_ms, command_from_slice payload = Some c ∧ command_accepted tenant key now_ms c = false.
Definition acks_ok (db : Db) (acks : list (list N * Ack)) : Prop :=
  ∀ payload a, (payload, a) ∈ acks →
    match a with
    | Acked => ∃ c, command_from_slice payload = Some c ∧ duplicate c db
    | Term => refused payload
    end.
Record sys_inv (s : System) : Prop := {
  si_wf : transport_wf (sys_db s);
  si_log : log_wf (sys_db s) (sys_log s);
  si_inbox : inbox_from (sys_db s);
  si_acks : acks_ok (sys_db s) (sys_acks s);
  si_batches : Forall (Forall (still_there (sys_db s))) (sys_batches s);
}.

(** The inbox only grows. *)
Definition inbox_le (db db' : Db) : Prop := inbox db ⊆ inbox db'.
#[local] Instance inbox_le_refl : Reflexive inbox_le.
Proof. intros db. unfold inbox_le. done. Qed.
#[local] Instance outbox_le_refl : Reflexive outbox_le.
Proof. intros db k o Ho. eauto. Qed.
Lemma batches_mono db db' l :
  outbox_le db db' → Forall (Forall (still_there db)) l → Forall (Forall (still_there db')) l.
Proof.
  intros Hle Hl. eapply Forall_impl; [exact Hl|]. intros b Hb. eapply Forall_impl; [exact Hb|].
  intros r. by apply still_there_mono.
Qed.
Lemma duplicate_mono c db db' : inbox_le db db' → duplicate c db → duplicate c db'.
Proof.
  intros Hle (k & i & Hi & Hd). exists k, i. split; [|done]. by eapply lookup_weaken.
Qed.
Lemma acks_ok_mono db db' acks : inbox_le db db' → acks_ok db acks → acks_ok db' acks.
Proof.
  intros Hle Hacks p [] Hin; [by apply (Hacks p Term)|].
  destruct (Hacks p Acked Hin) as (c & ? & ?). eauto using duplicate_mono.
Qed.
Lemma recorded_inbox_le now fresh c owner payload status db :
  db_keyed db → ¬ duplicate c db → inbox_le db (recorded now fresh c owner payload status db).
Proof.
  intros Hk Hdup. apply insert_subseteq. apply eq_None_not_Some. intros [i Hi]. apply Hdup.
  exists (event_id c), i. split; [done|]. left. by rewrite (keyed_inbox _ Hk _ _ Hi).
Qed.
Lemma recorded_log_wf f now fresh c db owner reply payload log :
  first_delivery f now fresh c db owner reply payload → log_wf db log →
  log_wf (recorded now fresh c owner payload (reply_status reply) db) log.
Proof.
  intros [_ _ _ _ _ _ Hfr _] [Hl1 Hl2]. split; cbn [outbox recorded set_statuses set_outbox set_inbox].
  - intros m (k & o & Ho & Hm)%Hl1. exists k, o. split; [|done].
    apply lookup_insert_Some. right. split; [|done]. intros ->. congruence.
  - intros k o. rewrite lookup_insert_Some. intros [[<- <-]|[_ Ho]]; [by intros []|eauto].
Qed.
Lemma recorded_outbox_le now fresh c owner payload status db :
  outbox db !! fresh = None → outbox_le db (recorded now fresh c owner payload status db).
Proof.
  intros Hfr k o Ho. exists o. split; [|done]. cbn [outbox recorded set_statuses set_outbox set_inbox].
  apply lookup_insert_Some. right. split; [|done]. intros ->. congruence.
Qed.
Lemma recorded_inbox_from now fresh c owner payload status db now_ms :
  command_accepted tenant key now_ms c = true → inbox_from db →
  inbox_from (recorded now fresh c owner payload status db).
Proof.
  intros Hacc Hfrom k i. cbn [inbox recorded set_statuses set_outbox set_inbox].
  rewrite lookup_insert_Some. intros [[<- <-]|[_ Hi]]; [|eauto].
  exists c, now_ms. split_and!; try done. by apply command_accepted_iff in Hacc as [].
Qed.

(** One message: what is acknowledged, and what happens to the database. *)
Lemma handle_message_cases d payload db :
  let h := handle_message tenant key d payload db in
  (h_ack h = Some Term ∧ h_db h = db ∧ refused payload) ∨
  (h_ack h = None ∧ h_db h = db ∧ is_err (h_result h) = true) ∨
  ∃ c now_ms r, command_from_slice payload = Some c ∧ unix_ms (d_clock d) = Some now_ms ∧
    command_accepted tenant key now_ms c = true ∧
    process_command (d_faults d) (d_now d) (d_fresh d) c db = (r, h_db h) ∧
    (r = Ok tt ∧ h_ack h = Some Acked ∨
     (∃ e, r = Err e) ∧ h_ack h = None ∧ is_err (h_result h) = true).
Proof.
  unfold handle_message, refused. cbn zeta.
  destruct (N.ltb_spec MAX_NATS_PAYLOAD_BYTES (N.of_nat (length payload))) as [Hl|Hl]; [by left; auto|].
  destruct (command_from_slice payload) as [c|] eqn:Hc; [|by left; auto].
  destruct (unix_ms (d_clock d)) as [now|]; [|by right; left].
  destruct (command_accepted tenant key now c) eqn:Ha; cbn [negb]; [|by left; eauto 8].
  right; right. exists c, now.
  destruct (process_command _ _ _ c db) as [[[]|e] db'] eqn:Hp; eexists;
    do 4 (split; [done|]); [by left|]. right. by split; [eexists|].
Qed.

Lemma handle_message_inv d payload db log :
  transport_wf db → log_wf db log → inbox_from db →
  let h := handle_message tenant key d payload db in
  transport_wf (h_db h) ∧ log_wf (h_db h) log ∧ inbox_from (h_db h) ∧ inbox_le db (h_db h) ∧
  outbox_le db (h_db h) ∧
  match h_ack h with
  | Some Acked => ∃ c, command_from_slice payload = Some c ∧ duplicate c (h_db h)
  | Some Term => refused payload
  | None => is_err (h_result h) = true
  end.
Proof.
  intros Hwf Hlog Hfrom h. pose proof (handle_message_cases d payload db) as Hcases.
  cbn zeta in Hcases. fold h in Hcases. clearbody h.
  destruct Hcases as [(Ha & Hd & Hr)|[(Ha & Hd & Hr)|(c & n & r & Hc & Hn & Hacc & Hp & Hr)]].
  - rewrite Ha, Hd. by split_and!.
  - rewrite Ha, Hd. by split_and!.
  - pose proof (process_wf _ _ _ _ _ _ _ Hwf Hp) as Hwf'.
    destruct (process_cases _ _ _ _ _ _ _ Hwf Hp)
      as [[Hd [e ->]]|[(Hd & -> & Hdup)|(o & re & pa & Hfd & Hd & Hre)]].
    + destruct Hr as [[? _]|(_ & -> & Hr)]; [done|]. rewrite Hd. by split_and!.
    + destruct Hr as [[_ ->]|[[e ?] _]]; [|done]. rewrite Hd. split_and!; (done || eauto).
    + rewrite Hd. split_and!; [by rewrite <-Hd|by eapply recorded_log_wf|
        by eapply recorded_inbox_from| | |].
      * apply recorded_inbox_le; [apply Hwf|]. by destruct Hfd.
      * apply recorded_outbox_le. by destruct Hfd.
      * destruct Hr as [[_ ->]|(_ & -> & ?)]; [|done]. eauto using recorded_duplicate.
Qed.

Lemma inbox_frame db db' acks :
  inbox db' = inbox db → inbox_from db → acks_ok db acks → inbox_from db' ∧ acks_ok db' acks.
Proof.
  intros Hin Hfrom Hacks. split; [unfold inbox_from; by rewrite Hin|].
  eapply acks_ok_mono; [|done]. unfold inbox_le. by rewrite Hin.
Qed.
Lemma step_inv s s' : step tenant key s s' → sys_inv s → sys_inv s'.
Proof.
  intros Hs [Hwf Hlog Hfrom Hacks Hb].
  destruct Hs as [s d p Hrun h|s|s|s link rows Hq|s i r rest f res db log Hi Hp|s i
                 |s link now fresh fb actor input r st db Hc Hd]; try by split.
  - destruct (handle_message_inv d p _ _ Hwf Hlog Hfrom) as (? & ? & ? & Hle & Hle' & Ha).
    fold h in Ha, Hle, Hle'.
    split; cbn [sys_db sys_log sys_acks sys_batches]; [done..| |by eapply batches_mono].
    pose proof (acks_ok_mono _ _ _ Hle Hacks) as Hacks'.
    destruct (h_ack h) as [a|]; [|done]. intros p' a'.
    rewrite elem_of_app, list_elem_of_singleton. intros [Hin|[= -> ->]]; [by apply Hacks'|].
    by destruct a.
  - split; cbn [sys_db sys_log sys_acks sys_batches]; [done..|].
    apply Forall_app_2; [done|]. apply Forall_singleton.
    destruct link; cbn in Hq; simplify_eq. apply selected_still_there.
  - pose proof (Forall_lookup_1 _ _ _ _ Hb Hi) as Hr. apply Forall_cons in Hr as [Hr Hrest].
    destruct (publish_one_step _ _ _ _ _ _ _ Hwf Hlog Hr Hp) as (? & ? & Hle & Hin).
    destruct (inbox_frame _ _ _ Hin Hfrom Hacks) as [? ?].
    split; cbn [sys_db sys_log sys_acks sys_batches]; [done..|].
    apply (batches_mono _ _ _ Hle). apply Forall_insert; [done|]. by destruct (is_ok res).
  - split; cbn [sys_db sys_log sys_acks sys_batches]; [done..|]. by apply Forall_insert.
  - destruct (create_frame _ _ _ _ _ _ _ _ _ _ Hc Hd) as (? & Hin & Hout).
    destruct (inbox_frame _ _ _ Hin Hfrom Hacks) as [? ?].
    split; cbn [sys_db sys_log sys_acks sys_batches]; [by auto|by eapply log_wf_outbox|done..|].
    eapply batches_mono; [|exact Hb]. intros k o. rewrite Hout. eauto.
Qed.
(** A reply row is never taken back. *)
#[local] Instance outbox_le_trans : Transitive outbox_le.
Proof.
  intros a b c Hab Hbc k o Ho. destruct (Hab _ _ Ho) as (o1 & Ho1 & E1).
  destruct (Hbc _ _ Ho1) as (o2 & Ho2 & E2). exists o2. split; [done|]. by rewrite E2.
Qed.
Lemma step_outbox_le s s' : step tenant key s s' → sys_inv s → outbox_le (sys_db s) (sys_db s').
Proof.
  intros Hs [Hwf Hlog Hfrom _ Hb].
  destruct Hs as [s d p Hrun h|s|s|s link rows Hq|s i r rest f res db log Hi Hp|s i
                 |s link now fresh fb actor input r st db Hc Hd]; try done.
  - by destruct (handle_message_inv d p _ _ Hwf Hlog Hfrom) as (_ & _ & _ & _ & Hle & _).
  - pose proof (Forall_lookup_1 _ _ _ _ Hb Hi) as Hr. apply Forall_cons in Hr as [Hr _].
    by destruct (publish_one_step _ _ _ _ _ _ _ Hwf Hlog Hr Hp) as (_ & _ & Hle & _).
  - destruct (create_frame _ _ _ _ _ _ _ _ _ _ Hc Hd) as (_ & _ & Hout).
    intros k o. cbn. rewrite Hout. eauto.
Qed.
Lemma steps_outbox_le s s' :
  rtc (step tenant key) s s' → sys_inv s → sys_inv s' ∧ outbox_le (sys_db s) (sys_db s').
Proof.
  induction 1 as [s|s s1 s' Hs _ IH]; intros Hi; [done|].
  destruct (IH (step_inv _ _ Hs Hi)) as [? Hle]. split; [done|].
  etrans; [by apply step_outbox_le|done].
Qed.
Lemma init_inv : sys_inv sys_init.
Proof.
  split; cbn [sys_db sys_log sys_acks sys_batches sys_init].
  - apply empty_transport_wf.
  - split; [intros m Hm; by apply elem_of_nil in Hm|]. intros k o. cbn. by rewrite lookup_empty.
  - intros k i. cbn. by rewrite lookup_empty.
  - intros p a Hin. by apply elem_of_nil in Hin.
  - apply Forall_nil_2.
Qed.
Lemma reachable_inv s : reachable tenant key s → sys_inv s.
Proof.
  unfold reachable. intros Hr. pose proof init_inv as Hi. revert Hi.
  induction Hr; eauto using step_inv.
Qed.
End invariants.

(** ** Lemmas: subjects *)

Lemma tokens_dot acc s t :
  46 ∉ s → tokens acc (s ++ 46 :: t) = (reverse acc ++ s) :: tokens [] t.
Proof.
  revert acc. induction s as [|c s IH]; intros acc Hs; cbn; [by rewrite app_nil_r|].
  apply not_elem_of_cons in Hs as [Hc Hs]. rewrite (proj2 (N.eqb_neq c 46)) by done.
  by rewrite IH, reverse_cons, <-app_assoc.
Qed.
Lemma event_subject_matches t :
  46 ∉ t → t ≠ [] → subject_matches EVENT_SUBJECT_WILDCARD (event_subject t) = true.
Proof.
  intros Hdot Ht. unfold subject_matches, event_subject.
  change (lit "eal.event." ++ t ++ lit ".v1")
    with (lit "eal" ++ 46 :: lit "event" ++ 46 :: (t ++ 46 :: lit "v1")).
  rewrite !tokens_dot; [|done|apply (bool_decide_unpack (46 ∉ lit "event")); by vm_compute|
    apply (bool_decide_unpack (46 ∉ lit "eal")); by vm_compute].
  change (tokens [] EVENT_SUBJECT_WILDCARD) with [lit "eal"; lit "event"; lit "*"; lit "v1"].
  cbn [tokens_match]. change (reverse [] ++ t) with t.
  rewrite (proj2 (is_empty_false_iff t) Ht). done.
Qed.

(** ** Properties *)

Section properties.
Context `{UuidText} `{Postgres} `{Serde} `{ReplyJson} `{Crypto} `{CommandJson} `{NatsCodec}.
Context (tenant : str) (key : list N).

(** C1: acknowledgement implies a durable, unique answer.  In every reachable state of the
    system (any deliveries, redeliveries, faults, restarts, publications and HTTP writes), a
    payload acknowledged as processed is a command one of whose keys is in the inbox; that
    inbox row comes from an accepted command and has exactly one reply row under its key and
    one status row with the reply's status; a payload that was terminated is oversized,
    undecodable or fails the acceptance test. *)
Theorem acknowledged_means_answered s p a :
  reachable tenant key s → (p, a) ∈ sys_acks s →
  match a with
  | Acked => ∃ c k i l o st,
      command_from_slice p = Some c ∧ inbox (sys_db s) !! k = Some i ∧
      (in_event_id i = event_id c ∨ in_correlation_id i = correlation_id c ∨
       in_dedupe_key i = dedupe_key c) ∧
      authentic tenant key i ∧ outbox (sys_db s) !! l = Some o ∧
      statuses (sys_db s) !! in_correlation_id i = Some st ∧ answers i o st ∧
      (∀ l' o', outbox (sys_db s) !! l' = Some o' → out_dedupe_key o' = out_dedupe_key o → o' = o)
  | Term => refused tenant key p
  end.
Proof.
  intros Hr Hin. destruct (reachable_inv _ _ _ Hr) as [Hwf _ Hfrom Hacks _].
  pose proof (Hacks _ _ Hin) as Ha. destruct a; [exact Ha|].
  destruct Ha as (c & Hc & k & i & Hi & Hkeys).
  destruct (tw_answered _ Hwf _ _ Hi) as (l & o & st & Ho & Hst & Hans).
  exists c, k, i, l, o, st. split_and!; eauto.
  intros l' o' Ho' E. assert (l' = l) as -> by (by eapply (tw_outbox_unique _ Hwf)). congruence.
Qed.

(** C7: only authentic, bounded and consistent replies are published.  In every reachable
    state each message in the event log answers a command that passed the acceptance test for
    this tenant and key, goes to the tenant's subject (which the event stream captures),
    carries the prefixed dedupe key as message id and at most 256 KiB, and every other message
    with the same id is the same message, so that republication is harmless. *)
Theorem published_replies_authentic s m :
  reachable tenant key s → m ∈ sys_log s →
  (∃ k i, inbox (sys_db s) !! k = Some i ∧ authentic tenant key i ∧
     msg_id m = reply_key (in_dedupe_key i) ∧ msg_subject m = event_subject tenant) ∧
  subject_matches EVENT_SUBJECT_WILDCARD (msg_subject m) = true ∧
  N.of_nat (length (msg_payload m)) <= MAX_NATS_PAYLOAD_BYTES ∧
  ∀ m', m' ∈ sys_log s → msg_id m' = msg_id m → m' = m.
Proof.
  intros Hr Hm. destruct (reachable_inv _ _ _ Hr) as [Hwf Hlog Hfrom _ _].
  assert (∀ m, m ∈ sys_log s → ∃ l o, outbox (sys_db s) !! l = Some o ∧ message_of o = Some m ∧
    msg_id m = out_dedupe_key o ∧ msg_subject m = out_subject o ∧
    N.of_nat (length (msg_payload m)) <= MAX_NATS_PAYLOAD_BYTES) as Hfromlog.
  { intros m' (l & o & Ho & Hmo)%(lw_from _ _ Hlog). exists l, o. split; [done|].
    split; [done|]. unfold message_of in Hmo. destruct (value_to_vec _) as [v|]; [|done].
    cbn in Hmo. destruct (N.ltb_spec MAX_NATS_PAYLOAD_BYTES (N.of_nat (length v))); [done|].
    destruct (header_from_str _); [|done]. by injection Hmo as <-. }
  destruct (Hfromlog _ Hm) as (l & o & Ho & Hmo & Hid & Hsub & Hlen).
  destruct (tw_outbox_from _ Hwf _ _ Ho) as (k & i & Hi & Hkey).
  destruct (tw_answered _ Hwf _ _ Hi) as (l2 & o2 & st & Ho2 & _ & re & text & su & _ & _ & _ & _ & Hk2 & Hs2 & _).
  assert (l2 = l) as -> by (eapply (tw_outbox_unique _ Hwf); [done..|congruence]).
  assert (o2 = o) as -> by congruence.
  pose proof (Hfrom _ _ Hi) as Hauth. destruct Hauth as (c & n & Hacc & E1 & E2 & E3 & E4).
  assert (msg_subject m = event_subject tenant) as Hsubj by congruence.
  split_and!; try done.
  - exists k, i. split_and!; try done; [|congruence]. exists c, n. by split_and!.
  - rewrite Hsubj. apply command_accepted_iff in Hacc as [_ Ht _ _ _ [_ _ _ Hten _ _]].
    rewrite Ht in Hten. apply event_subject_matches; [by eapply tenant_char_no|].
    intros ->. done.
  - intros m' (l' & o' & Ho' & Hmo' & Hid' & _)%Hfromlog E.
    assert (l' = l) as -> by (eapply (tw_outbox_unique _ Hwf); [done..|congruence]). congruence.
Qed.

(** The executable loop is the consumer of the system: whatever it does on a list of
    deliveries is a sequence of system steps with the same database and acknowledgements,
    and it only ever returns with an error. *)
Theorem consume_refines_steps deliveries s acks r db :
  sys_running s = true →
  consume tenant key deliveries (sys_db s) = (acks, (r, db)) →
  is_err r = true ∧
  ∃ s', rtc (step tenant key) s s' ∧ sys_db s' = db ∧ sys_acks s' = sys_acks s ++ acks ∧
    sys_log s' = sys_log s.
Proof.
  revert s acks. induction deliveries as [|[d [p|]] ds IH]; intros s acks Hrun; cbn [consume].
  - intros [= <- <- <-]. split; [done|]. exists s. by rewrite app_nil_r.
  - pose proof (step_deliver tenant key s d p Hrun) as Hstep. cbn zeta in Hstep.
    set (h := handle_message tenant key d p (sys_db s)) in *.
    assert ((match h_ack h with Some a => sys_acks s ++ [(p, a)] | None => sys_acks s end) =
      sys_acks s ++ (match h_ack h with Some a => [(p, a)] | None => [] end)) as Heq
      by (destruct (h_ack h); [done|by rewrite app_nil_r]).
    rewrite Heq in Hstep. destruct (h_result h) as [[]|e].
    + destruct (consume tenant key ds (h_db h)) as [more [r' db']] eqn:Hmore.
      intros [= <- <- <-].
      match type of Hstep with step _ _ _ ?s1 => destruct (IH s1 more eq_refl Hmore)
        as (He & s' & Hs & ? & Hacks & ?) end.
      split; [done|]. exists s'. split_and!; [by eapply rtc_l|done| |done].
      rewrite Hacks. cbn [sys_acks]. by rewrite <-app_assoc.
    + intros [= <- <- <-]. split; [done|]. eexists. split; [by apply rtc_once|]. done.
  - intros [= <- <- <-]. split; [done|].
    eexists. split; [apply rtc_once, step_delivery_error|]. cbn. by rewrite app_nil_r.
Qed.

Lemma publish_rows_steps fs j rows s i r db log :
  sys_batches s !! i = Some rows →
  publish_rows fs j rows (sys_db s, sys_log s) = (r, (db, log)) →
  ∃ s', rtc (step tenant key) s s' ∧ sys_db s' = db ∧ sys_log s' = log ∧
    sys_acks s' = sys_acks s ∧ sys_running s' = sys_running s ∧
    sys_batches s' = <[i := []]> (sys_batches s).
Proof.
  revert j s. induction rows as [|row rows IH]; intros j s Hi; cbn [publish_rows].
  { intros [= <- <- <-]. exists s. split; [done|]. by rewrite list_insert_id. }
  destruct (publish_one (fs j) row (sys_db s, sys_log s)) as [r1 [db1 log1]] eqn:E1.
  pose proof (step_publish tenant key s i row rows (fs j) r1 db1 log1 Hi E1) as Hstep.
  destruct r1 as [[]|e]; cbn [is_ok] in Hstep.
  - intros Hrun. match type of Hstep with step _ _ _ ?s1 =>
      destruct (IH (S j) s1) as (s' & Hs & ? & ? & ? & ? & Hb) end.
    + cbn [sys_batches]. apply list_lookup_insert_eq. by eapply lookup_lt_Some.
    + exact Hrun.
    + exists s'. split_and!; try done; [by eapply rtc_l|]. rewrite Hb. cbn [sys_batches].
      by rewrite list_insert_insert_eq.
  - intros [= <- <- <-]. eexists. split; [by apply rtc_once|]. done.
Qed.

(** The executable publisher is a publisher of the system: whatever one pass does, it is a
    selection followed by single publications, with the same database and log, and it leaves
    no reply to publish behind; the acknowledgements and the other passes are untouched. *)
Theorem publisher_refines_steps link fs s r db log :
  publish_pending link fs (sys_db s, sys_log s) = (r, (db, log)) →
  ∃ s', rtc (step tenant key) s s' ∧ sys_db s' = db ∧ sys_log s' = log ∧
    sys_acks s' = sys_acks s ∧ sys_running s' = sys_running s ∧
    (sys_batches s' = sys_batches s ∨ sys_batches s' = sys_batches s ++ [[]]).
Proof.
  unfold publish_pending. cbn [fst].
  destruct (query link SELECT_OUTBOX_SQL (sys_db s)) as [rows|e] eqn:Hq.
  2: { intros [= <- <- <-]. exists s. split; [done|]. by auto 7. }
  pose proof (step_select tenant key s link rows Hq) as Hsel. intros Hrun.
  match type of Hsel with step _ _ _ ?s1 =>
    destruct (publish_rows_steps fs 0 (outbox_result <$> rows) s1 (length (sys_batches s)) r db log)
      as (s' & Hs & ? & ? & ? & ? & Hb) end; [|exact Hrun|].
  - cbn [sys_batches]. by apply list_lookup_middle.
  - exists s'. split_and!; try done; [by eapply rtc_l|]. right. rewrite Hb. cbn [sys_batches].
    by rewrite insert_app_r_alt, Nat.sub_diag by done.
Qed.

Lemma runs_iff payload a :
  runs tenant key payload a = true ↔ ∃ c t, N.of_nat (length payload) <= MAX_NATS_PAYLOAD_BYTES ∧
    command_from_slice payload = Some c ∧ unix_ms (d_clock (at_delivery a)) = Some t ∧
    command_accepted tenant key t c = true.
Proof.
  unfold runs. rewrite andb_true_iff, N.leb_le. split.
  - intros [Hl Hm]. destruct (command_from_slice payload) as [c|]; [|done].
    destruct (unix_ms _) as [t|]; [|done]. eauto 6.
  - intros (c & t & Hl & -> & -> & Ha). done.
Qed.
Lemma attempt_untouched payload a :
  runs tenant key payload a = false →
  h_db (attempt tenant key payload a) = at_db a ∧
  (h_ack (attempt tenant key payload a) = Some Term ∨ unix_ms (d_clock (at_delivery a)) = None).
Proof.
  unfold runs, attempt, handle_message. rewrite N.ltb_antisym.
  destruct (_ <=? _); cbn [negb andb]; [|by auto].
  destruct (command_from_slice payload) as [c|]; [|by auto].
  destruct (unix_ms _) as [t|]; [|by auto]. intros ->. cbn. by auto.
Qed.
(** Two moments at which a command is acceptable are at most 15 s apart. *)
Lemma accepted_within c t t' :
  command_accepted tenant key t c = true → command_accepted tenant key t' c = true → t' <= t + 15000.
Proof.
  rewrite !command_accepted_iff. intros [_ _ _ _ _ []] [_ _ _ _ _ []]. lia.
Qed.
Lemma spaced_lookup attempts i j a b :
  spaced attempts = true → (i < j)%nat → attempts !! i = Some a → attempts !! j = Some b →
  at_server a + 30000 <= at_server b.
Proof.
  revert i j a. induction attempts as [|x [|y rest] IH]; intros i j a Hsp Hij Hi Hj; [done| |].
  { destruct j; [lia|done]. }
  cbn [spaced] in Hsp. apply andb_true_iff in Hsp as [Hxy%N.leb_le Hsp].
  cbn [ack_wait_ms command_consumer] in Hxy. specialize (IH) with (1 := Hsp).
  destruct j as [|j]; [lia|]. cbn in Hj. destruct i as [|i]; [|by apply (IH i j); [lia|..]].
  injection Hi as <-. destruct j as [|j]; [by injection Hj as <-|].
  specialize (IH 0%nat (S j) y ltac:(lia) eq_refl Hj). lia.
Qed.
Lemma redeliver_lookup payload attempts i h :
  redeliver tenant key payload attempts !! i = Some h → ∃ a, attempts !! i = Some a ∧
    h = attempt tenant key payload a ∧
    (is_Some (redeliver tenant key payload attempts !! S i) →
     settled tenant key payload a = false ∧
     (is_ok (h_result h) = true ∨ ∃ b, attempts !! S i = Some b ∧ at_restarted b = true)).
Proof.
  revert i. induction attempts as [|a rest IH]; intros i; [done|]. cbn [redeliver]. cbn zeta.
  destruct i as [|i]; cbn [lookup list_lookup].
  - intros [= <-]. exists a. split_and!; [done..|]. destruct (settled _ _ _ a); [by intros []|].
    destruct rest as [|b rest]; [by intros []|]. cbn [lookup list_lookup].
    destruct (is_ok _); [by auto|]. destruct (at_restarted b) eqn:Hb; [by eauto|by intros []].
  - destruct (settled _ _ _ a); [done|]. destruct rest as [|b rest]; [done|].
    destruct (_ || _); [|done]. apply IH.
Qed.

Lemma redeliver_length payload attempts :
  (length (redeliver tenant key payload attempts) <= length attempts)%nat.
Proof.
  induction attempts as [|a rest IH]; [done|]. cbn [redeliver length]. cbn zeta.
  destruct (settled _ _ _ a); [cbn; lia|]. destruct rest as [|b rest]; [cbn; lia|].
  destruct (_ || _); [lia|cbn; lia].
Qed.

(** C27: a redelivery does not run a command again.  The server delivers a message at most eight
    times, each time at least the acknowledgement wait after the time before and only to a
    consumer that is running; after an acknowledgement that reached it, it does not deliver it
    again.  Each delivery is handled as [handle_message] says, and one that does not reach
    [process_command] leaves the database as it was and is terminated (or finds no clock).  Two
    deliveries of the same message that both reach it are handled within 15 s of each other,
    and the earlier one had then waited for at least 15 s in the buffer: the redelivery of a
    command that was handled promptly, whatever became of it, is never executed. *)
Theorem redeliveries_never_run payload attempts :
  spaced attempts = true → Forall handled_after attempts →
  let handled := deliveries tenant key payload attempts in
  (length handled <= 8)%nat ∧
  (∀ i h, handled !! i = Some h → ∃ a, attempts !! i = Some a ∧
     h = handle_message tenant key (at_delivery a) payload (at_db a) ∧
     (runs tenant key payload a = false → h_db h = at_db a ∧
        (h_ack h = Some Term ∨ unix_ms (d_clock (at_delivery a)) = None)) ∧
     (is_Some (handled !! S i) → settled tenant key payload a = false ∧
        (is_ok (h_result h) = true ∨ ∃ b, attempts !! S i = Some b ∧ at_restarted b = true))) ∧
  (∀ i j a b, (i < j)%nat → attempts !! i = Some a → attempts !! j = Some b →
     runs tenant key payload a = true → runs tenant key payload b = true →
     ∃ ta tb, unix_ms (d_clock (at_delivery a)) = Some ta ∧
       unix_ms (d_clock (at_delivery b)) = Some tb ∧
       at_server a + 15000 <= ta ∧ tb <= ta + 15000).
Proof.
  intros Hsp Hafter handled. split_and!.
  - unfold handled, deliveries. etrans; [apply redeliver_length|]. rewrite length_take. cbn. lia.
  - intros i h (a & Hi & -> & Hnext)%redeliver_lookup. apply lookup_take_Some in Hi as [Hi _].
    exists a. split_and!; [done..|apply attempt_untouched|]. intros Hs.
    destruct (Hnext Hs) as [? [?|(b & Hb & ?)]]; [by auto|].
    apply lookup_take_Some in Hb as [Hb _]. eauto.
  - intros i j a b Hij Ha Hb (c & ta & _ & Hc & Hta & Hacc)%runs_iff
      (c' & tb & _ & Hc' & Htb & Hacc')%runs_iff. assert (c' = c) as -> by congruence.
    exists ta, tb. pose proof (accepted_within c ta tb Hacc Hacc').
    pose proof (spaced_lookup _ _ _ _ _ Hsp Hij Ha Hb).
    pose proof (Forall_lookup_1 _ _ _ _ Hafter Hb tb Htb). split_and!; [done..|lia|done].
Qed.

(** C40: with a server that converts no text to a [uuid] the transport never answers: no
    delivery changes the database and nothing is acknowledged as processed. *)
Theorem no_conversion_no_answer deliveries db acks r db' :
  (∀ s, text_as_uuid s = None) →
  consume tenant key deliveries db = (acks, (r, db')) →
  db' = db ∧ is_err r = true ∧ ∀ p a, (p, a) ∈ acks → a = Term.
Proof.
  intros Hno. revert acks. induction deliveries as [|[d [p|]] ds IH]; intros acks; cbn [consume].
  - intros [= <- <- <-]. split_and!; [done..|]. by intros p a ?%elem_of_nil.
  - destruct (handle_message_cases tenant key d p db)
      as [(Ha & Hd & _)|[(Ha & Hd & Hr)|(c & n & r' & _ & _ & _ & Hp & Hr)]].
    + rewrite Ha, Hd. destruct (h_result _) as [[]|e].
      * destruct (consume tenant key ds db) as [more [r2 db2]]. intros [= <- <- <-].
        destruct (IH _ eq_refl) as (-> & ? & Hmore). split_and!; [done..|].
        intros p' a Hin. apply elem_of_cons in Hin as [[= -> ->]|?]; eauto.
      * intros [= <- <- <-]. split_and!; [done..|].
        intros p' a. rewrite list_elem_of_singleton. by intros [= -> ->].
    + rewrite Ha, Hd. destruct (h_result _) as [[]|e]; [done|]. intros [= <- <- <-].
      split_and!; [done..|]. by intros p' a ?%elem_of_nil.
    + destruct (process_unconvertible (d_faults d) (d_now d) (d_fresh d) c db (Hno _)) as [[e He] Hdb].
      rewrite Hp in He, Hdb. cbn in He, Hdb. subst r'.
      destruct Hr as [[? _]|(_ & Ha & Hr)]; [done|]. rewrite Ha, Hdb.
      destruct (h_result _) as [[]|e']; [done|]. intros [= <- <- <-].
      split_and!; [done..|]. by intros p' a ?%elem_of_nil.
  - intros [= <- <- <-]. split_and!; [done..|]. by intros p' a ?%elem_of_nil.
Qed.
End properties.

(** The JetStream transport is off exactly when [NATS_URL] is blank, and starts exactly
    when the URL is acceptable, the command key has 32 to 1024 bytes without ASCII controls
    and a database is configured; it then consumes for the given tenant. *)
Theorem spawn_jetstream_iff env store tenant :
  (spawn_jetstream_from_env env store tenant = Ok None ↔ optional_env env (lit "NATS_URL") = None) ∧
  (∀ settings, spawn_jetstream_from_env env store tenant = Ok (Some settings) ↔
    ∃ url key, optional_env env (lit "NATS_URL") = Some url ∧ validate_nats_url url = Ok tt ∧
      optional_env env (lit "EAL_NATS_COMMAND_HMAC_KEY") = Some key ∧
      32 <= len key <= 1024 ∧ Forall (λ b, is_ascii_control b = false) (as_bytes key) ∧
      is_Some (database store) ∧ settings = mk_jetstream url tenant (as_bytes key)).
Proof.
  unfold spawn_jetstream_from_env. destruct (optional_env env _) as [url|]; [|naive_solver].
  assert (∀ k, valid_command_key (as_bytes k) = true ↔
    32 <= len k <= 1024 ∧ Forall (λ b, is_ascii_control b = false) (as_bytes k)) as Hkey.
  { intros k. unfold valid_command_key, len.
    rewrite !andb_true_iff, !N.leb_le, negb_true_iff, existsb_false_Forall. tauto. }
  split.
  - split; [|done]. intros Hn. exfalso. revert Hn.
    destruct (validate_nats_url url) as [[]|]; cbn; [|done].
    destruct (required_setting _ _) as [k|]; cbn; [|done].
    destruct (valid_command_key _); cbn; [|done]. by destruct (database store).
  - intros settings. rewrite bind_Ok_iff. setoid_rewrite bind_Ok_iff. unfold required_setting.
    setoid_rewrite ok_or_Ok_iff. setoid_rewrite guard_Ok_iff. setoid_rewrite bind_Ok_iff.
    setoid_rewrite negb_false_iff. setoid_rewrite Hkey. setoid_rewrite ok_or_Ok_iff. split.
    + intros ([] & Hv & key & Hk & [Hl Hc] & db & Hdb & [= <-]). exists url, key.
      destruct Hl. split_and!; eauto.
    + intros (url' & key & [= <-] & Hv & Hk & Hl & Hc & [db Hdb] & ->).
      exists tt. split; [done|]. exists key. destruct Hl. split_and!; eauto.
Qed.

(** ** Examples *)

Module SampleJetstream.
Module Instances.
#[export] Instance command_json : CommandJson := {|
  command_from_slice p := match p with [1] => Some SampleCommand.command | _ => None end;
|}.
End Instances.
Definition clock : Z := 2000000000000000000.
Definition delivery : Delivery := mk_delivery clock no_faults 5000 (uuid_of 77) true.
Definition late : Delivery := mk_delivery (clock + 30000000000) no_faults 9000 (uuid_of 78) true.
End SampleJetstream.
Import CanonicalInstances SampleStorage.Instances SampleCommand.Instances SampleReply.Instances
  SampleOutbox.Instances SampleJetstream.Instances.

Definition sample_delivered : System :=
  after_delivery SampleCommand.tenant SampleCommand.key SampleJetstream.delivery [1] sys_init.
Definition sample_published : result str unit * (Db * list Message) :=
  publish_pending LinkUp SampleOutbox.up (sys_db sample_delivered, sys_log sample_delivered).
Lemma sample_delivered_reachable :
  reachable SampleCommand.tenant SampleCommand.key sample_delivered.
Proof. apply after_delivery_reachable; [apply rtc_refl|reflexivity]. Qed.
(** A system in which the reply of the delivered command was published. *)
Definition sample_batch : list OutboxResult :=
  outbox_result <$> SELECT_OUTBOX_SQL (sys_db sample_delivered).
Definition sample_sent : result str unit * (Db * list Message) :=
  publish_one (SampleOutbox.up 0) (default (outbox_result (SampleOutbox.row [] 0)) (head sample_batch))
    (sys_db sample_delivered, sys_log sample_delivered).
Definition sample_system : System :=
  mk_system (fst (snd sample_sent)) (snd (snd sample_sent)) (sys_running sample_delivered)
    (sys_acks sample_delivered)
    (<[0%nat := if is_ok (fst sample_sent) then tail sample_batch else []]> [sample_batch]).
Lemma sample_system_reachable :
  reachable SampleCommand.tenant SampleCommand.key sample_system.
Proof.
  eapply rtc_r; [eapply rtc_r; [apply sample_delivered_reachable|]|].
  - apply (step_select _ _ sample_delivered LinkUp (SELECT_OUTBOX_SQL (sys_db sample_delivered))).
    done.
  - assert (length sample_batch = 1%nat) as Hl by (by vm_compute).
    apply (step_publish _ _ (mk_system (sys_db sample_delivered) (sys_log sample_delivered)
      (sys_running sample_delivered) (sys_acks sample_delivered) [sample_batch]) 0
      (default (outbox_result (SampleOutbox.row [] 0)) (head sample_batch)) (tail sample_batch)
      (SampleOutbox.up 0) (fst sample_sent)).
    + cbn [sys_batches]. change ([sample_batch] !! 0%nat) with (Some sample_batch).
      revert Hl. generalize sample_batch. by intros [|r rest].
    + unfold sample_sent. cbn [sys_db sys_log].
      by destruct (publish_one _ _ _) as [? [? ?]].
Qed.

Lemma acknowledged_means_answered_witness :
  ∃ c k i l o st,
    command_from_slice [1] = Some c ∧ inbox (sys_db sample_system) !! k = Some i ∧
    (in_event_id i = event_id c ∨ in_correlation_id i = correlation_id c ∨
     in_dedupe_key i = dedupe_key c) ∧
    authentic SampleCommand.tenant SampleCommand.key i ∧
    outbox (sys_db sample_system) !! l = Some o ∧
    statuses (sys_db sample_system) !! in_correlation_id i = Some st ∧ answers i o st ∧
    (∀ l' o', outbox (sys_db sample_system) !! l' = Some o' →
       out_dedupe_key o' = out_dedupe_key o → o' = o).
Proof.
  apply (acknowledged_means_answered SampleCommand.tenant SampleCommand.key sample_system [1] Acked);
    [apply sample_system_reachable|].
  assert (sys_acks sample_system = [([1], Acked)]) as -> by (by vm_compute).
  by apply list_elem_of_singleton.
Defined.

Definition sample_message : Message :=
  mk_message (event_subject SampleCommand.tenant) (reply_key (lit "job:1")) (lit "reply:job:1").
Lemma published_replies_authentic_witness :
  (∃ k i, inbox (sys_db sample_system) !! k = Some i ∧
     authentic SampleCommand.tenant SampleCommand.key i ∧
     msg_id sample_message = reply_key (in_dedupe_key i) ∧
     msg_subject sample_message = event_subject SampleCommand.tenant) ∧
  subject_matches EVENT_SUBJECT_WILDCARD (msg_subject sample_message) = true ∧
  N.of_nat (length (msg_payload sample_message)) <= MAX_NATS_PAYLOAD_BYTES ∧
  ∀ m', m' ∈ sys_log sample_system → msg_id m' = msg_id sample_message → m' = sample_message.
Proof.
  apply published_replies_authentic; [apply sample_system_reachable|].
  assert (sys_log sample_system = [sample_message]) as -> by (by vm_compute).
  by apply list_elem_of_singleton.
Defined.

Lemma consume_refines_steps_witness :
  let run := consume SampleCommand.tenant SampleCommand.key
    [(SampleJetstream.delivery, Some [1]); (SampleJetstream.late, Some [1]);
     (SampleJetstream.late, None)] empty_db in
  fst run = [([1], Acked); ([1], Term)] ∧
  ∃ s', rtc (step SampleCommand.tenant SampleCommand.key) sys_init s' ∧
    sys_db s' = snd (snd run) ∧ sys_acks s' = [] ++ fst run ∧ sys_log s' = [].
Proof.
  intros run. split; [by vm_compute|].
  apply (consume_refines_steps SampleCommand.tenant SampleCommand.key
    [(SampleJetstream.delivery, Some [1]); (SampleJetstream.late, Some [1]);
     (SampleJetstream.late, None)] sys_init (fst run) (fst (snd run))); [done|].
  unfold run. cbn [sys_db sys_init]. by destruct (consume _ _ _ _) as [? [? ?]].
Defined.

Definition sample_failing : Delivery :=
  mk_delivery SampleJetstream.clock (mk_faults LinkUp LinkUp Answered LinkUp LinkUp LinkDown) 5000 (uuid_of 77) true.
(** A command whose first copy is handled at once fails; the second copy is terminated. *)
Definition sample_attempts : list Attempt :=
  [mk_attempt SampleCommand.now_ms sample_failing empty_db false true;
   mk_attempt (SampleCommand.now_ms + 30000) SampleJetstream.late empty_db true true].
(** A command whose first copy waited for 25 s: the second copy runs, and is acknowledged. *)
Definition buffered_attempts : list Attempt :=
  [mk_attempt (SampleCommand.now_ms - 25000) sample_failing empty_db false true;
   mk_attempt (SampleCommand.now_ms + 5000)
     (mk_delivery (SampleJetstream.clock + 5000000000) no_faults 6000 (uuid_of 78) true) empty_db true true].
Lemma redeliveries_never_run_witness :
  let handled := deliveries SampleCommand.tenant SampleCommand.key [1] in
  (h_ack <$> handled sample_attempts) = [None; Some Term] ∧
  (h_ack <$> handled buffered_attempts) = [None; Some Acked] ∧
  (∀ h, handled sample_attempts !! 1%nat = Some h → h_db h = empty_db) ∧
  ∃ ta tb, unix_ms (d_clock sample_failing) = Some ta ∧
    unix_ms (SampleJetstream.clock + 5000000000) = Some tb ∧
    SampleCommand.now_ms - 25000 + 15000 <= ta ∧ tb <= ta + 15000.
Proof.
  intros handled. split; [by vm_compute|]. split; [by vm_compute|]. split.
  - destruct (redeliveries_never_run SampleCommand.tenant SampleCommand.key [1] sample_attempts)
      as (_ & Hh & _); [by vm_compute| |].
    { repeat constructor; intros t Ht; vm_compute in Ht; injection Ht as <-; by vm_compute. }
    intros h Hs. destruct (Hh 1%nat h Hs) as (a & [= <-] & _ & Hdb & _).
    apply Hdb. by vm_compute.
  - destruct (redeliveries_never_run SampleCommand.tenant SampleCommand.key [1] buffered_attempts)
      as (_ & _ & Hh); [by vm_compute| |].
    { repeat constructor; intros t Ht; vm_compute in Ht; injection Ht as <-; by vm_compute. }
    apply (Hh 0%nat 1%nat _ _ ltac:(lia) eq_refl eq_refl); by vm_compute.
Defined.

Lemma no_conversion_no_answer_witness :
  let run := @consume _ typed_postgres _ _ _ _ SampleCommand.tenant SampleCommand.key
    [(SampleJetstream.delivery, Some []); (SampleJetstream.delivery, Some [1])] empty_db in
  fst run = [([], Term)] ∧ snd (snd run) = empty_db.
Proof.
  intros run. split; [by vm_compute|].
  apply (@no_conversion_no_answer _ typed_postgres _ _ _ _ SampleCommand.tenant SampleCommand.key
    [(SampleJetstream.delivery, Some []); (SampleJetstream.delivery, Some [1])] empty_db
    (fst run) (fst (snd run)) (snd (snd run))); [done|].
  unfold run. by destruct (consume _ _ _ _) as [? [? ?]].
Defined.

Lemma publisher_refines_steps_witness :
  length (snd (snd sample_published)) = 1%nat ∧
  ∃ s', rtc (step SampleCommand.tenant SampleCommand.key) sample_delivered s' ∧
    sys_db s' = fst (snd sample_published) ∧ sys_log s' = snd (snd sample_published) ∧
    sys_acks s' = sys_acks sample_delivered ∧ sys_running s' = sys_running sample_delivered ∧
    (sys_batches s' = sys_batches sample_delivered ∨
     sys_batches s' = sys_batches sample_delivered ++ [[]]).
Proof.
  split; [by vm_compute|].
  apply (publisher_refines_steps SampleCommand.tenant SampleCommand.key LinkUp SampleOutbox.up
    sample_delivered (fst sample_published)).
  unfold sample_published. by destruct (publish_pending _ _ _) as [? [? ?]].
Defined.
