(* ===== verification/Tcp.v ===== *)
(** * The mTLS/TCP transport ([MtlsServerConfig], [run_mtls], [execute_tcp_operation] of
    [src/transport.rs])

    TLS, PEM parsing and the frame codec are library code behind the class [Rustls] and the
    [Incoming] frames; the accept loop, the connection loop and the operation are defined
    here.  Clocks, timeouts and link states are arguments. *)

From S2P Require Import Prelude Str Float Ids Model Auth Database Store Envelope Commands.
Open Scope N_scope.

Definition TCP_CONNECTION_LIMIT : N := 128.

(** ** Configuration *)

Class Rustls := {
  Certificate : Type;
  PrivateKey : Type;
  RootCertStore : Type;
  ClientVerifier : Type;
  ServerConfig : Type;
  pem_file_iter : str → option (list (option Certificate));
  pem_key_file : str → option PrivateKey;
  root_empty : RootCertStore;
  root_add : RootCertStore → Certificate → option RootCertStore;
  root_is_empty : RootCertStore → bool;
  build_verifier : RootCertStore → option ClientVerifier;
  with_single_cert : ClientVerifier → list Certificate → PrivateKey → option ServerConfig;
}.

Section config.
Context `{Rustls}.

Record MtlsServerConfig := mk_mtls { bind_address : str; tls : ServerConfig }.

Definition read_certificates (path : str) : result str (list Certificate) :=
  certificates ← ok_or (pem_file_iter path) (lit "TLS certificate file cannot be opened");
  collect_results ((λ c, ok_or c (lit "TLS certificate file is invalid")) <$> certificates).
Definition read_private_key (path : str) : result str PrivateKey :=
  ok_or (pem_key_file path) (lit "TLS private key file is missing or invalid").
Fixpoint add_roots (roots : RootCertStore) (l : list Certificate) : result str RootCertStore :=
  match l with
  | [] => Ok roots
  | c :: l =>
      roots ← ok_or (root_add roots c) (lit "web client CA certificate is invalid");
      add_roots roots l
  end.

Definition mtls_variables : list str :=
  [lit "EAL_API_MTLS_BIND"; lit "EAL_API_TLS_CERT_FILE"; lit "EAL_API_TLS_KEY_FILE";
   lit "EAL_WEB_CLIENT_CA_FILE"].
Definition mtls_from_values (bind certificate_file private_key_file client_ca_file : str)
    : result str MtlsServerConfig :=
  certificates ← read_certificates certificate_file;
  private_key ← read_private_key private_key_file;
  roots ← read_certificates client_ca_file;
  client_roots ← add_roots root_empty roots;
  if root_is_empty client_roots then Err (lit "web client CA file is empty") else
  verifier ← ok_or (build_verifier client_roots)
    (lit "web client verifier configuration is invalid");
  tls ← ok_or (with_single_cert verifier certificates private_key)
    (lit "API server certificate or key is invalid");
  Ok (mk_mtls bind tls).
Definition mtls_from_env (env : str → option str) : result str (option MtlsServerConfig) :=
  let values := optional_env env <$> mtls_variables in
  if forallb is_none values then Ok None else
  if existsb is_none values
  then Err (lit "all API mTLS variables must be configured together") else
  match values with
  | [Some bind; Some certificate_file; Some private_key_file; Some client_ca_file] =>
      Some <$> mtls_from_values bind certificate_file private_key_file client_ca_file
  | _ => Ok None
  end.

(** [spawn_mtls_from_env]: [binds] tells whether the listener could bind the address. *)
Definition spawn_mtls_from_env (env : str → option str) (binds : str → bool)
    : result str (option MtlsServerConfig) :=
  config ← mtls_from_env env;
  match config with
  | None => Ok None
  | Some config =>
      if binds (bind_address config) then Ok (Some config) else Err (lit "mTLS/TCP bind failed")
  end.
End config.

(** ** One operation *)

Class TcpJson := {
  operation_from_slice : list N → option AuthenticatedOperation;
  reply_to_vec : OperationReply → option (list N);
}.
(** The surroundings of one exchange: the two readings of the clock, the database link,
    whether the listing outlives [QUERY_TIMEOUT], and whether the reply can be sent. *)
Record Exchange := mk_exchange {
  x_clock : Z; x_auth_clock : Z; x_link : Link; x_timeout : bool; x_sent : bool;
}.

Section tcp.
Context `{SharedAuth} `{Http} `{UuidText} `{Postgres} `{Serde} `{HashMapIter} `{ReplyJson}
  `{TcpJson}.

(** The guard of the [Ok(actor)] arm. *)
Definition actor_matches (actor : VerifiedActor) (envelope : OperationEnvelope) : bool :=
  str_eqb (uuid_display (subject actor)) (actor_subject envelope)
  && str_eqb (product_tenant actor) (op_product_tenant envelope).

Definition execute_tcp_operation (store : AlertStore) (auth : AuthBoundary) (x : Exchange)
    (frame : list N) : OperationReply :=
  match operation_from_slice frame with
  | None => error_reply uuid_nil (lit "invalid_request")
  | Some request =>
      let operation_id := operation_id (envelope request) in
      match unix_ms (x_clock x) with
      | None => error_reply operation_id (lit "unavailable")
      | Some now =>
          if is_err (validate_operation_envelope_at (envelope request) now)
          then error_reply operation_id (lit "invalid_request") else
          match strip_prefix (lit "Bearer ") (authorization request) with
          | None => error_reply operation_id (lit "unauthorized")
          | Some token =>
              match verify_token auth token READ_SCOPE (x_auth_clock x) with
              | Ok actor =>
                  if actor_matches actor (envelope request) then
                    if x_timeout x then error_reply operation_id (lit "timeout") else
                    match list_alerts (x_link x) store actor with
                    | Ok alerts =>
                        mk_reply operation_id (lit "completed") (Some (alerts_to_value alerts)) None
                    | Err _ => error_reply operation_id (lit "unavailable")
                    end
                  else error_reply operation_id (lit "unauthorized")
              | Err _ => error_reply operation_id (lit "unauthorized")
              end
          end
      end
  end.

(** ** One connection

    [Frame]: the codec decoded a frame; it refuses one longer than [MAX_FRAME_BYTES].
    [NoFrame]: the read timed out, failed, or the peer closed. *)
Inductive Incoming := Frame (bytes : list N) | NoFrame.
Definition next_frame (i : Incoming) : option (list N) :=
  match i with
  | Frame bytes => if N.of_nat (length bytes) <=? MAX_FRAME_BYTES then Some bytes else None
  | NoFrame => None
  end.

(** A connection outlives many changes of the store it shares with the other transports and of
    what the authority grants: the authority as [verify_token] asks it in this turn, and the
    store as [list] then reads it. *)
Record Found := mk_found { f_store : AlertStore; f_auth : AuthBoundary }.
(** The replies sent before the connection ends. *)
Fixpoint serve (input : list (Found * (Exchange * Incoming))) : list (list N) :=
  match input with
  | [] => []
  | (found, (x, i)) :: input =>
      match next_frame i with
      | None => []
      | Some frame =>
          match reply_to_vec (execute_tcp_operation (f_store found) (f_auth found) x frame) with
          | None => []
          | Some payload =>
              if MAX_FRAME_BYTES <? N.of_nat (length payload) then [] else
              if negb (x_sent x) then [] else payload :: serve input
          end
      end
  end.
(** A connection: the TLS handshake finishes in time or nothing is served. *)
Definition connection (handshake : bool) (input : list (Found * (Exchange * Incoming)))
    : list (list N) :=
  if handshake then serve input else [].
End tcp.

(** ** The accept loop

    The permits of the semaphore and the connections that hold one, in order of arrival. *)

Inductive Event := Accepted (id : N) | AcceptFailed | Closed (id : N).
Record Listener := mk_listener {
  permits : N; connections : list N; refused_connections : list N; ended : option str;
}.
Definition listener : Listener := mk_listener TCP_CONNECTION_LIMIT [] [] None.
(** The connection ends: its permit is dropped. *)
Fixpoint release (id : N) (l : list N) : option (list N) :=
  match l with
  | [] => None
  | c :: l => if c =? id then Some l else cons c <$> release id l
  end.
Definition run_mtls_event (l : Listener) (e : Event) : Listener :=
  match e with
  | Accepted id =>
      if is_some (ended l) then l else
      if permits l =? 0
      then mk_listener (permits l) (connections l) (refused_connections l ++ [id]) (ended l)
      else mk_listener (permits l - 1) (connections l ++ [id]) (refused_connections l) (ended l)
  | AcceptFailed =>
      if is_some (ended l) then l else
      mk_listener (permits l) (connections l) (refused_connections l)
        (Some (lit "mTLS/TCP accept failed"))
  | Closed id =>
      match release id (connections l) with
      | Some rest => mk_listener (permits l + 1) rest (refused_connections l) (ended l)
      | None => l
      end
  end.
Definition run_mtls (events : list Event) : Listener := fold_left run_mtls_event events listener.

(** ** Specification *)

Section tcp_lemmas.
Context `{SharedAuth} `{Http} `{UuidText} `{Postgres} `{Serde} `{HashMapIter} `{ReplyJson}
  `{TcpJson}.

(** A frame that may read: a valid envelope at the time, a bearer token the authority and the
    policy accept for reading, and the verified subject and tenant equal to the envelope's. *)
Record permitted (auth : AuthBoundary) (x : Exchange) (frame : list N)
    (request : AuthenticatedOperation) (actor : VerifiedActor) : Prop := {
  pm_frame : operation_from_slice frame = Some request;
  pm_envelope : ∃ now, unix_ms (x_clock x) = Some now ∧ envelope_ok (envelope request) now;
  pm_token : ∃ token, authorization request = lit "Bearer " ++ token ∧
    verify_token auth token READ_SCOPE (x_auth_clock x) = Ok actor;
  pm_subject : uuid_display (subject actor) = actor_subject (envelope request);
  pm_tenant : product_tenant actor = op_product_tenant (envelope request);
}.

Lemma actor_matches_iff actor e :
  actor_matches actor e = true ↔
  uuid_display (subject actor) = actor_subject e ∧ product_tenant actor = op_product_tenant e.
Proof. unfold actor_matches. by rewrite andb_true_iff, !str_eqb_eq. Qed.

(** The reply of a permitted frame. *)
Definition permitted_reply (store : AlertStore) (x : Exchange) (request : AuthenticatedOperation)
    (actor : VerifiedActor) : OperationReply :=
  let id := operation_id (envelope request) in
  if x_timeout x then error_reply id (lit "timeout") else
  match list_alerts (x_link x) store actor with
  | Ok alerts => mk_reply id (lit "completed") (Some (alerts_to_value alerts)) None
  | Err _ => error_reply id (lit "unavailable")
  end.
Lemma execute_permitted store auth x frame request actor :
  permitted auth x frame request actor →
  execute_tcp_operation store auth x frame = permitted_reply store x request actor.
Proof.
  intros [Hf (now & Hn & He) (token & Ht & Hv) Hs Hten]. unfold execute_tcp_operation.
  rewrite Hf, Hn, (proj2 (validate_envelope_Ok_iff _ _) He), Ht, strip_prefix_app, Hv.
  by rewrite (proj2 (actor_matches_iff _ _)).
Qed.
(** Every other frame is rejected without a result. *)
Lemma execute_cases store auth x frame :
  (∃ request actor, permitted auth x frame request actor) ∨
  ∃ id e, execute_tcp_operation store auth x frame = error_reply id e ∧
    e ∈ [lit "invalid_request"; lit "unauthorized"; lit "unavailable"] ∧
    (id = uuid_nil ∧ operation_from_slice frame = None ∨
     ∃ request, operation_from_slice frame = Some request ∧ id = operation_id (envelope request)).
Proof.
  unfold execute_tcp_operation.
  assert (lit "invalid_request" ∈ [lit "invalid_request"; lit "unauthorized"; lit "unavailable"] ∧
          lit "unauthorized" ∈ [lit "invalid_request"; lit "unauthorized"; lit "unavailable"] ∧
          lit "unavailable" ∈ [lit "invalid_request"; lit "unauthorized"; lit "unavailable"])
    as (He1 & He2 & He3) by (rewrite !elem_of_cons; tauto).
  destruct (operation_from_slice frame) as [request|] eqn:Hf; [|right; eauto 8].
  destruct (unix_ms _) as [now|] eqn:Hn; [|right; eauto 8].
  destruct (validate_operation_envelope_at _ now) as [[]|] eqn:He; cbn [is_err is_ok negb];
    [|right; eauto 8].
  destruct (strip_prefix _ _) as [token|] eqn:Ht; [|right; eauto 8].
  destruct (verify_token _ _ _ _) as [actor|] eqn:Hv; [|right; eauto 8].
  destruct (actor_matches _ _) eqn:Hm; [|right; eauto 8].
  left. exists request, actor. apply validate_envelope_Ok_iff in He.
  apply actor_matches_iff in Hm as [??]. apply strip_prefix_Some in Ht. split; eauto.
Qed.
End tcp_lemmas.

(** The listener's permits and its connections always add up to the limit. *)
Definition listener_ok (l : Listener) : Prop :=
  permits l + N.of_nat (length (connections l)) = TCP_CONNECTION_LIMIT.
Lemma release_length id l k : release id l = Some k → length l = S (length k).
Proof.
  revert k. induction l as [|c l IH]; intros k; cbn; [done|].
  destruct (c =? id); [by intros [= ->]|]. destruct (release id l); [|done].
  intros [= <-]. cbn. by rewrite (IH _ eq_refl).
Qed.
Lemma run_mtls_event_ok l e : listener_ok l → listener_ok (run_mtls_event l e).
Proof.
  unfold listener_ok. destruct e as [id| |id]; cbn [run_mtls_event].
  - destruct (is_some (ended l)); [done|]. destruct (N.eqb_spec (permits l) 0); [done|].
    cbn [permits connections]. rewrite length_app. cbn [length]. lia.
  - by destruct (is_some (ended l)).
  - destruct (release id (connections l)) as [k|] eqn:E; [|done]. apply release_length in E.
    cbn [permits connections]. lia.
Qed.
Lemma run_mtls_ok events : listener_ok (run_mtls events).
Proof.
  unfold run_mtls. assert (listener_ok listener) as Hl by done. revert Hl.
  generalize listener. induction events as [|e events IH]; intros l Hl; [done|].
  cbn [fold_left]. by apply IH, run_mtls_event_ok.
Qed.

(** ** Properties *)

Section properties.
Context `{SharedAuth} `{Http} `{UuidText} `{Postgres} `{Serde} `{HashMapIter} `{ReplyJson}
  `{TcpJson}.

(** C16: the TCP operation discloses alerts only to their verified owner.  A permitted frame gets
    the listing of its actor, a timeout or an unavailable error; every other frame is rejected
    with no result and one of three errors; and whenever a reply has a result, the frame was
    permitted and every alert in the result is owned by the actor the authority verified. *)
Theorem tcp_operation_outcomes store auth x frame :
  let reply := execute_tcp_operation store auth x frame in
  (∀ request actor, permitted auth x frame request actor →
     reply = permitted_reply store x request actor) ∧
  ((¬ ∃ request actor, permitted auth x frame request actor) →
     reply_status reply = lit "rejected" ∧ reply_result reply = None ∧
     ∃ e, reply_error reply = Some e ∧
       e ∈ [lit "invalid_request"; lit "unauthorized"; lit "unavailable"]) ∧
  (∀ v, reply_result reply = Some v → ∃ request actor alerts,
     permitted auth x frame request actor ∧ list_alerts (x_link x) store actor = Ok alerts ∧
     v = alerts_to_value alerts ∧ ∀ r, r ∈ alerts → r ∈ abs store actor).
Proof.
  intros reply. split; [intros *; apply execute_permitted|]. unfold reply.
  destruct (execute_cases store auth x frame) as [(request & actor & Hp)|(id & e & -> & He & _)].
  - split; [intros Hn; destruct Hn; eauto|]. intros v. rewrite (execute_permitted _ _ _ _ _ _ Hp).
    unfold permitted_reply. destruct (x_timeout x); [done|].
    destruct (list_alerts _ _ _) as [alerts|] eqn:Hl; [|done]. intros [= <-].
    exists request, actor, alerts. split_and!; eauto using list_alerts_owned.
  - split; [|done]. intros _. split_and!; [done..|]. by exists e.
Qed.

(** C38: a connection answers frame by frame, each operation authorized by itself: the [i]-th
    payload it sends is the encoded reply to its [i]-th frame, by the authority and the store of
    that turn, both within 64 KiB; it ends early only when no frame arrives (within the size
    limit), the reply does not encode, the reply is over 64 KiB (the peer gets no answer then),
    or it cannot be sent. *)
Theorem tcp_connection_answers input :
  let sent := serve input in
  (∀ i payload, sent !! i = Some payload → ∃ found x frame,
     input !! i = Some (found, (x, Frame frame)) ∧
     reply_to_vec (execute_tcp_operation (f_store found) (f_auth found) x frame) = Some payload ∧
     N.of_nat (length frame) <= MAX_FRAME_BYTES ∧ N.of_nat (length payload) <= MAX_FRAME_BYTES) ∧
  (∀ found x i, input !! length sent = Some (found, (x, i)) →
     next_frame i = None ∨ ∃ frame, next_frame i = Some frame ∧
       match reply_to_vec (execute_tcp_operation (f_store found) (f_auth found) x frame) with
       | None => True
       | Some payload => MAX_FRAME_BYTES < N.of_nat (length payload) ∨ x_sent x = false
       end).
Proof.
  cbn zeta. induction input as [|[found [x i]] input IH]; [by split|]. cbn [serve].
  destruct (next_frame i) as [frame|] eqn:Hi.
  2: { split; [done|]. intros found' x' i' [= <- <- <-]. by left. }
  destruct (reply_to_vec _) as [payload|] eqn:Hr.
  2: { split; [done|]. intros found' x' i' [= <- <- <-]. right. exists frame. by rewrite Hr. }
  destruct (N.ltb_spec MAX_FRAME_BYTES (N.of_nat (length payload))) as [Hl|Hl].
  { split; [done|]. intros found' x' i' [= <- <- <-]. right. exists frame. rewrite Hr. auto. }
  destruct (x_sent x) eqn:Hx; cbn [negb].
  2: { split; [done|]. intros found' x' i' [= <- <- <-]. right. exists frame. rewrite Hr. auto. }
  destruct IH as [IH1 IH2]. split; [|exact IH2].
  intros [|j] p; [|apply IH1]. intros [= <-]. exists found, x, frame.
  destruct i as [bytes|]; [|done]. cbn in Hi.
  destruct (N.leb_spec (N.of_nat (length bytes)) MAX_FRAME_BYTES); [|done].
  by injection Hi as <-.
Qed.
End properties.

(** The accept loop never serves more than 128 connections at a time: permits and open
    connections always add up to 128; while the loop runs, a connection is admitted exactly
    when fewer than 128 are open, and dropped unserved otherwise. *)
Theorem tcp_connection_limit events id :
  let l := run_mtls events in
  let l' := run_mtls (events ++ [Accepted id]) in
  permits l + N.of_nat (length (connections l)) = TCP_CONNECTION_LIMIT ∧
  (ended l = None →
   if N.of_nat (length (connections l)) <? TCP_CONNECTION_LIMIT
   then connections l' = connections l ++ [id] ∧ refused_connections l' = refused_connections l
   else connections l' = connections l ∧
        refused_connections l' = refused_connections l ++ [id]).
Proof.
  intros l l'. pose proof (run_mtls_ok events) as Hok. fold l in Hok. unfold listener_ok in Hok.
  split; [done|]. intros Hend. unfold l', run_mtls. rewrite fold_left_app. fold (run_mtls events).
  fold l. cbn [fold_left run_mtls_event]. rewrite Hend. cbn [is_some].
  destruct (N.ltb_spec (N.of_nat (length (connections l))) TCP_CONNECTION_LIMIT).
  - rewrite (proj2 (N.eqb_neq (permits l) 0)) by lia. done.
  - rewrite (proj2 (N.eqb_eq (permits l) 0)) by lia. done.
Qed.

(** The mTLS transport is all or nothing: it is off exactly when none of its four variables
    is set, it is a configuration error when some but not all are, and when all are it starts
    exactly if the files parse and the client roots are not empty, so a running transport
    always verifies client certificates against at least one root. *)
Theorem mtls_all_or_nothing `{Rustls} env :
  (mtls_from_env env = Ok None ↔ Forall (λ v, optional_env env v = None) mtls_variables) ∧
  (Exists (λ v, optional_env env v = None) mtls_variables →
   ¬ Forall (λ v, optional_env env v = None) mtls_variables →
   mtls_from_env env = Err (lit "all API mTLS variables must be configured together")) ∧
  (∀ config, mtls_from_env env = Ok (Some config) ↔
   ∃ bind cert_file key_file ca_file certs key cas roots verifier tls,
     optional_env env <$> mtls_variables =
       [Some bind; Some cert_file; Some key_file; Some ca_file] ∧
     read_certificates cert_file = Ok certs ∧ read_private_key key_file = Ok key ∧
     read_certificates ca_file = Ok cas ∧ add_roots root_empty cas = Ok roots ∧
     root_is_empty roots = false ∧ build_verifier roots = Some verifier ∧
     with_single_cert verifier certs key = Some tls ∧ config = mk_mtls bind tls).
Proof.
  assert (∀ b c k a r, mtls_from_values b c k a = Ok r ↔ ∃ certs key cas roots verifier tls,
    read_certificates c = Ok certs ∧ read_private_key k = Ok key ∧ read_certificates a = Ok cas ∧
    add_roots root_empty cas = Ok roots ∧ root_is_empty roots = false ∧
    build_verifier roots = Some verifier ∧ with_single_cert verifier certs key = Some tls ∧
    r = mk_mtls b tls) as Hvalues.
  { intros b c k a r. unfold mtls_from_values. split.
    - intros Hr. inv_ok. subst. do 6 eexists. by split_and!.
    - intros (certs & key & cas & roots & v & t & H1 & H2 & H3 & H4 & H5 & H6 & H7 & ->).
      rewrite H1, H2, H3. cbn. rewrite H4. cbn. rewrite H5, H6. cbn. by rewrite H7. }
  assert (∀ r, (Some <$> r : result str (option MtlsServerConfig)) ≠ Ok None) as Hsome
    by (by intros []).
  unfold mtls_from_env, mtls_variables. rewrite !Forall_cons, !Exists_cons, Forall_nil, Exists_nil.
  cbn [fmap list_fmap forallb existsb].
  set (a := optional_env env _); set (b := optional_env env _).
  set (c := optional_env env _); set (d := optional_env env _). clearbody a b c d. split_and!.
  - destruct a, b, c, d; cbn [is_none is_some negb andb orb]; (split; [|naive_solver]);
      first [by intros [=]|by intros ?%Hsome|done].
  - intros Hex Hall. destruct a, b, c, d; cbn [is_none is_some negb andb orb];
      done || naive_solver.
  - intros config. split.
    + destruct a as [bind|], b as [cert|], c as [keyf|], d as [ca|];
        cbn [is_none is_some negb andb orb]; try done.
      intros (r & Hr & ->%(inj Some))%fmap_Ok_iff. apply Hvalues in Hr. naive_solver.
    + intros (bind & cert & keyf & ca & certs & key & cas & roots & v & t & [= -> -> -> ->] & Hr).
      cbn [is_none is_some negb andb orb]. apply fmap_Ok_iff. exists config. split; [|done].
      apply Hvalues. by exists certs, key, cas, roots, v, t.
Qed.

(** ** Examples *)

Module SampleTcp.
Definition request : AuthenticatedOperation :=
  mk_authenticated (lit "Bearer end-user-access-token")
    (mk_operation 1 (uuid_of 5) (lit "list_alerts") (lit Sample.subject1) SampleCommand.tenant
       (SampleCommand.now_ms + 9000)).
Module Instances.
#[export] Instance tcp_json : TcpJson := {|
  operation_from_slice f := match f with [1] => Some request | _ => None end;
  reply_to_vec r := Some (as_bytes (reply_status r));
|}.
#[export] Instance rustls : Rustls := {|
  Certificate := str; PrivateKey := str; RootCertStore := list str; ClientVerifier := list str;
  ServerConfig := list str * list str * str;
  pem_file_iter path := if starts_with path (lit "/certs/") then Some [Some path] else None;
  pem_key_file path := Some path;
  root_empty := []; root_add roots c := Some (c :: roots); root_is_empty roots := is_empty (roots ≫= id);
  build_verifier roots := Some roots;
  with_single_cert v c k := Some (v, c, k);
|}.
End Instances.
Definition exchange : Exchange := mk_exchange Sample.now Sample.now LinkUp false true.
Definition env (name : str) : option str :=
  snd <$> find (λ p, str_eqb (lit (fst p)) name)
    [("EAL_API_MTLS_BIND", lit "0.0.0.0:9443"); ("EAL_API_TLS_CERT_FILE", lit "/certs/api.pem");
     ("EAL_API_TLS_KEY_FILE", lit "/certs/api.key");
     ("EAL_WEB_CLIENT_CA_FILE", lit " /certs/ca.pem ")]%string.
End SampleTcp.
Import CanonicalInstances Sample.Instances SampleStorage.Instances SampleReply.Instances
  SampleTcp.Instances.

Definition sample_tcp_store : AlertStore :=
  snd (create LinkUp 7000 (uuid_of 9) (new None) Sample.actor sample_create).
Lemma sample_permitted :
  permitted Sample.boundary SampleTcp.exchange [1] SampleTcp.request Sample.actor.
Proof.
  split; [done| |exists (lit "end-user-access-token"); split; by vm_compute|by vm_compute|
    by vm_compute].
  exists SampleCommand.now_ms. split; [by vm_compute|]. apply validate_envelope_Ok_iff.
  by vm_compute.
Qed.
Lemma tcp_operation_outcomes_witness :
  execute_tcp_operation sample_tcp_store Sample.boundary SampleTcp.exchange [1] =
    permitted_reply sample_tcp_store SampleTcp.exchange SampleTcp.request Sample.actor ∧
  reply_status (execute_tcp_operation sample_tcp_store Sample.boundary SampleTcp.exchange [])
    = lit "rejected" ∧
  ∃ request actor alerts,
    permitted Sample.boundary SampleTcp.exchange [1] request actor ∧
    list_alerts LinkUp sample_tcp_store actor = Ok alerts ∧
    VArray [VString (lit "Release monitor")] = alerts_to_value alerts ∧
    ∀ r, r ∈ alerts → r ∈ abs sample_tcp_store actor.
Proof.
  split; [|split].
  - apply (tcp_operation_outcomes sample_tcp_store Sample.boundary SampleTcp.exchange [1]).
    apply sample_permitted.
  - by vm_compute.
  - apply (proj2 (proj2 (tcp_operation_outcomes sample_tcp_store Sample.boundary
      SampleTcp.exchange [1]))). by vm_compute.
Defined.

(** The grant is revoked between two operations of one connection. *)
Definition sample_found : Found := mk_found sample_tcp_store Sample.boundary.
Definition sample_revoked : Found :=
  mk_found sample_tcp_store (mk_boundary (λ _ : str, Err ClientUnauthorized) Sample.policy).
Lemma tcp_connection_answers_witness :
  let input := [(sample_found, (SampleTcp.exchange, Frame [1]));
                (sample_revoked, (SampleTcp.exchange, Frame [1]));
                (sample_found, (SampleTcp.exchange, NoFrame));
                (sample_found, (SampleTcp.exchange, Frame [1]))] in
  let sent := serve input in
  sent = [lit "completed"; lit "rejected"] ∧
  ∃ found x frame, input !! 1%nat = Some (found, (x, Frame frame)) ∧
    reply_to_vec (execute_tcp_operation (f_store found) (f_auth found) x frame)
      = Some (lit "rejected") ∧
    N.of_nat (length frame) <= MAX_FRAME_BYTES ∧
    N.of_nat (length (lit "rejected")) <= MAX_FRAME_BYTES.
Proof.
  intros input sent. split; [by vm_compute|].
  apply (tcp_connection_answers input). by vm_compute.
Defined.

Lemma tcp_connection_limit_witness :
  let l := run_mtls [Accepted 1; Accepted 2; Closed 1] in
  if N.of_nat (length (connections l)) <? TCP_CONNECTION_LIMIT
  then connections (run_mtls ([Accepted 1; Accepted 2; Closed 1] ++ [Accepted 3])) = connections l ++ [3] ∧
       refused_connections (run_mtls ([Accepted 1; Accepted 2; Closed 1] ++ [Accepted 3]))
         = refused_connections l
  else connections (run_mtls ([Accepted 1; Accepted 2; Closed 1] ++ [Accepted 3])) = connections l ∧
       refused_connections (run_mtls ([Accepted 1; Accepted 2; Closed 1] ++ [Accepted 3]))
         = refused_connections l ++ [3].
Proof.
  intros l. apply (tcp_connection_limit [Accepted 1; Accepted 2; Closed 1] 3). by vm_compute.
Defined.

Lemma mtls_all_or_nothing_witness :
  mtls_from_env (λ v, if str_eqb v (lit "EAL_API_MTLS_BIND") then Some (lit "x") else None)
    = Err (lit "all API mTLS variables must be configured together") ∧
  ∃ config, mtls_from_env SampleTcp.env = Ok (Some config).
Proof.
  split.
  - apply (mtls_all_or_nothing
      (λ v, if str_eqb v (lit "EAL_API_MTLS_BIND") then Some (lit "x") else None)).
    + right. left. by vm_compute.
    + intros Hf. apply Forall_cons in Hf as [Hf _]. by vm_compute in Hf.
  - eexists. apply (proj2 (proj2 (mtls_all_or_nothing SampleTcp.env))).
    exists (lit "0.0.0.0:9443"), (lit "/certs/api.pem"), (lit "/certs/api.key"),
      (lit "/certs/ca.pem"), [lit "/certs/api.pem"], (lit "/certs/api.key"),
      [lit "/certs/ca.pem"], [lit "/certs/ca.pem"], [lit "/certs/ca.pem"],
      ([lit "/certs/ca.pem"], [lit "/certs/api.pem"], lit "/certs/api.key").
    repeat (split; [by vm_compute|]). done.
Defined.
