(* ===== verification/Timing.v ===== *)
(** * Time on the mTLS/TCP transport ([run_mtls] and [execute_tcp_operation] of
    [src/transport.rs])

    [Tcp] takes the outcome of every wait as an argument.  Here the waits take time: the
    handshake, each frame, the query and each reply are futures with a duration under the
    timeouts of the source.  The file shows that the timed connection is the connection of
    [Tcp] with the outcomes the durations give, and bounds how long a connection holds one of
    the permits of the accept loop.  Times are milliseconds. *)

From S2P Require Import Prelude Str Float Ids Model Auth Database Store Envelope Commands Tcp.
Open Scope N_scope.

Definition HANDSHAKE_TIMEOUT : N := 5000.
Definition QUERY_TIMEOUT : N := 5000.
Definition TCP_IO_TIMEOUT : N := 10000.

(** ** Futures *)

(** When a future completes ([None]: never), and with what. *)
Record Future (A : Type) := mk_future { after : option N; value_of : A }.
Arguments mk_future {A} after value_of.
Arguments after {A} f.
Arguments value_of {A} f.
(** [tokio::time::timeout]: the future is polled before the deadline, so completing in the last
    moment counts; the second component is the time that passed. *)
Definition timeout {A} (limit : N) (f : Future A) : option A * N :=
  match after f with
  | Some t => if t <=? limit then (Some (value_of f), t) else (None, limit)
  | None => (None, limit)
  end.
Definition times_out (limit : N) (t : option N) : bool :=
  match t with Some t => limit <? t | None => true end.

(** One turn of the loop: the next frame ([None]: the peer closed or the codec refused it), the
    readings of the clock, the time of the introspection (the client has limits of its own), the
    link and the time of the query, and the sending of the reply. *)
Record TimedExchange := mk_timed {
  t_frame : Future (option (list N));
  t_clock : Z; t_auth_clock : Z; t_auth : N; t_link : Link; t_query : option N;
  t_send : Future bool;
}.

Section timing.
Context `{SharedAuth} `{Http} `{UuidText} `{Postgres} `{Serde} `{HashMapIter} `{ReplyJson}
  `{TcpJson}.

(** ** The timed connection *)

(** [execute_tcp_operation]: the reply and the time until it is there. *)
Definition execute_timed (store : AlertStore) (auth : AuthBoundary) (x : TimedExchange)
    (frame : list N) : OperationReply * N :=
  match operation_from_slice frame with
  | None => (error_reply uuid_nil (lit "invalid_request"), 0)
  | Some request =>
      let operation_id := operation_id (envelope request) in
      match unix_ms (t_clock x) with
      | None => (error_reply operation_id (lit "unavailable"), 0)
      | Some now =>
          if is_err (validate_operation_envelope_at (envelope request) now)
          then (error_reply operation_id (lit "invalid_request"), 0) else
          match strip_prefix (lit "Bearer ") (authorization request) with
          | None => (error_reply operation_id (lit "unauthorized"), 0)
          | Some token =>
              match verify_token auth token READ_SCOPE (t_auth_clock x) with
              | Ok actor =>
                  if actor_matches actor (envelope request) then
                    let '(listed, passed) :=
                      timeout QUERY_TIMEOUT
                        (mk_future (t_query x) (list_alerts (t_link x) store actor)) in
                    (match listed with
                     | Some (Ok alerts) =>
                         mk_reply operation_id (lit "completed") (Some (alerts_to_value alerts)) None
                     | Some (Err _) => error_reply operation_id (lit "unavailable")
                     | None => error_reply operation_id (lit "timeout")
                     end, t_auth x + passed)
                  else (error_reply operation_id (lit "unauthorized"), t_auth x)
              | Err _ => (error_reply operation_id (lit "unauthorized"), t_auth x)
              end
          end
      end
  end.

(** [Ok(Some(Ok(frame)))]. *)
Definition received (read : option (option (list N))) : option (list N) :=
  match read with Some (Some frame) => next_frame (Frame frame) | _ => None end.
(** The payloads sent and the time that passed until the connection ended. *)
Fixpoint serve_timed (input : list (Found * TimedExchange)) : list (list N) * N :=
  match input with
  | [] => ([], 0)
  | (found, x) :: input =>
      let '(read, waited) := timeout TCP_IO_TIMEOUT (t_frame x) in
      match received read with
      | None => ([], waited)
      | Some frame =>
          let '(reply, worked) := execute_timed (f_store found) (f_auth found) x frame in
          match reply_to_vec reply with
          | None => ([], waited + worked)
          | Some payload =>
              if MAX_FRAME_BYTES <? N.of_nat (length payload) then ([], waited + worked) else
              let '(sent, sending) := timeout TCP_IO_TIMEOUT (t_send x) in
              match sent with
              | Some true =>
                  let '(payloads, rest) := serve_timed input in
                  (payload :: payloads, waited + worked + sending + rest)
              | _ => ([], waited + worked + sending)
              end
          end
      end
  end.
Definition connection_timed (handshake : Future bool) (input : list (Found * TimedExchange))
    : list (list N) * N :=
  let '(shaken, passed) := timeout HANDSHAKE_TIMEOUT handshake in
  match shaken with
  | Some true =>
      let '(payloads, served) := serve_timed input in (payloads, passed + served)
  | _ => ([], passed)
  end.

(** ** Forgetting the time *)

Definition in_time (limit : N) (f : Future bool) : bool :=
  negb (times_out limit (after f)) && value_of f.
Definition erase (x : TimedExchange) : Exchange * Incoming :=
  (mk_exchange (t_clock x) (t_auth_clock x) (t_link x) (times_out QUERY_TIMEOUT (t_query x))
     (in_time TCP_IO_TIMEOUT (t_send x)),
   match value_of (t_frame x) with
   | Some frame => if times_out TCP_IO_TIMEOUT (after (t_frame x)) then NoFrame else Frame frame
   | None => NoFrame
   end).

(** ** Lemmas *)

Lemma timeout_fst {A} limit (f : Future A) :
  fst (timeout limit f) = if times_out limit (after f) then None else Some (value_of f).
Proof.
  unfold timeout, times_out. destruct (after f) as [t|]; [|done].
  rewrite N.ltb_antisym. by destruct (t <=? limit).
Qed.
Lemma timeout_le {A} limit (f : Future A) : snd (timeout limit f) <= limit.
Proof.
  unfold timeout. destruct (after f) as [t|]; [|done]. by destruct (N.leb_spec t limit).
Qed.
Lemma in_time_timeout limit (f : Future bool) :
  in_time limit f = true ↔ fst (timeout limit f) = Some true.
Proof.
  rewrite timeout_fst. unfold in_time. destruct (times_out _ _), (value_of f); done.
Qed.

Lemma execute_timed_fst store auth x frame :
  fst (execute_timed store auth x frame) = execute_tcp_operation store auth (fst (erase x)) frame.
Proof.
  unfold execute_timed, execute_tcp_operation. cbn [erase fst x_clock x_auth_clock x_link x_timeout].
  destruct (operation_from_slice frame) as [request|]; [|done].
  destruct (unix_ms _); [|done]. destruct (is_err _); [done|].
  destruct (strip_prefix _ _); [|done]. destruct (verify_token _ _ _ _); [|done].
  destruct (actor_matches _ _); [|done].
  pose proof (timeout_fst QUERY_TIMEOUT (mk_future (t_query x) (list_alerts (t_link x) store a))) as Ht.
  destruct (timeout _ _) as [listed passed]. cbn [fst after value_of] in Ht. subst listed. cbn [fst].
  destruct (times_out _ _); [done|]. by destruct (list_alerts _ _ _).
Qed.
Lemma execute_timed_snd store auth x frame :
  snd (execute_timed store auth x frame) <= t_auth x + QUERY_TIMEOUT.
Proof.
  unfold execute_timed. repeat (case_match; cbn [snd]; try lia).
  match goal with E : timeout _ ?f = (_, ?p) |- _ =>
    pose proof (timeout_le QUERY_TIMEOUT f) as Hle; rewrite E in Hle; cbn [snd] in Hle end. lia.
Qed.
Lemma read_erase x :
  received (fst (timeout TCP_IO_TIMEOUT (t_frame x))) =
  next_frame (snd (erase x)).
Proof.
  rewrite timeout_fst. cbn [erase snd].
  destruct (value_of (t_frame x)), (times_out _ (after (t_frame x))); done.
Qed.

Lemma serve_timed_fst input : fst (serve_timed input) = serve (prod_map id erase <$> input).
Proof.
  induction input as [|[found x] input IH]; [done|]. cbn [serve_timed fmap list_fmap serve prod_map fst snd id].
  pose proof (read_erase x) as Hread. pose proof (in_time_timeout TCP_IO_TIMEOUT (t_send x)) as Hsend.
  assert (x_sent (fst (erase x)) = in_time TCP_IO_TIMEOUT (t_send x)) as Hsent by done.
  destruct (timeout TCP_IO_TIMEOUT (t_frame x)) as [read waited]. cbn [fst] in Hread. rewrite Hread.
  pose proof (execute_timed_fst (f_store found) (f_auth found) x) as Hexec.
  destruct (erase x) as [e i]. cbn [fst snd] in *. destruct (next_frame i) as [frame|]; [|done].
  rewrite <-Hexec. destruct (execute_timed _ _ x frame) as [reply worked]. cbn [fst].
  destruct (reply_to_vec reply) as [payload|]; [|done]. destruct (_ <? _); [done|].
  destruct (timeout TCP_IO_TIMEOUT (t_send x)) as [sent sending]. cbn [fst] in Hsend. rewrite Hsent.
  destruct (serve_timed input) as [payloads rest]. cbn [fst] in IH. rewrite <-IH.
  destruct (in_time _ _) eqn:E; cbn [negb].
  - by rewrite (proj1 Hsend eq_refl).
  - destruct sent as [[]|]; [|done..]. discriminate (proj2 Hsend eq_refl).
Qed.

(** What one turn can take when an introspection takes at most [a]. *)
Definition turn_budget (a : N) : N := TCP_IO_TIMEOUT + (a + QUERY_TIMEOUT) + TCP_IO_TIMEOUT.
Lemma serve_timed_snd a input :
  Forall (λ x, t_auth (snd x) <= a) input →
  snd (serve_timed input) <=
    (N.of_nat (length (fst (serve_timed input))) + 1) * turn_budget a.
Proof.
  unfold turn_budget. induction 1 as [|[found x] input Hx _ IH]; cbn [serve_timed]; [cbn; lia|].
  cbn [snd] in Hx. pose proof (timeout_le TCP_IO_TIMEOUT (t_frame x)) as Hw.
  pose proof (timeout_le TCP_IO_TIMEOUT (t_send x)) as Hs.
  destruct (timeout TCP_IO_TIMEOUT (t_frame x)) as [read waited]. cbn [snd] in Hw.
  destruct (received read) as [frame|]; [|cbn [fst snd length]; lia].
  pose proof (execute_timed_snd (f_store found) (f_auth found) x frame) as Hworked.
  destruct (execute_timed _ _ x frame) as [reply worked]. cbn [snd] in Hworked.
  destruct (reply_to_vec reply) as [payload|]; [|cbn [fst snd length]; lia].
  destruct (_ <? _); [cbn [fst snd length]; lia|].
  destruct (timeout TCP_IO_TIMEOUT (t_send x)) as [sent sending]. cbn [snd] in Hs.
  destruct sent as [[]|]; [|cbn [fst snd length]; lia..].
  destruct (serve_timed input) as [payloads rest]. cbn [fst snd] in *.
  cbn [length]. lia.
Qed.
End timing.

(** ** The accept loop in time

    A connection that is accepted at a time holds its permit until it ends. *)

Record Held := mk_held { held_id : N; held_from : N; held_until : N }.
Record TimedListener := mk_timed_listener { held : list Held; timed_refused : list N }.
Definition timed_listener : TimedListener := mk_timed_listener [] [].
(** The connections that still run at [now]. *)
Definition alive (now : N) (h : Held) : bool := now <? held_until h.
Record Arrival := mk_arrival { arr_id : N; arr_at : N; arr_lasts : N }.
Definition arrive (l : TimedListener) (a : Arrival) : TimedListener :=
  let running := List.filter (alive (arr_at a)) (held l) in
  if N.of_nat (length running) <? TCP_CONNECTION_LIMIT
  then mk_timed_listener (running ++ [mk_held (arr_id a) (arr_at a) (arr_at a + arr_lasts a)])
         (timed_refused l)
  else mk_timed_listener running (timed_refused l ++ [arr_id a]).
Definition arrivals (l : list Arrival) : TimedListener := fold_left arrive l timed_listener.

(** The events of [Tcp.run_mtls]: the connections that ended in the meantime, and the arrival. *)
Definition events_of (l : TimedListener) (a : Arrival) : list Event :=
  (Closed ∘ held_id <$> List.filter (λ h, negb (alive (arr_at a) h)) (held l)) ++
  [Accepted (arr_id a)].
Fixpoint trace_of (l : TimedListener) (input : list Arrival) : list Event :=
  match input with
  | [] => []
  | a :: input => events_of l a ++ trace_of (arrive l a) input
  end.

Record listener_agrees (t : TimedListener) (l : Listener) : Prop := {
  la_ok : listener_ok l;
  la_connections : connections l = held_id <$> held t;
  la_refused : refused_connections l = timed_refused t;
  la_ended : ended l = None;
}.

Lemma release_app id l k : id ∉ l → release id (l ++ id :: k) = Some (l ++ k).
Proof.
  induction l as [|c l IH]; cbn; [by rewrite N.eqb_refl|]. intros [Hc Hl]%not_elem_of_cons.
  rewrite (proj2 (N.eqb_neq _ _)) by congruence. by rewrite IH.
Qed.
(** Closing the connections that do not run leaves those that do, in order. *)
Lemma close_expired now t l kept :
  NoDup (kept ++ (held_id <$> t)) → listener_ok l → ended l = None →
  connections l = kept ++ (held_id <$> t) →
  let l' := fold_left run_mtls_event
    (Closed ∘ held_id <$> List.filter (λ h, negb (alive now h)) t) l in
  listener_ok l' ∧ ended l' = None ∧ refused_connections l' = refused_connections l ∧
  connections l' = kept ++ (held_id <$> List.filter (alive now) t).
Proof.
  revert l kept. induction t as [|h t IH]; intros l kept Hnd Hok Hend Hc; [by split_and!|].
  cbn [List.filter fmap list_fmap]. cbn [fmap list_fmap] in Hc, Hnd.
  destruct (alive now h); cbn [negb].
  - destruct (IH l (kept ++ [held_id h])) as (? & ? & ? & E); rewrite <-?app_assoc; try done.
    split_and!; [done..|]. rewrite E. by rewrite <-app_assoc.
  - assert (release (held_id h) (connections l) = Some (kept ++ (held_id <$> t))) as Hr.
    { rewrite Hc. apply release_app. apply NoDup_app in Hnd as (_ & Hd & _).
      intros Hin. apply (Hd _ Hin). left. }
    cbn [fmap list_fmap fold_left compose].
    assert (run_mtls_event l (Closed (held_id h)) = mk_listener (permits l + 1)
      (kept ++ (held_id <$> t)) (refused_connections l) (ended l)) as -> by (cbn; by rewrite Hr).
    apply (IH (mk_listener _ _ _ _) kept); cbn [connections ended]; [|  |done|done].
    + apply NoDup_app in Hnd as (Hk & Hd & Ht). apply NoDup_cons in Ht as [_ Ht].
      apply NoDup_app. split_and!; [done| |done]. intros i Hi Hin. apply (Hd _ Hi). by right.
    + unfold listener_ok in *. cbn [permits connections]. rewrite Hc, length_app in Hok. cbn [length] in Hok.
      rewrite length_app. lia.
Qed.

Lemma arrive_agrees t l a :
  NoDup ((held_id <$> held t) ++ [arr_id a]) → listener_agrees t l →
  listener_agrees (arrive t a) (fold_left run_mtls_event (events_of t a) l).
Proof.
  intros Hnd [Hok Hc Hr He]. apply NoDup_app in Hnd as (Hnd & _ & _).
  destruct (close_expired (arr_at a) (held t) l [] Hnd Hok He Hc) as (Hok' & He' & Hr' & Hc').
  unfold events_of. rewrite fold_left_app.
  set (l' := fold_left _ _ l) in *. cbn [fold_left run_mtls_event]. rewrite He'. cbn [is_some].
  cbn [app] in Hc'. unfold arrive. set (running := List.filter (alive (arr_at a)) (held t)) in *.
  assert (permits l' = TCP_CONNECTION_LIMIT - N.of_nat (length running) ∧
    N.of_nat (length running) <= TCP_CONNECTION_LIMIT) as [Hp Hle].
  { unfold listener_ok in Hok'. rewrite Hc', length_fmap in Hok'. lia. }
  destruct (N.ltb_spec (N.of_nat (length running)) TCP_CONNECTION_LIMIT) as [Hlt|Hge].
  - rewrite (proj2 (N.eqb_neq _ _)) by lia. split; cbn [connections refused_connections ended held timed_refused].
    + unfold listener_ok in *. cbn [permits connections]. rewrite length_app. cbn [length]. lia.
    + by rewrite Hc', fmap_app.
    + by rewrite Hr', Hr.
    + done.
  - rewrite (proj2 (N.eqb_eq (permits l') 0)) by lia. split; cbn [connections refused_connections ended held timed_refused];
      [exact Hok'|exact Hc'|by rewrite Hr', Hr|done].
Qed.
Lemma arrive_ids t a i : i ∈ held_id <$> held (arrive t a) → i ∈ held_id <$> held t ∨ i = arr_id a.
Proof.
  assert (∀ p (l : list Held) i, i ∈ held_id <$> List.filter p l → i ∈ held_id <$> l) as Hsub.
  { intros p l j (h & -> & Hh)%list_elem_of_fmap. apply list_elem_of_In, filter_In in Hh as [Hh _].
    apply list_elem_of_fmap. exists h. split; [done|]. by apply list_elem_of_In. }
  unfold arrive. destruct (_ <? _); cbn [held].
  - rewrite fmap_app, elem_of_app. intros [Hin|Hin]; [left; by eapply Hsub|right].
    by apply list_elem_of_singleton in Hin.
  - intros Hin. left. by eapply Hsub.
Qed.
Lemma arrive_NoDup t a :
  NoDup ((held_id <$> held t) ++ [arr_id a]) → NoDup (held_id <$> held (arrive t a)).
Proof.
  assert (∀ p (l : list Held), NoDup (held_id <$> l) → NoDup (held_id <$> List.filter p l)) as Hsub.
  { intros p l. induction l as [|h l IH]; [done|]. cbn [fmap list_fmap List.filter].
    intros [Hh Hl]%NoDup_cons. destruct (p h); [|by apply IH]. apply NoDup_cons. split; [|by apply IH].
    intros (k & E & Hk)%list_elem_of_fmap. apply Hh. apply list_elem_of_In, filter_In in Hk as [Hk _].
    apply list_elem_of_fmap. exists k. split; [done|]. by apply list_elem_of_In. }
  intros (Hnd & Hd & _)%NoDup_app. unfold arrive. destruct (_ <? _); cbn [held]; [|by apply Hsub].
  rewrite fmap_app. apply NoDup_app. split_and!; [by apply Hsub| |apply NoDup_singleton].
  intros i (h & -> & Hh)%list_elem_of_fmap. apply Hd. apply list_elem_of_fmap. exists h. split; [done|].
  by apply list_elem_of_In, filter_In, proj1, list_elem_of_In in Hh.
Qed.
Lemma arrivals_agree input t l :
  listener_agrees t l → NoDup ((held_id <$> held t) ++ (arr_id <$> input)) →
  listener_agrees (fold_left arrive input t) (fold_left run_mtls_event (trace_of t input) l).
Proof.
  revert t l. induction input as [|a input IH]; intros t l Hl Hnd; [exact Hl|].
  cbn [fold_left trace_of fmap list_fmap] in *. rewrite fold_left_app.
  change (arr_id a :: ?k) with ([arr_id a] ++ k) in Hnd. rewrite app_assoc in Hnd.
  apply NoDup_app in Hnd as (Hnd & Hd & Hin). apply IH; [by apply arrive_agrees|].
  apply NoDup_app. split_and!; [by apply arrive_NoDup| |done].
  intros i Hi. apply Hd. rewrite elem_of_app, list_elem_of_singleton. by apply arrive_ids.
Qed.

(** A connection as it is held when it is accepted. *)
Definition held_of (a : Arrival) : Held := mk_held (arr_id a) (arr_at a) (arr_at a + arr_lasts a).
Lemma filter_filter_length {A} (p q : A → bool) l :
  (length (List.filter p (List.filter q l)) <= length (List.filter p l))%nat.
Proof.
  induction l as [|x l IH]; cbn; [done|].
  destruct (q x); cbn; destruct (p x); cbn; lia.
Qed.
Lemma held_count p input t :
  (length (List.filter p (held (fold_left arrive input t))) <=
   length (List.filter p (held t)) + length (List.filter (p ∘ held_of) input))%nat.
Proof.
  revert t. induction input as [|a input IH]; intros t; cbn [fold_left List.filter]; [cbn; lia|].
  etrans; [apply IH|].
  pose proof (filter_filter_length p (alive (arr_at a)) (held t)) as Hf.
  unfold arrive. destruct (_ <? _); cbn [held].
  - rewrite List.filter_app, length_app. cbn [List.filter]. change (mk_held _ _ _) with (held_of a).
    unfold compose. destruct (p (held_of a)); cbn [length]; lia.
  - unfold compose. destruct (p (held_of a)); cbn [length]; lia.
Qed.

(** ** Properties *)

Section properties.
Context `{SharedAuth} `{Http} `{UuidText} `{Postgres} `{Serde} `{HashMapIter} `{ReplyJson}
  `{TcpJson}.

(** The durations only decide outcomes: a connection whose handshake, frames, queries and
    sends take any time at all sends exactly the payloads of the untimed connection whose
    handshake is done, whose frames arrive, whose queries finish and whose replies are sent as
    the timeouts of 5 s, 10 s, 5 s and 10 s tell. *)
Theorem timed_connection_is_connection handshake input :
  fst (connection_timed handshake input) =
  connection (in_time HANDSHAKE_TIMEOUT handshake) (prod_map id erase <$> input).
Proof.
  unfold connection_timed, connection. pose proof (in_time_timeout HANDSHAKE_TIMEOUT handshake) as Hh.
  rewrite <-serve_timed_fst. destruct (timeout _ _) as [shaken passed]. cbn [fst] in Hh.
  destruct (serve_timed input) as [payloads served]. destruct (in_time _ _).
  - by rewrite (proj1 Hh eq_refl).
  - destruct shaken as [[]|]; [discriminate (proj2 Hh eq_refl)|done..].
Qed.

(** C17: no peer keeps a connection for free.  Whatever the peer, the database and the authority
    do, a connection ends within 5 s for the handshake and, for each reply it was sent and
    once more, 10 s for the frame, 5 s for the query, 10 s for the reply and the time of an
    introspection; one that completes no first frame in 10 s ends within 15 s, with nothing
    sent. *)
Theorem connection_time_is_bounded a handshake input :
  (Forall (λ x, t_auth (snd x) <= a) input →
   snd (connection_timed handshake input) <=
     HANDSHAKE_TIMEOUT +
     (N.of_nat (length (fst (connection_timed handshake input))) + 1) * turn_budget a) ∧
  (∀ found x rest, input = (found, x) :: rest → times_out TCP_IO_TIMEOUT (after (t_frame x)) = true →
   fst (connection_timed handshake input) = [] ∧
   snd (connection_timed handshake input) <= 15000).
Proof.
  unfold connection_timed. pose proof (timeout_le HANDSHAKE_TIMEOUT handshake) as Hh.
  destruct (timeout _ _) as [shaken passed]. cbn [snd] in Hh. split.
  - intros Ha. pose proof (serve_timed_snd a input Ha) as Hs.
    destruct (serve_timed input) as [payloads served]. cbn [fst snd] in Hs.
    destruct shaken as [[]|]; cbn [fst snd length]; lia.
  - intros found x rest -> Hx. cbn [serve_timed].
    pose proof (timeout_fst TCP_IO_TIMEOUT (t_frame x)) as Hf.
    pose proof (timeout_le TCP_IO_TIMEOUT (t_frame x)) as Hw. rewrite Hx in Hf.
    destruct (timeout TCP_IO_TIMEOUT (t_frame x)) as [read waited]. cbn [fst snd] in Hf, Hw. subst read.
    cbn [received]. unfold HANDSHAKE_TIMEOUT, TCP_IO_TIMEOUT in *.
    destruct shaken as [[]|]; cbn [fst snd]; (split; [done|lia]).
Qed.
End properties.

(** C18: permits come back.  The accept loop in time is the accept loop of [Tcp] on the trace in
    which every connection closes when its time is over, so a connection that ended never
    counts; and when connections last at most [bound], a peer is refused only if 128 others
    arrived within [bound] before it. *)
Theorem permits_return_in_time bound input a :
  NoDup (arr_id <$> input ++ [a]) → Forall (λ b, arr_lasts b <= bound) input →
  listener_agrees (arrivals (input ++ [a])) (run_mtls (trace_of timed_listener (input ++ [a]))) ∧
  (N.of_nat (length (List.filter (λ b, arr_at a <? arr_at b + bound) input)) < TCP_CONNECTION_LIMIT →
   timed_refused (arrivals (input ++ [a])) = timed_refused (arrivals input) ∧
   held_of a ∈ held (arrivals (input ++ [a]))).
Proof.
  intros Hnd Hall. split; [by apply arrivals_agree|]. intros Hfew. unfold arrivals in *.
  rewrite fold_left_app. cbn [fold_left]. set (t := fold_left arrive input timed_listener).
  assert (length (List.filter (alive (arr_at a)) (held (fold_left arrive input timed_listener))) <=
    length (List.filter (λ b, (arr_at a <? arr_at b + bound)%N) input))%nat as Hle.
  { etrans; [apply held_count|]. cbn [held timed_listener List.filter length Nat.add].
    clear Hnd Hfew t. induction Hall as [|b input Hb _ IH]; cbn [List.filter]; [done|].
    change ((alive (arr_at a) ∘ held_of) b) with (arr_at a <? arr_at b + arr_lasts b).
    destruct (N.ltb_spec (arr_at a) (arr_at b + arr_lasts b)) as [H1|H1];
      destruct (N.ltb_spec (arr_at a) (arr_at b + bound)) as [H2|H2]; cbn [length]; lia. }
  assert (arrive t a = mk_timed_listener (List.filter (alive (arr_at a)) (held t) ++ [held_of a])
    (timed_refused t)) as ->.
  { unfold arrive. fold t in Hle. by rewrite (proj2 (N.ltb_lt _ _)) by lia. }
  split; [done|]. apply elem_of_app. right. by apply list_elem_of_singleton.
Qed.

(** ** Examples *)

Import CanonicalInstances Sample.Instances SampleStorage.Instances SampleReply.Instances
  SampleTcp.Instances.

Module SampleTiming.
Definition exchange (frame query : option N) : TimedExchange :=
  mk_timed (mk_future frame (Some [1])) Sample.now Sample.now 200 LinkUp query
    (mk_future (Some 3) true).
(** Two prompt exchanges, a query that hangs, and then silence. *)
Definition session : list (Found * TimedExchange) :=
  (λ x, (sample_found, x)) <$> [exchange (Some 20) (Some 5000); exchange (Some 10000) None; exchange None (Some 1)].
Definition shaken : Future bool := mk_future (Some 40) true.
Definition served : list (list N) * N :=
  connection_timed shaken session.
(** Three connections, the first of which ends before the third arrives. *)
Definition load : list Arrival := [mk_arrival 1 0 15000; mk_arrival 2 4000 15000].
Definition late : Arrival := mk_arrival 3 16000 15000.
End SampleTiming.

Lemma connection_time_is_bounded_witness :
  fst SampleTiming.served = [as_bytes (lit "completed"); as_bytes (lit "rejected")] ∧
  snd SampleTiming.served = 30466 ∧
  snd SampleTiming.served <=
    HANDSHAKE_TIMEOUT + (N.of_nat (length (fst SampleTiming.served)) + 1) * turn_budget 200.
Proof.
  split; [by vm_compute|]. split; [by vm_compute|].
  apply (proj1 (connection_time_is_bounded 200
    SampleTiming.shaken SampleTiming.session)).
  repeat (apply Forall_cons_2; [cbn; lia|]). apply Forall_nil_2.
Defined.

Lemma permits_return_in_time_witness :
  listener_agrees (arrivals (SampleTiming.load ++ [SampleTiming.late]))
    (run_mtls (trace_of timed_listener (SampleTiming.load ++ [SampleTiming.late]))) ∧
  trace_of timed_listener (SampleTiming.load ++ [SampleTiming.late]) =
    [Accepted 1; Accepted 2; Closed 1; Accepted 3] ∧
  held_of SampleTiming.late ∈ held (arrivals (SampleTiming.load ++ [SampleTiming.late])).
Proof.
  destruct (permits_return_in_time 15000 SampleTiming.load SampleTiming.late) as [Hagree Hroom].
  - apply (bool_decide_unpack _). by vm_compute.
  - repeat (apply Forall_cons_2; [cbn; lia|]). apply Forall_nil_2.
  - split; [exact Hagree|]. split; [by vm_compute|]. apply Hroom. by vm_compute.
Defined.
