(* ===== verification/Api.v ===== *)
(** * The HTTP and WebSocket API ([src/lib.rs])

    The router and its handlers as functions from a request and the application state to a
    response and the next state, and the WebSocket loop.  The handlers use the store through
    the interface [AlertRepo].  What axum does before a handler runs (path, body and upgrade
    extractors) is the class [Axum]; clocks and link states are arguments. *)

From S2P Require Import Prelude Str Float Ids Model Auth Database Store Repository.
Open Scope N_scope.

Definition MAX_JSON_BODY_BYTES : N := 32 * 1024.

(** ** Errors *)

Inductive ApiError := ApiUnauthorized | ApiDegraded | ApiInvalidRequest | ApiNotFound | ApiUnavailable.
#[global] Instance api_error_eq_dec : EqDecision ApiError.
Proof. solve_decision. Defined.

Definition api_error_message (e : ApiError) : str :=
  match e with
  | ApiUnauthorized => lit "unauthorized"
  | ApiDegraded => lit "identity authority unavailable"
  | ApiInvalidRequest => lit "invalid request"
  | ApiNotFound => lit "not found"
  | ApiUnavailable => lit "service unavailable"
  end.
Definition api_error_status (e : ApiError) : N :=
  match e with
  | ApiUnauthorized => 401
  | ApiDegraded | ApiUnavailable => 503
  | ApiInvalidRequest => 400
  | ApiNotFound => 404
  end.
Definition api_error_from (e : AuthError) : ApiError :=
  match e with Unauthorized => ApiUnauthorized | Degraded | Configuration => ApiDegraded end.

(** ** State *)

Record ScopedAlertEvent := mk_scoped_event {
  ev_product_tenant : str; ev_owner_subject : Uuid; ev_kind : str; ev_alert : AlertRule;
}.

(** What axum does before a handler: the body of a JSON request within a size limit, the
    path parameter, and the upgrade request; a failure is a rejection with its status. *)
Inductive Method := GET | POST | HEAD | OtherMethod.
#[global] Instance method_eq_dec : EqDecision Method.
Proof. solve_decision. Defined.
Class Axum `{Http} := {
  json_extract : N → HeaderMap → list N → result N CreateAlertRule;
  (** Every [f32] is a binary32 value. *)
  json_extract_f32 limit h b i :
    json_extract limit h b = Ok i → f32_valid (ca_similarity_threshold i) = true;
  path_uuid : str → result N Uuid;
  ws_extract : Method → HeaderMap → result N unit;
}.

Section api.
Context `{SharedAuth} `{Http} `{UuidText} `{!Axum} {R : Type} `{!AlertRepo R}.

Record AppState := mk_state {
  app_store : R;
  app_auth : AuthBoundary;
  app_events : list ScopedAlertEvent;   (* sent to the broadcast channel, in order *)
  mtls_configured : bool;
  jetstream_configured : bool;
}.

Inductive Body :=
| BodyHealth (h : Health)
| BodyCapabilities
| BodyAlerts (l : list AlertRule)
| BodyAlert (r : AlertRule)
| BodyError (message : str)
| BodyUpgrade (actor : VerifiedActor)
| BodyRejection   (* axum's own text *)
| BodyEmpty.
Record Response := mk_response { code : N; body : Body }.

Definition into_response (e : ApiError) : Response :=
  mk_response (api_error_status e) (BodyError (api_error_message e)).
Definition respond (r : result ApiError Response) : Response :=
  match r with Ok r => r | Err e => into_response e end.

Record HttpRequest := mk_request {
  method : Method; path : str; headers : HeaderMap; content : list N;
}.
(** The surroundings of a request: the clock of the authority check, the database link, the
    values of [Utc::now()] and [Uuid::new_v4()]. *)
Record Serving := mk_serving { sv_clock : Z; sv_link : Link; sv_now : DateTime; sv_fresh : Uuid }.

(** ** Handlers *)

Definition health (s : AppState) : Response :=
  mk_response 200 (BodyHealth {|
    service := lit "eal-api-server"; Model.status := lit "ok";
    h_database_configured := repo_durable (app_store s);
    shared_auth_configured := true;
    h_mtls_configured := mtls_configured s;
    h_jetstream_configured := jetstream_configured s |}).

Definition authorize (x : Serving) (s : AppState) (headers : HeaderMap) (scope : str)
    : result ApiError VerifiedActor :=
  map_err api_error_from (verify_authorization (app_auth s) headers scope (sv_clock x)).

Definition api_list_alerts (x : Serving) (s : AppState) (headers : HeaderMap)
    : result ApiError Response :=
  actor ← authorize x s headers READ_SCOPE;
  alerts ← map_err (λ _, ApiUnavailable) (repo_list (sv_link x) (app_store s) actor);
  Ok (mk_response 200 (BodyAlerts alerts)).

Definition get_alert (x : Serving) (s : AppState) (id : Uuid) (headers : HeaderMap)
    : result ApiError Response :=
  actor ← authorize x s headers READ_SCOPE;
  found ← map_err (λ _, ApiUnavailable) (repo_get (sv_link x) (app_store s) actor id);
  alert ← ok_or found ApiNotFound;
  Ok (mk_response 200 (BodyAlert alert)).

Definition create_alert (x : Serving) (s : AppState) (headers : HeaderMap)
    (input : CreateAlertRule) : result ApiError Response * AppState :=
  match authorize x s headers WRITE_SCOPE with
  | Err e => (Err e, s)
  | Ok actor =>
      match validate input with
      | Err _ => (Err ApiInvalidRequest, s)
      | Ok _ =>
          let '(r, store) :=
            repo_create (sv_link x) (sv_now x) (sv_fresh x) (app_store s) actor input in
          match r with
          | Err _ =>
              (Err ApiUnavailable,
               mk_state store (app_auth s) (app_events s) (mtls_configured s)
                 (jetstream_configured s))
          | Ok alert =>
              let event := mk_scoped_event (product_tenant actor) (subject actor)
                             (lit "created") alert in
              (Ok (mk_response 201 (BodyAlert alert)),
               mk_state store (app_auth s) (app_events s ++ [event]) (mtls_configured s)
                 (jetstream_configured s))
          end
      end
  end.

Definition ws_upgrade (x : Serving) (s : AppState) (headers : HeaderMap)
    : result ApiError Response :=
  actor ← authorize x s headers READ_SCOPE;
  Ok (mk_response 101 (BodyUpgrade actor)).

(** ** Router *)

Inductive Route :=
| RouteHealth | RouteCapabilities | RouteAlerts | RouteAlert (id : str) | RouteWebAlerts | RouteWs.
(** [/v1/alerts/{id}]: the parameter is one path segment that is not empty. *)
Definition alert_segment (path : str) : option str :=
  opt_filter (λ id, negb (is_empty id) && negb (contains_char 47 id))
    (strip_prefix (lit "/v1/alerts/") path).
Definition route (path : str) : option Route :=
  if str_eqb path (lit "/healthz") then Some RouteHealth else
  if str_eqb path (lit "/v1/data-plane/capabilities") then Some RouteCapabilities else
  if str_eqb path (lit "/readyz") then Some RouteHealth else
  if str_eqb path (lit "/v1/alerts") then Some RouteAlerts else
  if str_eqb path (lit "/v1/web/alerts") then Some RouteWebAlerts else
  if str_eqb path (lit "/v1/ws") then Some RouteWs else
  RouteAlert <$> alert_segment path.
(** [get(..)] also serves [HEAD]. *)
Definition is_get (m : Method) : bool := match m with GET | HEAD => true | _ => false end.
Definition reject (status : N) : Response := mk_response status BodyRejection.

(** The routes and what their handlers answer. *)
Definition dispatch (x : Serving) (request : HttpRequest) (s : AppState) : Response * AppState :=
  let headers := headers request in
  match route (path request) with
  | None => (reject 404, s)
  | Some RouteAlerts =>
      match method request with
      | GET | HEAD => (respond (api_list_alerts x s headers), s)
      | POST =>
          match json_extract MAX_JSON_BODY_BYTES headers (content request) with
          | Err code => (reject code, s)
          | Ok input => let '(r, s) := create_alert x s headers input in (respond r, s)
          end
      | OtherMethod => (reject 405, s)
      end
  | Some r =>
      if negb (is_get (method request)) then (reject 405, s) else
      match r with
      | RouteHealth => (health s, s)
      | RouteCapabilities => (mk_response 200 BodyCapabilities, s)
      | RouteWebAlerts => (respond (api_list_alerts x s headers), s)
      | RouteAlert id =>
          match path_uuid id with
          | Err code => (reject code, s)
          | Ok id => (respond (get_alert x s id headers), s)
          end
      | RouteWs =>
          match ws_extract (method request) headers with
          | Err code => (reject code, s)
          | Ok _ => (respond (ws_upgrade x s headers), s)
          end
      | RouteAlerts => (reject 405, s)
      end
  end.
(** [HEAD] is served by the handlers of [GET]; axum then drops the body. *)
Definition strip_body (m : Method) (r : Response) : Response :=
  match m with HEAD => mk_response (code r) BodyEmpty | _ => r end.
Definition router (x : Serving) (request : HttpRequest) (s : AppState) : Response * AppState :=
  let '(response, s) := dispatch x request s in (strip_body (method request) response, s).

(** Serving a sequence of requests. *)
Fixpoint serve_requests (requests : list (Serving * HttpRequest)) (s : AppState)
    : list Response * AppState :=
  match requests with
  | [] => ([], s)
  | (x, request) :: requests =>
      let '(response, s) := router x request s in
      let '(responses, s) := serve_requests requests s in (response :: responses, s)
  end.
End api.

(** ** WebSocket

    What the two branches of [select!] yield, in the order the loop takes them: a message of
    the peer, or a result of the broadcast receiver; [sent] tells whether a send succeeds. *)
Inductive WsInput :=
| PeerMessage | PeerClose | PeerError | PeerEnd
| Received (event : ScopedAlertEvent) (sent : bool)
| Lagged (n : N) | ChannelClosed.
(** [serde_json::to_string] of an event (its tenant and owner are skipped). *)
Class EventJson := { event_to_string : ScopedAlertEvent → option str }.

Section websocket.
Context `{EventJson}.
Definition event_for (actor : VerifiedActor) (event : ScopedAlertEvent) : bool :=
  str_eqb (ev_product_tenant event) (product_tenant actor)
  && bool_decide (ev_owner_subject event = subject actor).
Fixpoint websocket (actor : VerifiedActor) (input : list WsInput) : list str :=
  match input with
  | [] => []
  | PeerClose :: _ | PeerEnd :: _ | PeerError :: _ => []
  | PeerMessage :: input => websocket actor input
  | Received event sent :: input =>
      if event_for actor event then
        match event_to_string event with
        | None => []
        | Some payload => if sent then payload :: websocket actor input else []
        end
      else websocket actor input
  | Lagged _ :: _ | ChannelClosed :: _ => []
  end.
End websocket.

(** ** Lemmas *)

Section lemmas.
Context `{SharedAuth} `{Http} `{UuidText} `{!Axum} {R : Type} `{!AlertRepo R}.
Implicit Types (s : AppState (R := R)) (request : HttpRequest).

Lemma route_alerts path : route path = Some RouteAlerts → path = lit "/v1/alerts".
Proof.
  unfold route. repeat (case_match; [try done|]).
  - intros _. by apply str_eqb_eq.
  - by destruct (alert_segment path).
Qed.
Lemma authorize_verified_iff x s h scope a :
  authorize x s h scope = Ok a ↔ verify_authorization (app_auth s) h scope (sv_clock x) = Ok a.
Proof. apply map_err_Ok_iff. Qed.

(** The state after [repo_create] answered. *)
Definition after_create (s : AppState (R := R)) (actor : VerifiedActor)
    (r : result StoreError AlertRule) (store : R) : AppState (R := R) :=
  mk_state store (app_auth s)
    (match r with
     | Ok alert => app_events s ++
         [mk_scoped_event (product_tenant actor) (subject actor) (lit "created") alert]
     | Err _ => app_events s
     end) (mtls_configured s) (jetstream_configured s).
(** A creation that reaches the store. *)
Record creates (x : Serving) (request : HttpRequest) (s : AppState (R := R)) (actor : VerifiedActor)
    (input : CreateAlertRule) : Prop := {
  cr_request : method request = POST ∧ path request = lit "/v1/alerts";
  cr_body : json_extract MAX_JSON_BODY_BYTES (headers request) (content request) = Ok input;
  cr_auth : verify_authorization (app_auth s) (headers request) WRITE_SCOPE (sv_clock x) = Ok actor;
  cr_valid : validate input = Ok tt;
}.
Definition created_response (r : result StoreError AlertRule) : Response :=
  match r with
  | Ok alert => mk_response 201 (BodyAlert alert)
  | Err _ => into_response ApiUnavailable
  end.
(** What a response of an unchanged state discloses. *)
Definition reads (x : Serving) (request : HttpRequest) (s : AppState (R := R)) (b : Body) : Prop :=
  match b with
  | BodyAlerts l => ∃ actor,
      verify_authorization (app_auth s) (headers request) READ_SCOPE (sv_clock x) = Ok actor ∧
      repo_list (sv_link x) (app_store s) actor = Ok l
  | BodyAlert r => ∃ actor id,
      verify_authorization (app_auth s) (headers request) READ_SCOPE (sv_clock x) = Ok actor ∧
      repo_get (sv_link x) (app_store s) actor id = Ok (Some r)
  | BodyUpgrade actor =>
      verify_authorization (app_auth s) (headers request) READ_SCOPE (sv_clock x) = Ok actor
  | _ => True
  end.

Lemma list_reads x request s : reads x request s (body (respond (api_list_alerts x s (headers request)))).
Proof.
  unfold api_list_alerts. destruct (authorize x s _ _) as [actor|] eqn:Ha; [|done].
  apply authorize_verified_iff in Ha. cbn [mbind result_bind].
  destruct (repo_list _ _ _) as [l|] eqn:Hl; [|done]. cbn. eauto.
Qed.
Lemma get_reads x request s id : reads x request s (body (respond (get_alert x s id (headers request)))).
Proof.
  unfold get_alert. destruct (authorize x s _ _) as [actor|] eqn:Ha; [|done].
  apply authorize_verified_iff in Ha. cbn [mbind result_bind].
  destruct (repo_get _ _ _ _) as [[r|]|] eqn:Hl; [|done..]. cbn. eauto.
Qed.
Lemma ws_reads x request s : reads x request s (body (respond (ws_upgrade x s (headers request)))).
Proof.
  unfold ws_upgrade. destruct (authorize x s _ _) as [actor|] eqn:Ha; [|done].
  by apply authorize_verified_iff in Ha.
Qed.

Lemma dispatch_cases x request s resp s' :
  dispatch x request s = (resp, s') →
  (s' = s ∧ reads x request s (body resp)) ∨
  ∃ actor input r store, creates x request s actor input ∧
    repo_create (sv_link x) (sv_now x) (sv_fresh x) (app_store s) actor input = (r, store) ∧
    resp = created_response r ∧ s' = after_create s actor r store.
Proof.
  unfold dispatch. destruct (route (path request)) as [ro|] eqn:Hro; [|intros [= <- <-]; by left].
  destruct ro as [| | |id| |].
  - destruct (negb _); intros [= <- <-]; by left.
  - destruct (negb _); intros [= <- <-]; by left.
  - apply route_alerts in Hro. destruct (method request) eqn:Hm;
      try (intros [= <- <-]; left; split; [done|]; apply list_reads || done).
    destruct (json_extract _ _ _) as [input|code] eqn:Hj; [|intros [= <- <-]; by left].
    unfold create_alert. destruct (authorize x s _ _) as [actor|e] eqn:Ha; [|intros [= <- <-]; by left].
    apply authorize_verified_iff in Ha.
    destruct (validate input) as [[]|e] eqn:Hv; [|intros [= <- <-]; by left].
    destruct (repo_create _ _ _ _ _ _) as [r store] eqn:Hc. intros Hr. right.
    exists actor, input, r, store. destruct r as [alert|e]; injection Hr as <- <-; by split_and!.
  - destruct (negb _); [intros [= <- <-]; by left|].
    destruct (path_uuid id) as [u|code]; intros [= <- <-]; left; (split; [done|]); [|done].
    apply get_reads.
  - destruct (negb _); intros [= <- <-]; left; (split; [done|]); [done|]. apply list_reads.
  - destruct (negb _); [intros [= <- <-]; by left|].
    destruct (ws_extract _ _) as [u|code]; intros [= <- <-]; left; (split; [done|]); [|done].
    apply ws_reads.
Qed.
Lemma strip_reads x request s m resp : reads x request s (body resp) → reads x request s (body (strip_body m resp)).
Proof. by destruct m. Qed.
Lemma router_cases x request s resp s' :
  router x request s = (resp, s') →
  (s' = s ∧ reads x request s (body resp)) ∨
  ∃ actor input r store, creates x request s actor input ∧
    repo_create (sv_link x) (sv_now x) (sv_fresh x) (app_store s) actor input = (r, store) ∧
    resp = created_response r ∧ s' = after_create s actor r store.
Proof.
  unfold router. destruct (dispatch x request s) as [resp0 s0] eqn:Hd. intros [= <- <-].
  destruct (dispatch_cases _ _ _ _ _ Hd) as [[-> Hr]|(actor & input & r & store & Hc & Hrest)].
  - left. split; [done|]. by apply strip_reads.
  - right. exists actor, input, r, store. split; [done|].
    by destruct (cr_request _ _ _ _ _ Hc) as [-> _].
Qed.
End lemmas.

Section protected.
Context `{SharedAuth} `{Http} `{UuidText} `{!Axum} {R : Type} `{!AlertRepo R}.

(** The requests that reach a handler behind the authority, with the scope it asks for. *)
Inductive protected (request : HttpRequest) : str → Prop :=
| protected_list :
    is_get (method request) = true →
    path request = lit "/v1/alerts" ∨ path request = lit "/v1/web/alerts" →
    protected request READ_SCOPE
| protected_create input :
    method request = POST → path request = lit "/v1/alerts" →
    json_extract MAX_JSON_BODY_BYTES (headers request) (content request) = Ok input →
    protected request WRITE_SCOPE
| protected_get segment id :
    is_get (method request) = true → path request = lit "/v1/alerts/" ++ segment →
    segment ≠ [] → 47 ∉ segment → path_uuid segment = Ok id →
    protected request READ_SCOPE
| protected_ws :
    is_get (method request) = true → path request = lit "/v1/ws" →
    ws_extract (method request) (headers request) = Ok tt →
    protected request READ_SCOPE.

Lemma route_alert segment :
  segment ≠ [] → 47 ∉ segment → route (lit "/v1/alerts/" ++ segment) = Some (RouteAlert segment).
Proof.
  intros Hne Hslash. unfold route.
  assert (∀ p, p ∈ [lit "/healthz"; lit "/v1/data-plane/capabilities"; lit "/readyz";
    lit "/v1/alerts"; lit "/v1/web/alerts"; lit "/v1/ws"] →
    str_eqb (lit "/v1/alerts/" ++ segment) p = false) as Hp.
  { intros p Hp. apply str_eqb_neq. intros E. subst p.
    repeat (apply elem_of_cons in Hp as [E|Hp];
      [destruct segment; vm_compute in E; congruence|]). by apply elem_of_nil in Hp. }
  rewrite !Hp by (rewrite !elem_of_cons; tauto).
  unfold alert_segment. rewrite strip_prefix_app. cbn [opt_filter].
  rewrite (proj2 (is_empty_false_iff segment) Hne), (proj2 (contains_char_false_iff 47 segment) Hslash).
  done.
Qed.

Lemma protected_dispatch x request (s : AppState (R := R)) scope e :
  protected request scope →
  verify_authorization (app_auth s) (headers request) scope (sv_clock x) = Err e →
  dispatch x request s = (into_response (api_error_from e), s).
Proof.
  intros Hp He. unfold dispatch.
  destruct Hp as [Hm [Hpath|Hpath]|input Hm Hpath Hj|segment id Hm Hpath Hne Hsl Hid|Hm Hpath Hws];
    rewrite Hpath.
  - change (route (lit "/v1/alerts")) with (Some RouteAlerts). cbn match.
    destruct (method request); try done; unfold api_list_alerts, authorize; by rewrite He.
  - change (route (lit "/v1/web/alerts")) with (Some RouteWebAlerts). cbn match. rewrite Hm.
    cbn [negb]. unfold api_list_alerts, authorize. by rewrite He.
  - change (route (lit "/v1/alerts")) with (Some RouteAlerts). cbn match. rewrite Hm, Hj.
    unfold create_alert, authorize. by rewrite He.
  - rewrite route_alert by done. rewrite Hm, Hid. cbn [negb]. unfold get_alert, authorize.
    by rewrite He.
  - change (route (lit "/v1/ws")) with (Some RouteWs). cbn match. rewrite Hm, Hws. cbn [negb].
    unfold ws_upgrade, authorize. by rewrite He.
Qed.
Lemma protected_error x request (s : AppState (R := R)) scope e :
  protected request scope →
  verify_authorization (app_auth s) (headers request) scope (sv_clock x) = Err e →
  router x request s = (strip_body (method request) (into_response (api_error_from e)), s).
Proof. intros Hp He. unfold router. by rewrite (protected_dispatch _ _ _ _ _ Hp He). Qed.
End protected.

(** ** Properties *)

Section properties.
Context `{SharedAuth} `{Http} `{UuidText} `{!Axum} {R : Type} `{!AlertRepo R} `{!AlertRepoLaws R}.

(** C9: the API discloses alerts only to their verified owner.  For every repository that meets
    the interface: a response holding alerts implies that the authority granted the reading
    scope and that the verified actor owns each of them; a WebSocket is opened only for an
    actor granted that scope; and a response to a creation holds the rule the verified actor,
    granted the writing scope, now owns. *)
Theorem api_discloses_owned_only x request (s : AppState (R := R)) resp s' :
  repo_wf (app_store s) → (∀ actor, repo_fresh (app_store s) actor (sv_fresh x)) →
  router x request s = (resp, s') →
  match body resp with
  | BodyAlerts l => ∃ actor,
      verify_authorization (app_auth s) (headers request) READ_SCOPE (sv_clock x) = Ok actor ∧
      ∀ r, r ∈ l → r ∈ repo_owned (app_store s) actor
  | BodyAlert r => ∃ actor,
      verify_authorization (app_auth s) (headers request) READ_SCOPE (sv_clock x) = Ok actor ∧
        r ∈ repo_owned (app_store s) actor ∨
      verify_authorization (app_auth s) (headers request) WRITE_SCOPE (sv_clock x) = Ok actor ∧
        repo_owned (app_store s') actor ≡ₚ
          repo_stored (app_store s) r :: repo_owned (app_store s) actor
  | BodyUpgrade actor =>
      verify_authorization (app_auth s) (headers request) READ_SCOPE (sv_clock x) = Ok actor
  | _ => True
  end.
Proof.
  intros Hwf Hfresh Hr.
  destruct (router_cases _ _ _ _ _ Hr)
    as [[-> Hreads]|(actor & input & r & store & [_ Hj Ha Hv] & Hc & -> & ->)].
  - destruct (body resp) as [|  |l|r| |actor| |]; try done.
    + destruct Hreads as (actor & ? & Hl). exists actor. split; [done|]. intros r.
      by apply (repo_list_owned (sv_link x)).
    + destruct Hreads as (actor & id & ? & Hg). exists actor. left. split; [done|].
      by apply (repo_get_owned (sv_link x) _ _ id).
  - destruct r as [alert|e]; [|done]. cbn [created_response body].
    exists actor. right. split; [done|].
    destruct (repo_create_ok _ _ _ _ _ _ _ _ Hwf (Hfresh actor) (json_extract_f32 _ _ _ _ Hj) Hc)
      as [_ Hown]. exact Hown.
Qed.

(** C34: only an authorized, valid creation changes anything.  If a request changes the state,
    it was a POST to [/v1/alerts] whose body decodes within 32 KiB and validates and whose
    actor was granted the writing scope; the alerts of every other actor are unchanged; and an
    event is broadcast exactly when the creation succeeds, scoped to its actor. *)
Theorem only_creations_change_state x request (s : AppState (R := R)) resp s' :
  repo_wf (app_store s) → (∀ actor, repo_fresh (app_store s) actor (sv_fresh x)) →
  router x request s = (resp, s') →
  s' = s ∨
  ∃ actor input, creates x request s actor input ∧ app_auth s' = app_auth s ∧
    repo_wf (app_store s') ∧
    (∀ b, b ≠ actor → repo_owned (app_store s') b ≡ₚ repo_owned (app_store s) b) ∧
    (code resp = 201 ∧ app_events s' = app_events s ++
       [mk_scoped_event (product_tenant actor) (subject actor) (lit "created")
          (into_rule input (sv_fresh x) (sv_now x))] ∨
     code resp = 503 ∧ app_events s' = app_events s).
Proof.
  intros Hwf Hfresh Hr.
  destruct (router_cases _ _ _ _ _ Hr)
    as [[-> _]|(actor & input & r & store & Hcr & Hc & -> & ->)]; [by left|right].
  pose proof (json_extract_f32 _ _ _ _ (cr_body _ _ _ _ _ Hcr)) as Hf.
  exists actor, input. split; [exact Hcr|]. split; [done|].
  split; [exact (repo_create_wf _ _ _ _ _ _ _ _ Hwf (Hfresh actor) Hf Hc)|].
  split; [intros b Hb; exact (repo_create_frame _ _ _ _ _ _ _ _ b Hwf (Hfresh actor) Hf Hc Hb)|].
  destruct r as [alert|e]; [left|by right].
  destruct (repo_create_ok _ _ _ _ _ _ _ _ Hwf (Hfresh actor) Hf Hc) as [-> _]. done.
Qed.

(** A request the authority does not grant is answered before its content is judged: on
    every protected route the error is 401 for a refusal and 503 when the authority is
    degraded, with a flat message and no change of state, whatever the body holds. *)
Theorem ungranted_requests_are_uniform x request (s : AppState (R := R)) scope e :
  protected request scope →
  verify_authorization (app_auth s) (headers request) scope (sv_clock x) = Err e →
  router x request s =
    (strip_body (method request) match e with
     | Unauthorized => mk_response 401 (BodyError (lit "unauthorized"))
     | Degraded | Configuration => mk_response 503 (BodyError (lit "identity authority unavailable"))
     end, s).
Proof. intros Hp He. rewrite (protected_error _ _ _ _ _ Hp He). by destruct e. Qed.

(** Every id drawn while serving is unused when it is drawn. *)
Fixpoint fresh_ids (requests : list (Serving * HttpRequest)) (s : AppState (R := R)) : Prop :=
  match requests with
  | [] => True
  | (x, request) :: requests =>
      (∀ actor, repo_fresh (app_store s) actor (sv_fresh x)) ∧
      fresh_ids requests (snd (router x request s))
  end.
(** Every broadcast event is about an alert its scope owns. *)
Definition events_owned (s : AppState (R := R)) : Prop :=
  ∀ e, e ∈ app_events s → ∃ r,
    r ∈ repo_owned (app_store s) (mk_actor (ev_owner_subject e) (ev_product_tenant e)) ∧
    ar_id r = ar_id (ev_alert e).

Lemma router_events x request (s : AppState (R := R)) resp s' :
  repo_wf (app_store s) → (∀ actor, repo_fresh (app_store s) actor (sv_fresh x)) →
  events_owned s → router x request s = (resp, s') →
  repo_wf (app_store s') ∧ events_owned s'.
Proof.
  intros Hwf Hfresh Hev Hr.
  destruct (router_cases _ _ _ _ _ Hr)
    as [[-> _]|(actor & input & r & store & Hcr & Hc & -> & ->)]; [done|].
  pose proof (json_extract_f32 _ _ _ _ (cr_body _ _ _ _ _ Hcr)) as Hf.
  split; [exact (repo_create_wf _ _ _ _ _ _ _ _ Hwf (Hfresh actor) Hf Hc)|].
  assert (∀ b r, r ∈ repo_owned (app_store s) b → r ∈ repo_owned store b) as Hkeep.
  { intros b r' Hin. destruct (decide (b = actor)) as [->|Hb].
    - destruct r as [alert|e].
      + destruct (repo_create_ok _ _ _ _ _ _ _ _ Hwf (Hfresh actor) Hf Hc) as [_ Hown].
        rewrite Hown. by right.
      + destruct (repo_create_err _ _ _ _ _ _ _ _ Hwf (Hfresh actor) Hf Hc) as [->|[_ Hown]];
          [done|]. rewrite Hown. by right.
    - by rewrite (repo_create_frame _ _ _ _ _ _ _ _ b Hwf (Hfresh actor) Hf Hc Hb). }
  intros e. cbn [app_events app_store after_create]. destruct r as [alert|err].
  - rewrite elem_of_app, list_elem_of_singleton. intros [Hin| ->].
    + destruct (Hev _ Hin) as (r & ? & ?). eauto.
    + cbn [ev_owner_subject ev_product_tenant ev_alert].
      destruct (repo_create_ok _ _ _ _ _ _ _ _ Hwf (Hfresh actor) Hf Hc) as [_ Hown].
      exists (repo_stored (app_store s) alert). split; [|apply repo_stored_id].
      replace (mk_actor (subject actor) (product_tenant actor)) with actor by (by destruct actor).
      rewrite Hown. left.
  - intros Hin. destruct (Hev _ Hin) as (r & ? & ?). eauto.
Qed.

(** Every event ever broadcast belongs to its scope: serving any sequence of requests from
    a well-formed store without events, each event in the channel is about an alert owned by
    exactly the tenant and subject it is scoped to. *)
Theorem broadcast_events_are_owned requests (s : AppState (R := R)) responses s' :
  repo_wf (app_store s) → app_events s = [] → fresh_ids requests s →
  serve_requests requests s = (responses, s') → repo_wf (app_store s') ∧ events_owned s'.
Proof.
  intros Hwf Hnil. assert (events_owned s) as Hev.
  { intros e. rewrite Hnil. by intros ?%elem_of_nil. }
  clear Hnil. revert s responses Hwf Hev.
  induction requests as [|[x request] requests IH]; intros s responses Hwf Hev Hfresh;
    cbn [serve_requests]; [by intros [= <- <-]|].
  destruct (router x request s) as [resp s1] eqn:Hr.
  destruct (serve_requests requests s1) as [more s2] eqn:Hrest. intros [= <- <-].
  destruct Hfresh as [Hf Hfresh]. rewrite Hr in Hfresh. cbn [snd] in Hfresh.
  destruct (router_events _ _ _ _ _ Hwf Hf Hev Hr) as [Hwf1 Hev1].
  by apply (IH s1 more).
Qed.
End properties.

Section websocket_properties.
Context `{EventJson}.

(** The input the loop continues after, and the payload it sends for it. *)
Definition continues (actor : VerifiedActor) (i : WsInput) : bool :=
  match i with
  | PeerMessage => true
  | Received event sent =>
      negb (event_for actor event) || (sent && is_some (event_to_string event))
  | _ => false
  end.
Definition payload_for (actor : VerifiedActor) (i : WsInput) : option str :=
  match i with
  | Received event _ => if event_for actor event then event_to_string event else None
  | _ => None
  end.
Fixpoint take_while {A} (p : A → bool) (l : list A) : list A :=
  match l with [] => [] | x :: l => if p x then x :: take_while p l else [] end.

(** A WebSocket delivers exactly its actor's events: it sends, in order, the payloads of the
    received events with the actor's tenant and subject, up to the first close, error, lag of
    the channel or failed send, where it ends; so no event of another scope is ever sent and a
    client never continues past a gap in its events. *)
Theorem websocket_delivers_own_events actor input :
  websocket actor input = omap (payload_for actor) (take_while (continues actor) input) ∧
  (∀ payload, payload ∈ websocket actor input → ∃ event,
     Received event true ∈ input ∧ event_to_string event = Some payload ∧
     ev_product_tenant event = product_tenant actor ∧ ev_owner_subject event = subject actor).
Proof.
  assert (websocket actor input = omap (payload_for actor) (take_while (continues actor) input)) as E.
  { induction input as [|[| | | |event sent|n|] input IH]; try done.
    cbn [websocket take_while continues]. destruct (event_for actor event) eqn:Hev; cbn [negb orb].
    - destruct (event_to_string event) as [p|] eqn:Hp; destruct sent; cbn [andb is_some]; try done.
      cbn [omap list_omap payload_for]. rewrite Hev, Hp, <-IH. done.
    - cbn [omap list_omap payload_for]. rewrite Hev. exact IH. }
  split; [exact E|]. clear E. induction input as [|i input IH]; intros p; cbn [websocket].
  { by intros ?%elem_of_nil. }
  assert (p ∈ websocket actor input → ∃ event, Received event true ∈ i :: input ∧
    event_to_string event = Some p ∧ ev_product_tenant event = product_tenant actor ∧
    ev_owner_subject event = subject actor) as Hrest.
  { intros (event & ? & ?)%IH. exists event. split; [by right|done]. }
  destruct i as [| | | |event sent|n|]; try (by intros ?%elem_of_nil); [exact Hrest|].
  destruct (event_for actor event) eqn:Hev; [|exact Hrest].
  destruct (event_to_string event) as [p'|] eqn:Hp; [|by intros ?%elem_of_nil].
  destruct sent; [|by intros ?%elem_of_nil].
  intros [->|Hin]%elem_of_cons; [|by apply Hrest].
  exists event. apply andb_true_iff in Hev as [?%str_eqb_eq ?%bool_decide_eq_true].
  split_and!; try done. left.
Qed.
End websocket_properties.

(** ** Examples *)

Module SampleApi.
Import CanonicalInstances Sample.Instances.
Definition writer_claims : Introspection :=
  {| Sample.c_active := true; Sample.c_sub := Some (lit Sample.subject1);
     Sample.c_sid := Some (lit "session-1"); Sample.c_iss := Sample.c_iss Sample.good_claims;
     Sample.c_aud := Sample.c_aud Sample.good_claims; Sample.c_azp := Sample.c_azp Sample.good_claims;
     Sample.c_provider := Sample.c_provider Sample.good_claims;
     Sample.c_rest := Sample.c_rest Sample.good_claims; Sample.c_scope := WRITE_SCOPE;
     Sample.c_exp := Some 4000000000; Sample.c_nbf := Some 1 |}.
(** An authority that grants reading to one token and writing to another. *)
Definition boundary : AuthBoundary :=
  mk_boundary (λ token : str,
    if str_eqb token (lit "a-writer-access-token") then Ok writer_claims
    else Sample.table token) Sample.policy.
Definition json (limit : N) (h : HeaderMap) (b : list N) : result N CreateAlertRule :=
  if limit <? N.of_nat (length b) then Err 413 else
  if decide (b = [1]) then Ok sample_create else Err 400.
Lemma json_f32 limit h b i :
  json limit h b = Ok i → f32_valid (ca_similarity_threshold i) = true.
Proof. unfold json. destruct (_ <? _); [done|]. case_decide; [|done]. by intros [= <-]. Qed.
Module Instances.
#[export] Instance axum : Axum := {|
  json_extract := json; json_extract_f32 := json_f32;
  path_uuid s := ok_or (Canonical.parse s) 400;
  ws_extract m h := match m with GET => Ok tt | _ => Err 405 end;
|}.
#[export] Instance event_json : EventJson := {| event_to_string e := Some (ar_name (ev_alert e)) |}.
End Instances.
Definition serving : Serving := mk_serving Sample.now LinkUp 7000 (uuid_of 9).
Definition later : Serving := mk_serving Sample.now LinkUp 9000 (uuid_of 10).
Definition read_headers : HeaderMap := [lit "Bearer end-user-access-token"].
Definition write_headers : HeaderMap := [lit "Bearer a-writer-access-token"].
Definition get_list : HttpRequest := mk_request GET (lit "/v1/alerts") read_headers [].
Definition post : HttpRequest := mk_request POST (lit "/v1/alerts") write_headers [1].
Definition bad_post : HttpRequest := mk_request POST (lit "/v1/alerts") read_headers [1].
End SampleApi.
Import CanonicalInstances Sample.Instances SampleStorage SampleStorage.Instances
  SampleApi.Instances.

Definition sample_state : AppState := mk_state (new None) SampleApi.boundary [] false false.
Definition sample_served : list Response * AppState :=
  serve_requests [(SampleApi.serving, SampleApi.post); (SampleApi.later, SampleApi.get_list)]
    sample_state.
Lemma sample_state_wf : repo_wf (app_store sample_state).
Proof. intros t o i r. cbn. by rewrite lookup_empty. Qed.
Lemma sample_state_fresh actor id : repo_fresh (app_store sample_state) actor id.
Proof. by apply lookup_empty. Qed.

Lemma api_discloses_owned_only_witness :
  code (fst (router SampleApi.serving SampleApi.post sample_state)) = 201 ∧
  ∃ actor,
    verify_authorization SampleApi.boundary SampleApi.write_headers READ_SCOPE Sample.now = Ok actor ∧
      into_rule sample_create (uuid_of 9) 7000 ∈ repo_owned (app_store sample_state) actor ∨
    verify_authorization SampleApi.boundary SampleApi.write_headers WRITE_SCOPE Sample.now = Ok actor ∧
      repo_owned (app_store (snd (router SampleApi.serving SampleApi.post sample_state))) actor ≡ₚ
        repo_stored (app_store sample_state) (into_rule sample_create (uuid_of 9) 7000)
          :: repo_owned (app_store sample_state) actor.
Proof.
  split; [by vm_compute|].
  assert (body (fst (router SampleApi.serving SampleApi.post sample_state)) =
    BodyAlert (into_rule sample_create (uuid_of 9) 7000)) as E by (by vm_compute).
  pose proof (api_discloses_owned_only SampleApi.serving SampleApi.post sample_state
    (fst (router SampleApi.serving SampleApi.post sample_state))
    (snd (router SampleApi.serving SampleApi.post sample_state)) sample_state_wf
    (λ actor, sample_state_fresh actor _) (surjective_pairing _)) as Hown.
  rewrite E in Hown. exact Hown.
Defined.

Lemma only_creations_change_state_witness :
  let run := router SampleApi.serving SampleApi.post sample_state in
  length (app_events (snd run)) = 1%nat ∧
  (snd run = sample_state ∨
   ∃ actor input, creates SampleApi.serving SampleApi.post sample_state actor input ∧
     app_auth (snd run) = app_auth sample_state ∧ repo_wf (app_store (snd run)) ∧
     (∀ b, b ≠ actor →
        repo_owned (app_store (snd run)) b ≡ₚ repo_owned (app_store sample_state) b) ∧
     (code (fst run) = 201 ∧ app_events (snd run) = app_events sample_state ++
        [mk_scoped_event (product_tenant actor) (subject actor) (lit "created")
           (into_rule input (uuid_of 9) 7000)] ∨
      code (fst run) = 503 ∧ app_events (snd run) = app_events sample_state)).
Proof.
  intros run. split; [by vm_compute|].
  apply (only_creations_change_state SampleApi.serving SampleApi.post sample_state (fst run) (snd run));
    [apply sample_state_wf|intros actor; apply sample_state_fresh|apply surjective_pairing].
Defined.

Lemma ungranted_requests_are_uniform_witness :
  router SampleApi.serving SampleApi.bad_post sample_state =
    (mk_response 401 (BodyError (lit "unauthorized")), sample_state).
Proof.
  apply (ungranted_requests_are_uniform SampleApi.serving SampleApi.bad_post sample_state
    WRITE_SCOPE Unauthorized); [|by vm_compute].
  by apply (protected_create SampleApi.bad_post sample_create).
Defined.

Lemma broadcast_events_are_owned_witness :
  length (app_events (snd sample_served)) = 1%nat ∧
  events_owned (snd sample_served).
Proof.
  split; [by vm_compute|].
  refine (proj2 (broadcast_events_are_owned
    [(SampleApi.serving, SampleApi.post); (SampleApi.later, SampleApi.get_list)] sample_state
    (fst sample_served) (snd sample_served) sample_state_wf eq_refl _ (surjective_pairing _))).
  split; [intros actor; apply sample_state_fresh|].
  split; [|done]. intros actor. cbn [fst snd].
  assert (app_store (snd (router SampleApi.serving SampleApi.post sample_state)) =
    mk_store None (<[(product_tenant Sample.actor, subject Sample.actor, uuid_of 9) :=
      into_rule sample_create (uuid_of 9) 7000]> ∅)) as -> by reflexivity.
  cbn. rewrite lookup_insert_ne; [by apply lookup_empty|]. intros [= _ _ E].
Defined.

Definition sample_event (owner : N) : ScopedAlertEvent :=
  mk_scoped_event (lit "embedded-alerts") (uuid_of owner) (lit "created")
    (into_rule sample_create (uuid_of 9) 7000).
Lemma websocket_delivers_own_events_witness :
  let input := [Received (sample_event 2) true; PeerMessage; Received (sample_event 1) true;
                Lagged 3; Received (sample_event 1) true] in
  websocket actor_a input = [lit "Release monitor"] ∧
  ∃ event, Received event true ∈ input ∧ event_to_string event = Some (lit "Release monitor") ∧
    ev_product_tenant event = product_tenant actor_a ∧ ev_owner_subject event = subject actor_a.
Proof.
  intros input. assert (websocket actor_a input = [lit "Release monitor"]) as E by (by vm_compute).
  split; [exact E|]. apply (proj2 (websocket_delivers_own_events actor_a input)).
  rewrite E. by apply list_elem_of_singleton.
Defined.
