(* ===== verification/Concurrent.v ===== *)
(** * Concurrent requests ([router] and the handlers of [src/lib.rs])

    [Api.router] answers a request at once.  The server answers many at the same time: a handler
    waits for the authority, then for the store, and only then sends its event and its
    response, and it is dropped when its client goes away.  Here a request is a task with its
    program points, and the tasks interleave, while the authority may change what it answers.  The
    file shows that the parts of one request in a row are the router, and that each task ends by
    itself; [Linearizable] shows what the interleavings amount to. *)

From S2P Require Import Prelude Str Float Ids Model Auth Database Store Repository Api.
Open Scope N_scope.

(** ** A request as a task *)

(** The handlers behind the authority, with what their extractors took from the request. *)
Inductive Op := OpList | OpGet (id : Uuid) | OpCreate (input : CreateAlertRule) | OpWs.
Definition scope_of (op : Op) : str :=
  match op with OpCreate _ => WRITE_SCOPE | _ => READ_SCOPE end.

(** Where a task is: before [verify_authorization], before the call of the store, or with its
    response and the event it sends with it. *)
Inductive Point :=
| AtAuthorize (op : Op)
| AtStore (op : Op) (actor : VerifiedActor)
| AtRespond (response : Response) (event : option ScopedAlertEvent).

Section task.
Context `{SharedAuth} `{Http} `{UuidText} `{!Axum} {R : Type} `{!AlertRepo R}.
Implicit Types s : AppState (R := R).

(** Routing and extraction. *)
Definition begin_request (request : HttpRequest) (s : AppState (R := R)) : Point :=
  let answer response := AtRespond response None in
  match route (path request) with
  | None => answer (reject 404)
  | Some RouteAlerts =>
      match method request with
      | GET | HEAD => AtAuthorize OpList
      | POST =>
          match json_extract MAX_JSON_BODY_BYTES (headers request) (content request) with
          | Err code => answer (reject code)
          | Ok input => AtAuthorize (OpCreate input)
          end
      | OtherMethod => answer (reject 405)
      end
  | Some r =>
      if negb (is_get (method request)) then answer (reject 405) else
      match r with
      | RouteHealth => answer (health s)
      | RouteCapabilities => answer (mk_response 200 BodyCapabilities)
      | RouteWebAlerts => AtAuthorize OpList
      | RouteAlert id =>
          match path_uuid id with
          | Err code => answer (reject code)
          | Ok id => AtAuthorize (OpGet id)
          end
      | RouteWs =>
          match ws_extract (method request) (headers request) with
          | Err code => answer (reject code)
          | Ok _ => AtAuthorize OpWs
          end
      | RouteAlerts => answer (reject 405)
      end
  end.

(** After [verify_authorization] until the next wait. *)
Definition authorized_point (x : Serving) (s : AppState (R := R)) (headers : HeaderMap) (op : Op)
    : Point :=
  match authorize x s headers (scope_of op) with
  | Err e => AtRespond (into_response e) None
  | Ok actor =>
      match op with
      | OpWs => AtRespond (mk_response 101 (BodyUpgrade actor)) None
      | OpCreate input =>
          if is_err (validate input) then AtRespond (into_response ApiInvalidRequest) None
          else AtStore op actor
      | _ => AtStore op actor
      end
  end.
(** The call of the store: its response, the event that goes with it, and the store after it. *)
Definition store_call (x : Serving) (op : Op) (actor : VerifiedActor) (store : R)
    : Response * option ScopedAlertEvent * R :=
  match op with
  | OpList =>
      (match repo_list (sv_link x) store actor with
       | Ok alerts => mk_response 200 (BodyAlerts alerts)
       | Err _ => into_response ApiUnavailable
       end, None, store)
  | OpGet id =>
      (match repo_get (sv_link x) store actor id with
       | Ok (Some alert) => mk_response 200 (BodyAlert alert)
       | Ok None => into_response ApiNotFound
       | Err _ => into_response ApiUnavailable
       end, None, store)
  | OpCreate input =>
      let '(r, store) := repo_create (sv_link x) (sv_now x) (sv_fresh x) store actor input in
      match r with
      | Err _ => (into_response ApiUnavailable, None, store)
      | Ok alert =>
          (mk_response 201 (BodyAlert alert),
           Some (mk_scoped_event (product_tenant actor) (subject actor) (lit "created") alert), store)
      end
  | OpWs => (mk_response 101 (BodyUpgrade actor), None, store)
  end.
(** One step of a task: its next point, and the store after it. *)
Definition task_step (x : Serving) (request : HttpRequest) (p : Point) (s : AppState (R := R))
    : Point * R :=
  match p with
  | AtAuthorize op => (authorized_point x s (headers request) op, app_store s)
  | AtStore op actor =>
      let '(response, event, store) := store_call x op actor (app_store s) in
      (AtRespond response event, store)
  | AtRespond response event => (p, app_store s)
  end.

(** ** The server *)

(** [app_auth] is the authority as it answers now; its grants change from outside.  For the
    theorems only, the server keeps the authorities so far ([c_authorities]), the order in which
    the requests took effect ([c_order]) and the events that were never sent ([c_unsent]), and a
    task the requests answered before it arrived ([t_seen]), the authorities replaced before it
    arrived ([t_since]) and the authority that answered it ([t_auth], the one it found until it
    asks). *)
Record Task := mk_task {
  t_id : N; t_serving : Serving; t_request : HttpRequest; t_point : Point;
  t_seen : list N; t_since : nat; t_auth : AuthBoundary;
}.
Record Entry := mk_entry {
  e_id : N; e_serving : Serving; e_request : HttpRequest;
  e_seen : list N; e_since : nat; e_auth : AuthBoundary;
}.
Record Serv := mk_serv {
  c_app : AppState (R := R);
  c_authorities : list AuthBoundary;
  c_next : N;
  c_tasks : list Task;
  c_answered : list (N * Response);
  c_order : list Entry;
  c_unsent : list ScopedAlertEvent;
}.
Definition with_store (s : AppState (R := R)) (store : R) : AppState (R := R) :=
  mk_state store (app_auth s) (app_events s) (mtls_configured s) (jetstream_configured s).
Definition send_event (event : option ScopedAlertEvent) (s : AppState (R := R)) : AppState (R := R) :=
  mk_state (app_store s) (app_auth s) (app_events s ++ option_list event) (mtls_configured s)
    (jetstream_configured s).
(** What the authority answers from now on; the policy is the server's. *)
Definition with_auth (s : AppState (R := R)) (auth : AuthBoundary) : AppState (R := R) :=
  mk_state (app_store s) auth (app_events s) (mtls_configured s) (jetstream_configured s).
Definition with_client (s : AppState (R := R)) (client : SharedAuthClient) : AppState (R := R) :=
  with_auth s (mk_boundary client (policy (app_auth s))).

(** A task that has its response took effect. *)
Definition took_effect (p : Point) : bool := match p with AtRespond _ _ => true | _ => false end.
Definition entry_of (t : Task) : Entry :=
  mk_entry (t_id t) (t_serving t) (t_request t) (t_seen t) (t_since t) (t_auth t).
Definition effects (t : Task) : list Entry := if took_effect (t_point t) then [entry_of t] else [].
Definition event_of (p : Point) : option ScopedAlertEvent :=
  match p with AtRespond _ event => event | _ => None end.
(** The authority a task has asked, or asks now. *)
Definition authority (now : AuthBoundary) (t : Task) : AuthBoundary :=
  match t_point t with AtAuthorize _ => now | _ => t_auth t end.
Definition advance (now : AuthBoundary) (t : Task) (p : Point) : Task :=
  mk_task (t_id t) (t_serving t) (t_request t) p (t_seen t) (t_since t) (authority now t).
(** What is written to the client of a task: [HEAD] gets no body. *)
Definition written (t : Task) (response : Response) : Response :=
  strip_body (method (t_request t)) response.
Definition new_task (s : Serv) (x : Serving) (request : HttpRequest) : Task :=
  mk_task (c_next s) x request (begin_request request (c_app s)) (c_answered s).*1
    (pred (length (c_authorities s))) (app_auth (c_app s)).

Inductive serv_step : Serv → Serv → Prop :=
| serv_arrive (s : Serv) x request :
    let t := new_task s x request in
    serv_step s (mk_serv (c_app s) (c_authorities s) (c_next s + 1) (c_tasks s ++ [t])
      (c_answered s) (c_order s ++ effects t) (c_unsent s))
| serv_task (s : Serv) i t p store :
    c_tasks s !! i = Some t → took_effect (t_point t) = false →
    task_step (t_serving t) (t_request t) (t_point t) (c_app s) = (p, store) →
    let t' := advance (app_auth (c_app s)) t p in
    serv_step s (mk_serv (with_store (c_app s) store) (c_authorities s) (c_next s)
      (<[i := t']> (c_tasks s)) (c_answered s) (c_order s ++ effects t') (c_unsent s))
| serv_answer (s : Serv) i t response event :
    c_tasks s !! i = Some t → t_point t = AtRespond response event →
    serv_step s (mk_serv (send_event event (c_app s)) (c_authorities s) (c_next s)
      (delete i (c_tasks s)) (c_answered s ++ [(t_id t, written t response)]) (c_order s) (c_unsent s))
| serv_drop (s : Serv) i t :
    c_tasks s !! i = Some t →
    serv_step s (mk_serv (c_app s) (c_authorities s) (c_next s) (delete i (c_tasks s))
      (c_answered s) (c_order s) (c_unsent s ++ option_list (event_of (t_point t))))
| serv_authority (s : Serv) client :
    let app := with_client (c_app s) client in
    serv_step s (mk_serv app (c_authorities s ++ [app_auth app]) (c_next s) (c_tasks s)
      (c_answered s) (c_order s) (c_unsent s)).
Definition serv_init (app : AppState (R := R)) : Serv := mk_serv app [app_auth app] 0 [] [] [] [].
Definition serv_reachable (app : AppState (R := R)) : Serv → Prop := rtc serv_step (serv_init app).

(** ** One task alone is the router *)

(** What is left of a task when it runs alone. *)
Definition outcome (x : Serving) (request : HttpRequest) (p : Point) (s : AppState (R := R))
    : Response * option ScopedAlertEvent * R :=
  let finish p :=
    match p with
    | AtRespond response event => (response, event, app_store s)
    | AtStore op actor => store_call x op actor (app_store s)
    | AtAuthorize op => (reject 500, None, app_store s)   (* not reached *)
    end in
  match p with
  | AtAuthorize op => finish (authorized_point x s (headers request) op)
  | _ => finish p
  end.

Lemma outcome_read x s request op :
  match op with OpList | OpGet _ | OpWs => True | _ => False end →
  (let '(response, event, store) := outcome x request (AtAuthorize op) s in
   (response, send_event event (with_store s store))) =
  (match op with
   | OpList => respond (api_list_alerts x s (headers request))
   | OpGet id => respond (get_alert x s id (headers request))
   | _ => respond (ws_upgrade x s (headers request))
   end, s).
Proof.
  intros Hop. unfold outcome, authorized_point, api_list_alerts, get_alert, ws_upgrade.
  assert (send_event None (with_store s (app_store s)) = s) as Hs.
  { destruct s. unfold send_event, with_store. cbn. by rewrite app_nil_r. }
  destruct op as [|id|input|]; try done; cbn [scope_of];
    (destruct (authorize x s _ _) as [actor|e]; [|by rewrite Hs]); cbn [store_call mbind result_bind];
    rewrite ?Hs; [|  |done].
  - by destruct (repo_list _ _ _).
  - by destruct (repo_get _ _ _ _) as [[]|].
Qed.
Lemma outcome_create x s request input :
  (let '(response, event, store) := outcome x request (AtAuthorize (OpCreate input)) s in
   (response, send_event event (with_store s store))) =
  (let '(r, s) := create_alert x s (headers request) input in (respond r, s)).
Proof.
  assert (send_event None (with_store s (app_store s)) = s) as Hs.
  { destruct s. unfold send_event, with_store. cbn. by rewrite app_nil_r. }
  unfold outcome, authorized_point, create_alert. cbn [scope_of].
  destruct (authorize x s _ _) as [actor|e]; [|by rewrite Hs].
  destruct (validate input) as [[]|e]; cbn [is_err is_ok negb]; [|by rewrite Hs].
  cbn [store_call]. destruct (repo_create _ _ _ _ _ _) as [[alert|e] store]; [done|].
  unfold send_event, with_store. cbn. by rewrite app_nil_r.
Qed.
(** The parts of a request in a row are [router]. *)
Lemma router_outcome x request s :
  router x request s =
  let '(response, event, store) := outcome x request (begin_request request s) s in
  (strip_body (method request) response, send_event event (with_store s store)).
Proof.
  assert (∀ response : Response, (response, s) = (response, send_event None (with_store s (app_store s)))) as Hs.
  { intros response. f_equal. destruct s. unfold send_event, with_store. cbn. by rewrite app_nil_r. }
  unfold router. assert (dispatch x request s =
    let '(response, event, store) := outcome x request (begin_request request s) s in
    (response, send_event event (with_store s store))) as ->; [|by destruct (outcome _ _ _ _) as [[]]].
  unfold dispatch, begin_request. destruct (route (path request)) as [[| | |id| |]|]; [..|apply Hs].
  - destruct (negb _); apply Hs.
  - destruct (negb _); apply Hs.
  - destruct (method request); [by rewrite (outcome_read x s request OpList)| |
      by rewrite (outcome_read x s request OpList)|apply Hs].
    destruct (json_extract _ _ _) as [input|code]; [|apply Hs]. by rewrite outcome_create.
  - destruct (negb _); [apply Hs|]. destruct (path_uuid id) as [u|code]; [|apply Hs].
    by rewrite (outcome_read x s request (OpGet u)).
  - destruct (negb _); [apply Hs|]. by rewrite (outcome_read x s request OpList).
  - destruct (negb _); [apply Hs|]. destruct (ws_extract _ _) as [u|code]; [|apply Hs].
    by rewrite (outcome_read x s request OpWs).
Qed.
(** Before the authority answers, a task does not depend on the state. *)
Lemma begin_stable request (s s' : AppState (R := R)) op :
  begin_request request s = AtAuthorize op → begin_request request s' = AtAuthorize op.
Proof. unfold begin_request. repeat (case_match; try done). Qed.
Lemma begin_not_stored request (s : AppState (R := R)) op actor :
  begin_request request s ≠ AtStore op actor.
Proof. unfold begin_request. repeat (case_match; try done). Qed.
Lemma authorized_not_waiting x (s : AppState (R := R)) h op op' :
  authorized_point x s h op ≠ AtAuthorize op'.
Proof. unfold authorized_point. repeat (case_match; try done). Qed.
End task.

(** ** Schedules

    An interleaving as the list of what happens; what cannot happen in a state leaves it. *)
Section schedules.
Context `{SharedAuth} `{Http} `{UuidText} `{!Axum} {R : Type} `{!AlertRepo R}.
Inductive Action :=
| Arrive (x : Serving) (request : HttpRequest) | Go (i : nat) | Leave (i : nat)
| Grant (client : SharedAuthClient).
Implicit Types (a : AppState (R := R)) (s : Serv (R := R)).

Definition serv_act (action : Action) s : Serv (R := R) :=
  match action with
  | Arrive x request =>
      let t := new_task s x request in
      mk_serv (c_app s) (c_authorities s) (c_next s + 1) (c_tasks s ++ [t]) (c_answered s)
        (c_order s ++ effects t) (c_unsent s)
  | Go i =>
      match c_tasks s !! i with
      | None => s
      | Some t =>
          match t_point t with
          | AtRespond response event =>
              mk_serv (send_event event (c_app s)) (c_authorities s) (c_next s)
                (delete i (c_tasks s)) (c_answered s ++ [(t_id t, written t response)]) (c_order s) (c_unsent s)
          | p =>
              let '(p, store) := task_step (t_serving t) (t_request t) p (c_app s) in
              let t' := advance (app_auth (c_app s)) t p in
              mk_serv (with_store (c_app s) store) (c_authorities s) (c_next s)
                (<[i := t']> (c_tasks s)) (c_answered s) (c_order s ++ effects t') (c_unsent s)
          end
      end
  | Leave i =>
      match c_tasks s !! i with
      | None => s
      | Some t =>
          mk_serv (c_app s) (c_authorities s) (c_next s) (delete i (c_tasks s)) (c_answered s)
            (c_order s) (c_unsent s ++ option_list (event_of (t_point t)))
      end
  | Grant client =>
      let app := with_client (c_app s) client in
      mk_serv app (c_authorities s ++ [app_auth app]) (c_next s) (c_tasks s) (c_answered s)
        (c_order s) (c_unsent s)
  end.
Definition serv_run (actions : list Action) s : Serv (R := R) :=
  foldl (λ s action, serv_act action s) s actions.

Lemma serv_act_steps action s : rtc serv_step s (serv_act action s).
Proof.
  destruct action as [x request|i|i|client]; cbn [serv_act].
  - apply rtc_once, serv_arrive.
  - destruct (c_tasks s !! i) as [t|] eqn:Hi; [|done]. destruct (t_point t) eqn:Hp.
    3: by apply rtc_once, serv_answer.
    all: rewrite <-Hp; destruct (task_step _ _ _ _) as [p store] eqn:Hs;
      apply rtc_once, serv_task; try done; by rewrite Hp.
  - destruct (c_tasks s !! i) as [t|] eqn:Hi; [|done]. by apply rtc_once, serv_drop.
  - apply rtc_once, serv_authority.
Qed.
Lemma serv_run_steps actions s : rtc serv_step s (serv_run actions s).
Proof.
  revert s. induction actions as [|action actions IH]; intros s; [done|].
  cbn [serv_run foldl]. etrans; [apply serv_act_steps|apply IH].
Qed.

Lemma go_answers s i t response event :
  c_tasks s !! i = Some t → t_point t = AtRespond response event →
  (t_id t, written t response) ∈ c_answered (serv_act (Go i) s).
Proof.
  intros Hi Hp. cbn [serv_act]. rewrite Hi, Hp. apply elem_of_app. right.
  by apply list_elem_of_singleton.
Qed.
Lemma go_moves s i t p store :
  c_tasks s !! i = Some t → took_effect (t_point t) = false →
  task_step (t_serving t) (t_request t) (t_point t) (c_app s) = (p, store) →
  c_tasks (serv_act (Go i) s) !! i = Some (advance (app_auth (c_app s)) t p).
Proof.
  intros Hi Htook Hs. cbn [serv_act]. rewrite Hi.
  destruct (t_point t); [| |done]; rewrite Hs; apply list_lookup_insert_eq;
    by eapply lookup_lt_Some.
Qed.
(** No request waits for another: in any state, a task is answered by at most three steps of its
    own. *)
Theorem requests_can_finish s i t :
  c_tasks s !! i = Some t →
  ∃ n response, (n ≤ 3)%nat ∧
    (t_id t, response) ∈ c_answered (serv_run (replicate n (Go i)) s).
Proof.
  intros Hi.
  assert (∀ q t' op actor, c_tasks q !! i = Some t' → t_point t' = AtStore op actor →
    ∃ response, (t_id t', response) ∈ c_answered (serv_run [Go i; Go i] q)) as Hstore.
  { intros q t' op actor Hq Hp. destruct (task_step (t_serving t') (t_request t') (t_point t')
      (c_app q)) as [p store] eqn:Hs.
    pose proof (go_moves q i t' p store Hq ltac:(by rewrite Hp) Hs) as Hm.
    rewrite Hp in Hs. cbn [task_step] in Hs.
    destruct (store_call _ _ _ _) as [[response event] st]. injection Hs as <- <-.
    exists (written t' response). by apply (go_answers _ i _ response event Hm). }
  destruct (t_point t) as [op|op actor|response event] eqn:Hp.
  - destruct (task_step (t_serving t) (t_request t) (t_point t) (c_app s)) as [p store] eqn:Hs.
    pose proof (go_moves s i t p store Hi ltac:(by rewrite Hp) Hs) as Hm.
    rewrite Hp in Hs. cbn [task_step] in Hs. injection Hs as Hs _. destruct p as [op'|op' actor|response event].
    + by apply authorized_not_waiting in Hs.
    + destruct (Hstore _ _ op' actor Hm eq_refl) as [response Hr]. by exists 3%nat, response.
    + exists 2%nat, (written t response). split; [lia|]. by apply (go_answers _ i _ response event Hm).
  - destruct (Hstore _ _ op actor Hi Hp) as [response Hr]. exists 2%nat, response. split; [lia|done].
  - exists 1%nat, (written t response). split; [lia|]. by apply (go_answers _ i _ response event).
Qed.
End schedules.
