(* ===== verification/Linearizable.v ===== *)
(** * Concurrent requests are linearizable

    The interleavings of [Concurrent] answer and store as the router does on the requests one
    after the other, each of them judged by an authority that was in force while it was served. *)

From S2P Require Import Prelude Str Float Ids Model Auth Database Store Repository Api Concurrent.
Open Scope N_scope.

(** ** The order in which the requests take effect *)

Section linear.
Context `{SharedAuth} `{Http} `{UuidText} `{!Axum} {R : Type} `{!AlertRepo R}.
Implicit Types (a q : AppState (R := R)) (order : list Entry).

(** The router on the requests in order, each with the authority that answered it, and the
    answer each of them gets. *)
Fixpoint seq_run (a : AppState (R := R)) (order : list Entry) : list Response * AppState (R := R) :=
  match order with
  | [] => ([], a)
  | e :: order =>
      let '(r, a) := router (e_serving e) (e_request e) (with_auth a (e_auth e)) in
      let '(responses, a) := seq_run a order in (r :: responses, a)
  end.
Definition results (a : AppState (R := R)) (order : list Entry) : list (N * Response) :=
  zip (e_id <$> order) (fst (seq_run a order)).

Lemma seq_app a order more :
  seq_run a (order ++ more) =
  (fst (seq_run a order) ++ fst (seq_run (snd (seq_run a order)) more),
   snd (seq_run (snd (seq_run a order)) more)).
Proof.
  revert a. induction order as [|e order IH]; intros a; cbn [app seq_run].
  - cbn [fst snd]. by destruct (seq_run a more).
  - destruct (router _ _ _) as [r a1]. rewrite IH. by destruct (seq_run a1 order).
Qed.
Lemma seq_length a order : length (fst (seq_run a order)) = length order.
Proof.
  revert a. induction order as [|e order IH]; intros a; [done|]. cbn [seq_run].
  destruct (router _ _ _) as [r a1]. specialize (IH a1).
  destruct (seq_run a1 order). cbn in *. congruence.
Qed.
Lemma results_app a order more :
  results a (order ++ more) = results a order ++ results (snd (seq_run a order)) more.
Proof.
  unfold results. rewrite seq_app, fmap_app. cbn [fst].
  rewrite zip_with_app; [done|]. by rewrite length_fmap, seq_length.
Qed.
Lemma seq_snoc a order e :
  let '(r, q) := router (e_serving e) (e_request e) (with_auth (snd (seq_run a order)) (e_auth e)) in
  snd (seq_run a (order ++ [e])) = q ∧
  results a (order ++ [e]) = results a order ++ [(e_id e, r)].
Proof.
  rewrite results_app, seq_app. unfold results. cbn [seq_run fmap list_fmap snd].
  by destruct (router _ _ _) as [r q].
Qed.
Lemma results_ids a order id r : (id, r) ∈ results a order → id ∈ e_id <$> order.
Proof. apply elem_of_zip_l. Qed.

(** What serving depends on, but for the authority. *)
Record same_view a q : Prop := {
  vw_store : app_store a = app_store q;
  vw_mtls : mtls_configured a = mtls_configured q;
  vw_jetstream : jetstream_configured a = jetstream_configured q;
}.
Lemma begin_view request a q : same_view a q → begin_request request a = begin_request request q.
Proof.
  intros [E1 E2 E3]. unfold begin_request.
  assert (health a = health q) as -> by (unfold health; by rewrite E1, E2, E3). done.
Qed.
Lemma authorized_view x a q h op :
  app_auth a = app_auth q → authorized_point x a h op = authorized_point x q h op.
Proof. intros E. unfold authorized_point, authorize. by rewrite E. Qed.
Lemma outcome_view x request p a q :
  same_view a q → app_auth a = app_auth q → outcome x request p a = outcome x request p q.
Proof.
  intros [E1 _ _] E. unfold outcome. rewrite E1.
  destruct p; [|done..]. by rewrite (authorized_view x a q _ _ E).
Qed.
Lemma with_auth_view a q b : same_view a q → same_view (with_auth a b) (with_auth q b).
Proof. intros []. by split. Qed.
Lemma with_auth_same a : with_auth a (app_auth a) = a.
Proof. by destruct a. Qed.
Lemma with_store_same a : with_store a (app_store a) = a.
Proof. by destruct a. Qed.

(** A task is on its way: it will do what its request does alone, in any state with the
    authority it has asked, or with any authority when it has not asked yet. *)
Definition on_its_way (t : Task) : Prop :=
  ∀ q, authority (app_auth q) t = app_auth q →
    outcome (t_serving t) (t_request t) (begin_request (t_request t) q) q =
    outcome (t_serving t) (t_request t) (t_point t) q.
(** A task that took effect holds the answer of the order; the others are on their way. *)
Definition task_ok (a : AppState (R := R)) (order : list Entry) (t : Task) : Prop :=
  (∀ i, i ∈ t_seen t → i ∈ e_id <$> order) ∧
  match t_point t with
  | AtRespond response _ => (t_id t, written t response) ∈ results a order
  | _ => (t_id t ∉ e_id <$> order) ∧ on_its_way t
  end.
Definition events_held (tasks : list Task) : list ScopedAlertEvent :=
  omap (λ t, event_of (t_point t)) tasks.

(** The invariant, of the parts of a server that started in [a]. *)
Record linear (a app : AppState (R := R)) (next : N) (tasks : list Task)
    (answered : list (N * Response)) (order : list Entry) (unsent : list ScopedAlertEvent)
    : Prop := {
  ln_view : same_view app (snd (seq_run a order));
  ln_events : app_events (snd (seq_run a order)) ≡ₚ app_events app ++ events_held tasks ++ unsent;
  ln_answered : ∀ id r, (id, r) ∈ answered → (id, r) ∈ results a order;
  ln_tasks : ∀ t, t ∈ tasks → task_ok a order t;
  ln_order_ids : NoDup (e_id <$> order);
  ln_task_ids : NoDup (t_id <$> tasks);
  ln_next : (∀ i, i ∈ e_id <$> order → i < next) ∧ (∀ i, i ∈ t_id <$> tasks → i < next);
  ln_seen : ∀ k e i, order !! k = Some e → i ∈ e_seen e → i ∈ e_id <$> take k order;
}.

#[local] Instance events_held_proper : Proper ((≡ₚ) ==> (≡ₚ)) events_held.
Proof. intros l k Hp. unfold events_held. by rewrite Hp. Qed.
Lemma linear_perm a app next tasks tasks' answered order unsent :
  tasks ≡ₚ tasks' → linear a app next tasks answered order unsent →
  linear a app next tasks' answered order unsent.
Proof.
  intros Hp [V E W T O D [N1 N2] S]. split; try done.
  - by rewrite <-Hp.
  - intros t. rewrite <-Hp. apply T.
  - by rewrite <-Hp.
  - split; [done|]. intros i. rewrite <-Hp. apply N2.
Qed.

(** A task goes away: its event is not sent. *)
Lemma linear_remove a app next t tasks answered order unsent :
  linear a app next (t :: tasks) answered order unsent →
  linear a app next tasks answered order (unsent ++ option_list (event_of (t_point t))).
Proof.
  intros [V E W T O D [N1 N2] S]. split; try done.
  - rewrite E. unfold events_held. cbn [omap list_omap].
    destruct (event_of (t_point t)); cbn [option_list]; solve_Permutation.
  - intros t' Hin. apply T. by right.
  - by apply NoDup_cons in D as [_ D].
  - split; [done|]. intros i Hi. apply N2. by right.
Qed.
(** A task answers: its event is sent and its response is the one of the order. *)
Lemma linear_answer a app next t tasks answered order unsent response event :
  t_point t = AtRespond response event →
  linear a app next (t :: tasks) answered order unsent →
  linear a (send_event event app) next tasks (answered ++ [(t_id t, written t response)]) order unsent.
Proof.
  intros Hp HL. pose proof (ln_tasks _ _ _ _ _ _ _ HL t (list_elem_of_here _ _)) as [_ Hr].
  rewrite Hp in Hr. destruct HL as [V E W T O D [N1 N2] S]. split; try done.
  - destruct V. by split.
  - rewrite E. unfold events_held. cbn [omap list_omap send_event app_events]. rewrite Hp.
    cbn [event_of]. destruct event; cbn [option_list]; solve_Permutation.
  - intros id r [Hin|Heq]%elem_of_app; [by apply W|].
    apply list_elem_of_singleton in Heq. by injection Heq as -> ->.
  - intros t' Hin. apply T. by right.
  - by apply NoDup_cons in D as [_ D].
  - split; [done|]. intros i Hi. apply N2. by right.
Qed.
(** A task that arrives, or goes on, without an effect. *)
Lemma linear_pending a app next next' t tasks answered order unsent :
  linear a app next tasks answered order unsent →
  next ≤ next' → t_id t < next' → t_id t ∉ t_id <$> tasks → event_of (t_point t) = None →
  task_ok a order t → linear a app next' (t :: tasks) answered order unsent.
Proof.
  intros [V E W T O D [N1 N2] S] Hn Hlt Hnew Hev Hok. split; try done.
  - rewrite E. unfold events_held. cbn [omap list_omap]. by rewrite Hev.
  - by intros t' [->|Hin]%elem_of_cons; [|apply T].
  - by apply NoDup_cons.
  - split; intros i Hi; [specialize (N1 i Hi); lia|].
    apply elem_of_cons in Hi as [->|Hi]; [lia|]. specialize (N2 i Hi); lia.
Qed.

(** Only what serving depends on counts of the server's state. *)
Lemma linear_view a app app' next tasks answered order unsent :
  same_view app' app → app_events app' = app_events app →
  linear a app next tasks answered order unsent →
  linear a app' next tasks answered order unsent.
Proof.
  intros [E1 E2 E3] Ev [[V1 V2 V3] E W T O D N S]. split; try done; [|by rewrite Ev].
  split; congruence.
Qed.

Lemma results_mono a order e x : x ∈ results a order → x ∈ results a (order ++ [e]).
Proof. rewrite results_app. intros ?. apply elem_of_app. by left. Qed.
Lemma task_ok_snoc a order e t :
  t_id t ≠ e_id e → task_ok a order t → task_ok a (order ++ [e]) t.
Proof.
  intros Hne [Hs Hp]. split.
  - intros i Hi. rewrite fmap_app, elem_of_app. left. by apply Hs.
  - destruct (t_point t) as [op|op actor|response event]; [| |by apply results_mono];
      (destruct Hp as [Hn Hw]; split; [|done]; rewrite fmap_app, elem_of_app;
       intros [?|Hin%list_elem_of_singleton]; by auto).
Qed.
(** A task takes effect: it gets the answer of the router after the requests before it. *)
Lemma linear_effect a app next next' t tasks answered order unsent response event store :
  linear a app next tasks answered order unsent →
  next ≤ next' → t_id t < next' → t_id t ∉ t_id <$> tasks → t_id t ∉ e_id <$> order →
  (∀ i, i ∈ t_seen t → i ∈ e_id <$> order) → t_point t = AtRespond response event →
  outcome (t_serving t) (t_request t) (begin_request (t_request t) (with_auth app (t_auth t)))
    (with_auth app (t_auth t)) = (response, event, store) →
  linear a (with_store app store) next' (t :: tasks) answered (order ++ [entry_of t]) unsent.
Proof.
  intros [V E W T O D [N1 N2] S] Hn Hlt Hnew Hord Hseen Hp Hout.
  pose proof (with_auth_view _ _ (t_auth t) V) as V'.
  rewrite (begin_view _ _ _ V'), (outcome_view _ _ _ _ _ V' eq_refl) in Hout.
  pose proof (seq_snoc a order (entry_of t)) as Hs.
  cbn [entry_of e_serving e_request e_id e_auth] in Hs. rewrite router_outcome, Hout in Hs.
  destruct Hs as [Hrun Hres].
  assert ((t_id t, written t response) ∈ results a (order ++ [entry_of t])) as Hmine.
  { rewrite Hres. apply elem_of_app. right. by apply list_elem_of_singleton. }
  split; rewrite ?Hrun.
  - destruct V. by split.
  - cbn [snd send_event with_store with_auth app_events]. rewrite E. unfold events_held.
    cbn [omap list_omap]. rewrite Hp. cbn [event_of].
    destruct event; cbn [option_list]; solve_Permutation.
  - intros id r Hin. by apply results_mono, W.
  - intros t' [->|Hin]%elem_of_cons.
    + split; [|by rewrite Hp]. intros i Hi. rewrite fmap_app, elem_of_app. left. by apply Hseen.
    + apply task_ok_snoc; [|by apply T]. cbn. intros Heq. apply Hnew. rewrite <-Heq.
      by apply list_elem_of_fmap_2.
  - rewrite fmap_app. apply NoDup_app. split_and!; [done| |apply NoDup_singleton].
    intros i Hi ->%list_elem_of_singleton. by apply Hord.
  - cbn [fmap list_fmap]. by apply NoDup_cons.
  - split; intros i; [rewrite fmap_app; intros [Hi| ->%list_elem_of_singleton]%elem_of_app; [|done]
                     |intros [->|Hi]%elem_of_cons; [done|]].
    + specialize (N1 i Hi). lia.
    + specialize (N2 i Hi). lia.
  - intros k e i Hk Hi. apply lookup_app_Some in Hk as [Hk|[Hlen Hk]].
    + rewrite take_app_le by (apply lookup_lt_Some in Hk; lia). by apply (S k e).
    + apply list_lookup_singleton_Some in Hk as [Hk <-].
      rewrite take_app_ge, fmap_app, elem_of_app by lia. left. by apply Hseen.
Qed.

Lemma insert_delete_Permutation {A} (l : list A) i x y :
  l !! i = Some x → <[i:=y]> l ≡ₚ y :: delete i l.
Proof.
  intros Hi. rewrite (delete_Permutation (<[i:=y]> l) i y)
    by (by apply list_lookup_insert_eq; eapply lookup_lt_Some).
  rewrite !delete_take_drop, take_insert_ge, drop_insert_lt by lia. done.
Qed.

Definition linear_serv (a : AppState (R := R)) (s : Serv) : Prop :=
  linear a (c_app s) (c_next s) (c_tasks s) (c_answered s) (c_order s) (c_unsent s).

Lemma linear_init a : linear_serv a (serv_init a).
Proof.
  unfold linear_serv, serv_init. cbn [c_app c_next c_tasks c_answered c_order c_unsent].
  split; cbn [fmap list_fmap]; try (by intros ? ? ?%elem_of_nil); try (by intros ? ?%elem_of_nil).
  - done.
  - cbn. by rewrite app_nil_r.
  - apply NoDup_nil_2.
  - apply NoDup_nil_2.
  - split; by intros i ?%elem_of_nil.
  - done.
Qed.

Lemma linear_arrive a (s : Serv) x request :
  linear_serv a s →
  let t := new_task s x request in
  linear a (c_app s) (c_next s + 1) (t :: c_tasks s) (c_answered s) (c_order s ++ effects t)
    (c_unsent s).
Proof.
  intros HL t. pose proof (ln_next _ _ _ _ _ _ _ HL) as [N1 N2].
  assert (c_next s ∉ t_id <$> c_tasks s) as Hnew by (intros Hi%N2; lia).
  assert (c_next s ∉ e_id <$> c_order s) as Hord by (intros Hi%N1; lia).
  assert (∀ i, i ∈ t_seen t → i ∈ e_id <$> c_order s) as Hseen.
  { intros i ((id & r) & -> & Hin)%list_elem_of_fmap.
    apply (results_ids a _ id r), (ln_answered _ _ _ _ _ _ _ HL), Hin. }
  unfold effects. destruct (t_point t) as [op|op actor|response event] eqn:Hp;
    cbn [took_effect]; rewrite ?app_nil_r; change (begin_request request (c_app s)) with (t_point t) in *.
  - apply (linear_pending a (c_app s) (c_next s)); try done; cbn [t new_task t_id];
      [lia..|by rewrite Hp|].
    split; [exact Hseen|]. rewrite Hp. split; [exact Hord|]. intros q _. rewrite Hp.
    change (t_request t) with request. by rewrite (begin_stable request (c_app s) q op Hp).
  - by apply begin_not_stored in Hp.
  - rewrite <-(with_store_same (c_app s)). apply (linear_effect a (c_app s) (c_next s)
      (c_next s + 1) t _ _ _ _ response event); try done; cbn [t new_task t_id]; [lia..|].
    cbn [t new_task t_serving t_request t_auth]. rewrite with_auth_same.
    change (begin_request request (c_app s) = AtRespond response event) in Hp. by rewrite Hp.
Qed.

Lemma linear_task a app next t tasks answered order unsent p store :
  took_effect (t_point t) = false →
  task_step (t_serving t) (t_request t) (t_point t) app = (p, store) →
  linear a app next (t :: tasks) answered order unsent →
  let t' := advance (app_auth app) t p in
  linear a (with_store app store) next (t' :: tasks) answered (order ++ effects t') unsent.
Proof.
  intros Htook Hstep HL t'.
  pose proof (ln_tasks _ _ _ _ _ _ _ HL t (list_elem_of_here _ _)) as [Hseen Hpend].
  pose proof (ln_task_ids _ _ _ _ _ _ _ HL) as [Hnew _]%NoDup_cons.
  assert (t_id t < next) as Hlt by (apply (ln_next _ _ _ _ _ _ _ HL); left).
  apply linear_remove in HL. unfold effects, t', advance, authority.
  destruct (t_point t) as [op|op actor|] eqn:Hp; [| |done];
    cbn [event_of option_list] in HL; rewrite app_nil_r in HL; destruct Hpend as [Hord Hway].
  - cbn [task_step] in Hstep. injection Hstep as Hq <-. cbn [t_point].
    assert (∀ q, app_auth q = app_auth app → outcome (t_serving t) (t_request t)
      (begin_request (t_request t) q) q = outcome (t_serving t) (t_request t) p q) as Hout.
    { intros q Eq. rewrite (Hway q) by (unfold authority; by rewrite Hp). rewrite Hp.
      rewrite (authorized_view _ _ q) in Hq by done. unfold outcome at 1. rewrite Hq.
      destruct p; [|done..]. by apply authorized_not_waiting in Hq. }
    destruct p as [op'|op' actor'|response event]; cbn [took_effect].
    + by apply authorized_not_waiting in Hq.
    + rewrite app_nil_r, with_store_same. apply (linear_pending a app next); try done.
      split; [exact Hseen|]. split; [exact Hord|]. intros q Eq. symmetry in Eq. by apply Hout.
    + apply (linear_effect a app next next _ _ _ _ _ response event); try done.
      cbn [t_serving t_request t_auth]. by rewrite with_auth_same, Hout.
  - cbn [task_step] in Hstep. destruct (store_call _ _ _ _) as [[response event] st] eqn:Hc.
    injection Hstep as <- <-. cbn [t_point took_effect].
    apply (linear_effect a app next next _ _ _ _ _ response event); try done.
    cbn [t_serving t_request t_auth]. rewrite (Hway (with_auth app (t_auth t))), Hp; [exact Hc|].
    unfold authority. by rewrite Hp.
Qed.

Lemma linear_step a s s' : serv_step s s' → linear_serv a s → linear_serv a s'.
Proof.
  intros Hstep HL. destruct Hstep as
    [s x request t|s i t p store Hi Htook Hp t'|s i t response event Hi Hp|s i t Hi|s client app];
    unfold linear_serv; cbn [c_app c_next c_tasks c_answered c_order c_unsent].
  - eapply linear_perm; [|by apply linear_arrive]. solve_Permutation.
  - eapply linear_perm; [symmetry; by eapply insert_delete_Permutation|].
    eapply linear_task; [done..|]. by eapply linear_perm; [apply delete_Permutation|].
  - eapply linear_answer; [done|]. by eapply linear_perm; [apply delete_Permutation|].
  - eapply linear_remove. by eapply linear_perm; [apply delete_Permutation|].
  - by eapply linear_view; [..|exact HL].
Qed.
Lemma linear_reachable a s : serv_reachable a s → linear_serv a s.
Proof.
  revert s. apply (rtc_ind_r (linear_serv a)); [apply linear_init|].
  intros s s' _. apply linear_step.
Qed.

(** ** The authority a request was judged by *)

Lemma last_in_drop {A} (l : list A) n x : last l = Some x → (n < length l)%nat → x ∈ drop n l.
Proof.
  intros [k ->]%last_Some Hn. rewrite length_app in Hn. cbn in Hn.
  rewrite drop_app_le by lia. apply elem_of_app. right. by apply list_elem_of_singleton.
Qed.
Lemma drop_app_in {A} (l k : list A) n x : x ∈ drop n l → x ∈ drop n (l ++ k).
Proof. rewrite drop_app. intros ?. apply elem_of_app. by left. Qed.

(** Every authority has the server's policy; a task was judged, and its effect stems, from one
    that was in force since it arrived. *)
Record in_force (a : AppState (R := R)) (s : Serv (R := R)) : Prop := {
  if_now : last (c_authorities s) = Some (app_auth (c_app s));
  if_policy : ∀ b, b ∈ c_authorities s → policy b = policy (app_auth a);
  if_tasks : ∀ t, t ∈ c_tasks s →
    (t_since t < length (c_authorities s))%nat ∧ t_auth t ∈ drop (t_since t) (c_authorities s);
  if_order : ∀ e, e ∈ c_order s → e_auth e ∈ drop (e_since e) (c_authorities s);
}.
Lemma effects_in (authorities : list AuthBoundary) t e :
  t_auth t ∈ drop (t_since t) authorities → e ∈ effects t → e_auth e ∈ drop (e_since e) authorities.
Proof. unfold effects. case_match; [by intros ? ->%list_elem_of_singleton|by intros _ ?%elem_of_nil]. Qed.
Lemma in_force_step a (s : Serv (R := R)) s' : serv_step s s' → in_force a s → in_force a s'.
Proof.
  intros Hstep [Hnow Hpol Ht Ho].
  assert (c_authorities s ≠ []) as Hne by (intros E; by rewrite E in Hnow).
  assert (0 < length (c_authorities s))%nat as Hlen by (destruct (c_authorities s); [done|cbn; lia]).
  assert (∀ t p, (t_since t < length (c_authorities s))%nat ∧ t_auth t ∈ drop (t_since t)
    (c_authorities s) → let t' := advance (app_auth (c_app s)) t p in
    (t_since t' < length (c_authorities s))%nat ∧ t_auth t' ∈ drop (t_since t') (c_authorities s))
    as Hadv.
  { intros t p [Hlt Hin]. split; [done|]. unfold advance, authority. cbn [t_auth t_since].
    destruct (t_point t); [|done..]. by apply last_in_drop. }
  destruct Hstep as
    [s x request t|s i t p store Hi Htook Hp t'|s i t response event Hi Hp|s i t Hi|s client app];
    split; cbn [c_app c_authorities c_tasks c_order] in *; try done.
  - intros u [Hu| ->%list_elem_of_singleton]%elem_of_app; [by apply Ht|]. cbn [t new_task t_since t_auth].
    split; [lia|]. apply last_in_drop; [done|lia].
  - intros e [He|He]%elem_of_app; [by apply Ho|]. eapply effects_in; [|exact He].
    cbn [t new_task t_since t_auth]. apply last_in_drop; [done|lia].
  - intros u Hu. apply list_elem_of_lookup in Hu as [j Hj].
    apply list_lookup_insert_Some in Hj as [(<- & <- & _)|[_ Hj]];
      [|by apply Ht; eapply list_elem_of_lookup_2].
    by apply Hadv, Ht; eapply list_elem_of_lookup_2.
  - intros e [He|He]%elem_of_app; [by apply Ho|]. eapply effects_in; [|exact He].
    by apply Hadv, Ht; eapply list_elem_of_lookup_2.
  - intros u Hu. apply Ht. by eapply list_elem_of_delete_inv.
  - intros u Hu. apply Ht. by eapply list_elem_of_delete_inv.
  - by rewrite last_snoc.
  - intros b [Hb| ->%list_elem_of_singleton]%elem_of_app; [by apply Hpol|].
    cbn. apply Hpol. apply last_Some_elem_of in Hnow. done.
  - intros u Hu. destruct (Ht u Hu) as [Hlt Hin]. rewrite length_app. cbn.
    split; [lia|by apply drop_app_in].
  - intros e He. by apply drop_app_in, Ho.
Qed.
Lemma in_force_init a : in_force a (serv_init a).
Proof.
  split; cbn [serv_init c_app c_authorities c_tasks c_order]; try (by intros ? ?%elem_of_nil).
  - done.
  - by intros b ->%list_elem_of_singleton.
Qed.
Lemma in_force_reachable a s : serv_reachable a s → in_force a s.
Proof.
  revert s. apply (rtc_ind_r (in_force a)); [apply in_force_init|].
  intros s s' _. apply in_force_step.
Qed.

(** ** Properties *)

(** C3: concurrent requests are linearizable.  Whatever the interleaving of the arrivals, the
    waits of the handlers, their answers, the clients that go away and the changes of what the
    authority grants, there is an order of the requests that took effect, each once, such that
    the router serving them one after the other gives every answered request its answer and
    leaves the server's store, and broadcasts the events that were sent, that a task still holds,
    or whose task was dropped.  The order keeps to real time, a request comes after every request
    that was answered before it arrived, and each request is judged by an authority that was in
    force after its arrival and has the server's policy. *)
Theorem requests_are_linearizable a (s : Serv) :
  serv_reachable a s →
  NoDup (e_id <$> c_order s) ∧
  (∀ id r, (id, r) ∈ c_answered s → (id, r) ∈ results a (c_order s)) ∧
  same_view (c_app s) (snd (seq_run a (c_order s))) ∧
  app_events (snd (seq_run a (c_order s))) ≡ₚ
    app_events (c_app s) ++ events_held (c_tasks s) ++ c_unsent s ∧
  (∀ k e i, c_order s !! k = Some e → i ∈ e_seen e → i ∈ e_id <$> take k (c_order s)) ∧
  (∀ e, e ∈ c_order s →
     e_auth e ∈ drop (e_since e) (c_authorities s) ∧ policy (e_auth e) = policy (app_auth a)).
Proof.
  intros Hs. destruct (linear_reachable _ _ Hs) as [V E W _ O _ _ S].
  destruct (in_force_reachable _ _ Hs) as [_ Hpol _ Hin]. split_and!; try done.
  intros e He. split; [by apply Hin|]. eapply Hpol, subseteq_drop, Hin, He.
Qed.

Lemma seq_run_with_auth a b order :
  fst (seq_run (with_auth a b) order) = fst (seq_run a order) ∧
  same_view (snd (seq_run a order)) (snd (seq_run (with_auth a b) order)) ∧
  app_events (snd (seq_run (with_auth a b) order)) = app_events (snd (seq_run a order)).
Proof. destruct order as [|e order]; [by split_and!|]. by split_and!. Qed.
Lemma same_view_trans a q p : same_view a q → same_view q p → same_view a p.
Proof. intros [] []. split; congruence. Qed.
Lemma same_view_sym a q : same_view a q → same_view q a.
Proof. intros []. by split. Qed.

(** C10: a revoked grant is gone.  A request that no authority in force since its arrival grants is
    answered 401, if it is answered, and leaves no trace: the answers of all other requests, the
    store and the events are those of the order without it. *)
Theorem revoked_requests_leave_no_trace a (s : Serv) pre e post scope :
  serv_reachable a s → c_order s = pre ++ e :: post → protected (e_request e) scope →
  (∀ b, b ∈ drop (e_since e) (c_authorities s) →
     verify_authorization b (headers (e_request e)) scope (sv_clock (e_serving e)) =
       Err Unauthorized) →
  (∀ r, (e_id e, r) ∈ c_answered s →
     r = strip_body (method (e_request e)) (mk_response 401 (BodyError (lit "unauthorized")))) ∧
  (∀ id r, id ≠ e_id e → (id, r) ∈ c_answered s → (id, r) ∈ results a (pre ++ post)) ∧
  same_view (c_app s) (snd (seq_run a (pre ++ post))) ∧
  app_events (snd (seq_run a (pre ++ post))) = app_events (snd (seq_run a (c_order s))).
Proof.
  intros Hs Ho Hprot Hrefused. destruct (linear_reachable _ _ Hs) as [V _ W _ O _ _ _].
  pose proof (if_order _ _ (in_force_reachable _ _ Hs) e) as Hin. rewrite Ho in *.
  set (q := snd (seq_run a pre)).
  set (refusal := strip_body (method (e_request e)) (mk_response 401 (BodyError (lit "unauthorized")))).
  assert (router (e_serving e) (e_request e) (with_auth q (e_auth e)) =
    (refusal, with_auth q (e_auth e))) as Hr.
  { apply (protected_error _ _ _ _ Unauthorized Hprot), Hrefused, Hin.
    apply elem_of_app. right. left. }
  destruct (seq_run_with_auth q (e_auth e) post) as (Hfst & Hview & Hev).
  assert (results a (pre ++ e :: post) = results a pre ++
    (e_id e, refusal) :: results q post) as Hres.
  { rewrite results_app. unfold results at 2 4. cbn [seq_run fmap list_fmap]. fold q. rewrite Hr.
    rewrite <-Hfst. by destruct (seq_run (with_auth q (e_auth e)) post). }
  assert (snd (seq_run a (pre ++ e :: post)) = snd (seq_run (with_auth q (e_auth e)) post)) as Hsnd.
  { rewrite seq_app. cbn [seq_run snd]. fold q. rewrite Hr.
    by destruct (seq_run (with_auth q (e_auth e)) post). }
  rewrite Hsnd in V |- *. rewrite (seq_app a pre post). cbn [snd]. fold q.
  rewrite fmap_app, NoDup_app in O. cbn [fmap list_fmap] in O. rewrite NoDup_cons in O.
  destruct O as (_ & Hpre & Hpost & _). split_and!.
  - intros r Hans%W. rewrite Hres, elem_of_app, elem_of_cons in Hans.
    destruct Hans as [Hans%results_ids|[[= ->]|Hans%results_ids]]; [|done|done].
    destruct (Hpre _ Hans). left.
  - intros id r Hne Hans%W. rewrite Hres, elem_of_app, elem_of_cons in Hans.
    rewrite results_app, elem_of_app. destruct Hans as [?|[[= -> _]|?]]; [by left|done|by right].
  - exact (same_view_trans _ _ _ V (same_view_sym _ _ Hview)).
  - done.
Qed.
End linear.

Section owned.
Context `{SharedAuth} `{Http} `{UuidText} `{!Axum} {R : Type} `{!AlertRepo R} `{!AlertRepoLaws R}.
Implicit Types a : AppState (R := R).

(** Every id drawn by the requests in order is unused when it is drawn. *)
Fixpoint seq_fresh (a : AppState (R := R)) (order : list Entry) : Prop :=
  match order with
  | [] => True
  | e :: order =>
      (∀ actor, repo_fresh (app_store a) actor (sv_fresh (e_serving e))) ∧
      seq_fresh (snd (router (e_serving e) (e_request e) (with_auth a (e_auth e)))) order
  end.
Lemma seq_events a order :
  repo_wf (app_store a) → events_owned a → seq_fresh a order →
  repo_wf (app_store (snd (seq_run a order))) ∧ events_owned (snd (seq_run a order)).
Proof.
  revert a. induction order as [|e order IH]; intros a Hwf Hev; cbn [seq_run seq_fresh]; [done|].
  destruct (router _ _ _) as [r a1] eqn:Hr. cbn [snd]. intros [Hf Hfresh].
  destruct (router_events _ _ (with_auth a (e_auth e)) _ _ Hwf Hf Hev Hr) as [Hwf1 Hev1].
  specialize (IH a1 Hwf1 Hev1 Hfresh). by destruct (seq_run a1 order).
Qed.

(** A server that starts with a well-formed store keeps it, and every event it sends is about an
    alert of its scope, however the requests interleave and the authority changes. *)
Theorem concurrent_events_are_owned a (s : Serv) :
  repo_wf (app_store a) → app_events a = [] → serv_reachable a s → seq_fresh a (c_order s) →
  repo_wf (app_store (c_app s)) ∧ events_owned (c_app s).
Proof.
  intros Hwf Hnil [V E _ _ _ _ _ _]%linear_reachable Hfresh.
  assert (events_owned a) as Hev by (intros e; rewrite Hnil; by intros ?%elem_of_nil).
  destruct (seq_events a _ Hwf Hev Hfresh) as [Hwf' Hown].
  unfold events_owned. rewrite (vw_store _ _ V). split; [done|]. intros e Hin. apply Hown.
  rewrite E. apply elem_of_app. by left.
Qed.
End owned.

(** ** Examples *)

Import CanonicalInstances Sample.Instances SampleStorage SampleStorage.Instances
  SampleApi.Instances.

(** Two creations and a list: the second creation is stored first, the list sees it alone, and
    its client goes away before its event is sent.  Then the grants are revoked: the first
    creation, which was judged before, is stored; a third one is refused. *)
Definition sample_schedule : list Action :=
  [Arrive SampleApi.serving SampleApi.post; Arrive SampleApi.later SampleApi.post;
   Go 0; Go 1; Go 1; Arrive SampleApi.later SampleApi.get_list; Go 2; Go 2; Go 2;
   Grant (λ _, Err ClientUnauthorized); Arrive SampleApi.later SampleApi.post; Go 2; Go 2;
   Go 0; Leave 1; Go 0].
Definition sample_concurrent : Serv := serv_run sample_schedule (serv_init sample_state).

Lemma requests_are_linearizable_witness :
  e_id <$> c_order sample_concurrent = [1; 2; 3; 0] ∧
  (c_answered sample_concurrent).*1 = [2; 3; 0] ∧
  map code (c_answered sample_concurrent).*2 = [200; 401; 201] ∧
  length (c_unsent sample_concurrent) = 1%nat ∧
  (∀ id r, (id, r) ∈ c_answered sample_concurrent →
     (id, r) ∈ results sample_state (c_order sample_concurrent)) ∧
  same_view (c_app sample_concurrent) (snd (seq_run sample_state (c_order sample_concurrent))).
Proof.
  assert (serv_reachable sample_state sample_concurrent) as Hs by apply serv_run_steps.
  do 4 (split; [by vm_compute|]).
  destruct (requests_are_linearizable sample_state sample_concurrent Hs) as (_ & Hr & Hv & _).
  exact (conj Hr Hv).
Defined.

(** The third creation, in the order. *)
Definition revoked : AuthBoundary :=
  mk_boundary (λ _ : str, Err ClientUnauthorized) (policy SampleApi.boundary).
Definition revoked_entry : Entry :=
  mk_entry 3 SampleApi.later SampleApi.post [2] 1 revoked.
Lemma revoked_requests_leave_no_trace_witness :
  let order := c_order sample_concurrent in
  order = take 2 order ++ revoked_entry :: drop 3 order ∧
  (∀ r, (3, r) ∈ c_answered sample_concurrent →
     r = mk_response 401 (BodyError (lit "unauthorized"))) ∧
  same_view (c_app sample_concurrent) (snd (seq_run sample_state (take 2 order ++ drop 3 order))).
Proof.
  intros order. assert (order = take 2 order ++ revoked_entry :: drop 3 order) as Ho by (by vm_compute).
  split; [exact Ho|].
  assert (serv_reachable sample_state sample_concurrent) as Hs by apply serv_run_steps.
  assert (drop 1 (c_authorities sample_concurrent) = [revoked]) as Hd by (by vm_compute).
  destruct (revoked_requests_leave_no_trace sample_state sample_concurrent (take 2 order)
    revoked_entry (drop 3 order) WRITE_SCOPE Hs Ho) as (Hr & _ & Hv & _).
  - by apply (protected_create SampleApi.post sample_create).
  - cbn [revoked_entry e_since]. rewrite Hd. intros b ->%list_elem_of_singleton. by vm_compute.
  - exact (conj Hr Hv).
Defined.
