(* ===== verification/Noninterference.v ===== *)
(** * Noninterference between owners

    What one actor is answered does not depend on what other actors do: two runs of the API
    that differ only in the requests of others answer the actor alike.  The file states what
    it takes of the store as the interface [AlertRepoViews] (when two stores look alike to an
    actor), shows that [AlertStore] meets it with both backends, and lifts it through the
    router to sequences of requests. *)

From S2P Require Import Prelude Str Float Ids Model Auth Database Store Repository Api.
Open Scope N_scope.

(** ** The interface *)

(** [repo_alike a s t]: the stores [s] and [t] look alike to [a]. *)
Class AlertRepoViews (R : Type) `{AlertRepoLaws R} := {
  repo_alike : VerifiedActor → R → R → Prop;
  repo_alike_equiv a : Equivalence (repo_alike a);
  repo_alike_durable a s t : repo_alike a s t → repo_durable s = repo_durable t;
  repo_alike_list link a s t :
    repo_alike a s t → same_alerts (repo_list link s a) (repo_list link t a);
  repo_alike_get link a s t id : repo_alike a s t → repo_get link s a id = repo_get link t a id;
  repo_alike_create link now id a input s t :
    repo_wf s → repo_alike a s t → repo_fresh s a id → repo_fresh t a id →
    fst (repo_create link now id s a input) = fst (repo_create link now id t a input) ∧
    repo_alike a (snd (repo_create link now id s a input)) (snd (repo_create link now id t a input));
  repo_alike_frame link now id a b input s :
    repo_wf s → repo_fresh s b id → b ≠ a →
    repo_alike a s (snd (repo_create link now id s b input));
  (** A creation uses up its own id only. *)
  repo_create_fresh link now id a input s b j :
    repo_fresh s b j → j ≠ id → repo_fresh (snd (repo_create link now id s a input)) b j;
  (** An id the actor does not own is as good as any other. *)
  repo_get_foreign link s a i j :
    repo_wf s → i ∉ ar_id <$> repo_owned s a → j ∉ ar_id <$> repo_owned s a →
    repo_get link s a i = repo_get link s a j;
}.
#[export] Existing Instance repo_alike_equiv.

(** ** [AlertStore] *)

Section store_views.
Context `{StorageLaws} `{HashMapIter}.

Definition store_alike (a : VerifiedActor) (s t : AlertStore) : Prop :=
  match database s, database t with
  | Some d, Some e =>
      owned_rows (product_tenant a) (subject a) d = owned_rows (product_tenant a) (subject a) e
  | None, None => ∀ id, fallback s !! (product_tenant a, subject a, id) =
                        fallback t !! (product_tenant a, subject a, id)
  | _, _ => False
  end.
#[export] Instance store_alike_equiv a : Equivalence (store_alike a).
Proof.
  unfold store_alike. split.
  - intros s. by destruct (database s).
  - intros s t. destruct (database s), (database t); done.
  - intros s t u. destruct (database s), (database t), (database u); naive_solver congruence.
Qed.

(** The entries of an actor, in whatever order the map is visited. *)
Lemma owned_entries_ext a (m n : FallbackAlerts) :
  (∀ id, m !! (product_tenant a, subject a, id) = n !! (product_tenant a, subject a, id)) →
  List.filter (λ e, owned_key a (fst e)) (hash_iter m) ≡ₚ
  List.filter (λ e, owned_key a (fst e)) (hash_iter n).
Proof.
  assert (∀ k : FallbackAlerts, NoDup (List.filter (λ e, owned_key a (fst e)) (hash_iter k))) as Hnd.
  { intros k. apply NoDup_ListNoDup, List.NoDup_filter, NoDup_ListNoDup.
    rewrite hash_iter_perm. apply NoDup_map_to_list. }
  intros E. apply NoDup_Permutation; [apply Hnd..|].
  intros [[[t o] i] r]. rewrite !list_elem_of_In, !filter_In, <-!list_elem_of_In, !elem_of_hash_iter.
  cbn [fst]. rewrite owned_key_true. split; intros [Hr [-> ->]]; (split; [|done]);
    by rewrite <-Hr, E.
Qed.

Lemma alike_list link a s t :
  store_alike a s t → same_alerts (list_alerts link s a) (list_alerts link t a).
Proof.
  unfold store_alike, list_alerts. destruct (database s) as [d|], (database t) as [e|]; try done.
  - intros E. unfold read_alerts, query, DIRECT_ALERTS_SQL. by rewrite E.
  - intros E. cbn. by rewrite (owned_entries_ext a _ _ E).
Qed.
Lemma alike_get link a s t id : store_alike a s t → get link s a id = get link t a id.
Proof.
  unfold store_alike, get, list_alerts.
  destruct (database s) as [d|], (database t) as [e|]; try done; cbn [is_some]; intros E.
  - unfold read_alerts, query, DIRECT_ALERTS_SQL. by rewrite E.
  - by rewrite E.
Qed.

(** The same row added for an owner whose rows agree. *)
Lemma owned_rows_insert_alike tenant owner id row d e :
  db_keyed d → al_id row = id → alerts d !! id = None → alerts e !! id = None →
  alert_of tenant owner row → owned_rows tenant owner d = owned_rows tenant owner e →
  owned_rows tenant owner (set_alerts <[id := row]> d) =
  owned_rows tenant owner (set_alerts <[id := row]> e).
Proof.
  intros Hk Hid Hd He Hrow E.
  assert (owned_rows tenant owner (set_alerts <[id := row]> d) ≡ₚ
          owned_rows tenant owner (set_alerts <[id := row]> e)) as Hp
    by (by rewrite !owned_rows_insert_own, E).
  assert (db_keyed (set_alerts <[id := row]> d)) as Hk'.
  { destruct Hk. split; cbn [alerts inbox outbox statuses set_alerts]; try done.
    intros k r. rewrite lookup_insert_Some. intros [[<- <-]|[_ ?]]; eauto. }
  apply (StronglySorted_unique_strong (λ x y, key_le (alert_key x) (alert_key y)));
    [|apply order_by_sorted..|exact Hp].
  intros x y Hx Hy ??. rewrite <-Hp in Hy.
  apply (owned_rows_inj tenant owner _ x y Hk' Hx Hy). by apply key_le_antisym.
Qed.

Lemma alike_create link now id a input s t :
  store_wf s → store_alike a s t → fresh_in s a id → fresh_in t a id →
  fst (create link now id s a input) = fst (create link now id t a input) ∧
  store_alike a (snd (create link now id s a input)) (snd (create link now id t a input)).
Proof.
  intros Hwf Hst. pose proof Hst as Hst'. revert Hwf Hst'. unfold create.
  destruct (validate input) as [[]|e]; [|done]. unfold store_wf, store_alike, fresh_in.
  destruct (database s) as [d|] eqn:Hd, (database t) as [e|] eqn:He; try done.
  - intros [Hk _] E Hs Ht.
    assert (∀ x y, store_alike a (mk_store (Some x) (fallback s)) (mk_store (Some y) (fallback t)) ↔
      owned_rows (product_tenant a) (subject a) x = owned_rows (product_tenant a) (subject a) y)
      as Hview by done.
    destruct (list_to_json _) as [sf|]; [|cbn [fst snd]; rewrite Hd, He; by split].
    destruct (list_to_json _) as [dc|]; [|cbn [fst snd]; rewrite Hd, He; by split].
    destruct link; unfold execute, INSERT_ALERT_SQL; [| |]; try (by split);
      destruct (text_as_jsonb sf), (text_as_jsonb dc); cbn [ok_or mbind result_bind]; try (by split);
      (destruct (negb (alert_checks _)); [by split|]); cbn [ar_id into_rule]; rewrite Hs, Ht;
      cbn [is_some fst snd]; (split; [done|]); cbn [database];
      by apply owned_rows_insert_alike.
  - intros Hk E Hs Ht. cbn [fst snd database fallback]. split; [done|]. intros j.
    destruct (decide (j = id)) as [->|Hne]; cbn [ar_id into_rule].
    + by rewrite !lookup_insert_eq.
    + rewrite !lookup_insert_ne by congruence. apply E.
Qed.

Lemma alike_frame link now id a b input s :
  store_wf s → fresh_in s b id → b ≠ a →
  store_alike a s (snd (create link now id s b input)).
Proof.
  intros Hwf Hf Hne. destruct (create link now id s b input) as [res s'] eqn:Hc.
  destruct (create_cases _ _ _ _ _ _ _ _ Hc) as [[-> _]|(_ & Hins & _)]; [done|]. cbn [snd].
  revert Hwf Hf Hins. unfold store_wf, fresh_in, inserted, store_alike.
  destruct (database s) as [d|].
  - intros [Hk _] Hf (v & w & _ & _ & _ & ->). cbn [database]. symmetry.
    apply owned_rows_insert_frame; auto using actor_ne_alert_of.
  - intros _ _ ->. cbn [database fallback]. intros j. rewrite lookup_insert_ne; [done|].
    intros [= ? ? _]. apply Hne. destruct a, b; cbn in *; congruence.
Qed.

Lemma create_fresh link now id a input s b j :
  fresh_in s b j → j ≠ id → fresh_in (snd (create link now id s a input)) b j.
Proof.
  intros Hf Hne. destruct (create link now id s a input) as [res s'] eqn:Hc.
  destruct (create_cases _ _ _ _ _ _ _ _ Hc) as [[-> _]|(_ & Hins & _)]; [done|]. cbn [snd].
  revert Hf Hins. unfold fresh_in, inserted. destruct (database s) as [d|].
  - intros Hf (v & w & _ & _ & _ & ->). cbn [database alerts set_alerts ar_id into_rule].
    by rewrite lookup_insert_ne.
  - intros Hf ->. cbn [database fallback ar_id into_rule]. rewrite lookup_insert_ne; [done|].
    congruence.
Qed.

Lemma get_foreign link s a i :
  store_wf s → i ∉ ar_id <$> abs s a →
  get link s a i = (_ ← if is_some (database s) then list_alerts link s a else Ok []; Ok None).
Proof.
  intros Hwf Hi. assert (∀ r, r ∈ abs s a → ar_id r ≠ i) as Hr.
  { intros r Hr <-. apply Hi, list_elem_of_fmap. eauto. }
  unfold get. destruct (database s) as [d|] eqn:Hd; cbn [is_some].
  - destruct (list_alerts link s a) as [l|e] eqn:Hl; [|done]. cbn [mbind result_bind]. f_equal.
    apply eq_None_not_Some. intros [r Hf]. apply List.find_some in Hf as [Hin Hid%bool_decide_eq_true].
    apply (Hr r); [|done]. eapply list_alerts_owned; [exact Hl|]. by apply list_elem_of_In.
  - cbn [mbind result_bind]. f_equal. apply eq_None_not_Some. intros [r Hf].
    pose proof Hwf as Hk. unfold store_wf in Hk. rewrite Hd in Hk.
    apply (Hr r); [|by eapply Hk]. apply elem_of_abs_fallback; eauto.
Qed.

#[export] Instance alert_store_views : AlertRepoViews AlertStore.
Proof.
  refine {| repo_alike := store_alike |}; cbn [repo_list repo_get repo_create repo_durable
    alert_store_repo repo_wf repo_fresh repo_owned alert_store_laws].
  - intros a s t. unfold store_alike, database_configured. by destruct (database s), (database t).
  - intros *. apply alike_list.
  - intros *. apply alike_get.
  - intros *. apply alike_create.
  - intros *. apply alike_frame.
  - intros *. apply create_fresh.
  - intros link s a i j Hwf Hi Hj. by rewrite !get_foreign.
Defined.
End store_views.

(** ** Requests and responses *)

(** Listings are compared as sets of rules: the in-memory map has no order. *)
Definition same_body (b c : Body) : Prop :=
  match b, c with
  | BodyAlerts l, BodyAlerts k => l ≡ₚ k
  | BodyAlerts _, _ | _, BodyAlerts _ => False
  | _, _ => b = c
  end.
Definition same_response (r s : Response) : Prop := code r = code s ∧ same_body (body r) (body s).
#[export] Instance same_body_equiv : Equivalence same_body.
Proof.
  split.
  - intros []; cbn; done.
  - intros [] []; cbn; done.
  - intros [| |l| | | | |] [| |k| | | | |] [| |m| | | | |]; cbn; try done; try congruence. by intros -> ->.
Qed.
#[export] Instance same_response_equiv : Equivalence same_response.
Proof.
  unfold same_response. split.
  - by intros [].
  - by intros [] [] [-> ->].
  - by intros [] [] [] [-> ->] [-> ->].
Qed.

Section requests.
Context `{SharedAuth} `{Http} `{UuidText}.
(** The actors the authority recognises in a request are at most [a]. *)
Definition speaks_for (b : AuthBoundary) (a : VerifiedActor) (x : Serving) (request : HttpRequest)
    : bool :=
  forallb (λ scope, is_none_or (λ c, bool_decide (c = a))
    (ok (verify_authorization b (headers request) scope (sv_clock x)))) [READ_SCOPE; WRITE_SCOPE].
(** It does not let [a] write. *)
Definition not_written_by (b : AuthBoundary) (a : VerifiedActor) (x : Serving)
    (request : HttpRequest) : bool :=
  is_none_or (λ c, negb (bool_decide (c = a)))
    (ok (verify_authorization b (headers request) WRITE_SCOPE (sv_clock x))).
End requests.

Section noninterference.
Context `{SharedAuth} `{Http} `{UuidText} `{!Axum} {R : Type} `{AlertRepoViews R}.
Implicit Types (s t : AppState (R := R)).

(** Two states of the server that look alike to [a]. *)
Record app_alike (a : VerifiedActor) s t : Prop := {
  aa_auth : app_auth s = app_auth t;
  aa_flags : mtls_configured s = mtls_configured t ∧ jetstream_configured s = jetstream_configured t;
  aa_store : repo_alike a (app_store s) (app_store t);
}.
#[export] Instance app_alike_equiv a : Equivalence (app_alike a).
Proof.
  split.
  - intros s. by split.
  - intros s t [? [? ?] ?]. by split.
  - intros s t u [E1 [E2 E3] E4] [F1 [F2 F3] F4]. split; [congruence|split; congruence|by etrans].
Qed.

Lemma speaks_for_Ok b a x request scope c :
  speaks_for b a x request = true → scope = READ_SCOPE ∨ scope = WRITE_SCOPE →
  verify_authorization b (headers request) scope (sv_clock x) = Ok c → c = a.
Proof.
  unfold speaks_for. cbn [forallb]. rewrite !andb_true_iff. intros (Hr & Hw & _) Hs Hv.
  destruct Hs as [-> | ->]; [rewrite Hv in Hr|rewrite Hv in Hw];
    by apply bool_decide_eq_true in Hr || apply bool_decide_eq_true in Hw.
Qed.

Lemma authorize_alike a x s t h scope :
  app_alike a s t → authorize x s h scope = authorize x t h scope.
Proof. intros [E _ _]. unfold authorize. by rewrite E. Qed.

(** The reading handlers. *)
Lemma list_alike a x request s t :
  app_alike a s t → speaks_for (app_auth s) a x request = true →
  same_response (respond (api_list_alerts x s (headers request)))
    (respond (api_list_alerts x t (headers request))).
Proof.
  intros Hst Hfor. unfold api_list_alerts. rewrite <-(authorize_alike a x s t) by done.
  destruct (authorize x s _ _) as [c|e] eqn:Ha; [|done]. apply authorize_verified_iff in Ha.
  apply (speaks_for_Ok _ _ _ _ _ _ Hfor) in Ha as ->; [|by left]. cbn [mbind result_bind].
  pose proof (repo_alike_list (sv_link x) a _ _ (aa_store _ _ _ Hst)) as Hl.
  destruct (repo_list _ (app_store s) a), (repo_list _ (app_store t) a); done.
Qed.
Lemma get_alike a x request s t id :
  app_alike a s t → speaks_for (app_auth s) a x request = true →
  get_alert x s id (headers request) = get_alert x t id (headers request).
Proof.
  intros Hst Hfor. unfold get_alert. rewrite <-(authorize_alike a x s t) by done.
  destruct (authorize x s _ _) as [c|e] eqn:Ha; [|done]. apply authorize_verified_iff in Ha.
  apply (speaks_for_Ok _ _ _ _ _ _ Hfor) in Ha as ->; [|by left]. cbn [mbind result_bind].
  by rewrite (repo_alike_get (sv_link x) a _ _ id (aa_store _ _ _ Hst)).
Qed.
Lemma create_alike a x request s t input :
  repo_wf (app_store s) → app_alike a s t → speaks_for (app_auth s) a x request = true →
  repo_fresh (app_store s) a (sv_fresh x) → repo_fresh (app_store t) a (sv_fresh x) →
  fst (create_alert x s (headers request) input) = fst (create_alert x t (headers request) input) ∧
  app_alike a (snd (create_alert x s (headers request) input))
    (snd (create_alert x t (headers request) input)).
Proof.
  intros Hwf Hst Hfor Hs Ht. unfold create_alert. rewrite <-(authorize_alike a x s t) by done.
  destruct (authorize x s _ _) as [c|e] eqn:Ha; [|done]. apply authorize_verified_iff in Ha.
  apply (speaks_for_Ok _ _ _ _ _ _ Hfor) in Ha as ->; [|by right].
  destruct (validate input) as [[]|e]; [|done].
  destruct Hst as [E1 E2 E3].
  destruct (repo_alike_create (sv_link x) (sv_now x) _ a input _ _ Hwf E3 Hs Ht) as [Er Es].
  destruct (repo_create _ _ _ (app_store s) a input) as [r s'],
    (repo_create _ _ _ (app_store t) a input) as [r' t']. cbn [fst snd] in Er, Es. subst r'.
  destruct r; (split; [done|]); by split; [exact E1|exact E2|exact Es].
Qed.

(** One request of [a] in two states that look alike to it. *)
Lemma dispatch_alike a x request s t :
  repo_wf (app_store s) → app_alike a s t → speaks_for (app_auth s) a x request = true →
  repo_fresh (app_store s) a (sv_fresh x) → repo_fresh (app_store t) a (sv_fresh x) →
  same_response (fst (dispatch x request s)) (fst (dispatch x request t)) ∧
  app_alike a (snd (dispatch x request s)) (snd (dispatch x request t)).
Proof.
  intros Hwf Hst Hfor Hs Ht. unfold dispatch. destruct (route (path request)) as [ro|]; [|done].
  assert (health s = health t) as Hhealth.
  { destruct Hst as [_ [E1 E2] E3]. unfold health. by rewrite (repo_alike_durable _ _ _ E3), E1, E2. }
  pose proof (list_alike a x request s t Hst Hfor) as Hlist.
  destruct ro as [| | |id| |]; try (destruct (negb _); [done|]).
  - by rewrite Hhealth.
  - done.
  - destruct (method request); try done.
    destruct (json_extract _ _ _) as [input|c]; [|done].
    destruct (create_alike a x request s t input Hwf Hst Hfor Hs Ht) as [Er Es].
    destruct (create_alert x s _ input) as [r s'], (create_alert x t _ input) as [r' t'].
    cbn [fst snd] in Er, Es. subst r'. done.
  - destruct (path_uuid id) as [u|c]; [|done]. by rewrite (get_alike a x request s t).
  - done.
  - destruct (ws_extract _ _) as [u|c]; [|done]. unfold ws_upgrade.
    by rewrite <-(authorize_alike a x s t).
Qed.

Lemma router_alike a x request s t :
  repo_wf (app_store s) → app_alike a s t → speaks_for (app_auth s) a x request = true →
  repo_fresh (app_store s) a (sv_fresh x) → repo_fresh (app_store t) a (sv_fresh x) →
  same_response (fst (router x request s)) (fst (router x request t)) ∧
  app_alike a (snd (router x request s)) (snd (router x request t)).
Proof.
  intros Hwf Hst Hfor Hs Ht. destruct (dispatch_alike a x request s t Hwf Hst Hfor Hs Ht) as [Hr Ha].
  unfold router. destruct (dispatch x request s) as [r s'], (dispatch x request t) as [r' t'].
  split; [|exact Ha]. cbn [fst] in *. destruct (method request); try done. split; [apply Hr|done].
Qed.

(** One request that does not let [a] write. *)
Lemma router_frame a x request s :
  repo_wf (app_store s) → (∀ b, repo_fresh (app_store s) b (sv_fresh x)) →
  not_written_by (app_auth s) a x request = true →
  app_alike a s (snd (router x request s)).
Proof.
  intros Hwf Hfr Hno. destruct (router x request s) as [resp s'] eqn:Hr.
  destruct (router_cases _ _ _ _ _ Hr)
    as [[-> _]|(b & input & r & store & [_ _ Hb _] & Hc & _ & ->)]; [done|]. cbn [snd].
  assert (b ≠ a) as Hne.
  { unfold not_written_by in Hno. rewrite Hb in Hno. cbn in Hno.
    by apply negb_true_iff, bool_decide_eq_false in Hno. }
  split; [done..|]. cbn [app_store after_create].
  pose proof (repo_alike_frame (sv_link x) (sv_now x) (sv_fresh x) a b input (app_store s)
    Hwf (Hfr b) Hne) as Hf. by rewrite Hc in Hf.
Qed.

(** ** Sequences of requests *)

(** The ids a sequence draws, and that nobody uses them yet. *)
Definition drawn (requests : list (Serving * HttpRequest)) : list Uuid :=
  (λ q, sv_fresh (fst q)) <$> requests.
Definition unused s (l : list Uuid) : Prop :=
  ∀ b j, j ∈ l → repo_fresh (app_store s) b j.
Definition spoken (b : AuthBoundary) (a : VerifiedActor) (q : Serving * HttpRequest) : bool :=
  speaks_for b a (fst q) (snd q).
(** The sequence without the requests of others, and the responses to the others left out. *)
Definition purge (b : AuthBoundary) (a : VerifiedActor) (requests : list (Serving * HttpRequest))
    : list (Serving * HttpRequest) := List.filter (spoken b a) requests.
Definition responses_to (b : AuthBoundary) (a : VerifiedActor)
    (requests : list (Serving * HttpRequest)) (responses : list Response) : list Response :=
  snd <$> List.filter (λ p, spoken b a (fst p)) (zip requests responses).
(** A request is [a]'s (or nobody's), or it does not let [a] write. *)
Definition unambiguous (b : AuthBoundary) (a : VerifiedActor) (q : Serving * HttpRequest) : bool :=
  spoken b a q || not_written_by b a (fst q) (snd q).

#[local] Arguments spoken : simpl never.

Lemma router_auth x request s : app_auth (snd (router x request s)) = app_auth s.
Proof.
  destruct (router x request s) as [resp s'] eqn:Hr.
  by destruct (router_cases _ _ _ _ _ Hr) as [[-> _]|(? & ? & ? & ? & _ & _ & _ & ->)].
Qed.
Lemma router_wf x request s :
  repo_wf (app_store s) → (∀ b, repo_fresh (app_store s) b (sv_fresh x)) →
  repo_wf (app_store (snd (router x request s))).
Proof.
  intros Hwf Hfr. destruct (router x request s) as [resp s'] eqn:Hr.
  destruct (router_cases _ _ _ _ _ Hr) as [[-> _]|(b & input & r & store & Hcr & Hc & _ & ->)];
    [done|].
  exact (repo_create_wf _ _ _ _ _ _ _ _ Hwf (Hfr b) (json_extract_f32 _ _ _ _ (cr_body _ _ _ _ _ Hcr)) Hc).
Qed.
Lemma router_unused x request s l :
  unused s l → sv_fresh x ∉ l → unused (snd (router x request s)) l.
Proof.
  intros Hu Hx b j Hj. destruct (router x request s) as [resp s'] eqn:Hr.
  destruct (router_cases _ _ _ _ _ Hr) as [[-> _]|(c & input & r & store & _ & Hc & _ & ->)];
    [by apply Hu|].
  assert (j ≠ sv_fresh x) as Hne by (by intros ->).
  pose proof (repo_create_fresh (sv_link x) (sv_now x) _ c input _ _ _ (Hu b j Hj) Hne) as Hf.
  by rewrite Hc in Hf.
Qed.

Lemma responses_to_cons b a q requests r responses :
  responses_to b a (q :: requests) (r :: responses) =
  (if spoken b a q then cons r else id) (responses_to b a requests responses).
Proof. unfold responses_to. cbn. by destruct (spoken b a q). Qed.

Lemma purge_cons b a q requests :
  purge b a (q :: requests) = (if spoken b a q then cons q else id) (purge b a requests).
Proof. unfold purge. cbn. by destruct (spoken b a q). Qed.
Lemma serve_cons x request requests s :
  serve_requests ((x, request) :: requests) s =
  (fst (router x request s) :: fst (serve_requests requests (snd (router x request s))),
   snd (serve_requests requests (snd (router x request s)))).
Proof.
  cbn [serve_requests]. destruct (router x request s) as [r s']. cbn [fst snd].
  by destruct (serve_requests requests s').
Qed.

(** One request of any actor, in two states that look alike to [a]: it is served in both when it
    is [a]'s and in the first otherwise; the ids still to be drawn stay unused. *)
Lemma alike_step a x request l s t :
  repo_wf (app_store s) → sv_fresh x ∉ l → unused s (sv_fresh x :: l) →
  unused t (sv_fresh x :: l) → app_alike a s t →
  unambiguous (app_auth s) a (x, request) = true →
  let '(r, s') := router x request s in
  let '(r', t') := router x request t in
  repo_wf (app_store s') ∧ unused s' l ∧ unused t l ∧ unused t' l ∧
  (if spoken (app_auth s) a (x, request)
   then same_response r r' ∧ app_alike a s' t' else app_alike a s' t).
Proof.
  intros Hwf Hx Hs Ht Hst Hone.
  assert (∀ u, unused u (sv_fresh x :: l) → unused u l) as Htl
    by (intros u Hu c j ?; apply Hu; by right).
  assert (∀ u, unused u (sv_fresh x :: l) → ∀ c, repo_fresh (app_store u) c (sv_fresh x)) as Hhd
    by (intros u Hu c; apply Hu; left).
  pose proof (router_wf x request s Hwf (Hhd s Hs)) as Hwf'.
  pose proof (router_unused x request s _ (Htl s Hs) Hx) as Hs'.
  pose proof (router_unused x request t _ (Htl t Ht) Hx) as Ht'.
  pose proof (router_alike a x request s t Hwf Hst) as Hown.
  pose proof (router_frame a x request s Hwf (Hhd s Hs)) as Hother.
  destruct (router x request s) as [r s'], (router x request t) as [r' t']. cbn [fst snd] in *.
  split_and!; auto. unfold unambiguous in Hone. destruct (spoken _ a (x, request)) eqn:Hfor.
  - by apply Hown; auto.
  - etrans; [symmetry; exact (Hother Hone)|exact Hst].
Qed.

Lemma serve_alike b a requests s t :
  app_auth s = b → repo_wf (app_store s) → NoDup (drawn requests) →
  unused s (drawn requests) → unused t (drawn requests) → app_alike a s t →
  forallb (unambiguous b a) requests = true →
  Forall2 same_response (responses_to b a requests (fst (serve_requests requests s)))
    (fst (serve_requests (purge b a requests) t)) ∧
  app_alike a (snd (serve_requests requests s)) (snd (serve_requests (purge b a requests) t)).
Proof.
  revert s t. induction requests as [|[x request] requests IH];
    intros s t Hb Hwf Hnd Hs Ht Hst Hall; [by split|].
  cbn [forallb] in Hall. apply andb_true_iff in Hall as [Hone Hall].
  change (drawn ((x, request) :: requests)) with (sv_fresh x :: drawn requests) in *.
  apply NoDup_cons in Hnd as [Hx Hnd]. rewrite <-Hb in Hone.
  pose proof (alike_step a x request _ s t Hwf Hx Hs Ht Hst Hone) as Hstep. rewrite Hb in Hstep.
  pose proof (router_auth x request s) as Hauth. rewrite Hb in Hauth.
  rewrite serve_cons, purge_cons. cbn [fst snd]. rewrite responses_to_cons.
  destruct (spoken b a (x, request)); cbn [id]; rewrite ?serve_cons;
    destruct (router x request s) as [r s'], (router x request t) as [r' t'];
    destruct Hstep as (Hwf' & Hs' & Htl & Ht' & Hcase); cbn [fst snd] in *.
  - destruct Hcase as [Hresp Hst'].
    destruct (IH s' t' Hauth Hwf' Hnd Hs' Ht' Hst' Hall) as [IH1 IH2]. by split; [constructor|].
  - exact (IH s' t Hauth Hwf' Hnd Hs' Htl Hcase Hall).
Qed.

Lemma router_get x request s segment id :
  is_get (method request) = true → path request = lit "/v1/alerts/" ++ segment →
  segment ≠ [] → 47 ∉ segment → path_uuid segment = Ok id →
  router x request s = (strip_body (method request) (respond (get_alert x s id (headers request))), s).
Proof.
  intros Hm Hpath Hne Hsl Hid. unfold router, dispatch. rewrite Hpath, route_alert by done.
  by rewrite Hm, Hid.
Qed.
Lemma get_alert_foreign x s h a id :
  repo_wf (app_store s) → authorize x s h READ_SCOPE = Ok a →
  id ∉ ar_id <$> repo_owned (app_store s) a →
  ∃ e, get_alert x s id h = Err e ∧ (e = ApiNotFound ∨ e = ApiUnavailable).
Proof.
  intros Hwf Ha Hid. unfold get_alert. rewrite Ha. cbn [mbind result_bind].
  destruct (repo_get _ _ a id) as [[r|]|e] eqn:Hg; cbn [map_err mbind result_bind ok_or]; eauto.
  destruct (repo_get_owned _ _ _ _ _ Hwf Hg) as [Hr <-]. destruct Hid.
  apply list_elem_of_fmap. eauto.
Qed.

(** ** Properties *)

(** C5: other actors do not interfere.  Serve a sequence of requests that draws ids nobody uses
    yet, and serve it again without the requests of everybody but [a]: every request of [a]
    (and every request of nobody) gets the same status and the same body in both runs, listings
    as sets of alerts, whatever the others created, listed, read or had refused in between,
    over any store that meets the interface; and both runs end in states that look alike to
    [a]. *)
Theorem others_do_not_interfere a requests s :
  repo_wf (app_store s) → NoDup (drawn requests) → unused s (drawn requests) →
  forallb (unambiguous (app_auth s) a) requests = true →
  let own := purge (app_auth s) a requests in
  Forall2 same_response
    (responses_to (app_auth s) a requests (fst (serve_requests requests s)))
    (fst (serve_requests own s)) ∧
  app_alike a (snd (serve_requests requests s)) (snd (serve_requests own s)).
Proof. intros Hwf Hnd Hu Hall own. by apply serve_alike. Qed.

(** C11: nobody can probe for the alerts of others.  Two ids the requester does not own, be they
    somebody else's or nobody's, are answered by the same error, which is one of refused,
    degraded, not found and unavailable, and nothing changes. *)
Theorem foreign_alerts_look_missing x s p q segment_p segment_q i j :
  repo_wf (app_store s) →
  method p = GET → method q = GET → headers q = headers p →
  path p = lit "/v1/alerts/" ++ segment_p → segment_p ≠ [] → 47 ∉ segment_p →
  path q = lit "/v1/alerts/" ++ segment_q → segment_q ≠ [] → 47 ∉ segment_q →
  path_uuid segment_p = Ok i → path_uuid segment_q = Ok j →
  (∀ a, verify_authorization (app_auth s) (headers p) READ_SCOPE (sv_clock x) = Ok a →
    (i ∉ ar_id <$> repo_owned (app_store s) a) ∧ (j ∉ ar_id <$> repo_owned (app_store s) a)) →
  ∃ e, e ≠ ApiInvalidRequest ∧
    router x p s = (into_response e, s) ∧ router x q s = (into_response e, s).
Proof.
  intros Hwf Hmp Hmq Hh Hpp Hnp Hsp Hpq Hnq Hsq Hi Hj Hown.
  rewrite (router_get x p s segment_p i), (router_get x q s segment_q j), Hh, Hmp, Hmq
    by (rewrite ?Hmp, ?Hmq; done). cbn [strip_body].
  destruct (authorize x s (headers p) READ_SCOPE) as [a|e] eqn:Ha.
  - pose proof Ha as Hv. apply authorize_verified_iff in Hv. destruct (Hown a Hv) as [Hia Hja].
    destruct (get_alert_foreign x s _ a i Hwf Ha Hia) as (e & He & Hcase). exists e.
    split; [by destruct Hcase as [-> | ->]|]. split; [by rewrite He|].
    unfold get_alert in *. rewrite Ha in *. cbn [mbind result_bind] in *.
    rewrite <-(repo_get_foreign _ _ a i j Hwf Hia Hja). by rewrite He.
  - exists e. split; [|unfold get_alert; by rewrite Ha].
    apply map_err_Err_iff in Ha as (d & _ & ->). by destruct d.
Qed.
End noninterference.

(** ** Examples *)

Import CanonicalInstances Sample.Instances SampleStorage SampleStorage.Instances
  SampleApi.Instances.

Module SampleOthers.
(** Tokens of two users: [a] may read and write, another user may write. *)
Definition claims_of (sub : string) (scope : str) : Introspection :=
  {| Sample.c_active := true; Sample.c_sub := Some (lit sub);
     Sample.c_sid := Some (lit "session-1"); Sample.c_iss := Sample.c_iss Sample.good_claims;
     Sample.c_aud := Sample.c_aud Sample.good_claims; Sample.c_azp := Sample.c_azp Sample.good_claims;
     Sample.c_provider := Sample.c_provider Sample.good_claims;
     Sample.c_rest := Sample.c_rest Sample.good_claims; Sample.c_scope := scope;
     Sample.c_exp := Some 4000000000; Sample.c_nbf := Some 1 |}.
Definition boundary : AuthBoundary :=
  mk_boundary (λ token : str,
    if str_eqb token (lit "a-writer-access-token") then Ok SampleApi.writer_claims
    else if str_eqb token (lit "another-writer-access-token")
    then Ok (claims_of "00000000-0000-4000-8000-000000000002" WRITE_SCOPE)
    else Sample.table token) Sample.policy.
Definition post_other : HttpRequest :=
  mk_request POST (lit "/v1/alerts") [lit "Bearer another-writer-access-token"] [1].
Definition requests : list (Serving * HttpRequest) :=
  [(SampleApi.serving, SampleApi.post);
   (mk_serving Sample.now LinkUp 8000 (uuid_of 11), post_other);
   (SampleApi.later, SampleApi.get_list)].
Definition state : AppState := mk_state (new None) boundary [] false false.
End SampleOthers.

Lemma others_do_not_interfere_witness :
  length (purge SampleOthers.boundary Sample.actor SampleOthers.requests) = 2%nat ∧
  Forall2 same_response
    (responses_to SampleOthers.boundary Sample.actor SampleOthers.requests
      (fst (serve_requests SampleOthers.requests SampleOthers.state)))
    (fst (serve_requests (purge SampleOthers.boundary Sample.actor SampleOthers.requests)
      SampleOthers.state)).
Proof.
  split; [by vm_compute|].
  refine (proj1 (others_do_not_interfere Sample.actor SampleOthers.requests SampleOthers.state _ _ _ _)).
  - apply sample_state_wf.
  - apply (bool_decide_unpack _). by vm_compute.
  - intros b j _. apply sample_state_fresh.
  - by vm_compute.
Defined.

Module SampleProbe.
(** The other user's alert is stored under id 11; nobody has id 12. *)
Definition other : VerifiedActor := mk_actor (uuid_of 2) (lit "embedded-alerts").
Definition store : AlertStore := mk_store None
  {[(product_tenant other, subject other, uuid_of 11) := into_rule sample_create (uuid_of 11) 8000]}.
Definition state : AppState := mk_state store SampleOthers.boundary [] false false.
Definition segment (n : N) : str := Canonical.display (uuid_of n).
Definition probe (n : N) : HttpRequest :=
  mk_request GET (lit "/v1/alerts/" ++ segment n) SampleApi.read_headers [].
Lemma store_is_wf : store_wf store.
Proof. intros t o i r. cbn [fallback store]. rewrite lookup_singleton_Some. by intros [[= <- <- <-] <-]. Qed.
Lemma not_owned a i : subject a ≠ subject other → i ∉ ar_id <$> abs store a.
Proof.
  intros Hne. rewrite list_elem_of_fmap. intros (r & _ & Hr).
  apply (elem_of_abs_fallback store a r eq_refl) in Hr as [j Hj]. cbn [fallback store] in Hj.
  apply lookup_singleton_Some in Hj as [[= _ E _] _]. apply Hne. symmetry. exact E.
Qed.
End SampleProbe.

Lemma foreign_alerts_look_missing_witness : ∃ e, e ≠ ApiInvalidRequest ∧
  router SampleApi.later (SampleProbe.probe 11) SampleProbe.state = (into_response e, SampleProbe.state) ∧
  router SampleApi.later (SampleProbe.probe 12) SampleProbe.state = (into_response e, SampleProbe.state).
Proof.
  apply (foreign_alerts_look_missing SampleApi.later SampleProbe.state (SampleProbe.probe 11)
    (SampleProbe.probe 12) (SampleProbe.segment 11) (SampleProbe.segment 12) (uuid_of 11) (uuid_of 12));
    [apply SampleProbe.store_is_wf|try reflexivity..|].
  1, 2, 3, 4: apply (bool_decide_unpack _); by vm_compute.
  assert (verify_authorization (app_auth SampleProbe.state) (headers (SampleProbe.probe 11)) READ_SCOPE
    (sv_clock SampleApi.later) = Ok Sample.actor) as E by (by vm_compute).
  intros a. rewrite E. intros [= <-].
  assert (subject Sample.actor ≠ subject SampleProbe.other) as Hne
    by (apply (bool_decide_unpack _); by vm_compute).
  split; by apply SampleProbe.not_owned.
Defined.
