(* ===== verification/Isolation.v ===== *)
(** * Isolation of owners under concurrency

    [Noninterference] compares sequences of requests; [Linearizable] reduces interleavings to
    sequences.  Together: however the requests of all actors interleave, and whatever the
    authority grants meanwhile, an actor is answered as if the others did not exist. *)

From S2P Require Import Prelude Str Float Ids Model Auth Database Store Repository Api.
From S2P Require Import Concurrent Linearizable Noninterference.
Open Scope N_scope.

Section isolation.
Context `{SharedAuth} `{Http} `{UuidText} `{!Axum} {R : Type} `{AlertRepoViews R}.
Implicit Types (s t : AppState (R := R)) (order : list Entry).

(** A request is [a]'s by the authority that judged it. *)
Definition own_entry (a : VerifiedActor) (e : Entry) : bool :=
  spoken (e_auth e) a (e_serving e, e_request e).
Definition own_entries (a : VerifiedActor) order : list Entry := List.filter (own_entry a) order.
Definition clear_entry (a : VerifiedActor) (e : Entry) : bool :=
  unambiguous (e_auth e) a (e_serving e, e_request e).
Definition drawn_ids order : list Uuid := (λ e, sv_fresh (e_serving e)) <$> order.

(** The requests in order with their answers. *)
Definition answers s order : list (Entry * Response) := zip order (fst (seq_run s order)).
Definition same_answer (p q : Entry * Response) : Prop :=
  fst p = fst q ∧ same_response (snd p) (snd q).

Lemma answers_cons s e order :
  answers s (e :: order) =
  (let '(r, s') := router (e_serving e) (e_request e) (with_auth s (e_auth e)) in
   (e, r) :: answers s' order).
Proof.
  unfold answers. cbn [seq_run]. destruct (router _ _ _) as [r s']. by destruct (seq_run s' order).
Qed.

(** States that look alike but for the authority. *)
Definition alike_at (a : VerifiedActor) s t : Prop :=
  ∀ b, app_alike a (with_auth s b) (with_auth t b).
Lemma app_alike_at a s t : app_alike a s t → alike_at a s t.
Proof. intros [_ E1 E2] b. by split. Qed.

Lemma answers_alike a order s t :
  repo_wf (app_store s) → NoDup (drawn_ids order) →
  unused s (drawn_ids order) → unused t (drawn_ids order) → alike_at a s t →
  forallb (clear_entry a) order = true →
  Forall2 same_answer (List.filter (λ p, own_entry a (fst p)) (answers s order))
    (answers t (own_entries a order)).
Proof.
  revert s t. induction order as [|e order IH]; intros s t Hwf Hnd Hs Ht Hst Hall; [constructor|].
  cbn [forallb] in Hall. apply andb_true_iff in Hall as [Hone Hall].
  change (drawn_ids (e :: order)) with (sv_fresh (e_serving e) :: drawn_ids order) in *.
  apply NoDup_cons in Hnd as [Hx Hnd].
  pose proof (alike_step a (e_serving e) (e_request e) (drawn_ids order) (with_auth s (e_auth e))
    (with_auth t (e_auth e)) Hwf Hx Hs Ht (Hst (e_auth e)) Hone) as Hstep.
  cbn [own_entries List.filter]. rewrite (answers_cons s).
  fold (own_entries a order). unfold own_entry at 2. cbn [app_auth with_auth] in Hstep.
  destruct (spoken (e_auth e) a _) eqn:Hmine; [rewrite (answers_cons t)|];
    destruct (router _ _ (with_auth s _)) as [r s'], (router _ _ (with_auth t _)) as [r' t'];
    destruct Hstep as (Hwf' & Hs' & Htl & Ht' & Hcase); cbn [List.filter fst];
    unfold own_entry at 1; rewrite Hmine.
  - destruct Hcase as [Hr Hst']. constructor; [by split|]. by apply IH; auto using app_alike_at.
  - apply IH; auto. exact (app_alike_at a s' (with_auth t (e_auth e)) Hcase).
Qed.

Lemma results_answers s order id r :
  (id, r) ∈ results s order ↔ ∃ e, e_id e = id ∧ (e, r) ∈ answers s order.
Proof.
  unfold results, answers. generalize (fst (seq_run s order)) as rs.
  induction order as [|e order IH]; intros [|r' rs]; cbn [fmap list_fmap zip_with];
    try (split; [by intros ?%elem_of_nil|by intros (? & _ & ?%elem_of_nil)]).
  rewrite elem_of_cons, IH. setoid_rewrite elem_of_cons. naive_solver.
Qed.

(** C4: however the requests interleave, others do not interfere.  Let the requests that took effect
    draw ids nobody used, and each be [a]'s by the authority that judged it, or not let [a]
    write.  Every answer the concurrent server gave to a request of [a] has the status and the
    body, listings as sets of alerts, that the request gets when only [a]'s requests are served,
    one after the other. *)
Theorem concurrent_others_do_not_interfere a s (c : Serv) :
  repo_wf (app_store s) → serv_reachable s c → NoDup (drawn_ids (c_order c)) →
  unused s (drawn_ids (c_order c)) → forallb (clear_entry a) (c_order c) = true →
  ∀ e r, e ∈ own_entries a (c_order c) → (e_id e, r) ∈ c_answered c →
    ∃ r', (e_id e, r') ∈ results s (own_entries a (c_order c)) ∧ same_response r r'.
Proof.
  intros Hwf Hc Hnd Hu Hall e r He Hr. destruct (linear_reachable _ _ Hc) as [_ _ W _ O _ _ _].
  apply W, results_answers in Hr as (e' & Hid & Hr).
  apply list_elem_of_In, filter_In in He as [He%list_elem_of_In Hown].
  assert (e' ∈ c_order c) as He' by (by eapply elem_of_zip_l).
  assert (e' = e) as ->.
  { apply list_elem_of_lookup in He as [i Hi], He' as [j Hj].
    assert (i = j) as <-; [|congruence].
    apply (NoDup_lookup _ _ _ (e_id e) O); rewrite list_lookup_fmap; [by rewrite Hi|].
    rewrite Hj. cbn. by rewrite Hid. }
  pose proof (answers_alike a (c_order c) s s Hwf Hnd Hu Hu ltac:(intros b; reflexivity) Hall) as Hall2.
  assert ((e, r) ∈ List.filter (λ p, own_entry a (fst p)) (answers s (c_order c))) as Hin
    by (by apply list_elem_of_In, filter_In; split; [apply list_elem_of_In|]).
  apply list_elem_of_lookup in Hin as [i Hi].
  destruct (Forall2_lookup_l _ _ _ _ _ Hall2 Hi) as ([e2 r'] & Hi2 & [Heq Hsame]). cbn in Heq, Hsame.
  exists r'. split; [|done]. apply results_answers. exists e2. rewrite <-Heq. split; [done|].
  rewrite Heq. by eapply list_elem_of_lookup_2.
Qed.
End isolation.

(** ** Examples *)

Import CanonicalInstances Sample.Instances SampleStorage SampleStorage.Instances
  SampleApi.Instances.

(** Two users create at the same time; then the first lists. *)
Definition two_users : list Action :=
  [Arrive SampleApi.serving SampleApi.post;
   Arrive (mk_serving Sample.now LinkUp 8000 (uuid_of 11)) SampleOthers.post_other;
   Go 0; Go 1; Go 1; Go 1; Go 0; Go 0; Arrive SampleApi.later SampleApi.get_list; Go 0; Go 0; Go 0].
Definition two_users_served : Serv := serv_run two_users (serv_init SampleOthers.state).
Lemma concurrent_others_do_not_interfere_witness :
  e_id <$> c_order two_users_served = [1; 0; 2] ∧
  e_id <$> own_entries Sample.actor (c_order two_users_served) = [0; 2] ∧
  map code (c_answered two_users_served).*2 = [201; 201; 200] ∧
  ∀ e r, e ∈ own_entries Sample.actor (c_order two_users_served) →
    (e_id e, r) ∈ c_answered two_users_served →
    ∃ r', (e_id e, r') ∈ results SampleOthers.state
      (own_entries Sample.actor (c_order two_users_served)) ∧ same_response r r'.
Proof.
  do 3 (split; [by vm_compute|]).
  refine (concurrent_others_do_not_interfere Sample.actor SampleOthers.state two_users_served
    sample_state_wf _ _ _ _).
  - apply serv_run_steps.
  - apply (bool_decide_unpack _). by vm_compute.
  - intros b j _. apply sample_state_fresh.
  - by vm_compute.
Defined.
