(* ===== verification/Broadcast.v ===== *)
(** * Events from creation to client ([run], [create_alert], [ws_upgrade] and [websocket] of
    [src/lib.rs])

    The HTTP handlers send the events of created alerts to a broadcast channel; every open
    WebSocket reads it through a receiver of its own.  The channel is tokio's and enters as a
    class with its documented behaviour.  The file composes router, channel and WebSocket
    loops to one system and shows what a client has been sent at any moment. *)

From S2P Require Import Prelude Str Float Ids Model Auth Database Store Repository Api.
Open Scope N_scope.

(** ** The channel *)

(** What [Receiver::recv] answers; [RecvPending]: it waits. *)
Inductive RecvResult :=
| RecvEvent (e : ScopedAlertEvent) | RecvLagged (n : N) | RecvClosed | RecvPending.
Class BroadcastChannel := {
  Sender : Type;
  Receiver : Type;
  channel : nat → Sender;
  send : ScopedAlertEvent → Sender → Sender;
  subscribe : Sender → Receiver;
  recv : Sender → Receiver → RecvResult * Receiver;
}.
(** The documentation of [tokio::sync::broadcast]: the capacity is a power of two; a receiver
    gets every value sent after it subscribed, in order; when more values than the capacity
    are unread, the oldest are dropped and [recv] tells how many were missed before it goes on
    with the oldest that is left.  [channel_holds s c log]: [log] was sent to [s], whose
    capacity is [c]; [receiver_at r] is how many values [r] is past. *)
Class BroadcastLaws `{BroadcastChannel} := {
  channel_holds : Sender → nat → list ScopedAlertEvent → Prop;
  receiver_at : Receiver → nat;
  channel_new k : channel_holds (channel (2 ^ k)) (2 ^ k) [];
  send_holds e s c log : channel_holds s c log → channel_holds (send e s) c (log ++ [e]);
  subscribe_at s c log : channel_holds s c log → receiver_at (subscribe s) = length log;
  recv_lagged s c log r : channel_holds s c log → (receiver_at r + c < length log)%nat →
    ∃ r', recv s r = (RecvLagged (N.of_nat (length log - c - receiver_at r)), r') ∧
      receiver_at r' = (length log - c)%nat;
  recv_event s c log r e : channel_holds s c log → (length log <= receiver_at r + c)%nat →
    log !! receiver_at r = Some e →
    ∃ r', recv s r = (RecvEvent e, r') ∧ receiver_at r' = S (receiver_at r);
  recv_pending s c log r : channel_holds s c log → receiver_at r = length log →
    recv s r = (RecvPending, r);
}.

(** ** The system *)

Definition EVENT_CAPACITY : nat := 512.

(** An open WebSocket: its actor, its receiver, and what [select!] has yielded so far.
    [cl_start], which the code does not keep, counts the events sent before it subscribed. *)
Section client.
Context `{BroadcastChannel}.
Record Client := mk_client {
  cl_actor : VerifiedActor; cl_start : nat; cl_receiver : Receiver; cl_input : list WsInput;
}.
End client.
Definition ws_input (r : RecvResult) (sent : bool) : option WsInput :=
  match r with
  | RecvEvent e => Some (Received e sent)
  | RecvLagged n => Some (Lagged n)
  | RecvClosed => Some ChannelClosed
  | RecvPending => None
  end.
Definition peer_input (i : WsInput) : bool :=
  match i with PeerMessage | PeerClose | PeerError | PeerEnd => true | _ => false end.

Section live.
Context `{SharedAuth} `{Http} `{UuidText} `{!Axum} {R : Type} `{!AlertRepo R} `{!AlertRepoLaws R}.
Context `{BroadcastChannel} `{EventJson}.

(** What a client was sent, and whether its loop still runs. *)
Definition sent_to (c : Client) : list str := websocket (cl_actor c) (cl_input c).
Definition is_open (c : Client) : bool := forallb (continues (cl_actor c)) (cl_input c).
Definition yields (i : WsInput) (r : Receiver) (c : Client) : Client :=
  mk_client (cl_actor c) (cl_start c) r (cl_input c ++ [i]).

(** [lv_upgrades]: the upgrades answered with 101 whose [websocket] has not started yet. *)
Record Live := mk_live {
  lv_app : AppState (R := R); lv_events : Sender;
  lv_upgrades : list VerifiedActor; lv_clients : list Client;
}.
(** [run]: the state it serves, with a new channel. *)
Definition live_init (app : AppState (R := R)) : Live :=
  mk_live app (channel EVENT_CAPACITY) [] [].
(** The events a request sent. *)
Definition new_events (before after : AppState (R := R)) : list ScopedAlertEvent :=
  drop (length (app_events before)) (app_events after).
Definition send_all (l : list ScopedAlertEvent) (s : Sender) : Sender :=
  fold_left (λ s e, send e s) l s.
Definition upgraded (r : Response) : list VerifiedActor :=
  match body r with BodyUpgrade actor => [actor] | _ => [] end.

Inductive live_step : Live → Live → Prop :=
| live_request s x request resp app :
    (∀ actor, repo_fresh (app_store (lv_app s)) actor (sv_fresh x)) →
    router x request (lv_app s) = (resp, app) →
    live_step s (mk_live app (send_all (new_events (lv_app s) app) (lv_events s))
      (lv_upgrades s ++ upgraded resp) (lv_clients s))
| live_open s i actor :
    lv_upgrades s !! i = Some actor →
    live_step s (mk_live (lv_app s) (lv_events s) (delete i (lv_upgrades s))
      (lv_clients s ++ [mk_client actor (length (app_events (lv_app s)))
                          (subscribe (lv_events s)) []]))
| live_peer s i c input :
    lv_clients s !! i = Some c → is_open c = true → peer_input input = true →
    live_step s (mk_live (lv_app s) (lv_events s) (lv_upgrades s)
      (<[i := yields input (cl_receiver c) c]> (lv_clients s)))
| live_recv s i c r receiver sent input :
    lv_clients s !! i = Some c → is_open c = true → recv (lv_events s) (cl_receiver c) = (r, receiver) →
    ws_input r sent = Some input →
    live_step s (mk_live (lv_app s) (lv_events s) (lv_upgrades s)
      (<[i := yields input receiver c]> (lv_clients s))).
Definition live_reachable (app : AppState (R := R)) : Live → Prop := rtc live_step (live_init app).

(** ** Specification *)

(** The payloads of an actor's events. *)
Definition payloads (actor : VerifiedActor) (l : list ScopedAlertEvent) : list str :=
  omap event_to_string (List.filter (event_for actor) l).

Context `{!BroadcastLaws}.
(** A client got its events among the first [n] since it subscribed. *)
Record client_at (events : list ScopedAlertEvent) (c : Client) (n : nat) : Prop := {
  ca_bound : (cl_start c + n <= length events)%nat;
  ca_sent : sent_to c = payloads (cl_actor c) (take n (drop (cl_start c) events));
  ca_open : is_open c = true → receiver_at (cl_receiver c) = (cl_start c + n)%nat;
}.
Record live_inv (s : Live) : Prop := {
  li_wf : repo_wf (app_store (lv_app s));
  li_owned : events_owned (lv_app s);
  li_channel : channel_holds (lv_events s) EVENT_CAPACITY (app_events (lv_app s));
  li_clients : Forall (λ c, ∃ n, client_at (app_events (lv_app s)) c n) (lv_clients s);
}.

(** The next read of an open client with this many unread events: beyond 512 it has lagged,
    and reading that ends its loop and sends it nothing. *)
Definition next_read (s : Live) (c : Client) (unread : nat) : Prop :=
  let events := app_events (lv_app s) in
  if (512 <? unread)%nat
  then let missed := N.of_nat (unread - 512) in
    ∃ r, recv (lv_events s) (cl_receiver c) = (RecvLagged missed, r) ∧
      is_open (yields (Lagged missed) r c) = false ∧ sent_to (yields (Lagged missed) r c) = sent_to c
  else match events !! (length events - unread)%nat with
    | Some e => ∃ r, recv (lv_events s) (cl_receiver c) = (RecvEvent e, r)
    | None => recv (lv_events s) (cl_receiver c) = (RecvPending, cl_receiver c)
    end.

(** ** Lemmas *)

Lemma send_all_holds l s c log :
  channel_holds s c log → channel_holds (send_all l s) c (log ++ l).
Proof.
  revert s log. induction l as [|e l IH]; intros s log Hs; cbn; [by rewrite app_nil_r|].
  change (log ++ e :: l) with (log ++ [e] ++ l). rewrite app_assoc. by apply IH, send_holds.
Qed.
Lemma router_appends x request (a : AppState (R := R)) resp a' :
  router x request a = (resp, a') → app_events a' = app_events a ++ new_events a a'.
Proof.
  intros Hr. unfold new_events.
  destruct (router_cases _ _ _ _ _ Hr) as [[-> _]|(actor & input & r & store & _ & _ & _ & ->)].
  - by rewrite drop_all, app_nil_r.
  - destruct r as [alert|e]; cbn [app_events after_create];
      [by rewrite drop_app_length|by rewrite drop_all, app_nil_r].
Qed.

Lemma websocket_snoc actor input i :
  websocket actor (input ++ [i]) =
  websocket actor input ++
    (if forallb (continues actor) input then websocket actor [i] else []).
Proof.
  induction input as [|j input IH]; [done|]. cbn [app websocket forallb].
  destruct j as [| | | |e sent|n|]; cbn [continues andb]; try done.
  destruct (event_for actor e); cbn [negb orb]; [|exact IH].
  destruct (event_to_string e) as [p|]; destruct sent; cbn [andb is_some]; try done.
  by rewrite IH.
Qed.
Lemma is_open_yields i r c : is_open (yields i r c) = is_open c && continues (cl_actor c) i.
Proof. unfold is_open. cbn. rewrite forallb_app. cbn. by rewrite andb_true_r. Qed.
Lemma sent_to_yields i r c :
  is_open c = true → sent_to (yields i r c) = sent_to c ++ websocket (cl_actor c) [i].
Proof. unfold is_open, sent_to. intros Ho. cbn. by rewrite websocket_snoc, Ho. Qed.
Lemma payloads_snoc actor l e :
  payloads actor (l ++ [e]) = payloads actor l ++ payloads actor [e].
Proof. unfold payloads. by rewrite List.filter_app, omap_app. Qed.

Lemma client_at_mono events more c n : client_at events c n → client_at (events ++ more) c n.
Proof.
  intros [Hb Hs Ho]. split; [rewrite length_app; lia| |done].
  rewrite Hs. by rewrite drop_app_le, take_app_le by (rewrite ?length_drop; lia).
Qed.
(** An input that sends nothing. *)
Lemma client_at_silent events c n i r :
  client_at events c n → is_open c = true → websocket (cl_actor c) [i] = [] →
  (continues (cl_actor c) i = true → receiver_at r = receiver_at (cl_receiver c)) →
  client_at events (yields i r c) n.
Proof.
  intros [Hb Hs Ho] Hopen Hw Hr. split; [done| |].
  - by rewrite sent_to_yields, Hw, app_nil_r.
  - rewrite is_open_yields, Hopen. cbn. intros Hc. rewrite Hr by done. by apply Ho.
Qed.
Lemma client_at_event events c n e r sent :
  client_at events c n → is_open c = true → events !! (cl_start c + n)%nat = Some e →
  receiver_at r = S (cl_start c + n) → ∃ m, client_at events (yields (Received e sent) r c) m.
Proof.
  intros Hc Hopen He Hr. pose proof Hc as [Hb Hs Ho].
  assert (take (S n) (drop (cl_start c) events) = take n (drop (cl_start c) events) ++ [e]) as Htake
    by (apply take_S_r; by rewrite lookup_drop).
  destruct (continues (cl_actor c) (Received e sent)) eqn:Hcont.
  - exists (S n). split; cbn [cl_start cl_actor cl_receiver yields].
    + apply lookup_lt_Some in He. lia.
    + rewrite sent_to_yields, Hs, Htake, payloads_snoc by done. f_equal.
      unfold payloads. cbn [continues] in Hcont. cbn [websocket List.filter].
      destruct (event_for (cl_actor c) e); [|done]. cbn [negb orb] in Hcont.
      apply andb_true_iff in Hcont as [-> Hp]. cbn. by destruct (event_to_string e).
    + intros _. rewrite Hr. lia.
  - exists n. apply client_at_silent; [done|done| |by rewrite Hcont].
    cbn [continues websocket] in *. destruct (event_for (cl_actor c) e); [|done].
    destruct (event_to_string e); [|done]. by destruct sent.
Qed.
Lemma client_at_recv chan events c n r receiver sent input :
  channel_holds chan EVENT_CAPACITY events → client_at events c n → is_open c = true →
  recv chan (cl_receiver c) = (r, receiver) → ws_input r sent = Some input →
  ∃ m, client_at events (yields input receiver c) m.
Proof.
  intros Hch Hc Hopen Hrecv Hin. pose proof (ca_open _ _ _ Hc Hopen) as Hat.
  destruct (decide (receiver_at (cl_receiver c) + EVENT_CAPACITY < length events)%nat) as [Hl|Hl].
  - destruct (recv_lagged _ _ _ _ Hch Hl) as (r' & E & _). rewrite E in Hrecv.
    injection Hrecv as <- <-. injection Hin as <-. exists n. by apply client_at_silent.
  - destruct (events !! receiver_at (cl_receiver c)) as [e|] eqn:He.
    + destruct (recv_event _ _ _ (cl_receiver c) _ Hch ltac:(lia) He) as (r' & E & Hr'). rewrite E in Hrecv.
      injection Hrecv as <- <-. injection Hin as <-. rewrite Hat in He, Hr'.
      by apply (client_at_event _ _ n).
    + apply lookup_ge_None in He. pose proof (ca_bound _ _ _ Hc).
      rewrite (recv_pending _ _ _ _ Hch) in Hrecv by lia. by injection Hrecv as <- <-.
Qed.

Lemma client_next_read s c n :
  channel_holds (lv_events s) EVENT_CAPACITY (app_events (lv_app s)) →
  client_at (app_events (lv_app s)) c n → is_open c = true →
  next_read s c (length (app_events (lv_app s)) - (cl_start c + n)).
Proof.
  intros Hch [Hb _ Ho] Hopen. specialize (Ho Hopen). unfold next_read.
  set (events := app_events (lv_app s)) in *. unfold EVENT_CAPACITY in Hch.
  replace (length events - (length events - (cl_start c + n)))%nat with (receiver_at (cl_receiver c)) by lia.
  destruct (Nat.ltb_spec 512 (length events - (cl_start c + n))) as [Hl|Hl].
  - destruct (recv_lagged _ _ _ (cl_receiver c) Hch ltac:(lia)) as (r & E & _). exists r.
    replace (length events - 512 - receiver_at (cl_receiver c))%nat
      with (length events - (cl_start c + n) - 512)%nat in E by lia.
    split; [done|]. rewrite is_open_yields, sent_to_yields, Hopen by done.
    split; [done|]. apply app_nil_r.
  - destruct (events !! receiver_at (cl_receiver c)) as [e|] eqn:He.
    + destruct (recv_event _ _ _ (cl_receiver c) _ Hch ltac:(lia) He) as (r & E & _). eauto.
    + apply lookup_ge_None in He. apply (recv_pending _ _ _ _ Hch). lia.
Qed.

Lemma live_step_inv s s' : live_step s s' → live_inv s → live_inv s'.
Proof.
  intros Hs [Hwf Hown Hch Hcl].
  destruct Hs as [s x request resp app Hfresh Hr|s i actor Hi|s i c input Hi Hopen Hp
                 |s i c r receiver sent input Hi Hopen Hrecv Hin].
  - destruct (router_events _ _ _ _ _ Hwf Hfresh Hown Hr) as [Hwf' Hown'].
    pose proof (router_appends _ _ _ _ _ Hr) as Happ.
    split; cbn [lv_app lv_events lv_clients]; [done..| |].
    + rewrite Happ. by apply send_all_holds.
    + eapply Forall_impl; [exact Hcl|]. intros c [n Hc]. exists n. rewrite Happ.
      by apply client_at_mono.
  - split; cbn [lv_app lv_events lv_clients]; [done..|]. apply Forall_app_2; [done|].
    apply Forall_singleton. exists 0%nat. split; cbn; [lia|done|].
    intros _. rewrite (subscribe_at _ _ _ Hch). lia.
  - split; cbn [lv_app lv_events lv_clients]; [done..|]. apply Forall_insert; [done|].
    destruct (Forall_lookup_1 _ _ _ _ Hcl Hi) as [n Hc]. exists n.
    apply client_at_silent; [done|done| |done]. by destruct input.
  - split; cbn [lv_app lv_events lv_clients]; [done..|]. apply Forall_insert; [done|].
    destruct (Forall_lookup_1 _ _ _ _ Hcl Hi) as [n Hc]. by eapply client_at_recv.
Qed.
Lemma live_reachable_inv app s :
  repo_wf (app_store app) → app_events app = [] → live_reachable app s → live_inv s.
Proof.
  intros Hwf Hnil Hr. assert (live_inv (live_init app)) as Hi.
  { split; cbn; [done| | |done].
    - intros e. rewrite Hnil. by intros ?%elem_of_nil.
    - rewrite Hnil. apply (channel_new 9). }
  revert Hi. unfold live_reachable in Hr. induction Hr; eauto using live_step_inv.
Qed.

(** ** Properties *)

(** C15: each WebSocket client is sent exactly its own creations.  In every reachable state of
    router, channel and clients, a client was sent, in order and without a gap, the payloads of
    the events with its tenant and subject among the first [n] events since it subscribed, each
    about an alert its actor owns; while its loop runs, its receiver is past exactly those [n],
    so a client that has caught up was sent all of them.  As long as at most 512 events are
    unread, the next read is the oldest unread event, or waits when there is none; with more
    than 512 the client has lagged: the next read tells how many events were dropped, and the
    loop ends there without sending anything more. *)
Theorem clients_see_own_creations app s i c :
  repo_wf (app_store app) → app_events app = [] → live_reachable app s →
  lv_clients s !! i = Some c →
  ∃ n, (cl_start c + n <= length (app_events (lv_app s)))%nat ∧
    sent_to c = payloads (cl_actor c) (take n (drop (cl_start c) (app_events (lv_app s)))) ∧
    (∀ p, p ∈ sent_to c → ∃ e r, event_to_string e = Some p ∧ ar_id r = ar_id (ev_alert e) ∧
       r ∈ repo_owned (app_store (lv_app s)) (cl_actor c)) ∧
    (is_open c = true → receiver_at (cl_receiver c) = (cl_start c + n)%nat ∧
       (recv (lv_events s) (cl_receiver c) = (RecvPending, cl_receiver c) →
        sent_to c = payloads (cl_actor c) (drop (cl_start c) (app_events (lv_app s)))) ∧
       next_read s c (length (app_events (lv_app s)) - (cl_start c + n))).
Proof.
  intros Hwf Hnil Hr Hi. destruct (live_reachable_inv _ _ Hwf Hnil Hr) as [_ Hown Hch Hcl].
  destruct (Forall_lookup_1 _ _ _ _ Hcl Hi) as [n Hc]. pose proof Hc as [Hb Hs Ho].
  exists n. split; [done|]. split; [done|]. split.
  - intros p. rewrite Hs. unfold payloads. rewrite list_elem_of_omap.
    intros (e & [He Hfor]%list_elem_of_In%filter_In & Hp).
    apply list_elem_of_In, subseteq_take, subseteq_drop in He.
    destruct (Hown _ He) as (r & Hin & Hid). exists e, r. split_and!; [done..|].
    unfold event_for in Hfor. apply andb_true_iff in Hfor as [Ht%str_eqb_eq Hsub%bool_decide_eq_true].
    rewrite Ht, Hsub in Hin. by destruct (cl_actor c).
  - intros Hopen. split; [by apply Ho|]. split; [|by apply (client_next_read _ _ _ Hch Hc)].
    intros Hpend. rewrite Hs. f_equal. apply take_ge. rewrite length_drop.
    pose proof (client_next_read _ _ _ Hch Hc Hopen) as Hnext. unfold next_read in Hnext.
    destruct (_ <? _)%nat eqn:Hlag; [destruct Hnext as (r & E & _); congruence|].
    destruct (app_events (lv_app s) !! _) as [e|] eqn:He in Hnext;
      [destruct Hnext as [r E]; congruence|].
    apply lookup_ge_None in He. lia.
Qed.
End live.

(** ** A concrete channel: a ring of the last values *)

Module Ring.
Record ring := mk_ring { ring_capacity : nat; ring_total : nat; ring_slots : list ScopedAlertEvent }.
Definition ring_new (n : nat) : ring := mk_ring n 0 [].
Definition ring_send (e : ScopedAlertEvent) (s : ring) : ring :=
  let slots := ring_slots s ++ [e] in
  mk_ring (ring_capacity s) (S (ring_total s))
    (if (ring_capacity s <? length slots)%nat then tail slots else slots).
Definition ring_recv (s : ring) (r : nat) : RecvResult * nat :=
  let oldest := (ring_total s - ring_capacity s)%nat in
  if (r <? oldest)%nat then (RecvLagged (N.of_nat (oldest - r)), oldest) else
  match ring_slots s !! (r - oldest)%nat with
  | Some e => (RecvEvent e, S r)
  | None => (RecvPending, r)
  end.
Definition ring_holds (s : ring) (c : nat) (log : list ScopedAlertEvent) : Prop :=
  ring_capacity s = c ∧ (0 < c)%nat ∧ ring_total s = length log ∧
  ring_slots s = drop (length log - c) log.

Lemma ring_send_holds e s c log : ring_holds s c log → ring_holds (ring_send e s) c (log ++ [e]).
Proof.
  intros (Hc & Hpos & Ht & Hs). unfold ring_holds, ring_send. cbn [ring_capacity ring_total ring_slots].
  rewrite Hc, Ht, Hs. split_and!; [done|done|by rewrite length_app, Nat.add_comm|].
  rewrite !length_app, length_drop. cbn [length].
  destruct (Nat.ltb_spec c (length log - (length log - c) + 1)) as [Hl|Hl].
  - assert (length log + 1 - c = S (length log - c))%nat as -> by lia.
    rewrite drop_app_le by lia.
    destruct (drop (length log - c) log) as [|x l] eqn:E.
    + apply (f_equal length) in E. rewrite length_drop in E. cbn in E. lia.
    + cbn [tail app]. by rewrite <-Nat.add_1_r, <-drop_drop, E.
  - assert (length log - c = 0)%nat as E by lia. rewrite E.
    assert (length log + 1 - c = 0)%nat as -> by lia. done.
Qed.
Module Instances.
#[export] Instance ring_channel : BroadcastChannel := {|
  Sender := ring; Receiver := nat; channel := ring_new; send := ring_send;
  subscribe := ring_total; recv := ring_recv;
|}.
#[export] Instance ring_laws : BroadcastLaws.
Proof.
  refine {| channel_holds := ring_holds; receiver_at := (λ r : nat, r) |};
    cbn [channel send subscribe recv ring_channel].
  - intros k. unfold ring_holds, ring_new. cbn. split_and!; [done| |done|done].
    pose proof (Nat.pow_nonzero 2 k). lia.
  - apply ring_send_holds.
  - by intros s c log (_ & _ & ? & _).
  - intros s c log r (Hc & _ & Ht & _) Hl. unfold ring_recv. rewrite Hc, Ht.
    rewrite (proj2 (Nat.ltb_lt _ _)) by lia. eauto.
  - intros s c log r e (Hc & _ & Ht & Hs) Hl He. unfold ring_recv. rewrite Hc, Ht, Hs.
    rewrite (proj2 (Nat.ltb_ge _ _)) by lia. rewrite lookup_drop.
    replace (length log - c + (r - (length log - c)))%nat with r by lia. rewrite He. eauto.
  - intros s c log r (Hc & _ & Ht & Hs) ->. unfold ring_recv. rewrite Hc, Ht, Hs.
    rewrite (proj2 (Nat.ltb_ge _ _)) by lia. rewrite lookup_drop.
    by rewrite (lookup_ge_None_2 log) by lia.
Qed.
End Instances.
End Ring.

(** ** Example: a client subscribes, then its actor creates an alert *)

Section scenario.
Context `{SharedAuth} `{Http} `{UuidText} `{!Axum} {R : Type} `{!AlertRepo R} `{!AlertRepoLaws R}.
Context `{BroadcastChannel} `{EventJson}.
Implicit Types s : Live (R := R).
Definition do_request (x : Serving) (request : HttpRequest) s : Live (R := R) :=
  mk_live (snd (router x request (lv_app s)))
    (send_all (new_events (lv_app s) (snd (router x request (lv_app s)))) (lv_events s))
    (lv_upgrades s ++ upgraded (fst (router x request (lv_app s)))) (lv_clients s).
Lemma do_request_step x request s :
  (∀ actor, repo_fresh (app_store (lv_app s)) actor (sv_fresh x)) → live_step s (do_request x request s).
Proof. intros Hf. exact (live_request s x request _ _ Hf (surjective_pairing _)). Qed.
Definition do_open s : Live (R := R) :=
  match lv_upgrades s with
  | actor :: rest => mk_live (lv_app s) (lv_events s) rest
      (lv_clients s ++ [mk_client actor (length (app_events (lv_app s))) (subscribe (lv_events s)) []])
  | [] => s
  end.
Lemma do_open_step s : lv_upgrades s ≠ [] → live_step s (do_open s).
Proof.
  unfold do_open. destruct (lv_upgrades s) as [|actor rest] eqn:E; [done|]. intros _.
  pose proof (live_open s 0 actor) as Hs. rewrite E in Hs. by apply Hs.
Qed.
(** The first client reads the channel once. *)
Definition do_recv s : Live (R := R) :=
  match lv_clients s with
  | c :: rest =>
      match ws_input (fst (recv (lv_events s) (cl_receiver c))) true with
      | Some input => mk_live (lv_app s) (lv_events s) (lv_upgrades s)
          (yields input (snd (recv (lv_events s) (cl_receiver c))) c :: rest)
      | None => s
      end
  | [] => s
  end.
Definition can_recv s : bool :=
  match lv_clients s with
  | c :: _ => is_open c && is_some (ws_input (fst (recv (lv_events s) (cl_receiver c))) true)
  | [] => false
  end.
Lemma do_recv_step s : can_recv s = true → live_step s (do_recv s).
Proof.
  unfold can_recv, do_recv. destruct (lv_clients s) as [|c rest] eqn:E; [done|].
  rewrite andb_true_iff. intros [Ho Hi].
  destruct (ws_input _ true) as [input|] eqn:Hw; [|done].
  pose proof (λ r receiver, live_recv s 0 c r receiver true input) as Hs. rewrite E in Hs.
  by apply (Hs _ _ eq_refl Ho (surjective_pairing _)).
Qed.
End scenario.

Import CanonicalInstances Sample.Instances SampleStorage SampleStorage.Instances
  SampleApi.Instances Ring.Instances.
Definition get_ws : HttpRequest := mk_request GET (lit "/v1/ws") SampleApi.read_headers [].
Definition sample_opened : Live := do_open (do_request SampleApi.serving get_ws (live_init sample_state)).
Definition sample_created : Live := do_request SampleApi.serving SampleApi.post sample_opened.
Definition sample_live : Live := do_recv sample_created.
Lemma sample_opened_app : lv_app sample_opened = sample_state.
Proof.
  assert (snd (router SampleApi.serving get_ws sample_state) = sample_state) as E.
  { destruct (router SampleApi.serving get_ws sample_state) as [resp s'] eqn:Hr.
    by destruct (router_cases _ _ _ _ _ Hr) as [[-> _]|(? & ? & ? & ? & [[Hm _] _ _ _] & _)]. }
  unfold sample_opened, do_open. cbn [lv_upgrades do_request].
  by destruct (lv_upgrades (live_init sample_state) ++ _).
Qed.
Lemma sample_live_reachable : live_reachable sample_state sample_live.
Proof.
  eapply rtc_l; [apply (do_request_step SampleApi.serving get_ws); intros; apply sample_state_fresh|].
  eapply rtc_l; [apply do_open_step; by vm_compute|]. fold sample_opened.
  eapply rtc_l; [apply (do_request_step SampleApi.serving SampleApi.post)|].
  { intros actor. rewrite sample_opened_app. apply sample_state_fresh. }
  eapply rtc_l; [apply do_recv_step; by vm_compute|]. reflexivity.
Qed.
(** A receiver with 513 unread events has lost one. *)
Example lagging_receiver :
  let events := send_all (repeat (sample_event 1) 513) (channel EVENT_CAPACITY) in
  fst (recv events 0%nat) = RecvLagged 1 ∧ fst (recv events 1%nat) ≠ RecvLagged 1.
Proof. split; by vm_compute. Qed.
Lemma clients_see_own_creations_witness :
  (sent_to <$> lv_clients sample_live) = [[lit "Release monitor"]] ∧
  ∀ c, lv_clients sample_live !! 0%nat = Some c → ∃ n,
    (cl_start c + n <= length (app_events (lv_app sample_live)))%nat ∧
    sent_to c = payloads (cl_actor c) (take n (drop (cl_start c) (app_events (lv_app sample_live)))) ∧
    (is_open c = true →
     next_read sample_live c (length (app_events (lv_app sample_live)) - (cl_start c + n))).
Proof.
  split; [by vm_compute|]. intros c Hc.
  destruct (clients_see_own_creations sample_state sample_live 0 c sample_state_wf eq_refl
    sample_live_reachable Hc) as (n & Hn & Hs & _ & Ho).
  exists n. split; [exact Hn|]. split; [exact Hs|]. intros Hopen. by destruct (Ho Hopen) as (_ & _ & ?).
Defined.
