(* ===== verification/Wire.v ===== *)
(** * Wire formats: the serde derives of [src/model.rs], [src/transport.rs] and [src/lib.rs]

    How the [Serialize] and [Deserialize] derives map the wire types to JSON, field by field
    with their attributes ([deny_unknown_fields], [default], [skip]).  A JSON text is parsed to
    a tree of entries in order, repeated names included; the text codec itself, the text of
    floats and of times are library code and enter as classes.  The file then gives the
    JSON interfaces of the transports their definitions. *)

From S2P Require Import Prelude Str Float Ids Model Auth Database Store Repository Envelope.
From S2P Require Import Commands Outbox Jetstream Tcp Api.
Open Scope N_scope.

(** ** Library code *)

(** The JSON number an [f32] is written as, directly or as the [f64] of a [Value], and the [f32]
    a number is read as; RFC 3339 texts of [DateTime<Utc>]. *)
Class JsonScalars := {
  f32_number : f32 → str;
  f64_number : f32 → str;
  number_f32 : str → option f32;
  time_display : DateTime → str;
  time_parse : str → option DateTime;
}.
(** Years 0 to 9999, which RFC 3339 covers. *)
Definition time_valid (t : DateTime) : bool :=
  (-62167219200000000000 <=? t)%Z && (t <? 253402300800000000000)%Z.
Class JsonScalarsLaws `{JsonScalars} := {
  f32_roundtrip x : f32_valid x = true → is_finite x = true → number_f32 (f32_number x) = Some x;
  f64_roundtrip x : f32_valid x = true → is_finite x = true → number_f32 (f64_number x) = Some x;
  number_f32_valid t x : number_f32 t = Some x → f32_valid x = true;
  time_roundtrip t : time_valid t = true → time_parse (time_display t) = Some t;
}.
(** The characters of the strings in a value. *)
Fixpoint string_chars (v : Value) : nat :=
  match v with
  | VString s => length s
  | VArray l => sum_list_with string_chars l
  | VObject m => sum_list_with (λ e, string_chars (snd e)) m
  | _ => 0
  end.
(** [serde_json]: the text of a tree and the tree of a text.  A character of a string is
    written with a byte at least. *)
Class JsonText := {
  json_print : Value → option (list N);
  json_parse : list N → option Value;
}.
Class JsonTextLaws `{JsonText} := {
  json_roundtrip v b : json_print v = Some b → json_parse b = Some v;
  json_length v b : json_print v = Some b → (string_chars v <= length b)%nat;
}.

(** ** Objects and fields *)

Definition object (names : list str) (values : list Value) : Value := VObject (zip names values).

(** [serde_json::to_value] makes a [Value], whose objects are [BTreeMap]s: the entries are sorted
    by name, and the last one of a name stays. *)
Fixpoint btree_insert (k : str) (v : Value) (m : list (str * Value)) : list (str * Value) :=
  match m with
  | [] => [(k, v)]
  | (k', v') :: rest =>
      if str_eqb k k' then (k, v) :: rest
      else if bytes_le (as_bytes k) (as_bytes k') then (k, v) :: m
      else (k', v') :: btree_insert k v rest
  end.
Definition btree (m : list (str * Value)) : list (str * Value) :=
  fold_left (λ t e, btree_insert (fst e) (snd e) t) m [].
Fixpoint to_value (v : Value) : Value :=
  match v with
  | VArray l => VArray (to_value <$> l)
  | VObject m => VObject (btree ((λ e, (fst e, to_value (snd e))) <$> m))
  | _ => v
  end.

(** The value of a field: [None] when it is repeated, [Some None] when it is missing. *)
Definition entry (m : list (str * Value)) (name : str) : option (option Value) :=
  match List.filter (λ e, str_eqb (fst e) name) m with
  | [] => Some None
  | [(_, v)] => Some (Some v)
  | _ => None
  end.
Definition known (names : list str) (m : list (str * Value)) : bool :=
  forallb (λ e, existsb (str_eqb (fst e)) names) m.
(** A struct is read from an object, or from an array with one element per field. *)
Definition fields (deny_unknown_fields : bool) (names : list str) (v : Value)
    : option (list (option Value)) :=
  match v with
  | VObject m =>
      if deny_unknown_fields && negb (known names m) then None else mapM (entry m) names
  | VArray l => if (length l =? length names)%nat then Some (Some <$> l) else None
  | _ => None
  end.

Definition required {A} (decode : Value → option A) (o : option Value) : option A := o ≫= decode.
(** An [Option] field: missing and [null] are [None]. *)
Definition optional {A} (decode : Value → option A) (o : option Value) : option (option A) :=
  match o with
  | None | Some VNull => Some None
  | Some v => Some <$> decode v
  end.
(** [#[serde(default)]]. *)
Definition defaulted {A} (decode : Value → option A) (d : A) (o : option Value) : option A :=
  match o with None => Some d | Some v => decode v end.

(** ** Scalars *)

Fixpoint str_uint (s : str) : option Decimal.uint :=
  match s with
  | [] => Some Decimal.Nil
  | c :: s =>
      d ← str_uint s;
      match c with
      | 48 => Some (Decimal.D0 d) | 49 => Some (Decimal.D1 d) | 50 => Some (Decimal.D2 d)
      | 51 => Some (Decimal.D3 d) | 52 => Some (Decimal.D4 d) | 53 => Some (Decimal.D5 d)
      | 54 => Some (Decimal.D6 d) | 55 => Some (Decimal.D7 d) | 56 => Some (Decimal.D8 d)
      | 57 => Some (Decimal.D9 d) | _ => None
      end
  end.
(** An unsigned integer field: a number without sign, fraction and exponent, within the width. *)
Definition decode_uint (max : N) (v : Value) : option N :=
  match v with
  | VNumber t => n ← N.of_uint <$> str_uint t; if n <=? max then Some n else None
  | _ => None
  end.
Definition u8_max : N := 255.
Definition encode_uint (n : N) : Value := VNumber (display_uint n).
Definition decode_string (v : Value) : option str := value_as_str v.
Definition decode_bool (v : Value) : option bool :=
  match v with VBool b => Some b | _ => None end.
Definition decode_list {A} (decode : Value → option A) (v : Value) : option (list A) :=
  match v with VArray l => mapM decode l | _ => None end.
Definition encode_option {A} (encode : A → Value) (o : option A) : Value :=
  match o with Some a => encode a | None => VNull end.

Section wire.
Context `{UuidText} `{JsonScalars}.

Definition decode_uuid (v : Value) : option Uuid := value_as_str v ≫= uuid_parse.
Definition encode_uuid (u : Uuid) : Value := VString (uuid_display u).
Definition decode_time (v : Value) : option DateTime := value_as_str v ≫= time_parse.
Definition encode_time (t : DateTime) : Value := VString (time_display t).
Definition decode_f32 (v : Value) : option f32 :=
  match v with VNumber t => number_f32 t | _ => None end.
(** Infinities and NaN have no JSON number. *)
Definition encode_float (number : f32 → str) (x : f32) : Value :=
  if is_finite x then VNumber (number x) else VNull.
Definition encode_f32 : f32 → Value := encode_float f32_number.

(** ** Alert rules *)

Definition alert_fields : list str :=
  [lit "id"; lit "created_at"; lit "updated_at"; lit "name"; lit "query_text";
   lit "embedding_model"; lit "similarity_threshold"; lit "source_filters";
   lit "delivery_channels"; lit "enabled"].
Definition encode_rule (number : f32 → str) (r : AlertRule) : Value :=
  object alert_fields
    [encode_uuid (ar_id r); encode_time (ar_created_at r); encode_time (ar_updated_at r);
     VString (ar_name r); VString (ar_query_text r); VString (ar_embedding_model r);
     encode_float number (ar_similarity_threshold r); VArray (VString <$> ar_source_filters r);
     VArray (VString <$> ar_delivery_channels r); VBool (ar_enabled r)].
(** Written directly, alone and in a list. *)
Definition encode_alert : AlertRule → Value := encode_rule f32_number.
Definition encode_alert_list (l : list AlertRule) : Value := VArray (encode_alert <$> l).
Definition decode_alert_rule (v : Value) : option AlertRule :=
  fs ← fields false alert_fields v;
  match fs with
  | [id; created; updated; name; query; model; threshold; filters; channels; enabled] =>
      id ← required decode_uuid id;
      created ← required decode_time created;
      updated ← required decode_time updated;
      name ← required decode_string name;
      query ← required decode_string query;
      model ← required decode_string model;
      threshold ← required decode_f32 threshold;
      filters ← required (decode_list decode_string) filters;
      channels ← required (decode_list decode_string) channels;
      enabled ← required decode_bool enabled;
      Some (mk_rule id created updated name query model threshold filters channels enabled)
  | _ => None
  end.
Definition create_fields : list str :=
  [lit "name"; lit "query_text"; lit "embedding_model"; lit "similarity_threshold";
   lit "source_filters"; lit "delivery_channels"; lit "enabled"].
Definition decode_create (v : Value) : option CreateAlertRule :=
  fs ← fields true create_fields v;
  match fs with
  | [name; query; model; threshold; filters; channels; enabled] =>
      name ← required decode_string name;
      query ← required decode_string query;
      model ← required decode_string model;
      threshold ← required decode_f32 threshold;
      filters ← defaulted (decode_list decode_string) [] filters;
      channels ← defaulted (decode_list decode_string) [] channels;
      enabled ← required decode_bool enabled;
      Some (mk_create name query model threshold filters channels enabled)
  | _ => None
  end.
Definition encode_create (c : CreateAlertRule) : Value :=
  object create_fields
    [VString (ca_name c); VString (ca_query_text c); VString (ca_embedding_model c);
     encode_f32 (ca_similarity_threshold c); VArray (VString <$> ca_source_filters c);
     VArray (VString <$> ca_delivery_channels c); VBool (ca_enabled c)].
Definition encode_health (h : Health) : Value :=
  object [lit "service"; lit "status"; lit "database_configured"; lit "shared_auth_configured";
          lit "mtls_configured"; lit "jetstream_configured"]
    [VString (service h); VString (Model.status h); VBool (h_database_configured h);
     VBool (shared_auth_configured h); VBool (h_mtls_configured h); VBool (h_jetstream_configured h)].
(** [product_tenant] and [owner_subject] are [#[serde(skip)]]. *)
Definition encode_scoped_event (e : ScopedAlertEvent) : Value :=
  object [lit "kind"; lit "alert"] [VString (ev_kind e); encode_alert (ev_alert e)].

(** ** Operations, commands and replies *)

Definition operation_fields : list str :=
  [lit "version"; lit "operation_id"; lit "operation"; lit "actor_subject"; lit "product_tenant";
   lit "deadline_unix_ms"].
Definition encode_operation (o : OperationEnvelope) : Value :=
  object operation_fields
    [encode_uint (version o); encode_uuid (operation_id o); VString (operation o);
     VString (actor_subject o); VString (op_product_tenant o); encode_uint (deadline_unix_ms o)].
Definition decode_operation (v : Value) : option OperationEnvelope :=
  fs ← fields true operation_fields v;
  match fs with
  | [version; id; operation; actor; tenant; deadline] =>
      version ← required (decode_uint u8_max) version;
      id ← required decode_uuid id;
      operation ← required decode_string operation;
      actor ← required decode_string actor;
      tenant ← required decode_string tenant;
      deadline ← required (decode_uint u64_max) deadline;
      Some (mk_operation version id operation actor tenant deadline)
  | _ => None
  end.

Definition authenticated_fields : list str := [lit "authorization"; lit "envelope"].
Definition encode_authenticated (r : AuthenticatedOperation) : Value :=
  object authenticated_fields [VString (authorization r); encode_operation (envelope r)].
Definition decode_authenticated (v : Value) : option AuthenticatedOperation :=
  fs ← fields true authenticated_fields v;
  match fs with
  | [authorization; envelope] =>
      authorization ← required decode_string authorization;
      envelope ← required decode_operation envelope;
      Some (mk_authenticated authorization envelope)
  | _ => None
  end.

Definition reply_fields : list str :=
  [lit "operation_id"; lit "status"; lit "result"; lit "error"].
Definition encode_reply (r : OperationReply) : Value :=
  object reply_fields
    [encode_uuid (reply_operation_id r); VString (reply_status r);
     encode_option id (reply_result r); encode_option VString (reply_error r)].
Definition decode_reply (v : Value) : option OperationReply :=
  fs ← fields false reply_fields v;
  match fs with
  | [id; status; result; error] =>
      id ← required decode_uuid id;
      status ← required decode_string status;
      result ← optional Some result;
      error ← optional decode_string error;
      Some (mk_reply id status result error)
  | _ => None
  end.

Definition command_fields : list str :=
  [lit "event_id"; lit "correlation_id"; lit "dedupe_key"; lit "product_tenant"; lit "operation";
   lit "signature"].
Definition encode_command (c : AsyncCommand) : Value :=
  object command_fields
    [encode_uuid (event_id c); encode_uuid (correlation_id c); VString (dedupe_key c);
     VString (cmd_product_tenant c); encode_operation (cmd_operation c); VString (signature c)].
Definition decode_command (v : Value) : option AsyncCommand :=
  fs ← fields true command_fields v;
  match fs with
  | [event; correlation; dedupe; tenant; operation; signature] =>
      event ← required decode_uuid event;
      correlation ← required decode_uuid correlation;
      dedupe ← required decode_string dedupe;
      tenant ← required decode_string tenant;
      operation ← required decode_operation operation;
      signature ← required decode_string signature;
      Some (mk_command event correlation dedupe tenant operation signature)
  | _ => None
  end.

Definition event_fields : list str :=
  [lit "event_id"; lit "correlation_id"; lit "dedupe_key"; lit "product_tenant"; lit "subject";
   lit "reply"].
Definition encode_event (e : EventEnvelope) : Value :=
  object event_fields
    [encode_uuid (ev_event_id e); encode_uuid (ev_correlation_id e); VString (ev_dedupe_key e);
     VString (Envelope.ev_product_tenant e); VString (ev_subject e); encode_reply (ev_reply e)].
Definition decode_event (v : Value) : option EventEnvelope :=
  fs ← fields false event_fields v;
  match fs with
  | [event; correlation; dedupe; tenant; subject; reply] =>
      event ← required decode_uuid event;
      correlation ← required decode_uuid correlation;
      dedupe ← required decode_string dedupe;
      tenant ← required decode_string tenant;
      subject ← required decode_string subject;
      reply ← required decode_reply reply;
      Some (mk_event event correlation dedupe tenant subject reply)
  | _ => None
  end.

(** ** The interfaces of the transports

    [json!(alerts)], [to_value(&envelope)], [from_slice] and [to_vec] of the code.  The first
    two make a [Value], in which an [f32] is an [f64]. *)

Definition encode_alerts (l : list AlertRule) : Value :=
  to_value (VArray (encode_rule f64_number <$> l)).
#[local] Instance wire_reply_json : ReplyJson :=
  {| alerts_to_value := encode_alerts; event_to_value e := Some (to_value (encode_event e)) |}.
Context `{JsonText}.
#[local] Instance wire_command_json : CommandJson :=
  {| command_from_slice b := json_parse b ≫= decode_command |}.
#[local] Instance wire_tcp_json : TcpJson :=
  {| operation_from_slice b := json_parse b ≫= decode_authenticated;
     reply_to_vec r := json_print (encode_reply r) |}.
End wire.

(** ** Lemmas: fields *)

Lemma entry_absent m n : (∀ v, (n, v) ∉ m) → entry m n = Some None.
Proof.
  intros Hn. unfold entry. assert (List.filter (λ e, str_eqb (fst e) n) m = []) as ->; [|done].
  induction m as [|[k v] m IH]; [done|]. cbn. destruct (str_eqb k n) eqn:E.
  - apply str_eqb_eq in E as ->. destruct (Hn v). left.
  - apply IH. intros v' Hin. apply (Hn v'). by right.
Qed.
Lemma entry_cons k v m n :
  entry ((k, v) :: m) n =
    if str_eqb k n then match entry m n with Some None => Some (Some v) | _ => None end
    else entry m n.
Proof.
  unfold entry. cbn. destruct (str_eqb k n); [|done].
  by destruct (List.filter _ m) as [|[k1 v1] [|]].
Qed.
Lemma mapM_entry_skip k v m names :
  k ∉ names → mapM (entry ((k, v) :: m)) names = mapM (entry m) names.
Proof.
  induction names as [|n names IH]; [done|]. intros [Hk Hks]%not_elem_of_cons. cbn.
  rewrite entry_cons, (proj2 (str_eqb_neq _ _)) by done. by rewrite IH.
Qed.
Lemma zip_keys {A} (names : list str) (vs : list A) n v : (n, v) ∈ zip names vs → n ∈ names.
Proof. intros Hin. by apply elem_of_zip_l in Hin. Qed.
Lemma mapM_entry_zip names vs :
  NoDup names → length vs = length names → mapM (entry (zip names vs)) names = Some (Some <$> vs).
Proof.
  intros Hnd. revert vs. induction Hnd as [|n names Hn Hnd IH]; intros [|v vs]; try done.
  intros [= Hlen]. cbn [zip zip_with mapM]. rewrite entry_cons, str_eqb_refl, entry_absent.
  - cbn. fold (zip names vs). rewrite mapM_entry_skip, IH by done. done.
  - intros v' Hin. apply Hn. by eapply zip_keys.
Qed.
Lemma known_zip names vs : known names (zip names vs) = true.
Proof.
  apply forallb_forall. intros [n v] Hin%list_elem_of_In%zip_keys. cbn.
  apply existsb_exists. exists n. split; [by apply list_elem_of_In|apply str_eqb_refl].
Qed.
(** Writing the fields and reading them back. *)
Lemma fields_object deny names vs :
  NoDup names → length vs = length names → fields deny names (object names vs) = Some (Some <$> vs).
Proof.
  intros Hnd Hlen. unfold fields, object. rewrite known_zip, andb_false_r.
  by apply mapM_entry_zip.
Qed.

(** Entries in another order are the same fields. *)
Lemma entry_perm m k n : m ≡ₚ k → entry m n = entry k n.
Proof.
  intros Hp. unfold entry. apply (filter_perm (λ e, str_eqb (fst e) n)) in Hp. revert Hp.
  generalize (List.filter (λ e, str_eqb (fst e) n) m) (List.filter (λ e, str_eqb (fst e) n) k).
  intros a b Hp. destruct a as [|x [|y a]].
  - apply Permutation_nil in Hp as ->. done.
  - by apply Permutation_length_1_inv in Hp as ->.
  - apply Permutation_length in Hp. destruct x, b as [|[] [|z b]]; done.
Qed.
Lemma known_perm names m k : m ≡ₚ k → known names m = known names k.
Proof.
  intros Hp. unfold known. apply eq_iff_eq_true. rewrite !forallb_Forall. by rewrite Hp.
Qed.
Lemma fields_perm deny names m k : m ≡ₚ k → fields deny names (VObject m) = fields deny names (VObject k).
Proof.
  intros Hp. unfold fields. rewrite (known_perm _ _ _ Hp). destruct (_ && _); [done|].
  induction names as [|n names IH]; [done|]. cbn. by rewrite (entry_perm _ _ _ Hp), IH.
Qed.

(** Sorting is a permutation where no name is repeated. *)
Lemma btree_insert_perm k v m : k ∉ m.*1 → btree_insert k v m ≡ₚ (k, v) :: m.
Proof.
  induction m as [|[k' v'] m IH]; [done|]. cbn [fmap list_fmap fst btree_insert].
  intros [Hne Hk]%not_elem_of_cons. rewrite (proj2 (str_eqb_neq _ _) Hne).
  destruct (bytes_le _ _); [done|]. rewrite IH by done. apply perm_swap.
Qed.
Lemma btree_perm m : NoDup m.*1 → btree m ≡ₚ m.
Proof.
  unfold btree. intros Hnd.
  assert (∀ m t : list (str * Value), NoDup (t.*1 ++ m.*1) →
    fold_left (λ t e, btree_insert (fst e) (snd e) t) m t ≡ₚ t ++ m) as Hfold; [|by apply (Hfold m [])].
  clear. induction m as [|[k v] m IH]; intros t Hnd; cbn [fold_left]; [by rewrite app_nil_r|].
  cbn [fmap list_fmap fst snd] in *. apply NoDup_app in Hnd as (Ht & Hdis & [Hk Hm]%NoDup_cons).
  assert (k ∉ t.*1) as Hkt by (intros Hin; apply (Hdis k Hin); left).
  pose proof (btree_insert_perm k v t Hkt) as Hp. rewrite IH, Hp; [cbn [app]; apply Permutation_middle|].
  rewrite Hp. cbn [fmap list_fmap fst]. change (NoDup ((k :: t.*1) ++ m.*1)). cbn [app].
  apply NoDup_cons. split; [|apply NoDup_app; split_and!; [done|set_solver|done]].
  rewrite elem_of_app. tauto.
Qed.
Lemma to_value_object names vs :
  NoDup names → length vs = length names →
  ∃ m, to_value (object names vs) = VObject m ∧ m ≡ₚ zip names (to_value <$> vs).
Proof.
  intros Hnd Hlen. exists (btree ((λ e, (fst e, to_value (snd e))) <$> zip names vs)). split; [done|].
  assert ((λ e : str * Value, (fst e, to_value (snd e))) <$> zip names vs = zip names (to_value <$> vs)) as ->.
  { revert vs Hlen. clear. induction names as [|n names IH]; intros [|v vs]; cbn; try done.
    intros [= Hl]. by rewrite <-(IH vs Hl). }
  apply btree_perm. rewrite fst_zip by (rewrite length_fmap; lia). done.
Qed.
Lemma fields_to_value deny names vs :
  NoDup names → length vs = length names →
  fields deny names (to_value (object names vs)) = Some (Some <$> (to_value <$> vs)).
Proof.
  intros Hnd Hlen. destruct (to_value_object names vs Hnd Hlen) as (m & -> & Hm).
  rewrite (fields_perm _ _ _ _ Hm). apply fields_object; [done|by rewrite length_fmap].
Qed.
Lemma to_value_strings l : to_value (VArray (VString <$> l)) = VArray (VString <$> l).
Proof. cbn [to_value]. f_equal. induction l as [|s l IH]; [done|]. cbn. by f_equal. Qed.

(** What a strict struct accepts: its own fields, none twice. *)
Lemma entry_Some_NoDup m : (∀ n, n ∈ m.*1 → is_Some (entry m n)) → NoDup m.*1.
Proof.
  induction m as [|[k v] m IH]; intros Hs; [constructor|]. cbn. constructor.
  - intros Hin. destruct (Hs k ltac:(left)) as [o Ho]. rewrite entry_cons, str_eqb_refl in Ho.
    destruct (entry m k) as [[w|]|] eqn:E; try done.
    apply list_elem_of_fmap in Hin as ([k' w] & -> & Hin). unfold entry in E. cbn in E.
    destruct (List.filter _ m) as [|[? ?] [|]] eqn:F; try done.
    assert (List.In (k', w) (List.filter (λ e, str_eqb (fst e) k') m)) as Hf
      by (apply filter_In; split; [by apply list_elem_of_In|apply str_eqb_refl]).
    by rewrite F in Hf.
  - apply IH. intros n Hn. destruct (Hs n ltac:(by right)) as [o Ho]. rewrite entry_cons in Ho.
    destruct (str_eqb k n); [|by eexists]. destruct (entry m n) as [[w|]|]; done || by eexists.
Qed.
Lemma fields_strict names m fs :
  fields true names (VObject m) = Some fs → NoDup m.*1 ∧ ∀ n, n ∈ m.*1 → n ∈ names.
Proof.
  unfold fields. cbn [andb]. destruct (known names m) eqn:Hk; cbn [negb]; [|done]. intros Hfs.
  assert (∀ n, n ∈ m.*1 → n ∈ names) as Hsub.
  { intros n (e & -> & He)%list_elem_of_fmap. unfold known in Hk.
    rewrite forallb_forall in Hk. specialize (Hk e (proj1 (list_elem_of_In _ _) He)).
    apply existsb_exists in Hk as (n & Hn & ->%str_eqb_eq). by apply list_elem_of_In. }
  split; [|done]. apply entry_Some_NoDup. intros n Hn%Hsub.
  apply mapM_Some_1 in Hfs. apply list_elem_of_lookup in Hn as [i Hi].
  eapply Forall2_lookup_l in Hfs as (o & _ & Ho); [|done]. by eexists.
Qed.
Lemma fields_missing names m fs i n :
  fields true names (VObject m) = Some fs → names !! i = Some n → n ∉ m.*1 → fs !! i = Some None.
Proof.
  unfold fields. destruct (_ && _); [done|]. intros Hfs%mapM_Some_1 Hi Hn.
  eapply Forall2_lookup_l in Hfs as (o & Ho & He); [|done]. rewrite entry_absent in He.
  - by injection He as <-.
  - intros v Hin. apply Hn. apply list_elem_of_fmap. by exists (n, v).
Qed.

(** ** Lemmas: scalars *)

Lemma str_uint_inv d : str_uint (uint_str d) = Some d.
Proof. by induction d as [|d IH|d IH|d IH|d IH|d IH|d IH|d IH|d IH|d IH|d IH]; cbn; rewrite ?IH. Qed.
Lemma decode_encode_uint max n : n <= max → decode_uint max (encode_uint n) = Some n.
Proof.
  intros Hn. unfold decode_uint, encode_uint, display_uint. rewrite str_uint_inv. cbn.
  rewrite DecimalN.Unsigned.of_to. by rewrite (proj2 (N.leb_le _ _)).
Qed.
Lemma decode_uint_le max v n : decode_uint max v = Some n → n <= max.
Proof.
  destruct v; try done. unfold decode_uint. destruct (str_uint _); [|done]. cbn.
  destruct (N.leb_spec (N.of_uint u) max); [|done]. by intros [= <-].
Qed.
Lemma decode_strings l : decode_list decode_string (VArray (VString <$> l)) = Some l.
Proof.
  cbn. apply mapM_Some_2, Forall2_fmap_l. induction l; by constructor.
Qed.

(** ** Round trips *)

Section roundtrips.
Context `{UuidTextLaws} `{JsonScalarsLaws}.

(** The values whose JSON is read back: numbers within their width, finite floats, times of
    the years 0 to 9999; a result that is not [null] (which is read as no result). *)
Definition operation_sized (o : OperationEnvelope) : Prop :=
  version o <= u8_max ∧ deadline_unix_ms o <= u64_max.
Definition alert_sized (r : AlertRule) : Prop :=
  f32_valid (ar_similarity_threshold r) = true ∧ is_finite (ar_similarity_threshold r) = true ∧
  time_valid (ar_created_at r) = true ∧ time_valid (ar_updated_at r) = true.
Definition create_sized (c : CreateAlertRule) : Prop :=
  f32_valid (ca_similarity_threshold c) = true ∧ is_finite (ca_similarity_threshold c) = true.
Definition reply_sized (r : OperationReply) : Prop := reply_result r ≠ Some VNull.
(** The result is a [Value]: sorted at every depth. *)
Definition reply_tree (r : OperationReply) : Prop := to_value <$> reply_result r = reply_result r.

Lemma decode_encode_uuid u : decode_uuid (encode_uuid u) = Some u.
Proof. apply parse_display. Qed.
Lemma decode_encode_time t : time_valid t = true → decode_time (encode_time t) = Some t.
Proof. apply time_roundtrip. Qed.
Lemma decode_encode_f32 x :
  f32_valid x = true → is_finite x = true → decode_f32 (encode_f32 x) = Some x.
Proof. unfold encode_f32, encode_float. intros Hv Hf. rewrite Hf. by apply f32_roundtrip. Qed.
Lemma decode_encode_f64 x :
  f32_valid x = true → is_finite x = true → decode_f32 (encode_float f64_number x) = Some x.
Proof. unfold encode_float. intros Hv Hf. rewrite Hf. by apply f64_roundtrip. Qed.
Lemma decode_encode_string s : decode_string (VString s) = Some s.
Proof. done. Qed.
Lemma decode_encode_bool b : decode_bool (VBool b) = Some b.
Proof. done. Qed.
Lemma optional_encode {A} (decode : Value → option A) (encode : A → Value) o :
  (∀ a, o = Some a → encode a ≠ VNull ∧ decode (encode a) = Some a) →
  optional decode (Some (encode_option encode o)) = Some o.
Proof.
  destruct o as [a|]; [|done]. intros Ha. destruct (Ha a eq_refl) as [Hn Hd]. cbn.
  destruct (encode a); done || by rewrite Hd.
Qed.

(** Read the fields of an object that was just written. *)
Ltac read_fields :=
  rewrite fields_object by (reflexivity || (apply (bool_decide_unpack (NoDup _)); vm_compute; exact I));
  cbn [fmap list_fmap mbind option_bind required defaulted];
  rewrite ?decode_encode_uuid, ?decode_encode_time, ?decode_encode_f32, ?decode_encode_string,
    ?decode_encode_bool, ?decode_strings, ?decode_encode_uint by done;
  cbn [mbind option_bind].

Lemma operation_roundtrip o :
  operation_sized o → decode_operation (encode_operation o) = Some o.
Proof. intros [Hv Hd]. unfold decode_operation, encode_operation. read_fields. by destruct o. Qed.
Lemma authenticated_roundtrip r :
  operation_sized (envelope r) → decode_authenticated (encode_authenticated r) = Some r.
Proof.
  intros Ho. unfold decode_authenticated, encode_authenticated. read_fields.
  rewrite operation_roundtrip by done. by destruct r.
Qed.
Lemma command_roundtrip c :
  operation_sized (cmd_operation c) → decode_command (encode_command c) = Some c.
Proof.
  intros Ho. unfold decode_command, encode_command. read_fields.
  rewrite operation_roundtrip by done. by destruct c.
Qed.
Lemma reply_roundtrip r : reply_sized r → decode_reply (encode_reply r) = Some r.
Proof.
  intros Hr. unfold decode_reply, encode_reply. read_fields.
  rewrite (optional_encode Some id), (optional_encode decode_string VString); [by destruct r|done|].
  intros v Hv. split; [|done]. intros E. apply Hr. rewrite Hv. f_equal. exact E.
Qed.
Lemma event_roundtrip e : reply_sized (ev_reply e) → decode_event (encode_event e) = Some e.
Proof.
  intros Hr. unfold decode_event, encode_event. read_fields.
  rewrite reply_roundtrip by done. by destruct e.
Qed.
(** The same for the [Value] of an event. *)
Ltac read_value :=
  rewrite fields_to_value by (reflexivity || (apply (bool_decide_unpack (NoDup _)); vm_compute; exact I));
  cbn [fmap list_fmap mbind option_bind required];
  repeat change (to_value (encode_uuid ?u)) with (encode_uuid u);
  repeat change (to_value (VString ?s)) with (VString s);
  rewrite ?decode_encode_uuid, ?decode_encode_string by done;
  cbn [mbind option_bind].
Lemma reply_value_roundtrip r :
  reply_sized r → reply_tree r → decode_reply (to_value (encode_reply r)) = Some r.
Proof.
  intros Hr Ht. unfold decode_reply, encode_reply. read_value.
  assert (to_value (encode_option id (reply_result r)) = encode_option id (reply_result r)) as ->.
  { unfold reply_tree in Ht. destruct (reply_result r) as [v|]; [|done]. by injection Ht. }
  assert (to_value (encode_option VString (reply_error r)) = encode_option VString (reply_error r)) as ->
    by (by destruct (reply_error r)).
  rewrite (optional_encode Some id), (optional_encode decode_string VString); [by destruct r|done|].
  intros v Hv. split; [|done]. intros E. apply Hr. rewrite Hv. f_equal. exact E.
Qed.
Lemma event_value_roundtrip e :
  reply_sized (ev_reply e) → reply_tree (ev_reply e) →
  decode_event (to_value (encode_event e)) = Some e.
Proof.
  intros Hr Ht. unfold decode_event, encode_event. read_value.
  rewrite reply_value_roundtrip by done. by destruct e.
Qed.
Lemma alert_roundtrip r : alert_sized r → decode_alert_rule (encode_alert r) = Some r.
Proof.
  intros (Hf & Hn & Hc & Hu). unfold decode_alert_rule, encode_alert, encode_rule. read_fields.
  fold (encode_f32 (ar_similarity_threshold r)). rewrite decode_encode_f32 by done. by destruct r.
Qed.
Lemma alert_list_roundtrip l :
  Forall alert_sized l → decode_list decode_alert_rule (encode_alert_list l) = Some l.
Proof.
  intros Hl. cbn. apply mapM_Some_2, Forall2_fmap_l.
  induction Hl as [|r l Hr _ IH]; constructor; [by apply alert_roundtrip|done].
Qed.
(** The [Value] of a rule has sorted entries, which are leaves. *)
Definition sorted_alert_fields : list str :=
  [lit "created_at"; lit "delivery_channels"; lit "embedding_model"; lit "enabled"; lit "id";
   lit "name"; lit "query_text"; lit "similarity_threshold"; lit "source_filters"; lit "updated_at"].
Lemma rule_value number r :
  to_value (encode_rule number r) =
  object sorted_alert_fields
    [encode_time (ar_created_at r); VArray (VString <$> ar_delivery_channels r);
     VString (ar_embedding_model r); VBool (ar_enabled r); encode_uuid (ar_id r);
     VString (ar_name r); VString (ar_query_text r); encode_float number (ar_similarity_threshold r);
     VArray (VString <$> ar_source_filters r); encode_time (ar_updated_at r)].
Proof.
  assert (∀ a b c d e f g h i j, btree (zip alert_fields [a; b; c; d; e; f; g; h; i; j]) =
    zip sorted_alert_fields [b; i; f; j; a; d; e; g; h; c]) as Hsort by (intros; by vm_compute).
  unfold encode_rule, object. cbn [to_value]. f_equal.
  rewrite <-Hsort. f_equal. unfold alert_fields, encode_float.
  cbn [zip zip_with fmap list_fmap fst snd]. rewrite !to_value_strings. by destruct (is_finite _).
Qed.
Lemma create_roundtrip c : create_sized c → decode_create (encode_create c) = Some c.
Proof. intros [Hf Hn]. unfold decode_create, encode_create. read_fields. by destruct c. Qed.
Lemma rule_value_again number r : to_value (to_value (encode_rule number r)) = to_value (encode_rule number r).
Proof.
  assert (∀ a b c d e f g h i j, btree (zip sorted_alert_fields [a; b; c; d; e; f; g; h; i; j]) =
    zip sorted_alert_fields [a; b; c; d; e; f; g; h; i; j]) as Hsort by (intros; by vm_compute).
  rewrite rule_value at 1. rewrite rule_value. unfold object. cbn [to_value]. f_equal.
  rewrite <-Hsort at 2. f_equal. unfold sorted_alert_fields, encode_float.
  cbn [zip zip_with fmap list_fmap fst snd]. rewrite !to_value_strings. by destruct (is_finite _).
Qed.
Lemma encode_alerts_tree l : to_value (encode_alerts l) = encode_alerts l.
Proof.
  unfold encode_alerts. cbn [to_value]. f_equal. induction l as [|r l IH]; [done|].
  cbn [fmap list_fmap]. by rewrite rule_value_again, IH.
Qed.
Lemma rule_value_roundtrip r :
  alert_sized r → decode_alert_rule (to_value (encode_rule f64_number r)) = Some r.
Proof.
  intros (Hf & Hn & Hc & Hu). unfold decode_alert_rule, encode_rule.
  rewrite fields_to_value by (reflexivity || (apply (bool_decide_unpack (NoDup _)); vm_compute; exact I)).
  cbn [fmap list_fmap mbind option_bind required].
  change (to_value (encode_uuid ?u)) with (encode_uuid u).
  repeat change (to_value (encode_time ?t)) with (encode_time t).
  assert (to_value (encode_float f64_number (ar_similarity_threshold r)) =
    encode_float f64_number (ar_similarity_threshold r)) as -> by (unfold encode_float; by destruct (is_finite _)).
  rewrite !to_value_strings, decode_encode_uuid, !decode_encode_time, decode_encode_f64, !decode_strings by done.
  cbn. by destruct r.
Qed.
Lemma alerts_roundtrip l :
  Forall alert_sized l → decode_list decode_alert_rule (encode_alerts l) = Some l.
Proof.
  intros Hl. cbn. apply mapM_Some_2. rewrite !Forall2_fmap_l.
  induction Hl as [|r l Hr _ IH]; constructor; [by apply rule_value_roundtrip|done].
Qed.
End roundtrips.

(** ** What the strict structs accept *)

Section strict.
Context `{UuidText} `{JsonScalarsLaws}.

Lemma required_some {A} (d : Value → option A) o a : required d o = Some a → o ≠ None.
Proof. by intros Hd ->. Qed.
Lemma fields_exact names m fs :
  NoDup names → fields true names (VObject m) = Some fs → Forall (λ o, o ≠ None) fs →
  m.*1 ≡ₚ names.
Proof.
  intros Hnd Hfs Hall. destruct (fields_strict _ _ _ Hfs) as [Hk Hsub].
  apply NoDup_Permutation; [done..|]. intros n. split; [apply Hsub|]. intros Hn.
  destruct (decide (n ∈ m.*1)) as [|Hno]; [done|].
  apply list_elem_of_lookup in Hn as [i Hi]. pose proof (fields_missing _ _ _ _ _ Hfs Hi Hno) as Hf.
  rewrite Forall_lookup in Hall. by destruct (Hall _ _ Hf).
Qed.

(** Take a successful read of a struct apart. *)
Ltac inv_read :=
  repeat match goal with
  | Hr : (_ ≫= _) = Some _ |- _ => apply bind_Some in Hr; destruct Hr as (? & ? & Hr)
  | Hr : match ?l with [] => None | _ => _ end = Some _ |- _ =>
      is_var l; destruct l; [discriminate Hr|]
  | Hr : match ?l with [] => _ | _ :: _ => None end = Some _ |- _ =>
      is_var l; destruct l; [|discriminate Hr]
  | Hr : None = Some _ |- _ => discriminate Hr
  | Hr : Some _ = Some _ |- _ => injection Hr as Hr
  end.
Ltac exact_fields :=
  eapply fields_exact; [apply (bool_decide_unpack (NoDup _)); vm_compute; exact I|eassumption|];
  repeat (apply Forall_cons_2; [by eapply required_some|]); apply Forall_nil_2.

Lemma decode_operation_sized v o : decode_operation v = Some o → operation_sized o.
Proof.
  unfold decode_operation. intros Hd. inv_read. subst o. split; cbn [version deadline_unix_ms];
    match goal with E : required (decode_uint ?max) ?x = Some _ |- _ <= ?max =>
      destruct x; [by eapply decode_uint_le|discriminate E] end.
Qed.
Lemma operation_strict m o : decode_operation (VObject m) = Some o → m.*1 ≡ₚ operation_fields.
Proof. unfold decode_operation. intros Hd. inv_read. exact_fields. Qed.
Lemma command_strict m c :
  decode_command (VObject m) = Some c → m.*1 ≡ₚ command_fields ∧ operation_sized (cmd_operation c).
Proof.
  unfold decode_command. intros Hd. inv_read. subst c. split; [exact_fields|].
  cbn [cmd_operation]. match goal with E : required decode_operation ?x = Some _ |- _ =>
    destruct x; [by eapply decode_operation_sized|discriminate E] end.
Qed.
Lemma authenticated_strict m r :
  decode_authenticated (VObject m) = Some r →
  m.*1 ≡ₚ authenticated_fields ∧ operation_sized (envelope r).
Proof.
  unfold decode_authenticated. intros Hd. inv_read. subst r. split; [exact_fields|].
  cbn [envelope]. match goal with E : required decode_operation ?x = Some _ |- _ =>
    destruct x; [by eapply decode_operation_sized|discriminate E] end.
Qed.
Definition create_required : list str :=
  [lit "name"; lit "query_text"; lit "embedding_model"; lit "similarity_threshold"; lit "enabled"].
Lemma create_strict m c :
  decode_create (VObject m) = Some c →
  NoDup m.*1 ∧ (∀ n, n ∈ m.*1 → n ∈ create_fields) ∧ (∀ n, n ∈ create_required → n ∈ m.*1) ∧
  f32_valid (ca_similarity_threshold c) = true ∧
  (lit "source_filters" ∉ m.*1 → ca_source_filters c = []) ∧
  (lit "delivery_channels" ∉ m.*1 → ca_delivery_channels c = []).
Proof.
  unfold decode_create. intros Hd. inv_read. subst c.
  cbn [ca_similarity_threshold ca_source_filters ca_delivery_channels].
  match goal with E : fields _ _ _ = Some ?fs |- _ =>
    pose proof (fields_strict _ _ _ E) as [? ?];
    assert (∀ i n, create_fields !! i = Some n → n ∉ m.*1 → fs !! i = Some None) as Hmiss
      by (intros ? ? ? ?; by eapply fields_missing) end.
  split_and!; [done|done| | | |].
  - intros n Hn. destruct (decide (n ∈ m.*1)) as [|Hno]; [done|]. exfalso.
    repeat (apply elem_of_cons in Hn as [->|Hn];
      [first [pose proof (Hmiss 0%nat _ eq_refl Hno) | pose proof (Hmiss 1%nat _ eq_refl Hno)
             |pose proof (Hmiss 2%nat _ eq_refl Hno) | pose proof (Hmiss 3%nat _ eq_refl Hno)
             |pose proof (Hmiss 6%nat _ eq_refl Hno)]; simplify_eq/=|]).
    by apply elem_of_nil in Hn.
  - match goal with E : required decode_f32 ?x = Some _ |- _ =>
      destruct x as [[]|]; try discriminate E; by eapply number_f32_valid end.
  - intros Hno. pose proof (Hmiss 4%nat _ eq_refl Hno). by simplify_eq/=.
  - intros Hno. pose proof (Hmiss 5%nat _ eq_refl Hno). by simplify_eq/=.
Qed.
End strict.

(** ** Reordered objects

    PostgreSQL keeps the entries of a [jsonb] object in an order of its own, at every depth. *)

#[warnings="-register-all"] Inductive json_eqv : Value → Value → Prop :=
| je_refl v : json_eqv v v
| je_array l k : Forall2 json_eqv l k → json_eqv (VArray l) (VArray k)
| je_object m p n :
    m ≡ₚ p → Forall2 (λ e f, fst e = fst f ∧ json_eqv (snd e) (snd f)) p n →
    json_eqv (VObject m) (VObject n).
#[export] Instance json_eqv_refl : Reflexive json_eqv := je_refl.
(** A reader that does not see the order. *)
Definition order_free {A} (decode : Value → option A) : Prop :=
  ∀ v w a, json_eqv v w → decode v = Some a → decode w = Some a.

Lemma entry_eqv p n name o :
  Forall2 (λ e f, fst e = fst f ∧ json_eqv (snd e) (snd f)) p n →
  entry p name = Some o → ∃ o', entry n name = Some o' ∧ option_Forall2 json_eqv o o'.
Proof.
  intros Hf. revert o. induction Hf as [|[k v] [k' w] p n [Hk Hv] _ IH]; intros o.
  - intros [= <-]. exists None. split; [done|constructor].
  - cbn in Hk, Hv. subst k'. rewrite !entry_cons. destruct (str_eqb k name); [|apply IH].
    destruct (entry p name) as [[x|]|]; try done. intros [= <-].
    destruct (IH None eq_refl) as (o' & -> & Ho). inversion Ho; subst. eexists. split; [done|].
    by constructor.
Qed.
Lemma known_eqv names p n :
  Forall2 (λ e f : str * Value, fst e = fst f ∧ json_eqv (snd e) (snd f)) p n →
  known names p = known names n.
Proof.
  unfold known. induction 1 as [|e f p n [Hk _] _ IH]; [done|]. cbn [forallb]. by rewrite Hk, IH.
Qed.
Lemma fields_eqv deny names v w fs :
  json_eqv v w → fields deny names v = Some fs →
  ∃ gs, fields deny names w = Some gs ∧ Forall2 (option_Forall2 json_eqv) fs gs.
Proof.
  assert (∀ l : list (option Value), Forall2 (option_Forall2 json_eqv) l l) as Hrefl.
  { intros l. apply Forall_Forall2_diag, Forall_true. intros [v'|]; constructor. reflexivity. }
  intros [v'|l k Hl|m p n Hp Hf].
  - eauto.
  - cbn. rewrite <-(Forall2_length _ _ _ Hl). destruct (_ =? _)%nat; [|done]. intros [= <-].
    eexists. split; [done|]. apply Forall2_fmap. eapply Forall2_impl; [exact Hl|].
    intros x y Hxy. by constructor.
  - rewrite (fields_perm _ _ _ _ Hp). cbn [fields]. rewrite (known_eqv _ _ _ Hf).
    destruct (_ && _); [done|]. clear Hp m. revert fs. induction names as [|name names IH]; intros fs.
    + intros [= <-]. exists []. split; [done|constructor].
    + cbn [mapM]. intros (o & Ho & Hr)%bind_Some. apply bind_Some in Hr as (rest & Hrest & [= <-]).
      destruct (entry_eqv _ _ _ _ Hf Ho) as (o' & -> & Hoo). destruct (IH _ Hrest) as (gs & Hgs & Hr).
      cbn. rewrite Hgs. cbn. eexists. split; [done|]. by constructor.
Qed.
(** The scalars are leaves, which have one form. *)
Lemma leaf_order_free {A} (decode : Value → option A) :
  (∀ v a, decode v = Some a → match v with VArray _ | VObject _ => False | _ => True end) →
  order_free decode.
Proof.
  intros Hleaf v w a Hvw Hd. specialize (Hleaf _ _ Hd). by destruct Hvw.
Qed.
Lemma list_order_free {A} (decode : Value → option A) :
  order_free decode → order_free (decode_list decode).
Proof.
  intros Hd v w a [v'|l k Hl|m p n _ _]; [done| |done]. cbn. revert a.
  induction Hl as [|x y l k Hxy _ IH]; intros a; [done|]. cbn.
  intros (b & Hb & Hr)%bind_Some. apply bind_Some in Hr as (rest & Hrest & [= <-]).
  rewrite (Hd _ _ _ Hxy Hb), (IH _ Hrest). done.
Qed.
Lemma required_eqv {A} (decode : Value → option A) o o' a :
  order_free decode → option_Forall2 json_eqv o o' → required decode o = Some a →
  required decode o' = Some a.
Proof. intros Hd [x y Hxy|]; [|done]. by apply Hd. Qed.
Lemma optional_eqv {A} (decode : Value → option A) o o' a :
  order_free decode → option_Forall2 json_eqv o o' → optional decode o = Some a →
  optional decode o' = Some a.
Proof.
  intros Hd [x y Hxy|]; [|done].
  assert (Some <$> decode x = Some a → Some <$> decode y = Some a) as Hmap.
  { intros (b & Hb & ->)%fmap_Some. by rewrite (Hd _ _ _ Hxy Hb). }
  destruct Hxy as [v|l k Hl|m p n Hp Hf]; done || by apply Hmap.
Qed.
Lemma optional_value_eqv o o' a :
  option_Forall2 json_eqv o o' → optional Some o = Some a →
  ∃ a', optional Some o' = Some a' ∧ option_Forall2 json_eqv a a'.
Proof.
  intros [x y Hxy|]; [|intros [= <-]; exists None; split; [done|constructor]].
  destruct Hxy as [v|l k Hl|m p n Hp Hf].
  - intros Ho. exists a. split; [done|]. destruct a; constructor. reflexivity.
  - intros [= <-]. eexists. split; [done|]. constructor. by constructor.
  - intros [= <-]. eexists. split; [done|]. constructor. by econstructor.
Qed.

Section order_free.
Context `{UuidText} `{JsonScalars}.
Lemma decode_string_free : order_free decode_string.
Proof. apply leaf_order_free. by intros []. Qed.
Lemma decode_bool_free : order_free decode_bool.
Proof. apply leaf_order_free. by intros []. Qed.
Lemma decode_uint_free max : order_free (decode_uint max).
Proof. apply leaf_order_free. by intros []. Qed.
Lemma decode_uuid_free : order_free decode_uuid.
Proof. apply leaf_order_free. by intros []. Qed.
Lemma decode_time_free : order_free decode_time.
Proof. apply leaf_order_free. by intros []. Qed.
Lemma decode_f32_free : order_free decode_f32.
Proof. apply leaf_order_free. by intros []. Qed.
Hint Resolve decode_string_free decode_bool_free decode_uint_free decode_uuid_free
  decode_time_free decode_f32_free list_order_free : eal.

(** Read a struct whose fields are read without seeing the order. *)
Ltac read_eqv Hvw :=
  match goal with
  | E : fields _ _ _ = Some _ |- _ =>
      destruct (fields_eqv _ _ _ _ _ Hvw E) as (? & -> & ?); cbn [mbind option_bind];
      repeat match goal with
      | F : Forall2 _ (_ :: _) _ |- _ => apply Forall2_cons_inv_l in F as (? & ? & ? & F & ->)
      | F : Forall2 _ [] _ |- _ => apply Forall2_nil_inv_l in F as ->
      end;
      repeat match goal with
      | Ho : option_Forall2 json_eqv ?o ?p, R : required ?d ?o = Some _ |- _ =>
          rewrite (required_eqv d o p _ ltac:(eauto with eal) Ho R); clear R; cbn [mbind option_bind]
      | Ho : option_Forall2 json_eqv ?o ?p, R : optional ?d ?o = Some _ |- _ =>
          rewrite (optional_eqv d o p _ ltac:(eauto with eal) Ho R); clear R; cbn [mbind option_bind]
      end
  end.
Ltac inv_reads :=
  repeat match goal with
  | Hr : (_ ≫= _) = Some _ |- _ => apply bind_Some in Hr; destruct Hr as (? & ? & Hr)
  | Hr : match ?l with [] => None | _ => _ end = Some _ |- _ =>
      is_var l; destruct l; [discriminate Hr|]
  | Hr : match ?l with [] => _ | _ :: _ => None end = Some _ |- _ =>
      is_var l; destruct l; [|discriminate Hr]
  end.
Lemma alert_order_free : order_free decode_alert_rule.
Proof.
  intros v w r Hvw. unfold decode_alert_rule. intros Hd. inv_reads. read_eqv Hvw. exact Hd.
Qed.
Lemma operation_order_free : order_free decode_operation.
Proof.
  intros v w r Hvw. unfold decode_operation. intros Hd. inv_reads. read_eqv Hvw. exact Hd.
Qed.
Hint Resolve operation_order_free : eal.
Lemma command_order_free : order_free decode_command.
Proof.
  intros v w r Hvw. unfold decode_command. intros Hd. inv_reads. read_eqv Hvw. exact Hd.
Qed.
Lemma authenticated_order_free : order_free decode_authenticated.
Proof.
  intros v w r Hvw. unfold decode_authenticated. intros Hd. inv_reads. read_eqv Hvw. exact Hd.
Qed.
(** A reply keeps its result up to the order of entries. *)
Definition reply_eqv (r s : OperationReply) : Prop :=
  reply_operation_id r = reply_operation_id s ∧ reply_status r = reply_status s ∧
  reply_error r = reply_error s ∧ option_Forall2 json_eqv (reply_result r) (reply_result s).
Lemma reply_eqv_read v w r :
  json_eqv v w → decode_reply v = Some r → ∃ s, decode_reply w = Some s ∧ reply_eqv r s.
Proof.
  intros Hvw. unfold decode_reply. intros Hd. inv_reads. read_eqv Hvw.
  match goal with Ho : option_Forall2 json_eqv ?o ?p, R : optional Some ?o = Some _ |- _ =>
    destruct (optional_value_eqv _ _ _ Ho R) as (result & -> & Hres) end.
  injection Hd as <-. cbn [mbind option_bind]. eexists. by split; [done|].
Qed.
Lemma event_eqv_read v w e :
  json_eqv v w → decode_event v = Some e →
  ∃ r, decode_event w = Some (mk_event (ev_event_id e) (ev_correlation_id e) (ev_dedupe_key e)
    (Envelope.ev_product_tenant e) (ev_subject e) r) ∧ reply_eqv (ev_reply e) r.
Proof.
  intros Hvw. unfold decode_event. intros Hd. inv_reads. read_eqv Hvw.
  match goal with Ho : option_Forall2 json_eqv ?o ?p, R : required decode_reply ?o = Some _ |- _ =>
    destruct Ho as [va vb Hab|]; [|discriminate R];
    destruct (reply_eqv_read _ _ _ Hab R) as (s & Hs & Hrs) end.
  injection Hd as <-. cbn [required mbind option_bind]. rewrite Hs. cbn. by exists s.
Qed.
End order_free.

(** ** A concrete codec

    Not JSON, but a codec with the laws above, for the examples: tags, lengths and items. *)

Module Tagged.
Section induction.
Context (P : Value → Prop).
Context (Hnull : P VNull) (Hbool : ∀ b, P (VBool b)) (Hnumber : ∀ s, P (VNumber s))
  (Hstring : ∀ s, P (VString s)) (Harray : ∀ l, Forall P l → P (VArray l))
  (Hobject : ∀ m, Forall (λ e, P (snd e)) m → P (VObject m)).
Fixpoint value_ind (v : Value) : P v :=
  match v with
  | VNull => Hnull
  | VBool b => Hbool b
  | VNumber s => Hnumber s
  | VString s => Hstring s
  | VArray l => Harray l ((fix go l : Forall P l := match l with
      | [] => Forall_nil_2 _
      | v :: l => Forall_cons_2 _ v l (value_ind v) (go l)
      end) l)
  | VObject m => Hobject m ((fix go m : Forall (λ e, P (snd e)) m := match m with
      | [] => Forall_nil_2 _
      | e :: m => Forall_cons_2 _ e m (value_ind (snd e)) (go m)
      end) m)
  end.
End induction.

Definition text (s : str) : list N := N.of_nat (length s) :: s.
Fixpoint code (v : Value) : list N :=
  match v with
  | VNull => [0]
  | VBool b => [1; if b then 1 else 0]
  | VNumber s => 2 :: text s
  | VString s => 3 :: text s
  | VArray l => 4 :: N.of_nat (length l) :: flat_map code l
  | VObject m => 5 :: N.of_nat (length m) :: flat_map (λ e, text (fst e) ++ code (snd e)) m
  end.
Definition untext (b : list N) : option (str * list N) :=
  match b with
  | k :: b => if (length b <? N.to_nat k)%nat then None
              else Some (take (N.to_nat k) b, drop (N.to_nat k) b)
  | [] => None
  end.
Fixpoint items {A} (parse : list N → option (A * list N)) (k : nat) (b : list N)
    : option (list A * list N) :=
  match k with
  | O => Some ([], b)
  | S k => '(x, b) ← parse b; '(l, b) ← items parse k b; Some (x :: l, b)
  end.
Fixpoint parse (n : nat) (b : list N) : option (Value * list N) :=
  match n with
  | O => None
  | S n =>
      match b with
      | 0 :: b => Some (VNull, b)
      | 1 :: x :: b => Some (VBool (x =? 1), b)
      | 2 :: b => '(s, b) ← untext b; Some (VNumber s, b)
      | 3 :: b => '(s, b) ← untext b; Some (VString s, b)
      | 4 :: k :: b => '(l, b) ← items (parse n) (N.to_nat k) b; Some (VArray l, b)
      | 5 :: k :: b =>
          '(m, b) ← items (λ b, '(s, b) ← untext b; '(v, b) ← parse n b; Some ((s, v), b))
                      (N.to_nat k) b;
          Some (VObject m, b)
      | _ => None
      end
  end.
Definition decode (b : list N) : option Value :=
  match parse (length b) b with Some (v, []) => Some v | _ => None end.

Lemma untext_text s r : untext (text s ++ r) = Some (s, r).
Proof.
  unfold untext, text. cbn [app]. rewrite Nat2N.id, length_app.
  rewrite (proj2 (Nat.ltb_ge _ _)) by lia. by rewrite take_app_length, drop_app_length.
Qed.
Lemma items_flat {A} (p : list N → option (A * list N)) (c : A → list N) l r :
  Forall (λ x, ∀ r, p (c x ++ r) = Some (x, r)) l →
  items p (length l) (flat_map c l ++ r) = Some (l, r).
Proof.
  induction 1 as [|x l Hx _ IH]; [done|]. cbn. rewrite <-app_assoc, Hx. cbn. by rewrite IH.
Qed.
Lemma flat_map_length {A} (c : A → list N) (l : list A) x :
  x ∈ l → (length (c x) <= length (flat_map c l))%nat.
Proof.
  induction l as [|y l IH]; [by intros ?%elem_of_nil|]. cbn. rewrite length_app.
  intros [->|Hin]%elem_of_cons; [lia|]. specialize (IH Hin). lia.
Qed.
Lemma parse_code v : ∀ n r, (length (code v) <= n)%nat → parse n (code v ++ r) = Some (v, r).
Proof.
  induction v as [|b|s|s|l IH|m IH] using value_ind; intros [|n] r Hn; try (cbn in Hn; lia).
  - done.
  - by destruct b.
  - change (('(s, b) ← untext (text s ++ r); Some (VNumber s, b)) = Some (VNumber s, r)).
    by rewrite untext_text.
  - change (('(s, b) ← untext (text s ++ r); Some (VString s, b)) = Some (VString s, r)).
    by rewrite untext_text.
  - cbn [code length] in Hn. cbn [code app parse]. rewrite Nat2N.id, items_flat; [done|].
    apply Forall_forall. intros x Hx r'. rewrite Forall_forall in IH. apply IH; [done|].
    pose proof (flat_map_length code l x Hx). lia.
  - cbn [code length] in Hn. cbn [code app parse]. rewrite Nat2N.id, items_flat; [done|].
    apply Forall_forall. intros [k v] Hx r'. rewrite Forall_forall in IH.
    cbn [fst snd]. rewrite <-app_assoc, untext_text. cbn.
    rewrite (IH _ Hx); [done|]. cbn.
    pose proof (flat_map_length (λ e, text (fst e) ++ code (snd e)) m _ Hx) as Hl.
    cbn [fst snd] in Hl. rewrite length_app in Hl. lia.
Qed.
Lemma decode_code v : decode (code v) = Some v.
Proof.
  unfold decode. pose proof (parse_code v (length (code v)) []) as Hp. rewrite app_nil_r in Hp.
  by rewrite Hp.
Qed.

(** Floats and times as numbers. *)
Definition z_text (z : Z) : str := (if (z <? 0)%Z then [45] else [43]) ++ display_uint (Z.abs_N z).
Definition text_z (s : str) : option Z :=
  match s with
  | 45 :: s => (λ n, - Z.of_N n)%Z <$> (N.of_uint <$> str_uint s)
  | 43 :: s => Z.of_N <$> (N.of_uint <$> str_uint s)
  | _ => None
  end.
Lemma text_z_text z : text_z (z_text z) = Some z.
Proof.
  unfold z_text, text_z, display_uint. destruct (Z.ltb_spec z 0); cbn; rewrite str_uint_inv; cbn;
    rewrite DecimalN.Unsigned.of_to; f_equal; lia.
Qed.
Definition float_text (x : f32) : str :=
  match x with
  | S754_finite s m e => [if s then 1 else 0; Npos m] ++ z_text e
  | S754_zero s => [if s then 1 else 0]
  | _ => []
  end.
Definition text_float (t : str) : option f32 :=
  x ← match t with
      | [s] => Some (S754_zero (s =? 1))
      | s :: Npos m :: e => S754_finite (s =? 1) m <$> text_z e
      | _ => None
      end;
  if f32_valid x then Some x else None.
Module Instances.
#[export] Instance json_scalars : JsonScalars :=
  {| f32_number := float_text; f64_number := float_text; number_f32 := text_float;
     time_display := z_text; time_parse := text_z |}.
#[export] Instance json_scalars_laws : JsonScalarsLaws.
Proof.
  assert (∀ x, f32_valid x = true → is_finite x = true → text_float (float_text x) = Some x) as Hfloat.
  { intros x Hv Hf.
    assert (∀ s : bool, ((if s then 1 else 0) =? 1) = s) as Hs by (by intros []).
    unfold text_float. destruct x as [s|s| |s m e]; try done; cbn [float_text app].
    + by destruct s.
    + rewrite text_z_text, Hs. cbn [fmap option_fmap option_map mbind option_bind]. by rewrite Hv. }
  split; [exact Hfloat|exact Hfloat| |].
  - intros t x. cbn. unfold text_float. intros (y & _ & Hy)%bind_Some.
    destruct (f32_valid y) eqn:E; [|done]. by injection Hy as <-.
  - intros t _. apply text_z_text.
Qed.
#[export] Instance json_text : JsonText := {| json_print v := Some (code v); json_parse := decode |}.
Lemma sum_flat_map {A} (f : A → nat) (c : A → list N) (l : list A) :
  Forall (λ x, f x <= length (c x))%nat l → (sum_list_with f l <= length (flat_map c l))%nat.
Proof. induction 1 as [|x l Hx _ IH]; cbn; [done|]. rewrite length_app. lia. Qed.
Lemma code_length v : (string_chars v <= length (code v))%nat.
Proof.
  induction v as [|b|s|s|l IH|m IH] using value_ind; cbn [string_chars code length text]; try lia.
  - by apply le_S, le_S, sum_flat_map.
  - apply le_S, le_S, sum_flat_map. eapply Forall_impl; [exact IH|].
    intros e He. cbn beta in He |- *. rewrite length_app. lia.
Qed.
#[export] Instance json_text_laws : JsonTextLaws.
Proof. split; intros v b [= <-]; [apply decode_code|apply code_length]. Qed.
End Instances.
End Tagged.

(** ** Properties *)

Section properties.
Context `{UuidTextLaws} `{JsonScalarsLaws}.

(** C24: what is written is read back.  Commands, TCP requests, listings and reply events survive
    the way through JSON, written directly or as a [Value], also when the entries of the objects
    come back in another order, as [jsonb] gives them: integers within their width, finite
    floats (as [f32] and as [f64]) and times of the years 0 to 9999 are read as they were. *)
Theorem wire_roundtrip :
  (∀ c w, operation_sized (cmd_operation c) → json_eqv (encode_command c) w →
     decode_command w = Some c) ∧
  (∀ r w, operation_sized (envelope r) → json_eqv (encode_authenticated r) w →
     decode_authenticated w = Some r) ∧
  (∀ l w, Forall alert_sized l →
     json_eqv (encode_alert_list l) w ∨ json_eqv (encode_alerts l) w →
     decode_list decode_alert_rule w = Some l) ∧
  (∀ e w, reply_sized (ev_reply e) → json_eqv (encode_event e) w →
     ∃ r, decode_event w = Some (mk_event (ev_event_id e) (ev_correlation_id e) (ev_dedupe_key e)
       (Envelope.ev_product_tenant e) (ev_subject e) r) ∧ reply_eqv (ev_reply e) r) ∧
  (∀ e w, reply_sized (ev_reply e) → reply_tree (ev_reply e) →
     json_eqv (to_value (encode_event e)) w →
     ∃ r, decode_event w = Some (mk_event (ev_event_id e) (ev_correlation_id e) (ev_dedupe_key e)
       (Envelope.ev_product_tenant e) (ev_subject e) r) ∧ reply_eqv (ev_reply e) r).
Proof.
  split; [|split; [|split; [|split]]].
  - intros c w Hc Hw. by eapply command_order_free, command_roundtrip.
  - intros r w Hr Hw. by eapply authenticated_order_free, authenticated_roundtrip.
  - intros l w Hl [Hw|Hw]; [by eapply (list_order_free _ alert_order_free), alert_list_roundtrip|].
    by eapply (list_order_free _ alert_order_free), alerts_roundtrip.
  - intros e w He Hw. by eapply event_eqv_read, event_roundtrip.
  - intros e w He Ht Hw. by eapply event_eqv_read, event_value_roundtrip.
Qed.

(** C25: the requests of the outside are read strictly.  A JSON object is taken as a command, a
    TCP request or an operation only with exactly its fields, none repeated, missing or
    unknown, and with a version of 8 and a deadline of 64 bits; as an alert rule only with
    known fields, none repeated, of which the two lists may be missing and are empty then, and
    with a binary32 threshold. *)
Theorem requests_are_strict m :
  (∀ c, decode_command (VObject m) = Some c →
     m.*1 ≡ₚ command_fields ∧ operation_sized (cmd_operation c)) ∧
  (∀ r, decode_authenticated (VObject m) = Some r →
     m.*1 ≡ₚ authenticated_fields ∧ operation_sized (envelope r)) ∧
  (∀ o, decode_operation (VObject m) = Some o → m.*1 ≡ₚ operation_fields ∧ operation_sized o) ∧
  (∀ c, decode_create (VObject m) = Some c →
     NoDup m.*1 ∧ (∀ n, n ∈ m.*1 → n ∈ create_fields) ∧ (∀ n, n ∈ create_required → n ∈ m.*1) ∧
     f32_valid (ca_similarity_threshold c) = true ∧
     (lit "source_filters" ∉ m.*1 → ca_source_filters c = []) ∧
     (lit "delivery_channels" ∉ m.*1 → ca_delivery_channels c = [])).
Proof.
  split; [|split; [|split]].
  - apply command_strict.
  - apply authenticated_strict.
  - intros o Ho. split; [by eapply operation_strict|by eapply decode_operation_sized].
  - apply create_strict.
Qed.

(** The scope of an event does not reach the client: events of the same alert and kind have the
    same payload. *)
Lemma scoped_event_hides_scope tenant owner tenant' owner' kind alert :
  encode_scoped_event (mk_scoped_event tenant owner kind alert) =
  encode_scoped_event (mk_scoped_event tenant' owner' kind alert).
Proof. done. Qed.
End properties.

(** ** Examples *)

Import CanonicalInstances SampleCommand Tagged.Instances.
Lemma wire_roundtrip_witness :
  operation_sized (cmd_operation SampleCommand.command) ∧
  decode_command (encode_command SampleCommand.command) = Some SampleCommand.command.
Proof.
  assert (operation_sized (cmd_operation SampleCommand.command)) as Hs by (split; by vm_compute).
  split; [exact Hs|]. apply (proj1 wire_roundtrip); [exact Hs|reflexivity].
Defined.
Definition sample_object : list (str * Value) :=
  [(lit "enabled", VBool true); (lit "name", VString (lit "Releases"));
   (lit "query_text", VString (lit "q")); (lit "embedding_model", VString (lit "m"));
   (lit "similarity_threshold", encode_f32 f32_one)].
Lemma requests_are_strict_witness :
  ∃ c, decode_create (VObject sample_object) = Some c ∧
    ca_source_filters c = [] ∧
    decode_create (VObject ((lit "owner", VNull) :: sample_object)) = None.
Proof.
  assert (is_some (decode_create (VObject sample_object)) = true) as Hc by (by vm_compute).
  destruct (decode_create (VObject sample_object)) as [c|] eqn:E; [|done].
  exists c. split; [done|]. split; [|by vm_compute].
  destruct (requests_are_strict sample_object) as (_ & _ & _ & Hcreate).
  apply (Hcreate c E). apply (bool_decide_unpack (lit "source_filters" ∉ sample_object.*1)).
  by vm_compute.
Defined.
