(* ===== verification/Http.v ===== *)
(** * HTTP on the wire

    The API of [src/lib.rs] as a client meets it: bytes in, bytes out.  The bodies of the
    responses are written by the derives of [Wire]; what axum's [Json] and [Path] extractors do
    before a handler is documented behaviour, stated as laws.  The file composes them with the
    router and the store to the round trips a client relies on. *)

From S2P Require Import Prelude Str Float Ids Model Auth Database Store Repository Envelope.
From S2P Require Import Commands Outbox Jetstream Tcp Api Wire.
Open Scope N_scope.

(** ** Bodies *)

Section bodies.
Context `{UuidText} `{JsonScalars} `{JsonText}.
(** [serde_json::json!({ "error": self.to_string() })]. *)
Definition encode_error (message : str) : Value := object [lit "error"] [VString message].
(** The value a handler's [Json] wraps; the capabilities are a value of another crate, and
    rejections and upgrades are written by axum. *)
Definition body_value (b : Body) : option Value :=
  match b with
  | BodyHealth h => Some (encode_health h)
  | BodyAlerts l => Some (encode_alert_list l)
  | BodyAlert r => Some (encode_alert r)
  | BodyError message => Some (encode_error message)
  | BodyCapabilities | BodyUpgrade _ | BodyRejection | BodyEmpty => None
  end.
Definition body_bytes (b : Body) : option (list N) := body_value b ≫= json_print.

(** What a client reads: the status and the body. *)
Definition client_reads {A} (decode : Value → option A) (r : Response) : option (N * A) :=
  b ← body_bytes (body r); v ← json_parse b; a ← decode v; Some (code r, a).
Definition decode_error (v : Value) : option str :=
  match v with
  | VObject [(name, VString message)] => if str_eqb name (lit "error") then Some message else None
  | _ => None
  end.
End bodies.

(** The documented behaviour of axum's extractors and of [serde_json]: [Json<CreateAlertRule>]
    takes a body within the limit whose content type is JSON and which decodes; [Path<Uuid>]
    takes a segment that parses; writing a tree never fails. *)
Class AxumLaws `{UuidText, JsonScalars, JsonText, Http, !Axum} := {
  is_json : HeaderMap → bool;
  json_extract_Ok_iff limit h b i :
    json_extract limit h b = Ok i ↔
    is_json h = true ∧ N.of_nat (length b) <= limit ∧ json_parse b ≫= decode_create = Some i;
  path_uuid_Ok_iff s u : path_uuid s = Ok u ↔ uuid_parse s = Some u;
  uuid_display_segment u : uuid_display u ≠ [] ∧ 47 ∉ uuid_display u;
  json_print_total v : is_Some (json_print v);
}.

Section http.
Context `{SharedAuth} `{UuidTextLaws} `{JsonScalarsLaws} `{JsonTextLaws} `{Http} `{!Axum} `{!AxumLaws}.

(** ** Lemmas *)

Lemma read_value v : ∃ b, json_print v = Some b ∧ json_parse b = Some v.
Proof. destruct (json_print_total v) as [b Hb]. exists b. split; [done|]. by apply json_roundtrip. Qed.
Lemma client_reads_value {A} (decode : Value → option A) (r : Response) v a :
  body_value (body r) = Some v → decode v = Some a → client_reads decode r = Some (code r, a).
Proof.
  intros Hv Hd. unfold client_reads, body_bytes. rewrite Hv. cbn [mbind option_bind].
  destruct (read_value v) as (b & -> & Hb). cbn [mbind option_bind]. rewrite Hb. cbn [mbind option_bind]. by rewrite Hd.
Qed.
Lemma client_reads_alert status r :
  alert_sized r →
  client_reads decode_alert_rule (mk_response status (BodyAlert r)) = Some (status, r).
Proof. intros Hr. eapply client_reads_value; [done|]. by apply alert_roundtrip. Qed.
Lemma client_reads_alerts status l :
  Forall alert_sized l →
  client_reads (decode_list decode_alert_rule) (mk_response status (BodyAlerts l)) = Some (status, l).
Proof. intros Hl. eapply client_reads_value; [done|]. by apply alert_list_roundtrip. Qed.
Lemma client_reads_error e :
  client_reads decode_error (into_response e) = Some (api_error_status e, api_error_message e).
Proof. eapply client_reads_value; [done|]. cbn. by destruct e. Qed.
End http.

Section store_http.
Context `{SharedAuth} `{UuidTextLaws} `{JsonScalarsLaws} `{JsonTextLaws} `{Http} `{!Axum} `{!AxumLaws}.
Context `{StorageLaws} `{HashMapIter}.
Implicit Types s : AppState (R := AlertStore).

(** The request a client makes to create a rule. *)
Definition post_alert (h : HeaderMap) (b : list N) : HttpRequest :=
  mk_request POST (lit "/v1/alerts") h b.
Definition get_alerts (h : HeaderMap) : HttpRequest := mk_request GET (lit "/v1/alerts") h [].
Definition get_alert_by (h : HeaderMap) (id : Uuid) : HttpRequest :=
  mk_request GET (lit "/v1/alerts/" ++ uuid_display id) h [].

Lemma router_post x s h b c a :
  json_extract MAX_JSON_BODY_BYTES h b = Ok c →
  verify_authorization (app_auth s) h WRITE_SCOPE (sv_clock x) = Ok a →
  validate c = Ok tt →
  router x (post_alert h b) s =
    (let '(r, store) := create (sv_link x) (sv_now x) (sv_fresh x) (app_store s) a c in
     (created_response r, after_create s a r store)).
Proof.
  intros Hj Ha Hv. unfold router, dispatch. change (route _) with (Some RouteAlerts). cbn match.
  cbn [method post_alert content headers]. rewrite Hj. unfold create_alert, authorize.
  rewrite Ha. cbn [map_err]. rewrite Hv. cbn [repo_create alert_store_repo].
  by destruct (create _ _ _ _ _ _) as [[r|e] store].
Qed.
Lemma router_list x s h a :
  verify_authorization (app_auth s) h READ_SCOPE (sv_clock x) = Ok a →
  router x (get_alerts h) s =
    (match list_alerts (sv_link x) (app_store s) a with
     | Ok l => mk_response 200 (BodyAlerts l)
     | Err _ => into_response ApiUnavailable
     end, s).
Proof.
  intros Ha. unfold router, dispatch. change (route _) with (Some RouteAlerts). cbn match.
  cbn [method get_alerts headers]. unfold api_list_alerts, authorize. rewrite Ha.
  cbn [map_err mbind result_bind repo_list alert_store_repo]. by destruct (list_alerts _ _ _).
Qed.
Lemma router_get_by x s h id a :
  verify_authorization (app_auth s) h READ_SCOPE (sv_clock x) = Ok a →
  router x (get_alert_by h id) s =
    (match get (sv_link x) (app_store s) a id with
     | Ok (Some r) => mk_response 200 (BodyAlert r)
     | Ok None => into_response ApiNotFound
     | Err _ => into_response ApiUnavailable
     end, s).
Proof.
  intros Ha. destruct (uuid_display_segment id) as [Hne Hsl]. unfold router, dispatch.
  cbn [path get_alert_by]. rewrite route_alert by done. cbn [method get_alert_by is_get negb headers].
  rewrite (proj2 (path_uuid_Ok_iff _ _) (parse_display id)). unfold get_alert, authorize. rewrite Ha.
  cbn [map_err mbind result_bind repo_get alert_store_repo]. by destruct (get _ _ _ _) as [[r|]|].
Qed.
(** A creation with the database up or without one succeeds. *)
Lemma create_up now fresh self a c :
  create_ok c → f32_valid (ca_similarity_threshold c) = true → fresh_in self a fresh →
  1 <= N.of_nat (length (product_tenant a)) <= 64 →
  ∃ self', create LinkUp now fresh self a c = (Ok (into_rule c fresh now), self') ∧
    inserted self a (into_rule c fresh now) self'.
Proof.
  intros Hc Hf Hfresh Ht.
  assert (∃ self', create LinkUp now fresh self a c = (Ok (into_rule c fresh now), self')) as [s' E].
  { unfold fresh_in in Hfresh. destruct (database self) as [db|] eqn:Hd.
    - by apply (create_database_up _ _ _ _ _ db).
    - unfold create. rewrite (proj2 (validate_create_ok _) Hc), Hd. eauto. }
  exists s'. split; [exact E|].
  destruct (create_cases _ _ _ _ _ _ _ _ E) as [[_ [e [=]]]|(_ & Hins & _)]. exact Hins.
Qed.
End store_http.

(** ** Specification: why a request fails *)


Section causes.
Context `{SharedAuth} `{Http} `{UuidText} `{!Axum} {R : Type} `{!AlertRepo R}.






End causes.

(** ** Properties *)

Section properties.
Context `{SharedAuth} `{UuidTextLaws} `{JsonScalarsLaws} `{JsonTextLaws} `{Http} `{!Axum} `{!AxumLaws}.



Context `{StorageLaws} `{HashMapIter}.
(** C14: what a client posts it reads back.  The bytes of a valid rule, posted as JSON within 32
    KiB by an actor who may write, are answered with 201 and the bytes of the normalised rule;
    then the actor's listing and its reading of the new id, over any session that may read,
    are bytes that decode to it (with the precision of the store) next to all its other alerts. *)
Theorem http_create_then_read x y (s : AppState (R := AlertStore)) h g b c a :
  store_wf (app_store s) → fresh_in (app_store s) a (sv_fresh x) →
  (length (abs (app_store s) a) < 100)%nat → Forall alert_sized (abs (app_store s) a) →
  1 <= N.of_nat (length (product_tenant a)) <= 64 →
  validate c = Ok tt → create_sized c → json_print (encode_create c) = Some b →
  N.of_nat (length b) <= MAX_JSON_BODY_BYTES → is_json h = true →
  verify_authorization (app_auth s) h WRITE_SCOPE (sv_clock x) = Ok a →
  verify_authorization (app_auth s) g READ_SCOPE (sv_clock y) = Ok a →
  sv_link x = LinkUp → sv_link y = LinkUp →
  time_valid (sv_now x) = true → time_valid (store_time (sv_now x)) = true →
  let rule := into_rule c (sv_fresh x) (sv_now x) in
  let seen := stored (app_store s) rule in
  let '(created, s') := router x (post_alert h b) s in
  client_reads decode_alert_rule created = Some (201, rule) ∧
  (∃ l, client_reads (decode_list decode_alert_rule) (fst (router y (get_alerts g) s')) = Some (200, l) ∧
     l ≡ₚ seen :: abs (app_store s) a) ∧
  client_reads decode_alert_rule (fst (router y (get_alert_by g (sv_fresh x)) s')) = Some (200, seen).
Proof.
  intros Hwf Hfresh Hlen Hall Ht Hv [Hf Hfin] Hb Hsize Hjson Hw Hr Hlx Hly Hn Hsn rule seen.
  assert (json_extract MAX_JSON_BODY_BYTES h b = Ok c) as Hj.
  { apply json_extract_Ok_iff. split_and!; [done..|]. rewrite (json_roundtrip _ _ Hb). by apply create_roundtrip. }
  apply validate_create_ok in Hv as Hok.
  destruct (create_up (sv_now x) (sv_fresh x) (app_store s) a c Hok Hf Hfresh Ht) as (self' & Hc & Hins).
  rewrite (router_post x s h b c a Hj Hw Hv), Hlx, Hc. cbn [created_response].
  pose proof (into_rule_ok _ (sv_fresh x) (sv_now x) Hok) as Hrule.
  pose proof (inserted_abs_own _ _ _ _ Hrule Hf Hfresh Hins) as Habs.
  pose proof (inserted_wf _ _ _ _ Hwf Hrule Hf Hins) as Hwf'. fold rule in Habs. fold seen in Habs.
  assert (alert_sized rule ∧ alert_sized seen) as [Hs1 Hs2].
  { split; [by repeat split|]. unfold seen, stored. destruct (database (app_store s)); by repeat split. }
  assert (length (abs self' a) <= 100)%nat as Hlen' by (rewrite Habs; cbn; lia).
  split; [by apply client_reads_alert|]. split.
  - exists (abs self' a). split; [|exact Habs]. rewrite (router_list y _ g a) by exact Hr.
    rewrite Hly. cbn [app_store after_create fst]. rewrite list_alerts_complete by done.
    apply client_reads_alerts. rewrite Habs. by constructor.
  - rewrite (router_get_by y _ g _ a) by exact Hr. rewrite Hly. cbn [app_store after_create fst].
    rewrite get_abs by done. rewrite (find_perm_NoDup _ _ _ Habs).
    + cbn [find]. rewrite bool_decide_eq_true_2; [by apply client_reads_alert|].
      unfold seen, stored. by destruct (database (app_store s)).
    + intros r r' Hin Hin' E%bool_decide_eq_true F%bool_decide_eq_true.
      apply (abs_id_unique self' a); [done..|congruence].
Qed.
End properties.

(** ** Examples *)

Import CanonicalInstances Sample.Instances SampleStorage SampleStorage.Instances
  Tagged.Instances.

Module SampleHttp.
(** Extractors with the laws above. *)
Definition extract (limit : N) (h : HeaderMap) (b : list N) : result N CreateAlertRule :=
  if limit <? N.of_nat (length b) then Err 413 else ok_or (json_parse b ≫= decode_create) 422.
Lemma extract_Ok limit h b i :
  extract limit h b = Ok i ↔
  true = true ∧ N.of_nat (length b) <= limit ∧ json_parse b ≫= decode_create = Some i.
Proof. unfold extract. rewrite guard_Ok_iff, ok_or_Ok_iff, N.ltb_ge. tauto. Qed.
Lemma decode_create_f32 v i : decode_create v = Some i → f32_valid (ca_similarity_threshold i) = true.
Proof.
  destruct v as [| | | |l|m]; [done..| |intros Hd; by apply create_strict in Hd as (_ & _ & _ & ? & _)].
  unfold decode_create. cbn [fields]. destruct (_ =? _)%nat; [|done]. cbn [mbind option_bind].
  destruct l as [|v1 [|v2 [|v3 [|v4 [|v5 [|v6 [|v7 [|]]]]]]]]; cbn [fmap list_fmap]; try done.
  intros Hd. repeat (apply bind_Some in Hd as (? & ? & Hd)). injection Hd as <-.
  cbn [ca_similarity_threshold]. match goal with E : required decode_f32 _ = Some _ |- _ =>
    cbn [required mbind option_bind] in E; destruct v4; try discriminate E;
    by eapply number_f32_valid end.
Qed.
Lemma extract_f32 limit h b i :
  extract limit h b = Ok i → f32_valid (ca_similarity_threshold i) = true.
Proof. intros (_ & _ & Hd)%extract_Ok. apply bind_Some in Hd as (v & _ & Hd). by eapply decode_create_f32. Qed.
Module Instances.
#[export] Instance axum : Axum := {|
  json_extract := extract; json_extract_f32 := extract_f32;
  path_uuid s := ok_or (uuid_parse s) 400;
  ws_extract m h := match m with GET => Ok tt | _ => Err 405 end;
|}.
#[export] Instance axum_laws : AxumLaws.
Proof.
  refine {| is_json _ := true |}.
  - apply extract_Ok.
  - intros s u. apply ok_or_Ok_iff.
  - intros u. split.
    + by intros [=].
    + assert (Forall (λ c, c ≠ 47) (Canonical.display u)) as F
        by (apply Canonical.display_Forall; [intros d ?; unfold Canonical.nibble_char; case_match; lia|done]).
      rewrite Forall_forall in F. intros Hin. by apply (F 47).
  - intros v. by eexists.
Defined.
End Instances.
Import Instances.
Definition bytes : list N := Tagged.code (encode_create sample_create).
Definition state : AppState := mk_state (new None) SampleApi.boundary [] false false.
End SampleHttp.
Import SampleHttp.Instances.


Lemma http_create_then_read_witness :
  let rule := into_rule sample_create (uuid_of 9) 7000 in
  let '(created, s') :=
    router SampleApi.serving (post_alert SampleApi.write_headers SampleHttp.bytes) SampleHttp.state in
  client_reads decode_alert_rule created = Some (201, rule) ∧
  (∃ l, client_reads (decode_list decode_alert_rule)
      (fst (router SampleApi.later (get_alerts SampleApi.read_headers) s')) = Some (200, l) ∧
    l ≡ₚ rule :: abs (app_store SampleHttp.state) Sample.actor) ∧
  client_reads decode_alert_rule
    (fst (router SampleApi.later (get_alert_by SampleApi.read_headers (uuid_of 9)) s')) = Some (200, rule).
Proof.
  assert (abs (new None) Sample.actor = []) as Habs by reflexivity.
  apply (http_create_then_read SampleApi.serving SampleApi.later SampleHttp.state
    SampleApi.write_headers SampleApi.read_headers SampleHttp.bytes sample_create Sample.actor).
  - intros t o i r. cbn. by rewrite lookup_empty.
  - by apply lookup_empty.
  - cbn [app_store SampleHttp.state]. rewrite Habs. cbn. lia.
  - cbn [app_store SampleHttp.state]. rewrite Habs. constructor.
  - split; vm_compute; discriminate.
  - by vm_compute.
  - split; by vm_compute.
  - reflexivity.
  - vm_compute. discriminate.
  - reflexivity.
  - by vm_compute.
  - by vm_compute.
  - reflexivity.
  - reflexivity.
  - by vm_compute.
  - by vm_compute.
Defined.
