(* ===== verification/Transports.v ===== *)
(** * The four transports together

    HTTP, mTLS/TCP, JetStream and the web server's direct SQL read the same alerts.  This file
    composes the components: the four readings of one database agree, the bytes a JetStream
    reply is published as read back as alerts of the command's actor, and a listing that is
    too large for a frame or a message is never delivered. *)

From S2P Require Import Prelude Str Float Ids Model Auth Database Store Repository WebRole Envelope.
From S2P Require Import Commands Outbox Jetstream Tcp Api Wire.
Open Scope N_scope.

(** ** The readings of one database *)

Definition http_answer (r : result StoreError (list AlertRule)) : Response :=
  match r with
  | Ok alerts => mk_response 200 (BodyAlerts alerts)
  | Err _ => into_response ApiUnavailable
  end.

Section agree.
Context `{SharedAuth} `{Http} `{UuidTextLaws} `{Postgres} `{Serde} `{HashMapIter} `{ReplyJson}
  `{TcpJson} `{!Axum} `{!UuidCast} `{!UuidCastLaws}.

Lemma router_lists x request (s : AppState (R := AlertStore)) actor :
  is_get (method request) = true →
  path request = lit "/v1/alerts" ∨ path request = lit "/v1/web/alerts" →
  verify_authorization (app_auth s) (headers request) READ_SCOPE (sv_clock x) = Ok actor →
  router x request s =
    (strip_body (method request) (http_answer (list_alerts (sv_link x) (app_store s) actor)), s).
Proof.
  intros Hm Hpath Hv.
  assert (respond (api_list_alerts x s (headers request)) =
    http_answer (list_alerts (sv_link x) (app_store s) actor)) as E.
  { unfold api_list_alerts, authorize. rewrite Hv. cbn [map_err mbind result_bind repo_list alert_store_repo].
    by destruct (list_alerts _ _ _). }
  unfold router. assert (dispatch x request s =
    (http_answer (list_alerts (sv_link x) (app_store s) actor), s)) as ->; [|done].
  unfold dispatch. destruct Hpath as [-> | ->].
  - change (route (lit "/v1/alerts")) with (Some RouteAlerts). cbn match.
    destruct (method request); try done; by rewrite E.
  - change (route (lit "/v1/web/alerts")) with (Some RouteWebAlerts). cbn match.
    rewrite Hm. cbn [negb]. by rewrite E.
Qed.

(** C6: the four transports give one answer.  For any database and actor: the two HTTP listings,
    a TCP operation, a processed command and the web role's query answer with the same alerts
    in the same order, or all fail together because a stored alert does not decode (a [HEAD]
    request gets the status of that answer without its body). *)
Theorem transports_agree db fallback actor :
  let r := read_alerts LinkUp db actor in
  let store := mk_store (Some db) fallback in
  (∀ x request s, app_store s = store → is_get (method request) = true →
     path request = lit "/v1/alerts" ∨ path request = lit "/v1/web/alerts" → sv_link x = LinkUp →
     verify_authorization (app_auth s) (headers request) READ_SCOPE (sv_clock x) = Ok actor →
     router x request s = (strip_body (method request) (http_answer r), s)) ∧
  (∀ auth x frame request, permitted auth x frame request actor → x_link x = LinkUp →
     x_timeout x = false →
     execute_tcp_operation store auth x frame = reply_of (operation_id (envelope request)) (Some r)) ∧
  (∀ f now fresh c db', transport_wf db → ¬ duplicate c db →
     actor_subject (cmd_operation c) = uuid_display (subject actor) →
     cmd_product_tenant c = product_tenant actor → f_query f = Answered →
     process_command f now fresh c db = (Ok tt, db') →
     ∃ o, outbox db' !! fresh = Some o ∧
       event_to_value (reply_event fresh c (reply_of (correlation_id c) (Some r)))
         = Some (out_payload o)) ∧
  (∀ eager settings, settings (lit "eal.product_tenant") = Some (product_tenant actor) →
     settings (lit "eal.owner_subject") = Some (uuid_display (subject actor)) →
     ∃ rows, web_alerts eager settings (product_tenant actor) (subject actor) db = Ok rows ∧
       collect_results (decode_row <$> rows) = r).
Proof.
  intros r store. split_and!.
  - intros x request s Hs Hm Hp Hl Hv. by rewrite (router_lists _ _ _ _ Hm Hp Hv), Hs, Hl.
  - intros auth x frame request Hp Hl Ht. rewrite (execute_permitted _ _ _ _ _ _ Hp).
    unfold permitted_reply. by rewrite Ht, Hl.
  - intros f now fresh c db' Hwf Hnew Hsub Hten Hq Hp.
    destruct (process_cases _ _ _ _ _ _ _ Hwf Hp)
      as [[_ [e ?]]|[(_ & _ & ?)|(owner & reply & payload & Hfd & -> & _)]]; [done..|].
    exists (outbox_row now fresh c payload). split; [apply lookup_insert_eq|].
    destruct Hfd as [_ _ _ _ (su & Hsu & ->) Hpay _ _].
    rewrite Hsub, parse_display in Hsu. injection Hsu as <-. rewrite Hq, Hten in Hpay.
    by destruct actor.
  - intros eager settings Ht Ho. eexists. split.
    + apply web_alerts_own; [done|]. unfold owner_setting. rewrite Ho. by rewrite cast_display.
    + done.
Qed.
End agree.

(** ** The bytes of a reply *)

(** The codec of the publisher: the payload's JSON text. *)
Definition wire_nats `{JsonText} (header : str → bool) : NatsCodec :=
  {| value_to_vec := json_print; header_from_str := header |}.

(** The characters of the query texts in a listing, which any JSON text of it contains. *)
Definition listing_chars (l : list AlertRule) : nat := sum_list_with (λ a, length (ar_query_text a)) l.

Section wire_transport.
Context `{UuidTextLaws} `{JsonScalarsLaws} `{JsonTextLaws} `{Postgres} `{Serde} `{Crypto}.
Context (header : str → bool) (tenant : str) (key : list N).
#[local] Existing Instance wire_reply_json.
#[local] Existing Instance wire_command_json.
#[local] Instance nats : NatsCodec := wire_nats header.

Lemma own_reply_sized actor id reply : own_reply actor id reply → reply_sized reply.
Proof. intros (r & -> & _). by destruct r as [[]|]. Qed.
Lemma own_reply_tree actor id reply : own_reply actor id reply → reply_tree reply.
Proof.
  intros (r & -> & _). unfold reply_tree. destruct r as [[l|e]|]; [|reflexivity..].
  change (Some (to_value (encode_alerts l)) = Some (encode_alerts l)). by rewrite encode_alerts_tree.
Qed.

(** C12: a published reply reads back as its actor's answer.  In every reachable state each message
    in the event log is the JSON of an event with the ids, the subject and the status recorded
    for one accepted command, and its result, when there is one, is a listing of alerts that
    the command's actor owns in the command's tenant, which a reader gets as they were. *)
Theorem published_reply_reads_back s m :
  reachable tenant key s → m ∈ sys_log s →
  ∃ k i st e text subject,
    inbox (sys_db s) !! k = Some i ∧ authentic tenant key i ∧
    statuses (sys_db s) !! in_correlation_id i = Some st ∧
    json_parse (msg_payload m) ≫= decode_event = Some e ∧
    ev_correlation_id e = in_correlation_id i ∧ ev_dedupe_key e = msg_id m ∧
    ev_subject e = msg_subject m ∧ Envelope.ev_product_tenant e = tenant ∧
    reply_operation_id (ev_reply e) = in_correlation_id i ∧
    reply_status (ev_reply e) = st_status st ∧
    text_as_uuid text = Some (in_actor_subject i) ∧ uuid_parse text = Some subject ∧
    match reply_result (ev_reply e) with
    | None => is_Some (reply_error (ev_reply e))
    | Some v => ∃ alerts, v = encode_alerts alerts ∧
        Forall (own_alert (mk_actor subject tenant)) alerts ∧
        (Forall alert_sized alerts → decode_list decode_alert_rule v = Some alerts)
    end.
Proof.
  intros Hr Hm. destruct (reachable_inv _ _ _ Hr) as [Hwf Hlog Hfrom _ _].
  destruct (lw_from _ _ Hlog _ Hm) as (l & o & Ho & Hmo).
  destruct (tw_outbox_from _ Hwf _ _ Ho) as (k & i & Hi & Hkey).
  destruct (tw_answered _ Hwf _ _ Hi)
    as (l2 & o2 & st & Ho2 & Hst & reply & text & su & Htext & Hsu & Hown & _ & Hk2 & Hs2 & Hpay & _ & _ & Hst2).
  assert (l2 = l) as -> by (eapply (tw_outbox_unique _ Hwf); [done..|congruence]).
  assert (o2 = o) as -> by congruence.
  pose proof (Hfrom _ _ Hi) as Hauth. destruct Hauth as (c & n & Hacc & E1 & E2 & E3 & E4).
  rewrite E4 in *.
  apply (inj Some (to_value (encode_event _))) in Hpay.
  unfold message_of in Hmo. apply bind_Some in Hmo as (b & Hb & Hmo). cbn in Hb.
  destruct (_ <? _); [done|]. destruct (header_from_str _); [|done]. injection Hmo as <-.
  cbn [msg_payload msg_id msg_subject].
  exists k, i, st, (mk_event (out_event_id o) (in_correlation_id i) (out_dedupe_key o) tenant
    (out_subject o) reply), text, su.
  split_and!; try done.
  - by exists c, n.
  - rewrite (json_roundtrip _ _ Hb), <-Hpay. cbn [mbind option_bind].
    refine (event_value_roundtrip (mk_event _ _ _ _ _ reply) _ _);
      [by eapply own_reply_sized|by eapply own_reply_tree].
  - destruct Hown as (r & -> & _). apply reply_of_operation.
  - destruct Hown as (r & -> & Halerts). destruct r as [[alerts|e]|]; cbn; [|by eexists..].
    exists alerts. split_and!; [done|by apply Halerts|apply alerts_roundtrip].
Qed.

(** ** Listings that are too large *)

Lemma string_chars_perm m p : m ≡ₚ p → string_chars (VObject m) = string_chars (VObject p).
Proof.
  intros Hp. cbn [string_chars]. induction Hp as [|e m p _ IH|e f m|m p q _ IH1 _ IH2]; cbn; lia.
Qed.
Lemma rule_chars a : (length (ar_query_text a) <= string_chars (to_value (encode_rule f64_number a)))%nat.
Proof. rewrite rule_value. cbn. lia. Qed.
Lemma listing_chars_le l : (listing_chars l <= string_chars (encode_alerts l))%nat.
Proof.
  induction l as [|a l IH]; [done|].
  change (length (ar_query_text a) + listing_chars l <=
    string_chars (to_value (encode_rule f64_number a)) + string_chars (encode_alerts l))%nat.
  by apply Nat.add_le_mono; [apply rule_chars|].
Qed.
Lemma completed_chars id l :
  (listing_chars l <= string_chars (encode_reply (completed_reply id l)))%nat.
Proof. rewrite (listing_chars_le l). cbn. lia. Qed.
(** Sorting a [Value] does not lose the listing in it. *)
Lemma completed_value_chars op l :
  (listing_chars l <= string_chars (to_value (encode_reply (completed_reply op l))))%nat.
Proof.
  unfold encode_reply. match goal with |- context [to_value (object ?names ?vs)] =>
    destruct (to_value_object names vs) as (m & -> & Hm);
      [apply (bool_decide_unpack (NoDup _)); vm_compute; exact I|done|] end.
  rewrite (string_chars_perm _ _ Hm), listing_chars_le.
  cbn [completed_reply reply_result encode_option id fmap list_fmap alerts_to_value wire_reply_json].
  rewrite encode_alerts_tree. cbn. lia.
Qed.
Lemma event_value_chars e :
  (string_chars (to_value (encode_reply (ev_reply e))) <= string_chars (to_value (encode_event e)))%nat.
Proof.
  unfold encode_event. match goal with |- context [to_value (object ?names ?vs)] =>
    destruct (to_value_object names vs) as (m & -> & Hm);
      [apply (bool_decide_unpack (NoDup _)); vm_compute; exact I|done|] end.
  rewrite (string_chars_perm _ _ Hm). cbn [fmap list_fmap zip zip_with event_fields].
  cbn [string_chars sum_list_with snd]. lia.
Qed.

(** A reply row whose message is too large. *)
Lemma oversized_message o e id l :
  out_payload o = to_value (encode_event e) → ev_reply e = completed_reply id l →
  MAX_NATS_PAYLOAD_BYTES < N.of_nat (listing_chars l) → message_of o = None.
Proof.
  intros Hp He Hl. unfold message_of. rewrite Hp.
  destruct (value_to_vec (to_value (encode_event e))) as [b|] eqn:Hb; [|done]. cbn [mbind option_bind].
  pose proof (json_length _ _ Hb) as Hlen. pose proof (event_value_chars e) as Hev.
  rewrite He in Hev. pose proof (completed_value_chars id l) as Hc.
  by rewrite (proj2 (N.ltb_lt _ _)) by lia.
Qed.
Lemma unsendable_stays s s' k o :
  reachable tenant key s → outbox (sys_db s) !! k = Some o → message_of o = None →
  rtc (step tenant key) s s' →
  (∃ o', outbox (sys_db s') !! k = Some o' ∧ pending o') ∧
  ∀ m, m ∈ sys_log s' → msg_id m ≠ out_dedupe_key o.
Proof.
  intros Hr Ho Hno Hs.
  destruct (steps_outbox_le _ _ _ _ Hs (reachable_inv _ _ _ Hr)) as [[Hwf Hlog _ _ _] Hle].
  destruct (Hle _ _ Ho) as (o' & Ho' & E).
  assert (message_of o' = None) as Hno'.
  { revert Hno. unfold message_of. injection E as _ _ -> -> ->. done. }
  split.
  - exists o'. split; [done|]. destruct (decide (pending o')) as [|Hp]; [done|].
    destruct (lw_published _ _ Hlog _ _ Ho' Hp) as (m & Hm & _). congruence.
  - intros m (l & o2 & Ho2 & Hm)%(lw_from _ _ Hlog) Hid.
    assert (msg_id m = out_dedupe_key o2) as E2.
    { revert Hm. unfold message_of. destruct (value_to_vec _); [|done]. cbn [mbind option_bind].
      destruct (_ <? _); [done|]. destruct (header_from_str _); [|done]. by intros [= <-]. }
    assert (out_dedupe_key o' = out_dedupe_key o) as E3 by by injection E.
    assert (l = k) as -> by (eapply (tw_outbox_unique _ Hwf); [done..|congruence]). congruence.
Qed.
End wire_transport.

(** A valid alert whose query text has the full length. *)
Definition large_alert : CreateAlertRule :=
  mk_create (lit "name") (replicate (N.to_nat MAX_QUERY_BYTES) 97) (lit "model") f32_one [] [] true.
Lemma large_listing now ids :
  listing_chars ((λ id, into_rule large_alert id now) <$> ids) =
    (length ids * N.to_nat MAX_QUERY_BYTES)%nat.
Proof.
  assert (∀ id, length (ar_query_text (into_rule large_alert id now)) = N.to_nat MAX_QUERY_BYTES) as Hl.
  { intros id. by vm_compute. }
  unfold listing_chars. induction ids as [|id ids IH]; [done|].
  rewrite fmap_cons. cbn [sum_list_with]. rewrite Hl, IH. done.
Qed.

Section large.
Context `{SharedAuth} `{Http} `{UuidTextLaws} `{JsonScalarsLaws} `{JsonTextLaws} `{Postgres}
  `{Serde} `{Crypto} `{HashMapIter}.
Context (header : str → bool) (tenant : str) (key : list N).
#[local] Existing Instance wire_reply_json.
#[local] Existing Instance wire_command_json.
#[local] Existing Instance wire_tcp_json.
#[local] Instance large_nats : NatsCodec := wire_nats header.

(** An acknowledged first delivery recorded the listing of its actor. *)
Lemma acked_listing d payload c subject l db :
  transport_wf db → command_from_slice payload = Some c → ¬ duplicate c db →
  f_query (d_faults d) = Answered → uuid_parse (actor_subject (cmd_operation c)) = Some subject →
  read_alerts LinkUp db (mk_actor subject (cmd_product_tenant c)) = Ok l →
  h_ack (handle_message tenant key d payload db) = Some Acked →
  ∃ o, outbox (h_db (handle_message tenant key d payload db)) !! d_fresh d = Some o ∧
    out_dedupe_key o = reply_key (dedupe_key c) ∧
    out_payload o =
      to_value (encode_event (reply_event (d_fresh d) c (completed_reply (correlation_id c) l))).
Proof.
  intros Hwf Hc Hnew Hq Hsub Hl Hack.
  destruct (handle_message_cases tenant key d payload db)
    as [(? & _)|[(? & _)|(c' & n & r & Hc' & _ & _ & Hp & Hr)]]; [congruence..|].
  destruct Hr as [[-> _]|(_ & ? & _)]; [|congruence].
  assert (c' = c) as -> by congruence.
  destruct (process_cases _ _ _ _ _ _ _ Hwf Hp)
    as [[_ [e ?]]|[(_ & _ & ?)|(owner & reply & v & Hfd & -> & _)]]; [done..|].
  exists (outbox_row (d_now d) (d_fresh d) c v).
  split; [apply lookup_insert_eq|]. split; [done|].
  destruct Hfd as [_ _ _ _ (su & Hsu & ->) Hv _ _]. rewrite Hsub in Hsu. injection Hsu as <-.
  rewrite Hq, Hl in Hv. by injection Hv as <-.
Qed.

(** C30: an actor can own more than the transports can say.  Thirty-three alerts with the longest
    query text the validation admits exceed a NATS message, and nine exceed a TCP frame, while
    a listing holds up to a hundred.  The TCP peer then gets no answer at all: its connection
    is closed.  The JetStream command is acknowledged as processed, but its reply is pending in
    every later state, whatever happens, and no message is ever published under its key. *)
Theorem large_listings_are_lost :
  (validate large_alert = Ok tt ∧ ∀ now ids, let l := (λ id, into_rule large_alert id now) <$> ids in
     ((9 <= length ids)%nat → MAX_FRAME_BYTES < N.of_nat (listing_chars l)) ∧
     ((33 <= length ids)%nat → MAX_NATS_PAYLOAD_BYTES < N.of_nat (listing_chars l))) ∧
  (∀ store auth x frame rest request actor l, permitted auth x frame request actor →
     x_timeout x = false → list_alerts (x_link x) store actor = Ok l →
     MAX_FRAME_BYTES < N.of_nat (listing_chars l) →
     serve ((mk_found store auth, (x, Frame frame)) :: rest) = []) ∧
  (∀ s d payload c subject l, reachable tenant key s → sys_running s = true →
     command_from_slice payload = Some c → ¬ duplicate c (sys_db s) →
     f_query (d_faults d) = Answered → uuid_parse (actor_subject (cmd_operation c)) = Some subject →
     read_alerts LinkUp (sys_db s) (mk_actor subject (cmd_product_tenant c)) = Ok l →
     MAX_NATS_PAYLOAD_BYTES < N.of_nat (listing_chars l) →
     h_ack (handle_message tenant key d payload (sys_db s)) = Some Acked →
     ∀ s', rtc (step tenant key) (after_delivery tenant key d payload s) s' →
     (∃ o, outbox (sys_db s') !! d_fresh d = Some o ∧ pending o) ∧
     ∀ m, m ∈ sys_log s' → msg_id m ≠ reply_key (dedupe_key c)).
Proof.
  split; [|split].
  - split; [by vm_compute|]. intros now ids l. unfold l. rewrite large_listing.
    unfold MAX_QUERY_BYTES, MAX_FRAME_BYTES, MAX_NATS_PAYLOAD_BYTES. lia.
  - intros store auth x frame rest request actor l Hp Ht Hl Hlen. cbn [serve f_store f_auth].
    destruct (next_frame _) as [f|] eqn:Hf; [|done].
    assert (f = frame) as -> by (revert Hf; cbn; destruct (_ <=? _); by intros [=]).
    rewrite (execute_permitted _ _ _ _ _ _ Hp). unfold permitted_reply. rewrite Ht, Hl.
    destruct (reply_to_vec _) as [b|] eqn:Hb; [|done].
    pose proof (json_length _ _ Hb). pose proof (completed_chars (operation_id (envelope request)) l).
    unfold completed_reply in *. by rewrite (proj2 (N.ltb_lt _ _)) by (cbn in *; lia).
  - intros s d payload c subject l Hr Hrun Hc Hnew Hq Hsub Hl Hbig Hack s' Hs.
    destruct (acked_listing d payload c subject l (sys_db s)) as (o & Ho & Hkey & Hp);
      [apply (reachable_inv _ _ _ Hr)|done..|].
    assert (reachable tenant key (after_delivery tenant key d payload s)) as Hr1
      by by apply after_delivery_reachable.
    rewrite <-Hkey. eapply unsendable_stays; [exact Hr1|exact Ho| |exact Hs].
    by eapply (oversized_message header o _ (correlation_id c) l).
Qed.
End large.

(** ** Examples *)

Module SampleTransports.
Import CanonicalInstances Sample.Instances SampleStorage SampleStorage.Instances
  SampleCommand.Instances SampleApi.Instances SampleWeb.Instances.
Import SampleReply.Instances SampleTcp.Instances.
(** A database with an alert of the authority's actor next to two of another one. *)
Definition db : Db :=
  default empty_db (database (snd (create LinkUp 7000 (uuid_of 9) (mk_store (Some (sample_db 2)) ∅)
    Sample.actor sample_create))).
Definition state : AppState := mk_state (mk_store (Some db) ∅) SampleApi.boundary [] true true.
Lemma transports_agree_witness :
  let r := read_alerts LinkUp db Sample.actor in
  (length <$> ok r) = Some 1%nat ∧
  router SampleApi.serving SampleApi.get_list state = (http_answer r, state) ∧
  execute_tcp_operation (mk_store (Some db) ∅) Sample.boundary SampleTcp.exchange [1] =
    reply_of (uuid_of 5) (Some r) ∧
  (∃ rows, web_alerts false (SampleWeb.settings Sample.actor) (product_tenant Sample.actor)
      (subject Sample.actor) db = Ok rows ∧ collect_results (decode_row <$> rows) = r) ∧
  ∃ o, outbox (snd (process_command no_faults 5000 (uuid_of 77) SampleCommand.command (sample_db 2)))
         !! uuid_of 77 = Some o ∧
    event_to_value (reply_event (uuid_of 77) SampleCommand.command
      (reply_of (correlation_id SampleCommand.command) (Some (read_alerts LinkUp (sample_db 2) actor_a))))
      = Some (out_payload o).
Proof.
  intros r. split; [by vm_compute|].
  destruct (transports_agree db ∅ Sample.actor) as (Hhttp & Htcp & _ & Hweb).
  destruct (transports_agree (sample_db 2) ∅ actor_a) as (_ & _ & Hnats & _).
  split; [|split; [|split]].
  - apply Hhttp; [done|done|by left|done|by vm_compute].
  - apply (Htcp Sample.boundary SampleTcp.exchange [1] SampleTcp.request); [|done|done].
    apply sample_permitted.
  - apply Hweb; by vm_compute.
  - apply (Hnats no_faults 5000%Z); [apply sample_db_wf; by vm_compute|apply sample_db_new|
      by vm_compute|by vm_compute|done|].
    assert (fst (process_command no_faults 5000 (uuid_of 77) SampleCommand.command (sample_db 2)) = Ok tt)
      as E by (by vm_compute).
    rewrite <-E. apply surjective_pairing.
Defined.
End SampleTransports.

Module SampleWire.
Import CanonicalInstances Sample.Instances SampleStorage SampleStorage.Instances
  SampleCommand.Instances Tagged.Instances.
Definition header (s : str) : bool := negb (contains_char 10 s || contains_char 13 s).
#[local] Existing Instance wire_reply_json.
#[local] Existing Instance wire_command_json.
#[local] Existing Instance wire_tcp_json.
#[local] Instance sample_nats : NatsCodec := wire_nats header.

(** A command and its reply, as bytes. *)
Definition command_bytes : list N := Tagged.code (encode_command SampleCommand.command).
Definition delivered : System :=
  after_delivery SampleCommand.tenant SampleCommand.key SampleJetstream.delivery command_bytes sys_init.
Definition published : result str unit * (Db * list Message) :=
  publish_pending LinkUp SampleOutbox.up (sys_db delivered, sys_log delivered).
Lemma published_reachable : ∃ s, reachable SampleCommand.tenant SampleCommand.key s ∧
  sys_log s = snd (snd published).
Proof.
  destruct (publisher_refines_steps SampleCommand.tenant SampleCommand.key LinkUp SampleOutbox.up
    delivered (fst published) (fst (snd published)) (snd (snd published))) as (s & Hs & _ & Hl & _).
  - unfold published. by destruct (publish_pending _ _ _) as [? [? ?]].
  - exists s. split; [|done]. unfold reachable. etrans; [|exact Hs].
    apply after_delivery_reachable; [apply rtc_refl|reflexivity].
Qed.
Lemma published_reply_reads_back_witness :
  ∃ m e, snd (snd published) = [m] ∧ json_parse (msg_payload m) ≫= decode_event = Some e ∧
    ev_dedupe_key e = msg_id m ∧ Envelope.ev_product_tenant e = SampleCommand.tenant.
Proof.
  destruct published_reachable as (s & Hr & Hlog).
  assert (length (snd (snd published)) = 1%nat) as Hlen by (by vm_compute).
  destruct (snd (snd published)) as [|m [|]]; [done| |done].
  destruct (published_reply_reads_back header SampleCommand.tenant SampleCommand.key s m Hr)
    as (k & i & st & e & text & su & _ & _ & _ & He & _ & Hd & _ & Ht & _).
  { rewrite Hlog. by apply list_elem_of_singleton. }
  by exists m, e.
Defined.

(** Nine large alerts of one actor, in memory. *)
Definition large_store : AlertStore :=
  fold_left (λ s i, snd (create LinkUp 7000 (uuid_of i) s Sample.actor large_alert))
    [1; 2; 3; 4; 5; 6; 7; 8; 9] (new None).
Definition request_bytes : list N := Tagged.code (encode_authenticated SampleTcp.request).
Lemma large_permitted :
  permitted Sample.boundary SampleTcp.exchange request_bytes SampleTcp.request Sample.actor.
Proof.
  destruct sample_permitted as [_ He Ht Hs Hten]. split; [by vm_compute|done..].
Qed.
(** Thirty-three large alerts of one actor in the database. *)
Definition create_large (s : System) (i : N) : System :=
  match database (snd (create LinkUp 7000 (uuid_of i) (mk_store (Some (sys_db s)) ∅) actor_a
                         large_alert)) with
  | Some db => mk_system db (sys_log s) (sys_running s) (sys_acks s) (sys_batches s)
  | None => s
  end.
Definition large_system : System := fold_left create_large (N.of_nat <$> seq 1 33) sys_init.
Lemma large_system_reachable :
  reachable SampleCommand.tenant SampleCommand.key large_system ∧ sys_running large_system = true.
Proof.
  unfold large_system. assert (reachable SampleCommand.tenant SampleCommand.key sys_init ∧
    sys_running sys_init = true) as Hi by (split; [apply rtc_refl|done]). revert Hi.
  generalize sys_init. induction (N.of_nat <$> seq 1 33) as [|i ids IH]; intros s [Hr Hrun]; [done|].
  apply IH. unfold create_large. destruct (database _) as [db|] eqn:E; [|exact (conj Hr Hrun)].
  split; [|exact Hrun]. eapply rtc_r; [exact Hr|]. eapply step_create; [apply surjective_pairing|exact E].
Qed.
Lemma large_system_new : ¬ duplicate SampleCommand.command (sys_db large_system).
Proof.
  assert (inbox (sys_db large_system) = ∅) as E.
  { unfold large_system. assert (inbox (sys_db sys_init) = ∅) as Hi by done. revert Hi.
    generalize sys_init. induction (N.of_nat <$> seq 1 33) as [|i ids IH]; intros s Hi; [done|].
    apply IH. unfold create_large. destruct (database _) as [db|] eqn:Hd; [|exact Hi].
    destruct (create_frame _ _ _ _ _ _ _ _ _ _ (surjective_pairing _) Hd) as (_ & Hin & _).
    cbn [sys_db]. by rewrite Hin. }
  intros (k & i & Hi & _). by rewrite E, lookup_empty in Hi.
Qed.
Lemma large_listings_are_lost_witness :
  ((∃ l, list_alerts LinkUp large_store Sample.actor = Ok l ∧ length l = 9%nat) ∧
   serve [(mk_found large_store Sample.boundary, (SampleTcp.exchange, Frame request_bytes))] = []) ∧
  ∀ s', rtc (step SampleCommand.tenant SampleCommand.key)
      (after_delivery SampleCommand.tenant SampleCommand.key SampleJetstream.delivery
         command_bytes large_system) s' →
    (∃ o, outbox (sys_db s') !! uuid_of 77 = Some o ∧ pending o) ∧
    ∀ m, m ∈ sys_log s' → msg_id m ≠ reply_key (dedupe_key SampleCommand.command).
Proof.
  destruct (large_listings_are_lost header SampleCommand.tenant SampleCommand.key)
    as (_ & Htcp & Hnats).
  split.
  - assert (is_some_and (λ l, (length l =? 9)%nat && (MAX_FRAME_BYTES <? N.of_nat (listing_chars l)))
      (ok (list_alerts LinkUp large_store Sample.actor)) = true) as Hl by (by vm_compute).
    destruct (list_alerts LinkUp large_store Sample.actor) as [l|] eqn:E; [|done].
    apply andb_true_iff in Hl as [Hlen%Nat.eqb_eq Hbig%N.ltb_lt].
    split; [exists l; split; [reflexivity|exact Hlen]|].
    exact (Htcp large_store Sample.boundary SampleTcp.exchange request_bytes [] SampleTcp.request
      Sample.actor l large_permitted eq_refl E Hbig).
  - assert (is_some_and (λ l, MAX_NATS_PAYLOAD_BYTES <? N.of_nat (listing_chars l))
      (ok (read_alerts LinkUp (sys_db large_system) actor_a)) = true) as Hl by (by vm_compute).
    destruct (read_alerts LinkUp (sys_db large_system) actor_a) as [l|] eqn:E; [|done].
    apply N.ltb_lt in Hl. destruct large_system_reachable as [Hr Hrun].
    apply (Hnats large_system SampleJetstream.delivery command_bytes SampleCommand.command
      (uuid_of 1) l Hr Hrun); [by vm_compute|exact large_system_new|reflexivity|by vm_compute|
      exact E|exact Hl|by vm_compute].
Defined.
End SampleWire.
