(* ===== verification/Flags.v ===== *)
(** * Process configuration ([src/flags.rs])

    Configuration is resolved once from the command line, the process environment and the
    dotenv files, and then only read.  The [flags-2-env] parser, the embedded contract and
    the TOML reader are library code behind the classes [Flags2Env] and [Toml]. *)

From S2P Require Import Prelude Str Ids.
Open Scope N_scope.

Abbreviation Env := (gmap str str) (only parsing).

Record ParsedFlags := mk_parsed {
  unknown_options : list str;
  parse_errors : N;                (* how many *)
  extras : list str;
  dotenv : Env;
  dotenv_overrides : Env;
  provided_flags : Env;
}.

(** The embedded contract is materialised in a temporary file: creating it and writing it can
    fail, and its path may not be UTF-8.  The parser reads the contract from that path. *)
Class Flags2Env := {
  temp_create : result str unit;
  temp_write : result str unit;
  temp_path : option str;
  audit_config : str → result str unit;
  parse_structured : list str → str → result str ParsedFlags;
  coerce : Env → str → result str (list (str * Value));
}.

(** [BTreeSet<String>] as the sorted list of its members. *)
Definition btree_set (l : list str) : list str := merge_sort str_le (remove_dups l).

(** ** Options *)

Definition option_name (option : str) : str :=
  match strip_prefix (lit "--") option with
  | Some long => lit "--" ++ before 61 long
  | None => take 2 option
  end.

Definition scalar_string (name : str) (value : Value) : result str str :=
  match value with
  | VString value => Ok value
  | VBool b => Ok (if b then lit "true" else lit "false")
  | VNumber text => Ok text
  | VNull | VArray _ | VObject _ =>
      Err (lit "flags-2-env returned a non-scalar value for " ++ name)
  end.

(** The loop over the typed values. *)
Fixpoint insert_typed (typed : list (str * Value)) (resolved : Env) : result str Env :=
  match typed with
  | [] => Ok resolved
  | (name, value) :: typed =>
      if value_is_null value then insert_typed typed resolved else
      text ← scalar_string name value;
      insert_typed typed (<[name := text]> resolved)
  end.

Section flags.
Context `{Flags2Env}.

(** [raw.extend(m)] prefers [m]. *)
Definition extend (raw m : Env) : Env := m ∪ raw.
Definition raw_config (parsed : ParsedFlags) (environment : Env) : Env :=
  let raw := extend (dotenv parsed) environment in
  let raw := extend raw (dotenv_overrides parsed) in
  let raw := delete (lit "FLAGS2ENV_COMMAND") raw in
  extend raw (provided_flags parsed).

Definition resolve_from (argv : list str) (environment : Env) : result str Env :=
  map_err (λ e, lit "cannot create embedded flags-2-env contract: " ++ e) temp_create;;
  map_err (λ e, lit "cannot materialize embedded flags-2-env contract: " ++ e) temp_write;;
  path ← ok_or temp_path (lit "flags-2-env contract path is not valid UTF-8");
  map_err (λ e, lit "flags-2-env contract audit failed: " ++ e) (audit_config path);;
  parsed ← map_err (λ e, lit "flags-2-env parsing failed: " ++ e) (parse_structured argv path);
  if negb (bool_decide (unknown_options parsed = [])) then
    Err (lit "unknown command-line option(s): "
         ++ join (lit ", ") (btree_set (option_name <$> unknown_options parsed)))
  else if negb (parse_errors parsed =? 0) then
    Err (lit "invalid command-line value(s): " ++ display_uint (parse_errors parsed)
         ++ lit " error(s)")
  else if negb (bool_decide (extras parsed = [])) then
    Err (lit "unexpected positional argument(s): "
         ++ display_uint (N.of_nat (length (extras parsed))))
  else
    typed ← map_err (λ e, lit "flags-2-env typed configuration failed: " ++ e)
              (coerce (raw_config parsed environment) path);
    insert_typed typed environment.
End flags.

(** ** Help *)

Class Toml := {
  Toml_value : Type;
  toml_parse : result str Toml_value;              (* [CONTRACT.parse()] *)
  toml_get : Toml_value → str → option Toml_value;
  as_table : Toml_value → option (list (str * Toml_value));
  as_array : Toml_value → option (list Toml_value);
  as_str : Toml_value → option str;
  toml_display : Toml_value → str;
}.

Definition CARGO_PKG_NAME : str := lit "eal-api-server".
Definition CARGO_PKG_VERSION : str := lit "0.1.0".

(** [{option:<28}]: padded with spaces to 28 characters. *)
Definition pad (n : nat) (s : str) : str := s ++ replicate (n - length s) 32.

Section help.
Context `{Toml}.

Definition help_line (flag : Toml_value) : option str :=
  if is_none (as_table flag) then None else
  let long := match toml_get flag (lit "long") ≫= as_str with
              | Some long => Some long
              | None => ((toml_get flag (lit "aliases") ≫= as_array) ≫= head) ≫= as_str
              end in
  match long with
  | None => None
  | Some long =>
      let short := toml_get flag (lit "short") ≫= as_str in
      let value_type := default (lit "string") (toml_get flag (lit "type") ≫= as_str) in
      let names := match short with
                   | None => lit "--" ++ long
                   | Some short => lit "-" ++ short ++ lit ", --" ++ long
                   end in
      let names := if str_eqb value_type (lit "bool") || str_eqb value_type (lit "boolean")
                   then names else names ++ lit " <VALUE>" in
      let description := default [] (toml_get flag (lit "help") ≫= as_str) in
      let preset := from_option (λ v, lit " [default: " ++ toml_display v ++ lit "]") []
                      (toml_get flag (lit "default")) in
      Some (lit "  " ++ pad 28 names ++ lit " " ++ description ++ preset ++ [10])
  end.

Definition help_table : result str str :=
  contract ← map_err (λ e, lit "cannot read flags-2-env help metadata: " ++ e) toml_parse;
  flags ← ok_or (toml_get contract (lit "flags") ≫= as_table)
    (lit "flags-2-env contract has no flags table");
  Ok (lit "Usage: " ++ CARGO_PKG_NAME ++ lit " [OPTIONS]" ++ [10; 10] ++ lit "Options:" ++ [10]
      ++ concat (omap (λ f, help_line (snd f)) flags)).
End help.

(** ** The process

    [RESOLVED] is a cell that is filled once; the state is its content. *)

Abbreviation Cell := (option (result str Env)) (only parsing).

Section process.
Context `{Flags2Env} `{Toml}.

Definition try_resolved (argv : list str) (environment : Env) (cell : Cell)
    : result str Env * Cell :=
  match cell with
  | Some r => (r, cell)
  | None => let r := resolve_from argv environment in (r, Some r)
  end.

(** [var]: [None] is [VarError::NotPresent]; a failed resolution is a panic with its error. *)
Definition var (argv : list str) (environment : Env) (name : str) (cell : Cell)
    : result str (option str) * Cell :=
  let '(r, cell) := try_resolved argv environment cell in
  ((λ m : Env, m !! name) <$> r, cell).

Definition process_control (argv : list str) (environment : Env) (cell : Cell)
    : result str (option str) * Cell :=
  let '(r, cell) := try_resolved argv environment cell in
  (values ← r;
   if bool_decide ((values : Env) !! lit "CLI_HELP_REQUESTED" = Some (lit "true"))
   then Some <$> help_table else
   if bool_decide ((values : Env) !! lit "CLI_VERSION_REQUESTED" = Some (lit "true"))
   then Ok (Some (CARGO_PKG_NAME ++ lit " " ++ CARGO_PKG_VERSION ++ [10]))
   else Ok None, cell).

(** [main]: output and stop, an error, or serve. *)
Inductive Outcome := Printed (output : str) | Failed (error : str) | Serve.
Definition main (argv : list str) (environment : Env) (cell : Cell) : Outcome * Cell :=
  match process_control argv environment cell with
  | (Ok (Some output), cell) => (Printed output, cell)
  | (Ok None, cell) => (Serve, cell)
  | (Err e, cell) => (Failed e, cell)
  end.
End process.

(** ** Lemmas *)

Lemma before_prefix c s : ∃ rest, s = before c s ++ rest ∧ (rest = [] ∨ ∃ t, rest = c :: t).
Proof.
  induction s as [|d s IH]; cbn; [by exists []; auto|].
  destruct (N.eqb_spec d c) as [->|Hd]; [eauto|].
  destruct IH as (rest & E & Hr). exists rest. cbn. by rewrite <-E.
Qed.
Lemma option_name_long long : option_name (lit "--" ++ long) = lit "--" ++ before 61 long.
Proof. unfold option_name. by rewrite strip_prefix_app. Qed.
Lemma option_name_short o : starts_with o (lit "--") = false → option_name o = take 2 o.
Proof. unfold starts_with, option_name. by destruct (strip_prefix _ _). Qed.

(** The text of a scalar, and the values a configuration may have. *)
Definition scalar_text (v : Value) : option str :=
  match v with
  | VString s => Some s
  | VBool true => Some (lit "true")
  | VBool false => Some (lit "false")
  | VNumber text => Some text
  | VNull | VArray _ | VObject _ => None
  end.
Definition plain (p : str * Value) : Prop := snd p = VNull ∨ is_Some (scalar_text (snd p)).
Lemma scalar_string_Ok_iff name v s : scalar_string name v = Ok s ↔ scalar_text v = Some s.
Proof. destruct v as [|[]| | | |]; cbn; naive_solver. Qed.
Lemma scalar_string_Err_iff name v e :
  scalar_string name v = Err e ↔
  scalar_text v = None ∧ e = lit "flags-2-env returned a non-scalar value for " ++ name.
Proof. destruct v as [|[]| | | |]; cbn; naive_solver. Qed.

(** What a typed list says of a name: its last entry that is not null. *)
Fixpoint typed_lookup (typed : list (str * Value)) (name : str) : option str :=
  match typed with
  | [] => None
  | (n, v) :: typed =>
      match typed_lookup typed name with
      | Some s => Some s
      | None => if str_eqb n name && negb (value_is_null v) then scalar_text v else None
      end
  end.
Lemma insert_typed_Ok typed m m' :
  insert_typed typed m = Ok m' →
  ∀ name, m' !! name = match typed_lookup typed name with Some s => Some s | None => m !! name end.
Proof.
  revert m. induction typed as [|[n v] typed IH]; intros m; cbn [insert_typed typed_lookup].
  { by intros [= <-]. }
  destruct (value_is_null v) eqn:Hv; cbn [negb].
  - intros Hm name. rewrite (IH _ Hm), andb_false_r. by destruct (typed_lookup typed name).
  - intros (s & Hs%scalar_string_Ok_iff & Hm)%bind_Ok_iff name. rewrite (IH _ Hm), andb_true_r.
    destruct (typed_lookup typed name); [done|]. destruct (str_eqb n name) eqn:E.
    + apply str_eqb_eq in E as ->. by rewrite lookup_insert_eq, Hs.
    + apply str_eqb_neq in E. by rewrite lookup_insert_ne.
Qed.
Lemma insert_typed_plain typed m m' : insert_typed typed m = Ok m' → Forall plain typed.
Proof.
  revert m. induction typed as [|[n v] typed IH]; intros m; cbn [insert_typed]; [constructor|].
  destruct v; cbn [value_is_null].
  1: intros Hm; constructor; [by left|by eapply IH].
  all: intros (t & Ht%scalar_string_Ok_iff & Hm)%bind_Ok_iff; constructor; [right; by eexists|by eapply IH].
Qed.
Lemma insert_typed_total typed m : Forall plain typed → ∃ m', insert_typed typed m = Ok m'.
Proof.
  intros Ht. revert m. induction Ht as [|[n v] typed Hv _ IH]; intros m; cbn [insert_typed]; [eauto|].
  unfold plain in Hv. cbn [snd] in Hv. destruct Hv as [->|[s Hs]]; [apply IH|].
  destruct (value_is_null v); [apply IH|]. apply (scalar_string_Ok_iff n) in Hs. rewrite Hs. apply IH.
Qed.
Lemma insert_typed_Ok_iff typed m m' :
  insert_typed typed m = Ok m' ↔ Forall plain typed ∧ ∀ name,
    m' !! name = match typed_lookup typed name with Some s => Some s | None => m !! name end.
Proof.
  split.
  - intros Hm. split; [by eapply insert_typed_plain|by apply insert_typed_Ok].
  - intros [Hp Hl]. destruct (insert_typed_total typed m Hp) as [m1 Hm]. rewrite Hm. f_equal.
    apply map_eq. intros name. by rewrite Hl, (insert_typed_Ok _ _ _ Hm).
Qed.
Lemma insert_typed_Err_iff typed m e :
  insert_typed typed m = Err e ↔ ∃ before name v after,
    typed = before ++ (name, v) :: after ∧ Forall plain before ∧ ¬ plain (name, v) ∧
    e = lit "flags-2-env returned a non-scalar value for " ++ name.
Proof.
  split.
  - revert m. induction typed as [|[n v] typed IH]; intros m; cbn [insert_typed]; [done|].
    destruct (value_is_null v) eqn:Hv; [|rewrite bind_Err_iff; intros [He|(s & Hs & Hm)]].
    + intros (b & n' & v' & a & -> & Hb & ?)%IH. exists ((n, v) :: b), n', v', a.
      split; [done|]. split; [|done]. constructor; [left; by destruct v|done].
    + apply scalar_string_Err_iff in He as [Hn ->]. exists [], n, v, typed.
      split_and!; [done|constructor| |done].
      intros [E|[t E]]; cbn [snd] in E; [by rewrite E in Hv|congruence].
    + apply scalar_string_Ok_iff in Hs. apply IH in Hm as (b & n' & v' & a & -> & Hb & ?).
      exists ((n, v) :: b), n', v', a. split; [done|]. split; [|done]. constructor; [by right; exists s|done].
  - intros (b & n & v & a & -> & Hb & Hn & ->). revert m.
    induction Hb as [|[n' v'] b Hp _ IH]; intros m; cbn [app insert_typed].
    + assert (value_is_null v = false) as -> by (destruct v; try done; destruct Hn; by left).
      assert (scalar_text v = None) as Ht; [|by rewrite (proj2 (scalar_string_Err_iff n v _) (conj Ht eq_refl))].
      destruct (scalar_text v) as [t|] eqn:E; [destruct Hn; right; by exists t|done].
    + unfold plain in Hp. cbn [snd] in Hp. destruct Hp as [->|[t Ht]]; [apply IH|].
      destruct (value_is_null v'); [apply IH|].
      apply (scalar_string_Ok_iff n') in Ht. rewrite Ht. apply IH.
Qed.

Section lemmas.
Context `{Flags2Env}.

Definition contract_ready (path : str) : Prop :=
  temp_create = Ok tt ∧ temp_write = Ok tt ∧ temp_path = Some path ∧ audit_config path = Ok tt.

(** Why a command line or a configuration is refused, first things first. *)
Inductive refusal (parsed : ParsedFlags) (typed : result str (list (str * Value))) : str → Prop :=
| refused_unknown :
    unknown_options parsed ≠ [] → refusal parsed typed
      (lit "unknown command-line option(s): "
       ++ join (lit ", ") (btree_set (option_name <$> unknown_options parsed)))
| refused_invalid :
    unknown_options parsed = [] → parse_errors parsed ≠ 0 → refusal parsed typed
      (lit "invalid command-line value(s): " ++ display_uint (parse_errors parsed) ++ lit " error(s)")
| refused_positional :
    unknown_options parsed = [] → parse_errors parsed = 0 → extras parsed ≠ [] →
    refusal parsed typed
      (lit "unexpected positional argument(s): " ++ display_uint (N.of_nat (length (extras parsed))))
| refused_coercion e :
    unknown_options parsed = [] → parse_errors parsed = 0 → extras parsed = [] → typed = Err e →
    refusal parsed typed (lit "flags-2-env typed configuration failed: " ++ e)
| refused_value before name v after :
    unknown_options parsed = [] → parse_errors parsed = 0 → extras parsed = [] →
    typed = Ok (before ++ (name, v) :: after) → Forall plain before → ¬ plain (name, v) →
    refusal parsed typed (lit "flags-2-env returned a non-scalar value for " ++ name).

Lemma resolve_from_parsed argv env path parsed :
  contract_ready path → parse_structured argv path = Ok parsed →
  resolve_from argv env =
  if negb (bool_decide (unknown_options parsed = [])) then
    Err (lit "unknown command-line option(s): "
         ++ join (lit ", ") (btree_set (option_name <$> unknown_options parsed)))
  else if negb (parse_errors parsed =? 0) then
    Err (lit "invalid command-line value(s): " ++ display_uint (parse_errors parsed)
         ++ lit " error(s)")
  else if negb (bool_decide (extras parsed = [])) then
    Err (lit "unexpected positional argument(s): "
         ++ display_uint (N.of_nat (length (extras parsed))))
  else
    typed ← map_err (λ e, lit "flags-2-env typed configuration failed: " ++ e)
              (coerce (raw_config parsed env) path);
    insert_typed typed env.
Proof. intros (H1 & H2 & H3 & H4) Hp. unfold resolve_from. by rewrite H1, H2, H3; cbn; rewrite H4, Hp. Qed.

Lemma raw_config_lookup parsed env name :
  raw_config parsed env !! name =
  match provided_flags parsed !! name with
  | Some v => Some v
  | None =>
      if str_eqb name (lit "FLAGS2ENV_COMMAND") then None else
      match dotenv_overrides parsed !! name with
      | Some v => Some v
      | None => match env !! name with Some v => Some v | None => dotenv parsed !! name end
      end
  end.
Proof.
  unfold raw_config, extend. rewrite lookup_union.
  destruct (provided_flags parsed !! name) as [v|]; [by rewrite union_Some_l|].
  assert (∀ o : option str, None ∪ o = o) as -> by (by intros []). destruct (str_eqb name _) eqn:E.
  - apply str_eqb_eq in E as ->. by rewrite lookup_delete_eq.
  - apply str_eqb_neq in E. rewrite lookup_delete_ne, !lookup_union by done.
    destruct (dotenv_overrides parsed !! name), (env !! name), (dotenv parsed !! name); done.
Qed.
End lemmas.

(** ** Properties *)

(** The name shown for an unknown option is a prefix of the argument and reveals no value:
    of [--name=value] exactly [--name], and of any other argument its first two characters. *)
Theorem option_name_redacts o :
  (∃ rest, o = option_name o ++ rest) ∧
  (∀ name value, 61 ∉ name → o = lit "--" ++ name ++ 61 :: value → option_name o = lit "--" ++ name) ∧
  (starts_with o (lit "--") = false → (length (option_name o) <= 2)%nat).
Proof.
  split_and!.
  - destruct (starts_with o (lit "--")) eqn:E.
    + apply starts_with_true_iff in E as [long ->]. rewrite option_name_long.
      destruct (before_prefix 61 long) as (rest & Hr & _). exists rest.
      by rewrite <-app_assoc, <-Hr.
    + rewrite option_name_short by done. exists (drop 2 o). by rewrite take_drop.
  - intros name value Hn ->. rewrite option_name_long. by rewrite before_app.
  - intros Hs. rewrite option_name_short, length_take by done. lia.
Qed.

Section properties.
Context `{Flags2Env}.

(** C39: precedence and failures of the configuration.  When the contract is ready and the command
    line parsed, resolution succeeds exactly if there is no unknown option, invalid value or
    positional argument, the values coerce, and each is null or a text, boolean or number; a
    name then has its last typed value that is not null and else its process value.  It fails
    exactly with the message of the first of these that is not so, for a list or an object
    with the name of the first one.  The values that are coerced are, in order of precedence,
    the given flags, the dotenv overrides, the process environment and the dotenv file
    ([FLAGS2ENV_COMMAND] only from a flag). *)
Theorem resolve_from_precedence argv env path parsed :
  contract_ready path → parse_structured argv path = Ok parsed →
  let typed := coerce (raw_config parsed env) path in
  (∀ m, resolve_from argv env = Ok m ↔
     unknown_options parsed = [] ∧ parse_errors parsed = 0 ∧ extras parsed = [] ∧
     ∃ values, typed = Ok values ∧ Forall plain values ∧
       ∀ name, m !! name =
         match typed_lookup values name with Some s => Some s | None => env !! name end) ∧
  (∀ e, resolve_from argv env = Err e ↔ refusal parsed typed e) ∧
  (∀ name, raw_config parsed env !! name =
     match provided_flags parsed !! name with
     | Some v => Some v
     | None =>
         if str_eqb name (lit "FLAGS2ENV_COMMAND") then None else
         match dotenv_overrides parsed !! name with
         | Some v => Some v
         | None => match env !! name with Some v => Some v | None => dotenv parsed !! name end
         end
     end).
Proof.
  intros Hc Hp typed. rewrite (resolve_from_parsed _ _ _ _ Hc Hp). fold typed. split_and!.
  - intros m. rewrite !guard_Ok_iff, !negb_false_iff, !bool_decide_eq_true, N.eqb_eq, bind_Ok_iff.
    setoid_rewrite map_err_Ok_iff. setoid_rewrite insert_typed_Ok_iff. tauto.
  - intros e. destruct (decide (unknown_options parsed = [])) as [Hu|Hu].
    2: { rewrite bool_decide_false by done. cbn [negb]. split; [intros [= <-]; by constructor|by intros []]. }
    rewrite bool_decide_true by done. cbn [negb]. destruct (N.eqb_spec (parse_errors parsed) 0) as [He|He]; cbn [negb].
    2: { split; [intros [= <-]; by constructor|by intros []]. }
    destruct (decide (extras parsed = [])) as [Hx|Hx].
    2: { rewrite bool_decide_false by done. cbn [negb]. split; [intros [= <-]; by constructor|by intros []]. }
    rewrite bool_decide_true by done. cbn [negb]. rewrite bind_Err_iff.
    setoid_rewrite insert_typed_Err_iff.
    setoid_rewrite map_err_Err_iff. setoid_rewrite map_err_Ok_iff. split.
    + intros [(d & Hd & ->)|(values & Hv & b & n & v & a & -> & ? & ? & ->)];
        [by apply refused_coercion|by eapply refused_value].
    + intros [| | |d _ _ _ Hd|b n v a _ _ _ Hv Hb Hn]; [done..|left; eauto|right; eauto 12].
  - apply raw_config_lookup.
Qed.

(** A bad command line fails closed with a redacted message: unknown options are reported
    first and only by their sorted names, then the number of invalid values, then the number
    of positional arguments; two command lines whose unknown options have the same names give
    the same message, whatever their values are. *)
Theorem bad_command_line_is_redacted argv env path parsed :
  contract_ready path → parse_structured argv path = Ok parsed →
  (unknown_options parsed ≠ [] → resolve_from argv env =
     Err (lit "unknown command-line option(s): " ++
          join (lit ", ") (btree_set (option_name <$> unknown_options parsed)))) ∧
  (unknown_options parsed = [] → parse_errors parsed ≠ 0 → resolve_from argv env =
     Err (lit "invalid command-line value(s): " ++ display_uint (parse_errors parsed) ++
          lit " error(s)")) ∧
  (unknown_options parsed = [] → parse_errors parsed = 0 → extras parsed ≠ [] →
   resolve_from argv env =
     Err (lit "unexpected positional argument(s): " ++
          display_uint (N.of_nat (length (extras parsed))))) ∧
  (∀ n, n ∈ btree_set (option_name <$> unknown_options parsed) ↔
     ∃ o, o ∈ unknown_options parsed ∧ n = option_name o) ∧
  (∀ argv' env' parsed', parse_structured argv' path = Ok parsed' →
     option_name <$> unknown_options parsed' = option_name <$> unknown_options parsed →
     unknown_options parsed ≠ [] → resolve_from argv' env' = resolve_from argv env).
Proof.
  intros Hc Hp. rewrite (resolve_from_parsed _ _ _ _ Hc Hp). split_and!.
  - intros Hu. by rewrite bool_decide_false.
  - intros Hu He. rewrite bool_decide_true by done. by rewrite (proj2 (N.eqb_neq _ _) He).
  - intros Hu He Hx. rewrite bool_decide_true, He by done. by rewrite bool_decide_false.
  - intros n. unfold btree_set. rewrite merge_sort_Permutation, elem_of_remove_dups.
    rewrite list_elem_of_fmap. naive_solver.
  - intros argv' env' parsed' Hp' Hn Hu. rewrite (resolve_from_parsed _ _ _ _ Hc Hp').
    assert (unknown_options parsed' ≠ []) as Hu'.
    { intros Hnil. rewrite Hnil in Hn. apply Hu. by destruct (unknown_options parsed). }
    rewrite (bool_decide_false _ Hu), (bool_decide_false _ Hu'), Hn. done.
Qed.

Context `{Toml}.

(** Configuration is resolved once: after [process_control] has run, every later lookup, under
    whatever arguments and environment, reads the same resolution and leaves it unchanged; and
    when [main] goes on to serve, that resolution succeeded, so no lookup panics. *)
Theorem configuration_is_immutable argv env argv' env' name out cell :
  process_control argv env None = (out, cell) →
  cell = Some (resolve_from argv env) ∧
  var argv' env' name cell = ((λ m : Env, m !! name) <$> resolve_from argv env, cell) ∧
  process_control argv' env' cell = (out, cell) ∧
  (fst (main argv env None) = Serve → ∃ m, resolve_from argv env = Ok m).
Proof.
  unfold process_control, var, main, try_resolved. intros [= <- <-]. split_and!; try done.
  unfold process_control, try_resolved. destruct (resolve_from argv env) as [m|e]; [eauto|done].
Qed.
End properties.

(** ** Examples *)

Module SampleFlags.
Definition port : str := lit "PORT".
(** A parser that knows [--port]. *)
Definition parsed (argv : list str) : ParsedFlags :=
  mk_parsed (List.filter (λ o, negb (starts_with o (lit "--port="))) argv) 0 []
    (<[port := lit "1"]> ∅) ∅
    (match argv with
     | o :: _ => from_option (λ v, <[port := v]> ∅) ∅ (strip_prefix (lit "--port=") o)
     | [] => ∅
     end).
Module Instances.
#[export] Instance flags2env : Flags2Env := {|
  temp_create := Ok tt; temp_write := Ok tt; temp_path := Some (lit "/tmp/contract");
  audit_config _ := Ok tt;
  parse_structured argv _ := Ok (parsed argv);
  coerce m _ := Ok (match m !! port with
    | Some v => [(port, if str_eqb v (lit "[]") then VArray [] else VNumber v)]
    | None => []
    end);
|}.
#[export] Instance toml : Toml := {|
  Toml_value := unit; toml_parse := Ok tt; toml_get _ _ := Some tt; as_table _ := Some [];
  as_array _ := None; as_str _ := None; toml_display _ := [];
|}.
End Instances.
End SampleFlags.
Import SampleFlags.Instances.

Lemma option_name_redacts_witness :
  option_name (lit "--definitely-unknown=do-not-echo") = lit "--definitely-unknown" ∧
  (length (option_name (lit "-psecret")) <= 2)%nat.
Proof.
  split.
  - apply (proj1 (proj2 (option_name_redacts _)) (lit "definitely-unknown") (lit "do-not-echo"));
      [|by vm_compute]. by apply (bool_decide_unpack (61 ∉ lit "definitely-unknown")); vm_compute.
  - apply (proj2 (proj2 (option_name_redacts (lit "-psecret")))). by vm_compute.
Defined.

Lemma sample_contract_ready : contract_ready (lit "/tmp/contract").
Proof. by split_and!. Qed.
Lemma resolve_from_precedence_witness :
  (∃ m, resolve_from [lit "--port=9"] (<[SampleFlags.port := lit "2"]> ∅) = Ok m ∧
    m !! SampleFlags.port = Some (lit "9")) ∧
  resolve_from [lit "--port=[]"] ∅ = Err (lit "flags-2-env returned a non-scalar value for PORT").
Proof.
  split.
  - destruct (resolve_from_precedence [lit "--port=9"] (<[SampleFlags.port := lit "2"]> ∅) _ _
      sample_contract_ready eq_refl) as (Hok & _ & _).
    exists (<[SampleFlags.port := lit "9"]> (<[SampleFlags.port := lit "2"]> ∅)).
    split; [|by vm_compute]. apply Hok. do 3 (split; [by vm_compute|]).
    exists [(SampleFlags.port, VNumber (lit "9"))]. split; [by vm_compute|]. split.
    + apply Forall_singleton. right. by eexists.
    + intros name. cbn [typed_lookup value_is_null negb andb scalar_text].
      rewrite andb_true_r. destruct (str_eqb SampleFlags.port name) eqn:E.
      * apply str_eqb_eq in E as <-. apply lookup_insert_eq.
      * apply str_eqb_neq in E. by apply lookup_insert_ne.
  - destruct (resolve_from_precedence [lit "--port=[]"] ∅ _ _ sample_contract_ready eq_refl)
      as (_ & Herr & _).
    apply Herr. apply (refused_value _ _ [] SampleFlags.port (VArray []) []); try by vm_compute.
    intros [E|[s E]]; done.
Defined.

Lemma bad_command_line_is_redacted_witness :
  resolve_from [lit "--b=secret"; lit "--a"; lit "--b"] ∅ =
    Err (lit "unknown command-line option(s): --a, --b").
Proof.
  destruct (bad_command_line_is_redacted [lit "--b=secret"; lit "--a"; lit "--b"] ∅ _ _
    sample_contract_ready eq_refl) as (H1 & _).
  rewrite H1; by vm_compute.
Defined.

Lemma configuration_is_immutable_witness :
  var [lit "--port=1"] ∅ SampleFlags.port (snd (process_control [lit "--port=9"] ∅ None)) =
    ((λ m : gmap str str, m !! SampleFlags.port) <$> resolve_from [lit "--port=9"] ∅,
     snd (process_control [lit "--port=9"] ∅ None)).
Proof.
  apply (configuration_is_immutable [lit "--port=9"] ∅ [lit "--port=1"] ∅ SampleFlags.port
    (fst (process_control [lit "--port=9"] ∅ None))). apply surjective_pairing.
Defined.
