(* ===== verification/Telemetry.v ===== *)
(** * Telemetry ([src/telemetry.rs])

    The lifecycle records of the process and what the log transport forwards of a record.
    The logger is library code: the class [NextLoggers] says what one [info(..).send()] hands
    to the transport. *)

From S2P Require Import Prelude Str Float Ids Model.
Open Scope N_scope.

(** ** Library code *)

Class LogLevels := { LogLevel : Type; Info : LogLevel }.
Section options.
Context `{LogLevels}.
(** The options the code sets; the transport is [emit_record]. *)
Record Options := mk_options {
  app_name : str; name : option str; runtime : str; max_level : LogLevel; console : bool;
}.
End options.
(** What the transport gets: the attributes of the record and its body. *)
Record OpenTelemetryLogRecord := mk_record { attributes : str → option Value; record_body : str }.
Abbreviation JsonObject := (list (str * Value)) (only parsing).
(** [logger.info(body).add_fields(fields).send()]: the record that reaches the transport. *)
Class NextLoggers `{LogLevels} := {
  info : Options → list Value → JsonObject → option OpenTelemetryLogRecord;
}.
(** What the code relies on: a logger that takes the level hands the record over, with each
    field as an attribute under the prefix [next_logger.field.]. *)
Class NextLoggersLaws `{NextLoggers} := {
  info_delivered options body fields : max_level options = Info →
    ∃ record, info options body fields = Some record ∧
      ∀ n v, (n, v) ∈ fields → NoDup fields.*1 →
        attributes record (lit "next_logger.field." ++ n) = Some v;
}.

(** ** The code *)

(** [emit_record]: of a record's attributes only three texts are forwarded, with the body. *)
Record Emitted := mk_emitted { em_schema : str; em_operation : str; em_outcome : str; em_message : str }.
Definition emit_record (record : OpenTelemetryLogRecord) : Emitted :=
  let field name := default (lit "unknown") (attributes record name ≫= value_as_str) in
  mk_emitted (field (lit "next_logger.schema")) (field (lit "next_logger.field.operation"))
    (field (lit "next_logger.field.outcome")) (record_body record).

Section telemetry.
Context `{NextLoggers}.

Definition application_logger (service_name : str) : Options :=
  mk_options service_name (Some (lit "api.telemetry")) (lit "rust") Info false.
Definition lifecycle_fields (operation outcome : str) : JsonObject :=
  [(lit "component", VString (lit "api.telemetry")); (lit "operation", VString operation);
   (lit "outcome", VString outcome)].
(** The event a lifecycle record becomes, when the logger delivers it. *)
Definition lifecycle (logger : Options) (operation outcome : str) : option Emitted :=
  emit_record <$>
    info logger [VString (lit "API telemetry lifecycle")] (lifecycle_fields operation outcome).

(** [init]: [env_filter] parses a filter, [first] tells whether no other subscriber is set.  The
    guard is the logger; [None]: the filter does not parse. *)
Definition init (env : str → option str) (env_filter : str → bool) (first : bool)
    (service_name : str) : option (Options * option Emitted) :=
  let filter := default (lit "info,tower_http=info,hyper=warn") (env (lit "RUST_LOG")) in
  if negb (env_filter filter) then None else
  let logger := application_logger service_name in
  Some (logger, lifecycle logger (lit "startup")
                  (if first then lit "ready" else lit "subscriber_conflict")).
(** Dropping the guard. *)
Definition drop_guard (logger : Options) : option Emitted :=
  lifecycle logger (lit "shutdown") (lit "complete").
End telemetry.

(** ** Lemmas *)

Lemma lifecycle_delivered `{NextLoggersLaws} service operation outcome :
  ∃ e, lifecycle (application_logger service) operation outcome = Some e ∧
    em_operation e = operation ∧ em_outcome e = outcome.
Proof.
  destruct (info_delivered (application_logger service)
    [VString (lit "API telemetry lifecycle")] (lifecycle_fields operation outcome) eq_refl)
    as (record & Hr & Hf).
  unfold lifecycle. rewrite Hr. eexists. split; [done|].
  assert (NoDup (lifecycle_fields operation outcome).*1) as Hnd
    by (apply (bool_decide_unpack (NoDup [_; _; _])); by vm_compute).
  pose proof (Hf (lit "operation") (VString operation) ltac:(right; left) Hnd) as Hop.
  pose proof (Hf (lit "outcome") (VString outcome) ltac:(right; right; left) Hnd) as Hout.
  cbn [emit_record em_operation em_outcome].
  change (lit "next_logger.field.operation") with (lit "next_logger.field." ++ lit "operation").
  change (lit "next_logger.field.outcome") with (lit "next_logger.field." ++ lit "outcome").
  by rewrite Hop, Hout.
Qed.

(** ** Properties *)

(** Telemetry says no more than the lifecycle.  What the transport forwards of a record
    depends on three attributes and the body only, whatever else a record carries; an attribute
    that is missing or not a text is forwarded as "unknown"; and the records of start-up and
    shut-down arrive with their operation and outcome. *)
Theorem telemetry_is_bounded `{NextLoggersLaws} :
  (∀ r s, record_body r = record_body s →
     (∀ n, n ∈ [lit "next_logger.schema"; lit "next_logger.field.operation";
                lit "next_logger.field.outcome"] → attributes r n = attributes s n) →
     emit_record r = emit_record s) ∧
  (∀ r, (∀ t, attributes r (lit "next_logger.field.operation") ≠ Some (VString t)) →
     em_operation (emit_record r) = lit "unknown") ∧
  (∀ env env_filter first service logger event,
     init env env_filter first service = Some (logger, event) →
     ∃ e e', event = Some e ∧ em_operation e = lit "startup" ∧
       em_outcome e = (if first then lit "ready" else lit "subscriber_conflict") ∧
       drop_guard logger = Some e' ∧ em_operation e' = lit "shutdown" ∧
       em_outcome e' = lit "complete").
Proof.
  split; [|split].
  - intros r s Hb Ha. unfold emit_record. rewrite Hb.
    rewrite !Ha by (rewrite !elem_of_cons; tauto). done.
  - intros r Hn. cbn [emit_record em_operation].
    destruct (attributes r (lit "next_logger.field.operation")) as [v|] eqn:E; [|done].
    destruct v as [| | |t| |]; try done. by destruct (Hn t).
  - intros env env_filter first service logger event. unfold init.
    destruct (negb (env_filter _)); [done|]. intros [= <- <-].
    destruct (lifecycle_delivered service (lit "startup")
      (if first then lit "ready" else lit "subscriber_conflict")) as (e & -> & ? & ?).
    destruct (lifecycle_delivered service (lit "shutdown") (lit "complete")) as (e' & He' & ? & ?).
    by exists e, e'.
Qed.

(** ** Example *)

Module SampleTelemetry.
(** A logger whose records hold the schema and every field. *)
Definition lookup (fields : JsonObject) (n : str) : option Value :=
  snd <$> find (λ e, str_eqb (lit "next_logger.field." ++ fst e) n) fields.
Module Instances.
#[export] Instance log_levels : LogLevels := {| LogLevel := N; Info := 3 |}.
#[export] Instance next_loggers : NextLoggers := {|
  info options body fields := if max_level options =? 3 then
    Some (mk_record (λ n, if str_eqb n (lit "next_logger.schema") then Some (VString (lit "1"))
                          else lookup fields n) (lit "body")) else None |}.
#[export] Instance next_loggers_laws : NextLoggersLaws.
Proof.
  split. intros options body fields Hl. unfold info, next_loggers. rewrite Hl.
  eexists. split; [done|].
  intros n v Hin Hnd. cbn [attributes].
  rewrite (proj2 (str_eqb_neq (lit "next_logger.field." ++ n) (lit "next_logger.schema")))
    by (intros [=]).
  unfold lookup. induction fields as [|[k w] fields IH]; [by apply elem_of_nil in Hin|].
  cbn [find fst]. cbn in Hnd. apply NoDup_cons in Hnd as [Hk Hnd].
  destruct (str_eqb _ _) eqn:E.
  - apply str_eqb_eq, app_inv_head in E as ->. apply elem_of_cons in Hin as [[= ->]|Hin]; [done|].
    destruct Hk. apply list_elem_of_fmap. by exists (n, v).
  - apply IH; [|done]. apply elem_of_cons in Hin as [[= -> ->]|Hin]; [|done].
    by rewrite str_eqb_refl in E.
Qed.
End Instances.
End SampleTelemetry.
Import SampleTelemetry.Instances.
Lemma telemetry_is_bounded_witness :
  ∃ logger event e, init (λ _, None) (λ _, true) true (lit "eal-api-server") = Some (logger, event) ∧
    event = Some e ∧ em_operation e = lit "startup" ∧ em_outcome e = lit "ready".
Proof.
  destruct (proj2 (proj2 telemetry_is_bounded) (λ _, None) (λ _, true) true (lit "eal-api-server") _ _
    eq_refl) as (e & _ & He & Hop & Hout & _).
  by do 2 eexists; exists e.
Defined.
