(* ===== verification/Server.v ===== *)
(** * Start-up and the data-plane binding ([run] and [connect_database] of [src/lib.rs],
    [src/web_api_plane.rs])

    [run] as the composition of the components' start-up steps, up to the bound listener.
    The environment lookup is [crate::flags::var]; what the outside world answers (the log
    filter, the database, the listeners) is the record [World]. *)

From S2P Require Import Prelude Str Float Ids Model Auth Database Store Repository Envelope.
From S2P Require Import Commands Outbox Jetstream Tcp Api Telemetry.
Open Scope N_scope.

(** ** The data-plane binding *)

Definition GITHUB_ORG : str := lit "embedded-alerts".
Definition ORG_SLUG : str := lit "eal".
Definition DNS_ZONE : str := lit "embedded-alerts.dev".

Class DataPlane := {
  OrgIdentity : Type;
  DataPlaneCapabilities : Type;
  DirectDatabasePolicy : Type;
  StatelessHttpPolicy : Type;
  StatefulMtlsTcpPolicy : Type;
  JetStreamPolicy : Type;
  DataPlaneError : Type;
  identity_new : str → str → str → option OrgIdentity;
  capabilities_for : OrgIdentity → DataPlaneCapabilities;
  direct_for : OrgIdentity → DirectDatabasePolicy;
  http_for : OrgIdentity → StatelessHttpPolicy;
  tcp_for : OrgIdentity → N → StatefulMtlsTcpPolicy;
  jetstream_for : OrgIdentity → JetStreamPolicy;
  direct_validate : DirectDatabasePolicy → OrgIdentity → result DataPlaneError unit;
  http_validate : StatelessHttpPolicy → result DataPlaneError unit;
  tcp_validate : StatefulMtlsTcpPolicy → result DataPlaneError unit;
  jetstream_validate : JetStreamPolicy → result DataPlaneError unit;
}.
Section plane.
Context `{DataPlane}.
(** [None]: the [expect] panics. *)
Definition identity : option OrgIdentity := identity_new GITHUB_ORG ORG_SLUG DNS_ZONE.
Definition capabilities : option DataPlaneCapabilities := capabilities_for <$> identity.
Definition policies : option (DirectDatabasePolicy * StatelessHttpPolicy * StatefulMtlsTcpPolicy
    * JetStreamPolicy) :=
  (λ i, (direct_for i, http_for i, tcp_for i 7443, jetstream_for i)) <$> identity.
Definition validate_four_avenues : option (result DataPlaneError unit) :=
  identity ← identity;
  '(db, http, tcp, nats) ← policies;
  Some (direct_validate db identity;; http_validate http;; tcp_validate tcp;;
        jetstream_validate nats).
End plane.

(** ** Start-up *)

Inductive ConnectFate := ConnectTimeout | ConnectFailed | Connected (db : Db).
(** [w_local_addr]: what [local_addr()?] answers for the record of a bound listener, an error of
    the system; success too when the log filter drops the record, which is not evaluated then. *)
Record World := mk_world {
  w_filter : str → bool; w_first : bool; w_connect : str → ConnectFate; w_binds : str → bool;
  w_local_addr : str → result str unit;
}.

Definition connect_database (env : str → option str) (connect : str → ConnectFate)
    : result str (option Db) :=
  match env (lit "DATABASE_URL") with
  | Some url =>
      if negb (is_empty (trim url)) then
        match connect url with
        | ConnectTimeout => Err (lit "database connection timed out")
        | ConnectFailed => Err (lit "connect database")
        | Connected db => Ok (Some db)
        end
      else Ok None
  | None => Ok None
  end.

Section boot.
Context `{SharedAuth} `{Http} `{UuidText} `{Rustls} `{NextLoggers}.

Record Booted := mk_booted {
  b_state : AppState (R := AlertStore);
  b_mtls : option MtlsServerConfig;
  b_jetstream : option JetstreamSettings;
  b_address : str;
}.
Definition listen (w : World) (address : str) : result str unit :=
  if w_binds w address then w_local_addr w address else Err (lit "bind API listener").
Definition run (env : str → option str) (w : World) : result str Booted :=
  if is_none (init env (w_filter w) (w_first w) (lit "eal-api-server"))
  then Err (lit "invalid log filter") else
  auth ← map_err (λ _, lit "load Shared Auth boundary") (from_env env);
  database ← connect_database env (w_connect w);
  let store := new database in
  mtls ← spawn_mtls_from_env env (w_binds w);
  jetstream ← spawn_jetstream_from_env env store (p_product_tenant (policy auth));
  let state := mk_state store auth [] (is_some mtls) (is_some jetstream) in
  let host := default (lit "0.0.0.0") (env (lit "HOST")) in
  let port := default (lit "8080") (env (lit "PORT")) in
  let address := host ++ lit ":" ++ port in
  listen w address;;
  Ok (mk_booted state mtls jetstream address).

(** ** Properties *)

(** The server starts only when it is safely configured: in every successful start the auth
    boundary was built from a complete environment, the store is empty or the configured
    database, each transport runs exactly when it is reported as configured, JetStream runs
    only on a configured database, with the policy's tenant and a valid key, and a set
    [DATABASE_URL] is never ignored. *)
Theorem run_starts_safely env w b :
  run env w = Ok b →
  from_env env = Ok (app_auth (b_state b)) ∧
  connect_database env (w_connect w) = Ok (database (app_store (b_state b))) ∧
  fallback (app_store (b_state b)) = ∅ ∧ app_events (b_state b) = [] ∧
  spawn_mtls_from_env env (w_binds w) = Ok (b_mtls b) ∧
  mtls_configured (b_state b) = is_some (b_mtls b) ∧
  jetstream_configured (b_state b) = is_some (b_jetstream b) ∧
  (∀ settings, b_jetstream b = Some settings →
     is_Some (database (app_store (b_state b))) ∧
     js_product_tenant settings = p_product_tenant (policy (app_auth (b_state b))) ∧
     valid_command_key (js_command_key settings) = true) ∧
  (∀ url, env (lit "DATABASE_URL") = Some url → trim url ≠ [] →
     ∃ db, w_connect w url = Connected db ∧ database (app_store (b_state b)) = Some db).
Proof.
  unfold run. rewrite guard_Ok_iff. intros [_ Hrun].
  apply bind_Ok_iff in Hrun as (auth & Ha%map_err_Ok_iff & Hrun).
  apply bind_Ok_iff in Hrun as (db & Hdb & Hrun).
  apply bind_Ok_iff in Hrun as (mtls & Hm & Hrun).
  apply bind_Ok_iff in Hrun as (js & Hj & Hrun).
  apply bind_Ok_iff in Hrun as ([] & _ & [= <-]).
  cbn [b_state b_mtls b_jetstream app_auth app_store app_events new database fallback
    mtls_configured jetstream_configured].
  split_and!; try done.
  - intros settings ->. unfold spawn_jetstream_from_env in Hj.
    destruct (optional_env env _) as [url|]; [|done]. inv_ok. subst.
    cbn [js_product_tenant js_command_key]. split_and!; [eauto|done|].
    match goal with E : negb _ = false |- _ => by apply negb_false_iff in E end.
  - intros url Hurl Hne. unfold connect_database in Hdb. rewrite Hurl in Hdb.
    rewrite (proj2 (is_empty_false_iff _) Hne) in Hdb. cbn [negb] in Hdb.
    destruct (w_connect w url) as [| |d]; [done..|]. injection Hdb as <-. eauto.
Qed.
End boot.

(** ** Example *)

Import CanonicalInstances Sample.Instances SampleStorage.Instances SampleTcp.Instances
  SampleTelemetry.Instances.
Definition sample_env (name : str) : option str :=
  if str_eqb name (lit "DATABASE_URL") then Some (lit "postgres://db") else
  if str_eqb name (lit "NATS_URL") then Some (lit "tls://nats.example:4222") else
  if str_eqb name (lit "EAL_NATS_COMMAND_HMAC_KEY") then Some (replicate 32 107) else
  match SampleTcp.env name with Some v => Some v | None => Sample.env name end.
Definition sample_world : World := mk_world (λ _, true) true (λ _, Connected empty_db) (λ _, true)
  (λ _, Ok tt).
Definition sample_booted : option Booted := ok (run sample_env sample_world).

Lemma run_starts_safely_witness :
  ∃ b, run sample_env sample_world = Ok b ∧ jetstream_configured (b_state b) = true ∧
    mtls_configured (b_state b) = is_some (b_mtls b) ∧
    ∃ db, w_connect sample_world (lit "postgres://db") = Connected db ∧
      database (app_store (b_state b)) = Some db.
Proof.
  assert (is_ok (run sample_env sample_world) = true ∧
    is_some_and (λ b, jetstream_configured (b_state b)) sample_booted = true) as [Hok Hj]
    by (by vm_compute).
  unfold sample_booted in Hj. destruct (run sample_env sample_world) as [b|] eqn:E; [|done].
  exists b. split; [done|]. split; [exact Hj|].
  destruct (run_starts_safely _ _ _ E) as (_ & _ & _ & _ & _ & Hm & _ & _ & Hd).
  split; [exact Hm|]. apply Hd; by vm_compute.
Defined.
