(* ===== verification/Program.v ===== *)
(** * The program ([main] of [src/main.rs], [run] of [src/lib.rs] up to its end)

    The process from its arguments to its exit, with a trace of what it does to the outside in
    order: log records, the database connection, bound addresses, the consumer, serving. *)

From S2P Require Import Prelude Str Float Ids Model Auth Database Store Repository Envelope.
From S2P Require Import Commands Outbox Jetstream Tcp Api Flags Telemetry Server.
Open Scope N_scope.

(** ** Traced computations *)

Section boot.
Context `{SharedAuth} `{Http} `{UuidText} `{Rustls} `{NextLoggers}.

(** [Consume]: the task of [run_jetstream] is spawned; [Listening]: the record of the bound
    address is written. *)
Inductive Action :=
| Logged (event : option Emitted)
| Connect (url : str)
| Bind (address : str)
| Consume (settings : JetstreamSettings)
| Listening (address : str).
Definition traced (A : Type) : Type := list Action * result str A.
Definition lift {A} (r : result str A) : traced A := ([], r).
Definition and_then {A B} (x : traced A) (f : A → traced B) : traced B :=
  match snd x with
  | Ok a => (fst x ++ fst (f a), snd (f a))
  | Err e => (fst x, Err e)
  end.

Definition connect_traced (env : str → option str) (w : World) : traced (option Db) :=
  (match env (lit "DATABASE_URL") with
   | Some url => if negb (is_empty (trim url)) then [Connect url] else []
   | None => []
   end, connect_database env (w_connect w)).
Definition mtls_traced (env : str → option str) (w : World) : traced (option MtlsServerConfig) :=
  (match mtls_from_env env with Ok (Some config) => [Bind (bind_address config)] | _ => [] end,
   spawn_mtls_from_env env (w_binds w)).
Definition jetstream_traced (env : str → option str) (store : AlertStore) (tenant : str)
    : traced (option JetstreamSettings) :=
  let r := spawn_jetstream_from_env env store tenant in
  (match r with Ok (Some settings) => [Consume settings] | _ => [] end, r).
Definition listen_traced (w : World) (address : str) : traced unit :=
  (Bind address :: (if is_ok (listen w address) then [Listening address] else []), listen w address).

(** [run] between the telemetry guard's creation and the service. *)
Definition boot_traced (env : str → option str) (w : World) : traced Booted :=
  and_then (lift (map_err (λ _, lit "load Shared Auth boundary") (from_env env))) (λ auth,
  and_then (connect_traced env w) (λ database,
  let store := new database in
  and_then (mtls_traced env w) (λ mtls,
  and_then (jetstream_traced env store (p_product_tenant (policy auth))) (λ jetstream,
  let state := mk_state store auth [] (is_some mtls) (is_some jetstream) in
  let host := default (lit "0.0.0.0") (env (lit "HOST")) in
  let port := default (lit "8080") (env (lit "PORT")) in
  let address := host ++ lit ":" ++ port in
  and_then (listen_traced w address) (λ _,
  lift (Ok (mk_booted state mtls jetstream address))))))).
(** [run]: [serves] tells whether [axum::serve] ends without an error, after Ctrl-C. *)
Definition run_traced (env : str → option str) (w : World) (serves : bool) : traced unit :=
  match init env (w_filter w) (w_first w) (lit "eal-api-server") with
  | None => lift (Err (lit "invalid log filter"))
  | Some (guard, event) =>
      let r := and_then (boot_traced env w) (λ _,
        lift (if serves then Ok tt else Err (lit "serve API"))) in
      (Logged event :: fst r ++ [Logged (drop_guard guard)], snd r)
  end.

(** [main]: the environment of [run] is [flags::var] on the resolved cell. *)
Inductive Exit := Output (text : str) | Failure (message : str) | Stopped.
Context `{Flags2Env} `{Toml}.
Definition resolved_var (argv : list str) (environment : Env) (cell : Cell) (name : str) : option str :=
  match fst (var argv environment name cell) with Ok v => v | Err _ => None end.
Definition program (argv : list str) (environment : Env) (w : World) (serves : bool)
    : list Action * Exit :=
  match main argv environment None with
  | (Printed output, _) => ([], Output output)
  | (Failed e, _) => ([], Failure e)
  | (Serve, cell) =>
      let '(trace, r) := run_traced (resolved_var argv environment cell) w serves in
      (trace, match r with Ok _ => Stopped | Err e => Failure e end)
  end.
End boot.

(** ** Lemmas *)

Section lemmas.
Context `{SharedAuth} `{Http} `{UuidText} `{Rustls} `{NextLoggers}.

Definition is_logged (a : Action) : bool := match a with Logged _ => true | _ => false end.
Lemma and_then_snd {A B} (x : traced A) (f : A → traced B) :
  snd (and_then x f) = (a ← snd x; snd (f a)).
Proof. unfold and_then. by destruct (snd x). Qed.
(** The trace is a second view of [run]. *)
Lemma boot_traced_run env w :
  init env (w_filter w) (w_first w) (lit "eal-api-server") ≠ None →
  snd (boot_traced env w) = run env w.
Proof.
  intros Hi. unfold boot_traced, run. destruct (init _ _ _ _); [|done]. cbn [is_none is_some negb].
  rewrite and_then_snd. destruct (map_err _ _) as [auth|]; [|done]. cbn [lift snd mbind result_bind].
  rewrite and_then_snd. cbn [connect_traced snd].
  destruct (connect_database _ _) as [db|]; [|done]. cbn [mbind result_bind].
  rewrite and_then_snd. cbn [mtls_traced snd].
  destruct (spawn_mtls_from_env _ _) as [mtls|]; [|done]. cbn [mbind result_bind].
  rewrite and_then_snd. cbn [jetstream_traced snd].
  destruct (spawn_jetstream_from_env _ _ _) as [js|]; [|done]. cbn [mbind result_bind].
  rewrite and_then_snd. cbn [listen_traced snd]. by destruct (listen w _).
Qed.

(** A property of actions that each step has. *)
Lemma and_then_Forall {A B} (P : Action → Prop) (x : traced A) (f : A → traced B) :
  Forall P (fst x) → (∀ a, snd x = Ok a → Forall P (fst (f a))) → Forall P (fst (and_then x f)).
Proof.
  intros Hx Hf. unfold and_then. destruct (snd x) as [a|]; [|done]. cbn. apply Forall_app. auto.
Qed.
(** Serving is the last step: what comes before it succeeded. *)
Lemma and_then_listening {A B} (x : traced A) (f : A → traced B) address :
  Listening address ∉ fst x → Listening address ∈ fst (and_then x f) →
  ∃ a, snd x = Ok a ∧ Listening address ∈ fst (f a) ∧
    and_then x f = (fst x ++ fst (f a), snd (f a)).
Proof.
  unfold and_then. intros Hx. destruct (snd x) as [a|]; cbn; [|done].
  intros [?|Hin]%elem_of_app; [done|]. by exists a.
Qed.

(** What each step does. *)
Lemma connect_quiet env w : Forall (λ a, match a with Connect _ => True | _ => False end)
  (fst (connect_traced env w)).
Proof.
  cbn. destruct (env _) as [url|]; [|done]. destruct (negb _); [|done]. by apply Forall_singleton.
Qed.
Lemma mtls_quiet env w : Forall (λ a, match a with Bind _ => True | _ => False end)
  (fst (mtls_traced env w)).
Proof. cbn. destruct (mtls_from_env env) as [[c|]|]; try done. by apply Forall_singleton. Qed.
Lemma jetstream_quiet env store tenant :
  Forall (λ a, match a with Consume _ => True | _ => False end)
    (fst (jetstream_traced env store tenant)).
Proof.
  cbn. destruct (spawn_jetstream_from_env _ _ _) as [[c|]|]; try done. by apply Forall_singleton.
Qed.
Lemma boot_not_logged env w : Forall (λ a, is_logged a = false) (fst (boot_traced env w)).
Proof.
  unfold boot_traced. apply and_then_Forall; [done|]. intros auth _.
  apply and_then_Forall; [eapply Forall_impl; [apply connect_quiet|by intros []]|]. intros db _.
  apply and_then_Forall; [eapply Forall_impl; [apply mtls_quiet|by intros []]|]. intros mtls _.
  apply and_then_Forall; [eapply Forall_impl; [apply jetstream_quiet|by intros []]|]. intros js _.
  apply and_then_Forall; [|done]. unfold listen_traced. destruct (listen w _); by repeat constructor.
Qed.
Lemma quiet_listening (P : Action → Prop) l address :
  Forall P l → ¬ P (Listening address) → Listening address ∉ l.
Proof. intros Hl HP Hin. apply HP. rewrite Forall_forall in Hl. by apply Hl. Qed.

(** A server that listens did everything before, in one order. *)
Lemma boot_listening env w address :
  Listening address ∈ fst (boot_traced env w) →
  ∃ b, snd (boot_traced env w) = Ok b ∧ b_address b = address ∧
    fst (boot_traced env w) = fst (connect_traced env w) ++ fst (mtls_traced env w) ++
      match b_jetstream b with Some settings => [Consume settings] | None => [] end ++
      [Bind address; Listening address].
Proof.
  unfold boot_traced. intros Hin.
  apply and_then_listening in Hin as (auth & _ & Hin & ->); [|apply not_elem_of_nil].
  apply and_then_listening in Hin as (db & _ & Hin & ->);
    [|eapply quiet_listening; [apply connect_quiet|by intros []]].
  apply and_then_listening in Hin as (mtls & _ & Hin & ->);
    [|eapply quiet_listening; [apply mtls_quiet|by intros []]].
  apply and_then_listening in Hin as (js & Hjs & Hin & ->);
    [|eapply quiet_listening; [apply jetstream_quiet|by intros []]].
  cbn [jetstream_traced snd] in Hjs. unfold jetstream_traced. rewrite Hjs. revert Hin.
  unfold listen_traced. destruct (listen w _) as [[]|]; cbn.
  - intros Hin. repeat (apply elem_of_cons in Hin as [[= ->]|Hin]); [|by apply elem_of_nil in Hin].
    eexists. split; [done|]. split; [done|]. cbn [b_jetstream]. by destruct js.
  - intros Hin. repeat (apply elem_of_cons in Hin as [[=]|Hin]). by apply elem_of_nil in Hin.
Qed.
Lemma boot_listens env w b :
  snd (boot_traced env w) = Ok b → Listening (b_address b) ∈ fst (boot_traced env w).
Proof.
  assert (∀ A B (x : traced A) (f : A → traced B) r, snd (and_then x f) = Ok r → ∃ a,
    snd x = Ok a ∧ snd (f a) = Ok r ∧ and_then x f = (fst x ++ fst (f a), snd (f a))) as Hthen.
  { intros A B x f r. unfold and_then. destruct (snd x) as [a|]; [|done]. intros Hf. by exists a. }
  unfold boot_traced. intros Hb.
  do 4 (apply Hthen in Hb as (? & ? & Hb & ->); cbn [fst]; rewrite elem_of_app; right).
  apply Hthen in Hb as ([] & Hl & [= <-] & ->). cbn [fst b_address]. rewrite elem_of_app. left.
  revert Hl. unfold listen_traced. cbn [snd fst]. intros ->. cbn. right. left.
Qed.
End lemmas.

(** ** Properties *)

Section properties.
Context `{SharedAuth} `{Http} `{UuidText} `{Rustls} `{NextLoggers} `{Flags2Env} `{Toml}.

(** C28: the process starts in order or not at all.  When the command line asks for help or the
    version, or does not resolve, nothing happens to the outside; otherwise the configuration
    resolved once is what every component reads.  The actions are framed by a start-up record
    and a shut-down record, also when the start fails.  Without a complete identity
    configuration there are no actions; the API listens only after the database, the mTLS
    listener and the consumer, in this order, have succeeded, and then with everything
    configured; and the process stops without an error exactly when the start succeeds and
    serving ends well. *)
Theorem program_starts_in_order argv environment w serves trace exit :
  program argv environment w serves = (trace, exit) →
  (∀ output, exit = Output output → trace = []) ∧
  (exit = Stopped → trace ≠ []) ∧
  (trace ≠ [] → ∃ m event event' steps, resolve_from argv environment = Ok m ∧
     let env (n : str) := (m : Env) !! n in
     trace = Logged event :: steps ++ [Logged event'] ∧ Forall (λ a, is_logged a = false) steps ∧
     (is_err (from_env env) = true → steps = []) ∧
     (exit = Stopped ↔ serves = true ∧ is_ok (run env w) = true) ∧
     (∀ b, run env w = Ok b → Listening (b_address b) ∈ steps) ∧
     (∀ address, Listening address ∈ steps → ∃ b, run env w = Ok b ∧ b_address b = address ∧
        steps = fst (connect_traced env w) ++ fst (mtls_traced env w) ++
          match b_jetstream b with Some settings => [Consume settings] | None => [] end ++
          [Bind address; Listening address])).
Proof.
  unfold program, main, process_control, try_resolved.
  destruct (resolve_from argv environment) as [m|e] eqn:Hres; cbn [mbind result_bind];
    [|intros [= <- <-]; by split_and!].
  repeat case_bool_decide; try (destruct help_table as [t|e]; cbn; intros [= <- <-]; by split_and!).
  change (resolved_var argv environment (Some (Ok m))) with (λ n : str, (m : Env) !! n).
  unfold run_traced. set (env := λ n : str, (m : Env) !! n).
  destruct (init env _ _ _) as [[guard event]|] eqn:Hi; [|intros [= <- <-]; by split_and!].
  assert (snd (boot_traced env w) = run env w) as Hrun by (apply boot_traced_run; congruence).
  set (r := and_then (boot_traced env w) _).
  assert (fst r = fst (boot_traced env w)) as Hfst.
  { unfold r, and_then. destruct (snd (boot_traced env w)); cbn; by rewrite ?app_nil_r. }
  rewrite Hfst. intros [= <- <-]. split; [by destruct (snd r)|]. split; [done|]. intros _.
  exists m, event, (drop_guard guard), (fst (boot_traced env w)).
  fold env. cbn zeta. split; [done|]. split; [done|]. split; [apply boot_not_logged|]. split; [|split; [|split]].
  - intros Hauth. unfold boot_traced. by destruct (from_env env).
  - unfold r, and_then. rewrite Hrun. destruct (run env w); destruct serves; naive_solver.
  - intros b Hb. apply boot_listens. by rewrite Hrun.
  - intros address (b & Hb & Ha & E)%boot_listening. exists b. by rewrite <-Hrun.
Qed.
End properties.

(** ** Example *)

Import CanonicalInstances Sample.Instances SampleStorage.Instances SampleTcp.Instances
  SampleTelemetry.Instances SampleFlags.Instances.
Definition sample_names : list str :=
  lit <$> ["SHARED_AUTH_BASE_URL"; "SHARED_AUTH_SERVICE_CREDENTIAL"; "SHARED_AUTH_ISSUER";
    "EAL_AUTH_AUDIENCE"; "EAL_AUTHORIZED_CLIENT"; "EAL_PROVIDER_TENANT"; "EAL_PRODUCT_TENANT";
    "DATABASE_URL"; "NATS_URL"; "EAL_NATS_COMMAND_HMAC_KEY"; "EAL_API_MTLS_BIND";
    "EAL_API_TLS_CERT_FILE"; "EAL_API_TLS_KEY_FILE"; "EAL_WEB_CLIENT_CA_FILE"]%string.
Definition sample_environment : gmap str str :=
  list_to_map (omap (λ n, pair n <$> sample_env n) sample_names).
Definition sample_program : list Action * Exit :=
  program [lit "--port=9"] sample_environment sample_world true.
(** What an action is, for a trace to be compared. *)
Definition action_name (a : Action) : str :=
  match a with
  | Logged event => from_option (λ e, em_operation e ++ lit " " ++ em_outcome e) [] event
  | Connect url => url
  | Bind address => lit "bind " ++ address
  | Consume settings => js_url settings
  | Listening address => lit "listening " ++ address
  end.
Lemma program_starts_in_order_witness :
  action_name <$> fst sample_program =
    [lit "startup ready"; lit "postgres://db"; lit "bind 0.0.0.0:9443";
     lit "tls://nats.example:4222"; lit "bind 0.0.0.0:9"; lit "listening 0.0.0.0:9";
     lit "shutdown complete"] ∧
  snd sample_program = Stopped ∧
  ∃ m b, resolve_from [lit "--port=9"] sample_environment = Ok m ∧
    run (λ n, (m : gmap str str) !! n) sample_world = Ok b.
Proof.
  assert (action_name <$> fst sample_program =
    [lit "startup ready"; lit "postgres://db"; lit "bind 0.0.0.0:9443";
     lit "tls://nats.example:4222"; lit "bind 0.0.0.0:9"; lit "listening 0.0.0.0:9";
     lit "shutdown complete"]) as Hnames by (by vm_compute).
  assert (snd sample_program = Stopped) as Hexit by (vm_compute; reflexivity).
  split; [exact Hnames|]. split; [exact Hexit|].
  destruct (program_starts_in_order [lit "--port=9"] sample_environment sample_world true
    (fst sample_program) (snd sample_program)) as (_ & _ & Hrun); [apply surjective_pairing|].
  destruct Hrun as (m & event & event' & steps & Hm & Hrun).
  { intros E. rewrite E in Hnames. discriminate Hnames. }
  destruct Hrun as (_ & _ & _ & Hiff & _). destruct (proj1 Hiff Hexit) as [_ Hok].
  exists m. destruct (run (λ n, (m : gmap str str) !! n) sample_world) as [b|e];
    [exists b; split; [exact Hm|reflexivity]|discriminate Hok].
Defined.
