(* ===== verification/Contract.v ===== *)
(** * The configuration contract ([.cli-flags.toml], [src/flags.rs])

    The contract embedded by [CONTRACT] as data: its flags and the variables it keeps out of
    flags-2-env.  The file shows that the contract is complete (the process reads no variable
    that is not declared), that no secret is a command-line flag, and what the help text made
    of it says. *)

From S2P Require Import Prelude Str Float Ids Model Auth Database Store Repository Envelope.
From S2P Require Import Commands Outbox Jetstream Tcp Api Flags Telemetry Server Program.
Open Scope N_scope.

(** ** The contract *)

Inductive FlagType := Boolean | Integer | Text.
Inductive Default := NoDefault | DefaultBool (b : bool) | DefaultInteger (n : N) | DefaultText (s : str).
Record Flag := mk_flag {
  f_name : str; f_env : str; f_long : str; f_short : option str; f_type : FlagType;
  f_default : Default; f_help : str;
}.
(** A flag whose table is named like its long option. *)
Definition text_flag (name env : string) (d : Default) (help : string) : Flag :=
  mk_flag (lit name) (lit env) (lit name) None Text d (lit help).
Definition CONTRACT_flags : list Flag :=
  [mk_flag (lit "help") (lit "CLI_HELP_REQUESTED") (lit "help") (Some (lit "h")) Boolean
     (DefaultBool false) (lit "Print command-line help.");
   mk_flag (lit "version") (lit "CLI_VERSION_REQUESTED") (lit "version") (Some (lit "V")) Boolean
     (DefaultBool false) (lit "Print the server version.");
   text_flag "host" "HOST" (DefaultText (lit "0.0.0.0")) "API listener host.";
   mk_flag (lit "port") (lit "PORT") (lit "port") (Some (lit "p")) Integer
     (DefaultInteger 8080) (lit "API listener port.");
   text_flag "shared-auth-base-url" "SHARED_AUTH_BASE_URL" NoDefault
     "Credential-free Shared Auth base URL.";
   text_flag "shared-auth-issuer" "SHARED_AUTH_ISSUER" NoDefault "Expected Shared Auth issuer.";
   text_flag "auth-audience" "EAL_AUTH_AUDIENCE" NoDefault "Expected access-token audience.";
   text_flag "authorized-client" "EAL_AUTHORIZED_CLIENT" NoDefault
     "Authorized Shared Auth client identifier.";
   text_flag "provider-tenant" "EAL_PROVIDER_TENANT" NoDefault
     "Shared Auth provider tenant identifier.";
   text_flag "product-tenant" "EAL_PRODUCT_TENANT" NoDefault
     "Embedded Alerts product tenant identifier.";
   text_flag "api-mtls-bind" "EAL_API_MTLS_BIND" NoDefault "Optional API mTLS listener address.";
   text_flag "api-tls-cert-file" "EAL_API_TLS_CERT_FILE" NoDefault
     "API TLS certificate-chain file.";
   text_flag "web-client-ca-file" "EAL_WEB_CLIENT_CA_FILE" NoDefault "Trusted web-client CA file.";
   text_flag "nats-url" "NATS_URL" NoDefault "Credential-free TLS or loopback NATS URL.";
   text_flag "rust-log" "RUST_LOG" (DefaultText (lit "info,tower_http=info,hyper=warn"))
     "Tracing filter."].
(** [env.ignore]: read from the environment only. *)
Definition CONTRACT_ignore : list str :=
  [lit "DATABASE_URL"; lit "SHARED_AUTH_SERVICE_CREDENTIAL"; lit "EAL_API_TLS_KEY_FILE";
   lit "EAL_NATS_COMMAND_HMAC_KEY"].
Definition declared : list str := (f_env <$> CONTRACT_flags) ++ CONTRACT_ignore.

(** ** The contract as a TOML document *)

#[warnings="-register-all"] Inductive Tree :=
| TText (s : str) | TInteger (n : N) | TBool (b : bool) | TArray (l : list Tree)
| TTable (entries : list (str * Tree)).
Definition type_text (t : FlagType) : str :=
  match t with Boolean => lit "boolean" | Integer => lit "integer" | Text => lit "string" end.
Definition default_tree (d : Default) : option Tree :=
  match d with
  | NoDefault => None
  | DefaultBool b => Some (TBool b)
  | DefaultInteger n => Some (TInteger n)
  | DefaultText s => Some (TText s)
  end.
Definition option_entry (key : str) (o : option Tree) : list (str * Tree) :=
  match o with Some t => [(key, t)] | None => [] end.
Definition flag_tree (f : Flag) : Tree :=
  TTable ([(lit "env", TText (f_env f)); (lit "long", TText (f_long f))] ++
          option_entry (lit "short") (TText <$> f_short f) ++
          [(lit "type", TText (type_text (f_type f)))] ++
          option_entry (lit "default") (default_tree (f_default f)) ++
          [(lit "help", TText (f_help f))]).
Definition CONTRACT : Tree :=
  TTable [(lit "identity", TTable [(lit "service", TText (lit "eal-api-server"));
                                   (lit "type_name", TText (lit "RuntimeEnv"))]);
          (lit "help", TTable [(lit "url", TText (lit "https://github.com/flags-2-env/flags-2-env"));
             (lit "columns", TArray (TText <$> [lit "options"; lit "env"; lit "type";
                                                lit "default"; lit "description"]))]);
          (lit "parse", TTable [(lit "allow_unknown", TBool false)]);
          (lit "env", TTable [(lit "ignore", TArray (TText <$> CONTRACT_ignore))]);
          (lit "flags", TTable ((λ f, (f_name f, flag_tree f)) <$> CONTRACT_flags))].
Definition tree_get (t : Tree) (key : str) : option Tree :=
  match t with
  | TTable entries => snd <$> find (λ e, str_eqb (fst e) key) entries
  | _ => None
  end.
(** A value as TOML writes it. *)
Definition tree_display (t : Tree) : str :=
  match t with
  | TText s => [34] ++ s ++ [34]
  | TInteger n => display_uint n
  | TBool b => if b then lit "true" else lit "false"
  | _ => []
  end.

(** The documented behaviour of the [toml] crate on this document: the text parses to it, tables
    are looked up by key and iterated in an order of the crate's, and scalars are displayed as
    TOML writes them (the texts here need no escape). *)
Class TomlLaws `{Toml} := {
  of_tree : Tree → Toml_value;
  parse_contract : toml_parse = Ok (of_tree CONTRACT);
  get_of_tree t key : toml_get (of_tree t) key = of_tree <$> tree_get t key;
  table_of_tree t : match t with
    | TTable entries => ∃ l, l ≡ₚ entries ∧ as_table (of_tree t) = Some (prod_map id of_tree <$> l)
    | _ => as_table (of_tree t) = None
    end;
  str_of_tree t : as_str (of_tree t) = match t with TText s => Some s | _ => None end;
  display_of_tree t : match t with
    | TText _ | TInteger _ | TBool _ => toml_display (of_tree t) = tree_display t
    | _ => True
    end;
}.

(** ** Specification of the help text *)

(** The line of a flag: option names, an argument unless it is boolean, the description and the
    default. *)
Definition flag_option (f : Flag) : str :=
  (match f_short f with Some short => lit "-" ++ short ++ lit ", " | None => [] end) ++
  lit "--" ++ f_long f ++
  match f_type f with Boolean => [] | _ => lit " <VALUE>" end.
Definition default_suffix (d : Default) : str :=
  match default_tree d with
  | Some t => lit " [default: " ++ tree_display t ++ lit "]"
  | None => []
  end.
Definition flag_line (f : Flag) : str :=
  lit "  " ++ pad 28 (flag_option f) ++ lit " " ++ f_help f ++ default_suffix (f_default f) ++ [10].
Definition usage : str := lit "Usage: eal-api-server [OPTIONS]" ++ [10; 10] ++ lit "Options:" ++ [10].

(** ** Lemmas *)

Section help.
Context `{TomlLaws}.

Lemma flag_gets f :
  tree_get (flag_tree f) (lit "long") = Some (TText (f_long f)) ∧
  tree_get (flag_tree f) (lit "short") = TText <$> f_short f ∧
  tree_get (flag_tree f) (lit "type") = Some (TText (type_text (f_type f))) ∧
  tree_get (flag_tree f) (lit "help") = Some (TText (f_help f)) ∧
  tree_get (flag_tree f) (lit "default") = default_tree (f_default f).
Proof. by destruct f as [? ? ? [?|] ? [] ?]. Qed.
Lemma get_text t key s : tree_get t key = Some (TText s) → toml_get (of_tree t) key ≫= as_str = Some s.
Proof. intros E. rewrite get_of_tree, E. cbn. by rewrite str_of_tree. Qed.
Lemma default_from f :
  from_option (λ v, lit " [default: " ++ toml_display v ++ lit "]") []
    (toml_get (of_tree (flag_tree f)) (lit "default")) = default_suffix (f_default f).
Proof.
  destruct (flag_gets f) as (_ & _ & _ & _ & E). rewrite get_of_tree, E. unfold default_suffix.
  destruct (f_default f) as [|b|n|s]; cbn [default_tree fmap option_fmap option_map from_option]; [done|..].
  - by rewrite (display_of_tree (TBool b)).
  - by rewrite (display_of_tree (TInteger n)).
  - by rewrite (display_of_tree (TText s)).
Qed.
Lemma help_line_flag f : help_line (of_tree (flag_tree f)) = Some (flag_line f).
Proof.
  destruct (flag_gets f) as (El & Es & Et & Eh & _). unfold help_line.
  pose proof (table_of_tree (flag_tree f)) as (l & _ & ->). cbn [is_none negb is_some].
  rewrite (get_text _ _ _ El), (get_text _ _ _ Et), (get_text _ _ _ Eh), default_from.
  assert (toml_get (of_tree (flag_tree f)) (lit "short") ≫= as_str = f_short f) as ->.
  { rewrite get_of_tree, Es. destruct (f_short f); cbn; [by rewrite str_of_tree|done]. }
  unfold flag_line, flag_option. cbn [default]. do 4 f_equal.
  destruct (f_type f), (f_short f); cbn; by rewrite ?app_nil_r, <-?app_assoc.
Qed.
Lemma help_lines (flags : list Flag) :
  omap (λ e : str * Toml_value, help_line (snd e))
    ((λ f, (f_name f, of_tree (flag_tree f))) <$> flags) = flag_line <$> flags.
Proof.
  induction flags as [|f flags IH]; [done|]. cbn [fmap list_fmap omap list_omap snd].
  rewrite help_line_flag. by f_equal.
Qed.
Lemma help_table_flags :
  ∃ flags, flags ≡ₚ CONTRACT_flags ∧ help_table = Ok (usage ++ concat (flag_line <$> flags)).
Proof.
  unfold help_table. rewrite parse_contract. cbn [map_err mbind result_bind].
  rewrite get_of_tree.
  change (tree_get CONTRACT (lit "flags")) with
    (Some (TTable ((λ f, (f_name f, flag_tree f)) <$> CONTRACT_flags))).
  cbn [fmap option_fmap option_map mbind option_bind].
  destruct (table_of_tree (TTable ((λ f, (f_name f, flag_tree f)) <$> CONTRACT_flags))) as (l & Hl & ->).
  destruct (Permutation_map_inv (λ f, (f_name f, flag_tree f)) CONTRACT_flags Hl) as (flags & -> & Hp). exists flags.
  split; [by symmetry|]. cbn [ok_or mbind result_bind]. f_equal.
  assert (prod_map id of_tree <$> map (λ f, (f_name f, flag_tree f)) flags =
    (λ f, (f_name f, of_tree (flag_tree f))) <$> flags) as ->
    by (clear Hl Hp; induction flags as [|f flags IH]; [done|cbn; by f_equal]).
  by rewrite help_lines.
Qed.
End help.

(** ** What [run] reads *)

Section reads.
Context `{SharedAuth} `{Http} `{UuidText} `{Rustls} `{NextLoggers}.
Context (env env' : str → option str) (Henv : ∀ name, name ∈ declared → env name = env' name).

Lemma declared_reads name : bool_decide (name ∈ declared) = true → env name = env' name.
Proof. intros Hn%bool_decide_eq_true. by apply Henv. Qed.
Lemma optional_reads name :
  bool_decide (name ∈ declared) = true → optional_env env name = optional_env env' name.
Proof. intros Hn. unfold optional_env. by rewrite (declared_reads name Hn). Qed.
Lemma required_reads name :
  bool_decide (name ∈ declared) = true → required_env env name = required_env env' name.
Proof. intros Hn. unfold required_env. by rewrite (declared_reads name Hn). Qed.

Lemma from_env_reads : from_env env = from_env env'.
Proof. unfold from_env. by rewrite !required_reads by (vm_compute; reflexivity). Qed.
Lemma mtls_reads : mtls_from_env env = mtls_from_env env'.
Proof.
  assert (optional_env env <$> mtls_variables = optional_env env' <$> mtls_variables) as E.
  { unfold mtls_variables. cbn [fmap list_fmap].
    by rewrite !optional_reads by (vm_compute; reflexivity). }
  unfold mtls_from_env. by rewrite E.
Qed.
Lemma jetstream_reads store tenant :
  spawn_jetstream_from_env env store tenant = spawn_jetstream_from_env env' store tenant.
Proof.
  unfold spawn_jetstream_from_env, required_setting.
  by rewrite !optional_reads by (vm_compute; reflexivity).
Qed.
Lemma database_reads connect : connect_database env connect = connect_database env' connect.
Proof. unfold connect_database. by rewrite declared_reads by (vm_compute; reflexivity). Qed.
Lemma init_reads filter first service : init env filter first service = init env' filter first service.
Proof. unfold init. by rewrite declared_reads by (vm_compute; reflexivity). Qed.
Lemma and_then_ext {A B} (x : traced A) (f g : A → traced B) :
  (∀ a, f a = g a) → and_then x f = and_then x g.
Proof. intros E. unfold and_then. destruct (snd x); [by rewrite E|done]. Qed.
Lemma boot_reads w : boot_traced env w = boot_traced env' w.
Proof.
  unfold boot_traced, connect_traced, mtls_traced, spawn_mtls_from_env.
  rewrite from_env_reads, mtls_reads, database_reads, !declared_reads by (vm_compute; reflexivity).
  do 3 (apply and_then_ext; intros ?). unfold jetstream_traced. rewrite jetstream_reads.
  done.
Qed.
Lemma run_reads w : run env w = run env' w.
Proof.
  unfold run, spawn_mtls_from_env. rewrite init_reads, from_env_reads, mtls_reads, database_reads.
  destruct (is_none _); [done|]. destruct (from_env env') as [auth|e]; [|done].
  cbn [map_err mbind result_bind]. destruct (connect_database _ _) as [db|e]; [|done].
  cbn [mbind result_bind]. rewrite jetstream_reads.
  by rewrite !declared_reads by (vm_compute; reflexivity).
Qed.
End reads.

(** ** Properties *)

(** C29: the contract declares all that is read.  The start of the server, what it does to the
    outside and how it ends depend on no variable but the flags of the contract and the four
    it keeps out of the command line; those four, the secrets and their files, belong to no
    flag, and every variable and every option is declared once. *)
Theorem run_reads_the_contract `{SharedAuth, Http, UuidText, Rustls, NextLoggers} :
  (∀ env env' w serves, (∀ name, name ∈ declared → env name = env' name) →
     run env w = run env' w ∧ run_traced env w serves = run_traced env' w serves) ∧
  NoDup declared ∧ NoDup (f_long <$> CONTRACT_flags) ∧ NoDup (omap f_short CONTRACT_flags).
Proof.
  split; [|split_and!].
  - intros env env' w serves Henv. split; [by apply run_reads|]. unfold run_traced.
    by rewrite (init_reads env env' Henv), (boot_reads env env' Henv).
  - apply (bool_decide_unpack _). by vm_compute.
  - apply (bool_decide_unpack _). by vm_compute.
  - apply (bool_decide_unpack _). by vm_compute.
Qed.

(** The help text is the contract: a usage line and then, in some order, exactly one line
    for each of the fifteen flags, with its short and long option, its argument unless it is a
    switch, its description and its default if it has one. *)
Theorem help_is_the_contract `{TomlLaws} :
  ∃ flags, flags ≡ₚ CONTRACT_flags ∧ help_table = Ok (usage ++ concat (flag_line <$> flags)).
Proof. apply help_table_flags. Qed.

(** ** Examples *)

Module SampleToml.
Definition as_text (t : Tree) : option str := match t with TText s => Some s | _ => None end.
Module Instances.
#[export] Instance toml : Toml := {|
  Toml_value := Tree; toml_parse := Ok CONTRACT; toml_get := tree_get;
  as_table t := match t with TTable l => Some (reverse l) | _ => None end;
  as_array t := match t with TArray l => Some l | _ => None end;
  as_str := as_text; toml_display := tree_display;
|}.
#[export] Instance toml_laws : TomlLaws.
Proof.
  refine {| of_tree := (id : Tree → Toml_value) |}; try done.
  - intros t key. cbn. by destruct (tree_get t key).
  - intros [| | | |entries]; try done. exists (reverse entries). split; [apply reverse_Permutation|].
    cbn. f_equal. rewrite <-(list_fmap_id (reverse entries)) at 1. apply list_fmap_ext.
    intros i e _. by destruct e.
  - by intros [].
Defined.
End Instances.
End SampleToml.
Import CanonicalInstances Sample.Instances SampleTcp.Instances SampleTelemetry.Instances.

Lemma run_reads_the_contract_witness :
  run sample_env sample_world = run (λ name, if str_eqb name (lit "HTTP_PROXY") then Some [] else sample_env name)
    sample_world.
Proof.
  apply (proj1 run_reads_the_contract sample_env
    (λ name, if str_eqb name (lit "HTTP_PROXY") then Some [] else sample_env name) sample_world true).
  intros name Hname. rewrite (proj2 (str_eqb_neq _ _)); [done|]. intros ->.
  assert (bool_decide (lit "HTTP_PROXY" ∈ declared) = false) as Hno by (by vm_compute).
  by apply bool_decide_eq_false in Hno.
Defined.

Import SampleToml.Instances.
Lemma help_is_the_contract_witness :
  (∃ flags, flags ≡ₚ CONTRACT_flags ∧ help_table = Ok (usage ++ concat (flag_line <$> flags))) ∧
  flag_line <$> CONTRACT_flags !! 3%nat = Some
    (lit "  -p, --port <VALUE>           API listener port. [default: 8080]" ++ [10]).
Proof. split; [apply help_is_the_contract|by vm_compute]. Defined.
