(* ===== verification/Conformance.v ===== *)
(** * The repository's tests on the model

    The unit tests of [src/] and the contract tests of [tests/four_mode_contract.rs] as
    functions of what they leave open: the library they run against and the identifiers they
    draw.  The theorems show that the model passes them, whatever these are.  Not here: the
    test of the data-plane capabilities, which only exercises another crate. *)

From S2P Require Import Prelude Str Float Ids Model Auth Database Store Repository Envelope.
From S2P Require Import Commands Outbox Jetstream Tcp Api Wire Flags Telemetry Server Program.
From S2P Require Import Contract.
Open Scope N_scope.

(** ** Texts *)

(** [haystack.contains(needle)]. *)
Fixpoint contains (haystack needle : str) : bool :=
  starts_with haystack needle ||
  match haystack with [] => false | _ :: rest => contains rest needle end.
Definition to_ascii_uppercase (s : str) : str :=
  (λ c, if is_ascii_lowercase c then c - 32 else c) <$> s.
Definition auth_error_message (e : AuthError) : str :=
  match e with
  | Unauthorized => lit "unauthorized"
  | Degraded => lit "identity authority unavailable"
  | Configuration => lit "identity configuration invalid"
  end.

(** ** [src/auth.rs] and the introspection contract *)

Definition test_policy : AuthPolicy := {|
  issuer := lit "https://auth.oresoftware.dev/customer"; audience := lit "embedded-alerts-api";
  authorized_client := lit "embedded-alerts-web";
  p_provider_tenant := lit "embedded-alerts-provider"; p_product_tenant := lit "embedded-alerts";
|}.

Section auth_tests.
Context `{SharedAuth} `{Http} `{UuidText}.

(** The introspection answer of the tests, up to its expiry and tenant. *)
Record test_claims (claims : Introspection) (expiry : N) (tenant : str) : Prop := {
  tc_active : active claims = true;
  tc_sub : sub claims = Some (lit "00000000-0000-4000-8000-000000000001");
  tc_sid : sid claims = Some (lit "00000000-0000-4000-8000-000000000002");
  tc_iss : iss claims = Some (issuer test_policy);
  tc_aud : aud claims = Some (audience test_policy);
  tc_azp : azp claims = Some (authorized_client test_policy);
  tc_scope s : has_scope claims s = str_eqb s READ_SCOPE;
  tc_nbf : nbf claims = Some 1;
  tc_exp : exp claims = Some expiry;
  tc_provider : provider_tenant claims = Some (p_provider_tenant test_policy);
  tc_tenant : rest_get claims (lit "tenant_id") = Some (VString tenant);
  tc_application : rest_get claims (lit "application_id") = Some (VString (lit "embedded-alerts-web"));
  tc_kind : rest_get claims (lit "actor_kind") = Some (VString (lit "user"));
}.

(** [one] holds the first value, [two] both. *)
Definition repeated_or_malformed_bearers_are_rejected (one two : HeaderMap) : bool :=
  bool_decide (bearer_from_headers one = Ok (lit "valid-token-value"))
  && is_err (bearer_from_headers two).
Definition configuration_and_auth_errors_never_include_credentials : bool :=
  str_eqb (auth_error_message Unauthorized) (lit "unauthorized")
  && str_eqb (auth_error_message Degraded) (lit "identity authority unavailable").
(** The authority behind [client] answers the request the test expects, and no other. *)
Definition answers_official_client (client : SharedAuthClient) (claims : Introspection) : Prop :=
  ∀ token audience scopes,
    introspect_with_requirements client token audience scopes =
    if str_eqb token (lit "end-user-access-token") && str_eqb audience (lit "embedded-alerts-api")
       && bool_decide (scopes = [READ_SCOPE])
    then Ok claims else Err ClientUnauthorized.
Definition official_client_separates_service_credential_and_user_payload
    (client : SharedAuthClient) (now : Z) : bool :=
  is_ok (verify_token (mk_boundary client test_policy) (lit "end-user-access-token") READ_SCOPE now).
Definition strict_introspection_binds_product_authorization (claims wrong_tenant : Introspection)
    : bool :=
  match authorize_introspection claims test_policy (lit "embedded-alerts:alerts:read") 2000000000 with
  | Ok actor => str_eqb (product_tenant actor) (lit "embedded-alerts")
  | Err _ => false
  end
  && is_err (authorize_introspection wrong_tenant test_policy (lit "embedded-alerts:alerts:read")
               2000000000).
End auth_tests.

(** ** [src/model.rs] and [src/store.rs] *)

(** [0.8] and [0.7] as binary32. *)
Definition test_input : CreateAlertRule := {|
  ca_name := lit "New source"; ca_query_text := lit "rust security releases";
  ca_embedding_model := lit "text-embedding-3-small";
  ca_similarity_threshold := S754_finite false 13421773 (-24);
  ca_source_filters := [lit "docs"]; ca_delivery_channels := [lit "email"]; ca_enabled := true;
|}.
Definition with_query_text (c : CreateAlertRule) (query : str) : CreateAlertRule :=
  mk_create (ca_name c) query (ca_embedding_model c) (ca_similarity_threshold c)
    (ca_source_filters c) (ca_delivery_channels c) (ca_enabled c).
Definition alert_input_is_bounded_before_storage : bool :=
  is_ok (validate test_input)
  && is_err (validate (with_query_text test_input (replicate (N.to_nat (MAX_QUERY_BYTES + 1)) 120))).

Definition fallback_input : CreateAlertRule := {|
  ca_name := lit "Release monitor"; ca_query_text := lit "new Rust releases";
  ca_embedding_model := lit "small"; ca_similarity_threshold := S754_finite false 11744051 (-24);
  ca_source_filters := [lit "docs"]; ca_delivery_channels := [lit "email"]; ca_enabled := true;
|}.
Definition fallback_storage_is_scoped_by_tenant_and_subject `{Postgres, Serde, HashMapIter}
    (subject other_subject fresh : Uuid) (now : DateTime) : bool :=
  let store := new None in
  let actor := mk_actor subject (lit "embedded-alerts") in
  let '(created, store) := create LinkUp now fresh store actor fallback_input in
  let other := mk_actor other_subject (product_tenant actor) in
  is_ok created
  && is_some_and (λ l, (length l =? 1)%nat) (ok (list_alerts LinkUp store actor))
  && is_some_and (λ l, (length l =? 0)%nat) (ok (list_alerts LinkUp store other)).

(** ** [src/lib.rs] and [src/transport.rs] *)

Definition errors_are_flat_and_non_probing : bool :=
  str_eqb (api_error_message ApiUnauthorized) (lit "unauthorized")
  && str_eqb (api_error_message ApiUnavailable) (lit "service unavailable")
  && (MAX_JSON_BODY_BYTES =? 32 * 1024).
Definition m_tls_configuration_is_absent_or_complete : bool := (length mtls_variables =? 4)%nat.
Definition remote_plaintext_nats_is_rejected : bool :=
  is_ok (validate_nats_url (lit "tls://nats.example.test:4222"))
  && is_ok (validate_nats_url (lit "nats://localhost:4222"))
  && is_err (validate_nats_url (lit "nats://nats.example.test:4222")).

(** The test passes when nothing panics; here the record is delivered too. *)
Definition ores_logger_accepts_only_bounded_lifecycle_fields `{NextLoggers} : bool :=
  is_some (lifecycle (application_logger (lit "eal-api-server-test")) (lit "startup") (lit "ready")).

(** ** [src/flags.rs] *)

Section flags_tests.
Context `{Flags2Env} `{Toml}.
Definition unknown_options_fail_closed_without_echoing_values : bool :=
  match resolve_from [lit "server"; lit "--definitely-unknown=do-not-echo"] ∅ with
  | Ok _ => false
  | Err error => contains error (lit "--definitely-unknown") && negb (contains error (lit "do-not-echo"))
  end.
(** [flag]: the one the test finds in the contract; [map.get(&env)] of the result. *)
Definition command_line_value (flag : Flag) : str :=
  match f_type flag with Integer => lit "31337" | _ => lit "from-cli" end.
Definition command_line_overrides_environment_with_a_typed_value (flag : Flag) : bool :=
  let option := lit "--" ++ f_long flag ++ lit "=" ++ command_line_value flag in
  match resolve_from [lit "server"; option] {[f_env flag := lit "from-env"]} with
  | Ok resolved => bool_decide ((resolved : Env) !! f_env flag = Some (command_line_value flag))
  | Err _ => false
  end.
Definition help_is_derived_from_the_audited_contract : bool :=
  match help_table with
  | Ok help => contains help (lit "--help") && contains help (lit "Options:")
  | Err _ => false
  end.
End flags_tests.

(** ** [tests/four_mode_contract.rs] *)

(** The text of [DIRECT_ALERTS_SQL], which [Database.DIRECT_ALERTS_SQL] gives its meaning. *)
Definition DIRECT_ALERTS_SQL_text : str := join [10]
  [lit "SELECT id,"; lit "    created_at,"; lit "    updated_at,"; lit "    name,";
   lit "    query_text,"; lit "    embedding_model,"; lit "    similarity_threshold,";
   lit "    source_filters,"; lit "    delivery_channels,"; lit "    enabled";
   lit "FROM eal_alert_rules"; lit "WHERE product_tenant = $1 AND owner_subject = $2";
   lit "ORDER BY updated_at DESC, id"; lit "LIMIT 100"].
Definition direct_database_contract_is_literal_select_only : bool :=
  let sql := to_ascii_uppercase (trim DIRECT_ALERTS_SQL_text) in
  starts_with sql (lit "SELECT ")
  && contains DIRECT_ALERTS_SQL_text (lit "product_tenant = $1")
  && contains DIRECT_ALERTS_SQL_text (lit "owner_subject = $2")
  && contains DIRECT_ALERTS_SQL_text (lit "LIMIT 100")
  && forallb (λ forbidden, negb (contains sql forbidden))
       [lit "INSERT "; lit "UPDATE "; lit "DELETE "; lit "ALTER "; lit "DROP "; lit ";"].

Definition test_key : list N := lit "test-only-command-key-at-least-32-bytes".
Section command_tests.
Context `{UuidText} `{JsonScalars}.
Definition test_command (event correlation : Uuid) (actor : str) : AsyncCommand :=
  mk_command event correlation (lit "list-alerts:" ++ uuid_display correlation)
    (lit "embedded-alerts")
    (mk_operation 1 correlation (lit "list_alerts") actor (lit "embedded-alerts")
       (2000000000000 + MAX_OPERATION_DEADLINE_MS)) [].
(** The texts of a tree. *)
Fixpoint texts (v : Value) : list str :=
  match v with
  | VString s => [s]
  | VArray l => flat_map texts l
  | VObject m => flat_map (λ e, fst e :: texts (snd e)) m
  | _ => []
  end.
(** The test measures and searches the JSON text; here it is the tree the text is made of. *)
Definition async_commands_are_bounded_signed_and_bearer_free `{Crypto}
    (event correlation other : Uuid) : bool :=
  let command := test_command event correlation (lit "00000000-0000-4000-8000-000000000001") in
  match sign_command command test_key with
  | Err _ => false
  | Ok signature =>
      let changed := test_command event correlation (uuid_display other) in
      let command := with_signature command signature in
      verify_command_signature command test_key
      && (N.of_nat (string_chars (encode_command command)) <? MAX_FRAME_BYTES)
      && forallb (λ t, negb (contains t (lit "Bearer ")) && negb (contains t (lit "access_token")))
           (texts (encode_command command))
      && negb (verify_command_signature (with_signature changed signature) test_key)
  end.
End command_tests.

(** ** Lemmas *)

Lemma starts_with_char s p c : c ∈ p → c ∉ s → starts_with s p = false.
Proof.
  intros Hp Hs. apply not_true_iff_false. rewrite starts_with_true_iff. intros [rest ->].
  apply Hs, elem_of_app. by left.
Qed.
(** A text that lacks a character of the needle does not contain it. *)
Lemma contains_char_absent s p c : c ∈ p → c ∉ s → contains s p = false.
Proof.
  intros Hp. induction s as [|d s IH]; intros Hs; cbn [contains]; rewrite (starts_with_char _ _ c) by done.
  - done.
  - apply IH. intros Hin. apply Hs. by right.
Qed.
Lemma contains_app_r s t p : contains t p = true → contains (s ++ t) p = true.
Proof.
  intros Ht. induction s as [|c s IH]; [done|]. cbn [app contains]. by rewrite IH, orb_true_r.
Qed.
Lemma contains_app_l s t p : contains s p = true → contains (s ++ t) p = true.
Proof.
  induction s as [|c s IH]; cbn [contains app]; rewrite ?orb_false_r, ?orb_true_iff.
  - intros Hp. apply starts_with_true_iff in Hp as [rest E]. symmetry in E.
    apply app_nil in E as [-> ->]. by destruct t.
  - rewrite !starts_with_true_iff. intros [[rest E]|Hs]; [left|right; by apply IH].
    exists (rest ++ t). change (c :: s ++ t) with ((c :: s) ++ t). by rewrite E, app_assoc.
Qed.

Section auth_lemmas.
Context `{SharedAuth} `{Http} `{UuidText}.
Lemma test_claims_authorized claims expiry u now :
  test_claims claims expiry (lit "embedded-alerts") → 1 <= now < expiry →
  uuid_parse (lit "00000000-0000-4000-8000-000000000001") = Some u →
  authorize_introspection claims test_policy READ_SCOPE now = Ok (mk_actor u (lit "embedded-alerts")).
Proof.
  intros [] [Hnow Hexp] Hu. apply authorize_Ok_iff. split; [|done].
  assert (∀ s, bounded_identifier s = true → identifier_ok s) as Hid by (intros s; apply bounded_identifier_iff).
  split; eauto; try (apply Hid; by vm_compute).
Qed.
Lemma test_claims_other_tenant claims expiry now :
  test_claims claims expiry (lit "other") →
  is_err (authorize_introspection claims test_policy READ_SCOPE now) = true.
Proof.
  intros Hc. destruct (authorize_introspection claims test_policy READ_SCOPE now) as [a|e] eqn:E; [|done].
  apply authorize_Ok_iff in E as [[] _]. destruct Hc. rewrite tc_tenant0 in au_tenant. by vm_compute in au_tenant.
Qed.
End auth_lemmas.

Section store_lemmas.
Context `{Postgres} `{Serde} `{HashMapIter}.
Lemma fallback_scoped subject other fresh now :
  subject ≠ other → fallback_storage_is_scoped_by_tenant_and_subject subject other fresh now = true.
Proof.
  intros Hne. unfold fallback_storage_is_scoped_by_tenant_and_subject, create.
  assert (validate fallback_input = Ok tt) as -> by (by vm_compute).
  cbn [database new fallback product_tenant is_ok andb]. set (k := (_, _, _)). set (r := into_rule _ _ _).
  assert (hash_iter (<[k := r]> ∅) = [(k, r)]) as E.
  { apply Permutation_singleton_r. rewrite hash_iter_perm. by rewrite map_to_list_insert, map_to_list_empty by apply lookup_empty. }
  unfold list_alerts. cbn [database fallback ok is_some_and]. rewrite E. unfold k.
  cbn [List.filter fst]. rewrite (proj2 (owned_key_true (mk_actor subject _) _ _ _)) by done.
  destruct (owned_key (mk_actor other _) _) eqn:Ho; [|done].
  by apply owned_key_true in Ho as [_ Ho].
Qed.
End store_lemmas.

Section flags_lemmas.
Lemma contains_concat l x p : x ∈ l → contains x p = true → contains (concat l) p = true.
Proof.
  intros Hin Hx. apply list_elem_of_split in Hin as (l1 & l2 & ->).
  rewrite concat_app. cbn [concat]. by apply contains_app_r, contains_app_l.
Qed.
Lemma help_contains `{TomlLaws} : help_is_derived_from_the_audited_contract = true.
Proof.
  destruct help_table_flags as (flags & Hp & E). unfold help_is_derived_from_the_audited_contract.
  rewrite E. apply andb_true_iff. split.
  - apply contains_app_r. destruct (CONTRACT_flags !! 0%nat) as [f|] eqn:Hf; [|discriminate Hf].
    apply (contains_concat _ (flag_line f)).
    + apply list_elem_of_fmap_2. rewrite Hp. by eapply list_elem_of_lookup_2.
    + injection Hf as <-. by vm_compute.
  - apply contains_app_l. by vm_compute.
Qed.

Context `{Flags2Env}.
(** The parser knows none of the options of the first command line, and the option of the
    second gives its flag its value. *)
Definition rejects_unknown (path : str) : Prop := ∃ parsed,
  parse_structured [lit "server"; lit "--definitely-unknown=do-not-echo"] path = Ok parsed ∧
  unknown_options parsed = [lit "--definitely-unknown=do-not-echo"].
Definition takes_option (path : str) (flag : Flag) : Prop := ∃ parsed,
  parse_structured
    [lit "server"; lit "--" ++ f_long flag ++ lit "=" ++ command_line_value flag] path = Ok parsed ∧
  unknown_options parsed = [] ∧ parse_errors parsed = 0 ∧ extras parsed = [] ∧
  provided_flags parsed !! f_env flag = Some (command_line_value flag).
(** Typing a configuration keeps the text of a variable that is no switch, and is scalar. *)
Definition types_scalars (path : str) : Prop := ∀ m flag text,
  flag ∈ CONTRACT_flags → f_type flag ≠ Boolean → m !! f_env flag = Some text →
  ∃ typed, coerce m path = Ok typed ∧ typed_lookup typed (f_env flag) = Some text ∧
    Forall (λ p, snd p = VNull ∨ is_Some (scalar_text (snd p))) typed.

Lemma unknown_redacted path :
  contract_ready path → rejects_unknown path →
  unknown_options_fail_closed_without_echoing_values = true.
Proof.
  intros Hc (parsed & Hp & Hu). unfold unknown_options_fail_closed_without_echoing_values.
  rewrite (resolve_from_parsed _ _ _ _ Hc Hp), Hu. by vm_compute.
Qed.
Lemma option_overrides path flag :
  contract_ready path → takes_option path flag → types_scalars path →
  flag ∈ CONTRACT_flags → f_type flag ≠ Boolean →
  command_line_overrides_environment_with_a_typed_value flag = true.
Proof.
  intros Hc (parsed & Hp & Hu & He & Hx & Hprov) Hty Hin Hb.
  unfold command_line_overrides_environment_with_a_typed_value.
  rewrite (resolve_from_parsed _ _ _ _ Hc Hp), Hu, He, Hx. cbn [negb bool_decide].
  destruct (Hty (raw_config parsed {[f_env flag := lit "from-env"]}) flag (command_line_value flag)
    Hin Hb) as (typed & Ht & Hl & Hs); [by rewrite raw_config_lookup, Hprov|].
  rewrite Ht. cbn [map_err mbind result_bind].
  destruct (insert_typed_total typed {[f_env flag := lit "from-env"]} Hs) as [m Hm].
  pose proof (insert_typed_Ok _ _ _ Hm (f_env flag)) as Hf. rewrite Hl in Hf.
  rewrite !bool_decide_eq_true_2 by done. cbn [negb N.eqb]. rewrite Hm. by apply bool_decide_eq_true.
Qed.
End flags_lemmas.

Section command_lemmas.
Context `{CryptoLaws}.
(** What the test expects of HMAC-SHA256 and [hex]: tags of 32 bytes as lower-case hex digits. *)
Definition hex_tags : Prop := ∀ mac m, hmac_new test_key = Some mac →
  (length (hex_encode (mac m)) <= 64)%nat ∧ Forall (λ c, c ≠ 66 ∧ c ≠ 95) (hex_encode (mac m)).
Definition bearer_free (t : str) : Prop :=
  contains t (lit "Bearer ") = false ∧ contains t (lit "access_token") = false.
Lemma bearer_free_chars t : Forall (λ c, c ≠ 66 ∧ c ≠ 95) t → bearer_free t.
Proof.
  rewrite Forall_forall. intros Ht. split.
  - apply (contains_char_absent _ _ 66); [by left|]. intros Hc. by destruct (Ht _ Hc).
  - apply (contains_char_absent _ _ 95); [by apply (bool_decide_unpack _); vm_compute|].
    intros Hc. by destruct (Ht _ Hc).
Qed.

#[local] Existing Instance CanonicalInstances.uuid_text.
Context `{JsonScalars}.
Lemma display_plain u : Forall (λ c, c ≠ 66 ∧ c ≠ 95) (uuid_display u).
Proof. apply Canonical.display_Forall; [|done]. intros d Hd. unfold Canonical.nibble_char. destruct (N.ltb_spec d 10); lia. Qed.
Lemma display_length u : length (uuid_display u) = 36%nat.
Proof. reflexivity. Qed.
Definition tag_of (event correlation : Uuid) (actor : str) (mac : list N → list N) : list N :=
  mac (as_bytes (command_signing_bytes (test_command event correlation actor))).
Definition test_actor : str := lit "00000000-0000-4000-8000-000000000001".

Lemma command_texts event correlation sg :
  Forall (λ c, c ≠ 66 ∧ c ≠ 95) sg →
  Forall bearer_free
    (texts (encode_command (with_signature (test_command event correlation test_actor) sg))).
Proof.
  intros Hs. unfold encode_command, test_command, with_signature, encode_operation, encode_uuid, object,
    encode_uint, command_fields, operation_fields.
  cbn [event_id correlation_id dedupe_key cmd_product_tenant cmd_operation signature version operation_id
    operation actor_subject op_product_tenant deadline_unix_ms zip zip_with texts flat_map fst snd app].
  repeat (apply Forall_cons_2; [lazymatch goal with
    | |- bearer_free (uuid_display _) => apply bearer_free_chars, display_plain
    | |- bearer_free (_ ++ uuid_display _) =>
        apply bearer_free_chars, Forall_app_2; [apply (bool_decide_unpack _); by vm_compute|apply display_plain]
    | |- bearer_free sg => by apply bearer_free_chars
    | |- _ => split; by vm_compute
    end|]).
  apply Forall_nil_2.
Qed.
Lemma command_size event correlation sg :
  (length sg <= 64)%nat →
  (string_chars (encode_command (with_signature (test_command event correlation test_actor) sg))
    <= 400)%nat.
Proof.
  intros Hs. unfold encode_command, test_command, with_signature, encode_operation, encode_uuid, object,
    encode_uint, command_fields, operation_fields.
  cbn [event_id correlation_id dedupe_key cmd_product_tenant cmd_operation signature version operation_id
    operation actor_subject op_product_tenant deadline_unix_ms zip zip_with string_chars sum_list_with
    fst snd].
  rewrite length_app, !display_length. cbn [length].
  assert (length (lit "list-alerts:") = 12%nat) as -> by reflexivity.
  assert (length (lit "embedded-alerts") = 15%nat) as -> by reflexivity.
  assert (length test_actor = 36%nat) as -> by reflexivity.
  assert (length (lit "list_alerts") = 11%nat) as -> by reflexivity. lia.
Qed.
Lemma command_passes event correlation other :
  hex_tags →
  (∀ mac, hmac_new test_key = Some mac →
    tag_of event correlation test_actor mac ≠ tag_of event correlation (uuid_display other) mac) →
  async_commands_are_bounded_signed_and_bearer_free event correlation other = true.
Proof.
  intros Htags Hno. unfold async_commands_are_bounded_signed_and_bearer_free, sign_command.
  assert (valid_command_key test_key = true) as Hkey by (by vm_compute). rewrite Hkey. cbn [negb].
  destruct (hmac_any_key test_key) as [mac Hmac]. rewrite Hmac. cbn [ok_or mbind result_bind].
  fold test_actor. set (c := test_command event correlation test_actor).
  destruct (Htags mac (as_bytes (command_signing_bytes c)) Hmac) as [Hlen Hplain].
  set (sig := hex_encode _) in *.
  assert (hex_decode sig = Some (tag_of event correlation test_actor mac)) as Hdec
    by (apply hex_roundtrip; by eapply hmac_bytes).
  rewrite !andb_true_iff. split_and!.
  - apply verify_signature_iff. split; [done|]. exists (tag_of event correlation test_actor mac), mac. done.
  - pose proof (command_size event correlation sig Hlen) as Hsize. fold c in Hsize.
    apply N.ltb_lt. unfold MAX_FRAME_BYTES. lia.
  - pose proof (command_texts event correlation sig Hplain) as Ht.
    apply forallb_forall. intros t Hin. rewrite Forall_forall in Ht.
    destruct (Ht t) as [-> ->]; [by apply list_elem_of_In|done].
  - apply negb_true_iff, not_true_iff_false. rewrite verify_signature_iff.
    intros (_ & tag & mac' & Htag & Hmac' & E). cbn [Envelope.signature with_signature] in Htag.
    rewrite Hdec in Htag. injection Htag as <-. assert (mac' = mac) as -> by congruence.
    by apply (Hno mac Hmac).
Qed.
End command_lemmas.

(** ** Properties *)

(** The model passes the unit tests of the source: bearer extraction, messages, the
    introspection call with its token, audience and scope, the bounds of an alert, the scoping of
    the in-memory store, the NATS URLs, and the configuration tests; for every library that
    behaves as the tests take it to, and all identifiers and clocks they may draw. *)
Theorem unit_tests_pass `{SharedAuth, Http, UuidText, Postgres, Serde, HashMapIter, Flags2Env, TomlLaws, NextLoggersLaws} u :
  uuid_parse (lit "00000000-0000-4000-8000-000000000001") = Some u →
  (∀ one two v w, get_all_authorization one = [v] → get_all_authorization two = [v; w] →
     to_str v = Some (lit "Bearer valid-token-value") →
     repeated_or_malformed_bearers_are_rejected one two = true) ∧
  configuration_and_auth_errors_never_include_credentials = true ∧
  (∀ client claims now, answers_official_client client claims →
     test_claims claims u64_max (lit "embedded-alerts") →
     (1000000000 <= now < 1000000000 * Z.of_N u64_max)%Z →
     official_client_separates_service_credential_and_user_payload client now = true) ∧
  alert_input_is_bounded_before_storage = true ∧
  (∀ subject other fresh now, subject ≠ other →
     fallback_storage_is_scoped_by_tenant_and_subject subject other fresh now = true) ∧
  errors_are_flat_and_non_probing = true ∧ m_tls_configuration_is_absent_or_complete = true ∧
  remote_plaintext_nats_is_rejected = true ∧
  ores_logger_accepts_only_bounded_lifecycle_fields = true ∧
  (∀ path, contract_ready path → rejects_unknown path →
     unknown_options_fail_closed_without_echoing_values = true) ∧
  (∀ path flag, contract_ready path → takes_option path flag → types_scalars path →
     flag ∈ CONTRACT_flags → f_type flag ≠ Boolean →
     command_line_overrides_environment_with_a_typed_value flag = true) ∧
  help_is_derived_from_the_audited_contract = true.
Proof.
  intros Hu. split_and!.
  - intros one two v w Hone Htwo Hv. unfold repeated_or_malformed_bearers_are_rejected.
    apply andb_true_iff. split.
    + apply bool_decide_eq_true, bearer_Ok_iff. exists v. split_and!; [done..|].
      apply strict_credential_iff. by vm_compute.
    + unfold bearer_from_headers. by rewrite Htwo.
  - by vm_compute.
  - intros client claims now Hclient Hclaims Hnow.
    unfold official_client_separates_service_credential_and_user_payload, verify_token.
    assert (negb (strict_credential (lit "end-user-access-token")) || negb (bounded_identifier READ_SCOPE)
      = false) as -> by (by vm_compute).
    cbn [Auth.client policy]. rewrite Hclient, !str_eqb_refl, bool_decide_eq_true_2 by done.
    cbn [andb map_err mbind result_bind].
    unfold unix_seconds. rewrite (proj2 (Z.ltb_ge _ _)) by lia. cbn [mbind result_bind].
    rewrite (test_claims_authorized claims u64_max u); [done|done| |done].
    assert (1 <= now / 1000000000 < Z.of_N u64_max)%Z
      by (split; [apply Z.div_le_lower_bound; lia|apply Z.div_lt_upper_bound; lia]). lia.
  - by vm_compute.
  - intros *. apply fallback_scoped.
  - by vm_compute.
  - by vm_compute.
  - by vm_compute.
  - unfold ores_logger_accepts_only_bounded_lifecycle_fields.
    destruct (lifecycle_delivered (lit "eal-api-server-test") (lit "startup") (lit "ready"))
      as (e & -> & _). done.
  - intros *. apply unknown_redacted.
  - intros *. apply option_overrides.
  - apply help_contains.
Qed.

Section contract_tests.
#[local] Existing Instance CanonicalInstances.uuid_text.

(** The model passes the contract tests of the four modes: an introspection answer binds the
    product tenant and another tenant is refused; the direct statement is one literal select
    over the actor's rows with a limit; a command is signed, within a frame and without
    bearer material, and changing its actor breaks the signature unless the tags collide. *)
Theorem contract_tests_pass `{SharedAuth, Http, CryptoLaws} u :
  uuid_parse (lit "00000000-0000-4000-8000-000000000001") = Some u →
  (∀ claims wrong_tenant, test_claims claims 4000000000 (lit "embedded-alerts") →
     test_claims wrong_tenant 4000000000 (lit "other") →
     strict_introspection_binds_product_authorization claims wrong_tenant = true) ∧
  direct_database_contract_is_literal_select_only = true ∧
  (∀ event correlation other, hex_tags →
     (∀ mac, hmac_new test_key = Some mac →
       tag_of event correlation test_actor mac ≠ tag_of event correlation (uuid_display other) mac) →
     async_commands_are_bounded_signed_and_bearer_free event correlation other = true).
Proof.
  intros Hu. split_and!.
  - intros claims wrong Hc Hw. unfold strict_introspection_binds_product_authorization.
    change (lit "embedded-alerts:alerts:read") with READ_SCOPE.
    rewrite (test_claims_authorized claims 4000000000 u 2000000000 Hc) by (exact Hu || lia).
    by rewrite (test_claims_other_tenant wrong 4000000000).
  - by vm_compute.
  - intros *. apply command_passes.
Qed.
End contract_tests.

(** ** Examples *)

(** Libraries that behave as the tests take them to: an authority that answers one request, and
    a parser that knows the flags of the contract as [--long=value]. *)
Module SampleTests.
Definition claims (tenant : string) (expiry : N) : Sample.claims :=
  Sample.mk_claims true (Some (lit "00000000-0000-4000-8000-000000000001"))
    (Some (lit "00000000-0000-4000-8000-000000000002")) (Some (issuer test_policy))
    (Some (audience test_policy)) (Some (authorized_client test_policy))
    (Some (p_provider_tenant test_policy))
    [(lit "tenant_id", VString (lit tenant));
     (lit "application_id", VString (lit "embedded-alerts-web"));
     (lit "actor_kind", VString (lit "user"))]
    READ_SCOPE (Some expiry) (Some 1).
Definition client : Type := str → str → list str → result ClientError Sample.claims.
Definition official : client := λ token audience scopes,
  if str_eqb token (lit "end-user-access-token") && str_eqb audience (lit "embedded-alerts-api")
     && bool_decide (scopes = [READ_SCOPE])
  then Ok (claims "embedded-alerts" u64_max) else Err ClientUnauthorized.
(** The flag an option belongs to, and its value. *)
Definition option_of (o : str) : option (str * str) :=
  head (omap (λ f, pair (f_env f) <$> strip_prefix (lit "--" ++ f_long f ++ lit "=") o) CONTRACT_flags).
Definition parsed (argv : list str) : ParsedFlags :=
  mk_parsed (List.filter (λ o, is_none (option_of o)) (tail argv)) 0 [] ∅ ∅
    (list_to_map (omap option_of (tail argv))).
Definition typed (m : Env) : list (str * Value) :=
  omap (λ f, (λ v, (f_env f, VString v)) <$> m !! f_env f) CONTRACT_flags.
Module Instances.
#[export] Instance shared_auth : SharedAuth := {|
  Introspection := Sample.claims;
  active := Sample.c_active; sub := Sample.c_sub; sid := Sample.c_sid; iss := Sample.c_iss;
  aud := Sample.c_aud; azp := Sample.c_azp; provider_tenant := Sample.c_provider;
  rest_get c k := Sample.assoc (Sample.c_rest c) k;
  has_scope c s := str_eqb s (Sample.c_scope c); exp := Sample.c_exp; nbf := Sample.c_nbf;
  SharedAuthClient := client; try_new _ := Some official;
  with_service_credential c _ := c; with_max_response_bytes c _ := c;
  introspect_with_requirements c := c;
|}.
#[export] Instance flags2env : Flags2Env := {|
  temp_create := Ok tt; temp_write := Ok tt; temp_path := Some (lit "/tmp/contract");
  audit_config _ := Ok tt; parse_structured argv _ := Ok (parsed argv); coerce m _ := Ok (typed m);
|}.
End Instances.
Import Instances.
Lemma typed_lookup_all (m : Env) (l : list Flag) name text :
  NoDup (f_env <$> l) → name ∈ f_env <$> l → m !! name = Some text →
  typed_lookup (omap (λ f, (λ v, (f_env f, VString v)) <$> m !! f_env f) l) name = Some text.
Proof.
  intros Hnd Hin Hm. induction l as [|f l IH]; [by apply elem_of_nil in Hin|].
  apply NoDup_cons in Hnd as [Hf Hnd]. cbn [fmap list_fmap] in Hin. apply elem_of_cons in Hin as [->|Hin].
  - assert (∀ k : list Flag, f_env f ∉ f_env <$> k →
      typed_lookup (omap (λ f, (λ v, (f_env f, VString v)) <$> m !! f_env f) k) (f_env f) = None) as Hno.
    { induction k as [|g k IHk]; [done|]. intros [Hg Hk]%not_elem_of_cons. cbn.
      destruct (m !! f_env g); cbn; rewrite IHk by done; [|done].
      by rewrite (proj2 (str_eqb_neq _ _)) by congruence. }
    cbn. rewrite Hm. cbn. rewrite (Hno l Hf). by rewrite str_eqb_refl.
  - cbn. destruct (m !! f_env f); cbn; by rewrite IH.
Qed.
Lemma parser_types path : types_scalars path.
Proof.
  intros m flag text Hin _ Hm. exists (typed m). split; [done|]. split.
  - apply typed_lookup_all; [apply (bool_decide_unpack _); by vm_compute| |done].
    by apply list_elem_of_fmap_2.
  - apply Forall_forall. intros [n v] (f & _ & Hf)%list_elem_of_omap.
    apply fmap_Some in Hf as (t & _ & [= -> ->]). right. by eexists.
Qed.
End SampleTests.
Import CanonicalInstances Sample.Instances SampleStorage.Instances SampleToml.Instances
  SampleTelemetry.Instances SampleTests.Instances.

Lemma unit_tests_pass_witness :
  official_client_separates_service_credential_and_user_payload SampleTests.official Sample.now = true ∧
  unknown_options_fail_closed_without_echoing_values = true ∧
  Forall (λ f, f_type f = Boolean ∨ command_line_overrides_environment_with_a_typed_value f = true)
    CONTRACT_flags.
Proof.
  assert (uuid_parse (lit "00000000-0000-4000-8000-000000000001") = Some (subject Sample.actor)) as Hu
    by (by vm_compute).
  assert (contract_ready (lit "/tmp/contract")) as Hready by (by split_and!).
  destruct (unit_tests_pass (subject Sample.actor) Hu)
    as (_ & _ & Hofficial & _ & _ & _ & _ & _ & _ & Hunknown & Hover & _).
  split; [|split].
  - apply (Hofficial SampleTests.official (SampleTests.claims "embedded-alerts" u64_max)).
    + by intros token audience scopes.
    + by split.
    + split; vm_compute; [discriminate|reflexivity].
  - apply (Hunknown (lit "/tmp/contract") Hready). eexists. by split.
  - apply Forall_forall. intros f Hf. destruct (f_type f) eqn:Ht; [by left|right..];
      (apply (Hover (lit "/tmp/contract") f Hready); [|apply SampleTests.parser_types|done|by rewrite Ht]);
      unfold takes_option; (eexists; split; [reflexivity|]); revert Ht; clear -Hf;
      (repeat (apply elem_of_cons in Hf as [->|Hf]; [try (by intros [=]); intros _; by split_and!|]));
      by apply elem_of_nil in Hf.
Defined.

Import SampleCommand.Instances Tagged.Instances.
Lemma sample_hex_tags : hex_tags.
Proof.
  intros mac m [= <-]. cbn [hex_encode SampleCommand.Instances.crypto]. unfold SampleCommand.checksum.
  set (h := foldr _ _ _). clearbody h. cbn [fmap list_fmap]. unfold SampleCommand.hex. cbn [mbind list_bind app].
  split; [cbn; lia|].
  assert (∀ d, d < 16 → Canonical.nibble_char d ≠ 66 ∧ Canonical.nibble_char d ≠ 95) as Hn
    by (intros d Hd; unfold Canonical.nibble_char; destruct (N.ltb_spec d 10); lia).
  repeat (apply Forall_cons_2; [apply Hn;
    first [by apply N.mod_lt | apply N.Div0.div_lt_upper_bound; by apply N.mod_lt]|]).
  apply Forall_nil_2.
Qed.
Lemma contract_tests_pass_witness :
  strict_introspection_binds_product_authorization
    (SampleTests.claims "embedded-alerts" 4000000000) (SampleTests.claims "other" 4000000000) = true ∧
  async_commands_are_bounded_signed_and_bearer_free (uuid_of 6) (uuid_of 5) (uuid_of 2) = true.
Proof.
  assert (uuid_parse (lit "00000000-0000-4000-8000-000000000001") = Some (subject Sample.actor)) as Hu
    by (by vm_compute).
  destruct (contract_tests_pass (subject Sample.actor) Hu) as (Hauth & _ & Hcommand). split.
  - apply Hauth; by split.
  - apply Hcommand; [apply sample_hex_tags|]. intros mac [= <-]. vm_compute. discriminate.
Defined.
